(* ===== verification/_CoqProject ===== *)
-Q . S2P
Prelude.v
Text.v
Crypto.v
Framing.v
HubFrame.v
StreamWire.v
Fragment.v
Channel.v
ChannelNet.v
Board.v
Drop.v
WireTests.v
EndpointTests.v
Transport.v
UnixTransport.v
Control.v
ControlSend.v
Band.v
BandNet.v
Lifecycle.v
Discovery.v
PacketTests.v
BandTests.v
Producer.v
Programs.v
Registry.v
RegistryTests.v
Oblivious.v
HubNet.v
Federation.v
Sessions.v
Serve.v
SpatialWire.v
SpatialCrypto.v
Psk.v
SpatialConn.v
SpatialFfi.v
Config.v
HubMain.v
Tls.v
HubTests.v
