(* ===== verification/Prelude.v ===== *)
(** * Telesthete

    A verification library for the Rust programs of the repository: the
    [telesthete] protocol library (rust/telesthete), the [telesthitium] hub that
    relays its packets without being able to read them (rust/telesthitium), and the
    spatial session crate (src/). Paths below are under src/.

    ** The programs and the files

    A Band is a set of nodes that share a key. Each node seals its packets with an
    AEAD under a 27-byte cleartext header and sends them to its peers directly or
    through a hub.

    - [Prelude]: bytes, machine integers ([Z] with ranges and [wrap]), byte
      encodings, slices, [result], the [outcome] of code that can panic, tactics,
      hint and rewrite databases. [Text]: what the programs use of [str]: trimming,
      splitting, searching, numbers and socket addresses, as the standard library
      parses them.
    - [Crypto], [Framing]: rust/telesthete/src/crypto.rs and framing.rs: suites,
      key derivation, cipher choice, packets and route ids. The primitives are the
      class [Crates], their documented laws [CratesSpec], and [AeadTotal] and
      [AesTotal] that sealing a message of less than 4 GiB does not fail, with a sample
      instance.
    - [StreamWire], [Fragment]: wire/stream.rs, wire/dmabuf.rs, wire/fragment.rs:
      the Stream header, the dmabuf descriptor, fragmentation and the bounded
      reassembler.
    - [Channel], [ChannelNet]: channel.rs: the reliable channel's state machine, its
      task and its demultiplexer; two endpoints over a network that loses,
      repeats, delays and reorders.
    - [Board]: board.rs, a replicated last-writer-wins map. [Drop]:
      drop_channel.rs, chunked file transfer.
    - [Transport]: transport.rs and stream.rs, keys, sequence numbers, the receive
      loop and the Stream demultiplexer. [UnixTransport]: unix_transport.rs, the
      AF_UNIX transports and the descriptors they carry.
    - [Control]: control.rs and band.rs: handshake, session epochs, peers and
      keepalives. [ControlSend]: the typed senders of control.rs.
    - [Band]: the whole running [Band] of band.rs: its receive loop, the queues and
      demultiplexers of the hubs, the tasks of connections, boards and drops with
      their rebase announcements, and every call of its interface. A panic of a shared
      task or of a call is the [Panic] of the run; one of a Board, Drop or keepalive
      task is its state [Panicked] and stops that task alone. [BandNet]: two
      Bands and what passes between their applications. [Lifecycle]: the owners of
      the tasks and of the socket, and what dropping a Band, its control channel and
      its endpoints stops.
    - [Producer]: rust/telesthete-c/src/lib.rs, the C producer of video frames.
      [Discovery]: discovery.rs, LAN announcements and the service that sends and
      collects them. [Programs]: the example programs, rust/examples/consumer-rs and
      rust/telesthete/examples/interop_peer.rs.
    - [HubFrame], [Registry], [Sessions], [Federation]: the hub's frame.rs,
      registry.rs and udp.rs, ws.rs, wt.rs and unix.rs, federation.rs: admission,
      relay, queues and byte budget, sessions and links between hubs. [Serve]: the
      servers of those files: accept loops, readers and writers, pings and idle
      timeouts, socket files and link tasks on one registry, whose states [hub_of]
      maps to those of the abstract hub of [Registry]. [Oblivious]: two runs of a hub
      on traffic that differs only in contents. [HubNet]: two peers, and two Bands,
      that talk through a hub. [Config], [HubMain], [Tls]:
      config.rs, main.rs and tls.rs: the environment, what is started, how it stops
      ([HubMain] has the loops of the four [serve] functions next to the shutdown flag,
      and the writers, listeners and sessions they start), certificates.
    - [SpatialWire], [SpatialCrypto], [Psk], [SpatialConn], [SpatialFfi]: src/wire.rs,
      crypto.rs, psk.rs, conn.rs, and lib.rs with ffi.rs: a two-party session over
      TCP and UDP, from the key file and the handshake to records, datagrams,
      keepalive and the codes its C interface returns. A write to the stream is the
      list of the socket's answers; a socket that never takes the bytes makes the write
      loop spin, which is an outcome.
    - [WireTests], [PacketTests], [EndpointTests], [BandTests], [RegistryTests],
      [HubTests]: the unit tests of the sources as definitions named after them,
      evaluated against the model: wire formats; packets, transports and discovery;
      the channel, board and drop cores; two Bands on a loopback network; the
      registry; frames, configuration, sinks and certificates. They check the
      definitions against the programs: what a test asserts of the code holds of the
      model.

    ** How state and operations are modelled

    A struct is a [Record], an enum an [Inductive], a method a function on the
    record named after it ([board_set] for [BoardCore::set]); tasks are split into
    one function per round ([conn_round], [udp_datagram], [poll_tcp]), and [band_run],
    [serve_run] and [main_run] interleave the rounds of all tasks in any order. Errors are
    [result] values, panics the [Panic] of [outcome]. Integers are [Z] within
    their type's range; arithmetic that wraps in release builds is written with
    [wrap]. Instants and durations are milliseconds. A [HashMap] is a [gmap], and
    where the code depends on its order that order is a parameter constrained
    only to be a permutation. Sockets, files, clocks, the environment and randomness
    are arguments. The hub's queues live in a store of their own, because the
    registry and the writers hold their two ends. Third-party crates (AEAD, HKDF,
    X25519, HMAC, serde_json, rcgen, nix) are parameters, and a theorem that needs
    a law of one names the class of laws and has a witness with an instance.

    ** What the theorems show

    - Delivery: [ChannelNet.channel_in_order] and [channel_exactly_once] (a channel
      refines a queue), [channel_no_silent_loss], [channel_retransmission_progress],
      [Drop.drop_transfer_sound], [drop_completes], [Fragment.reassemble_any_order],
      [SpatialConn.spatial_stream_in_order], [spatial_datagrams_any_order],
      [Registry.relay_delivers], [Federation.federated_relay], [Sessions.wt_carriers],
      [ControlSend.control_messages_arrive], [Programs.consumer_reads_producer],
      [interop_peer_receives],
      [BandNet.stream_end_to_end] (from two bound Bands to the receiving
      application), [HubNet.hub_is_a_link] and [stream_through_hub] (the same with a
      hub between them), [Discovery.lan_discovery].
    - Agreement: [Board.board_convergence], [BandNet.board_anti_entropy],
      [Control.handshake_agrees], [BandNet.restart_accepted],
      [SpatialFfi.tel_session_established].
    - Authenticity and isolation: [Transport.recv_authentic],
      [Framing.encode_decode], [SpatialConn.spatial_stream_authentic],
      [Channel.hub_replay_protection], [Serve.one_hop],
      [Oblivious.hub_oblivious] (what a hub does depends on headers and lengths only).
    - Invariants, bounds and absence of panics: [Band.band_survives],
      [Registry.hub_invariant], [Control.control_invariant],
      [Fragment.reassembler_invariant], [Channel.channel_task_safe],
      [UnixTransport.unix_fds_conserved], [Serve.unix_sockets_cleaned],
      [Config.hub_main_starts], [Tls.tls_self_signed_pinnable].
    - Refinement and life cycle: [Serve.served_hub] (the servers implement the
      abstract hub), [Serve.ws_idle_evicts], [HubMain.hub_stops],
      [Lifecycle.band_is_served], [band_drop_stops_tasks].
    - Round trips: packets, descriptors, link messages, key files, PEM files,
      hexadecimal ids, numbers and addresses.
    - Departures from what the code or its comments intend are lemmas too, such as
      [Drop.reoffer_panics] and [huge_offer_panics], [Registry.link_crosses_bands],
      [SpatialConn.unread_pong_hangs] and [stale_fragments_delivered], [Federation.oversized_frame_wedges_link],
      [BandNet.lagging_hub_keeps_marks], [HubMain.federated_hub_never_stops],
      [HubNet.hub_peers_share_a_session], [Lifecycle.taken_control_outlives_band],
      [Producer.two_producers_one_path] and [UnixTransport.truncated_fds_leak].

    ** Fuel and bounds

    Loops that are not structural run on fuel that the theorems show to be enough:
    [chunks] and [poll_records] on the length of their buffer, of which each round
    takes at least one byte; the reassembler's and the channel's loops on the size
    of what they shrink. Where the code's own loop need not end
    ([Drop.missing_loop], [SpatialConn.write_loop]) running out of fuel, or of answers of
    the socket, is an outcome and the theorems say when it is not reached. The
    reassembler's arrival counter is not wrapped: it grows by at most one for each chunk
    ([Fragment.feed_all_order]). Numbers are printed with 20 digits, which every [u64]
    fits in. Sample instances and witnesses use small buffers only to keep
    evaluation short.

    ** Not modelled

    Opening sockets, TLS, QUIC and HTTP themselves: what they answer is an input of
    the step that asks. Logging. When a timer fires: the steps that a timer drives
    check the deadline where the code keeps one and can otherwise happen at any
    moment. Of the C interfaces, the validity of raw pointers and the freeing of
    memory. Unit tests that pin values of the real primitives, that parse literal JSON or
    that are too large to evaluate in the kernel. Build scripts and the Python reference implementation. Debug-build
    overflow panics are not distinguished from release-build wrap-around. *)

From Stdlib Require Import ZArith Lia.
From Stdlib Require Strings.Byte.
From stdpp Require Export base gmap list strings sorting.

#[global] Set Default Goal Selector "!".

(** * Bytes and machine integers *)

Abbreviation byte := Byte.byte.
Abbreviation bytes := (list Byte.byte).

#[global] Instance byte_eq_dec : EqDecision byte := Byte.byte_eq_dec.

#[global] Program Instance byte_countable : Countable byte :=
  inj_countable Byte.to_N Byte.of_N _.
Next Obligation. apply Byte.of_to_N. Qed.

#[global] Instance byte_inhabited : Inhabited byte := populate Byte.x00.

(** A byte as the integer it denotes, and the low byte of an integer (a Rust
    [as u8] cast). *)
Definition b2z (b : byte) : Z := Z.of_N (Byte.to_N b).

Definition z2b (z : Z) : byte :=
  default Byte.x00 (Byte.of_N (Z.to_N (z mod 256))).

Definition u8_max : Z := 255.
Definition u16_max : Z := 65535.
Definition u32_max : Z := 4294967295.
Definition u64_max : Z := 18446744073709551615.
Definition i64_max : Z := 9223372036854775807.

Definition is_u8 (z : Z) : Prop := (0 <= z < 2 ^ 8)%Z.
Definition is_u16 (z : Z) : Prop := (0 <= z < 2 ^ 16)%Z.
Definition is_u32 (z : Z) : Prop := (0 <= z < 2 ^ 32)%Z.
Definition is_u64 (z : Z) : Prop := (0 <= z < 2 ^ 64)%Z.

(** Release-mode arithmetic on an unsigned integer of [w] bits wraps. *)
Definition wrap (w : Z) (z : Z) : Z := (z mod 2 ^ w)%Z.

(** [len] is Rust's [.len()]; sizes and limits are kept in [Z], where a
    64 MiB constant is cheap. *)
Definition len {A} (l : list A) : Z := Z.of_nat (length l).

(** Big- and little-endian encodings on [n] bytes. *)
Fixpoint to_be_bytes (n : nat) (z : Z) : bytes :=
  match n with
  | O => []
  | S n' => z2b (Z.shiftr z (8 * Z.of_nat n')) :: to_be_bytes n' z
  end.

Definition from_be_bytes (l : bytes) : Z :=
  foldl (λ acc b, acc * 256 + b2z b)%Z 0%Z l.

Definition to_le_bytes (n : nat) (z : Z) : bytes := reverse (to_be_bytes n z).

Definition from_le_bytes (l : bytes) : Z := from_be_bytes (reverse l).

(** [l[lo..hi]] and [l[lo..lo+bs.len()].copy_from_slice(bs)], for indices the
    caller has checked to be in range. *)
Definition slice {A} (lo hi : nat) (l : list A) : list A := take (hi - lo) (drop lo l).

Definition put_at {A} (lo : nat) (bs l : list A) : list A :=
  take lo l ++ bs ++ drop (lo + length bs) l.

(** ASCII text as bytes ([str::as_bytes]). *)
Definition str_bytes (s : string) : bytes := String.list_byte_of_string s.

(** [slice::chunks]: runs of [n] elements, the last one possibly shorter. Each
    run takes at least one element, so the length is enough fuel. *)
Fixpoint chunks_fuel {A} (fuel n : nat) (l : list A) : list (list A) :=
  match fuel, l with
  | S fuel', _ :: _ => take n l :: chunks_fuel fuel' n (drop n l)
  | _, _ => []
  end.

Definition chunks {A} (n : nat) (l : list A) : list (list A) := chunks_fuel (length l) n l.

(** An [Instant] is a number of milliseconds on one clock, a [Duration] a number
    of milliseconds; [duration_since] saturates at zero. *)
Definition duration_since (now at_ : Z) : Z := Z.max 0 (now - at_).
Definition from_secs (n : Z) : Z := (n * 1000)%Z.

(** The sum of a measure over the values of a map. *)
Definition map_sum {K A} `{Countable K} (f : A → Z) (m : gmap K A) : Z :=
  map_fold (λ _ x acc, f x + acc)%Z 0%Z m.

(** [f] folded over a list of commands is how a sequence of calls is run. *)
Definition run_all {S E} (step : S → E → S) (s : S) (es : list E) : S := foldl step s es.

(** Two lower-case hexadecimal digits per byte ([format!("{b:02x}")]). *)
Definition hex_digit (n : Z) : byte :=
  if (n <? 10)%Z then z2b (48 + n) else z2b (87 + n).

Definition to_hex (l : bytes) : bytes :=
  l ≫= (λ b, [hex_digit (b2z b / 16); hex_digit (b2z b mod 16)]).

(** Rust's [Result], and the outcome of code that can panic. *)
Inductive result (A E : Type) : Type :=
| Ok (a : A)
| Err (e : E).
Arguments Ok {A E} a.
Arguments Err {A E} e.

Inductive outcome (A : Type) : Type :=
| Panic
| Ret (a : A).
Arguments Panic {A}.
Arguments Ret {A} a.

#[global] Instance outcome_ret : MRet outcome := @Ret.
#[global] Instance outcome_bind : MBind outcome := λ A B f m,
  match m with Panic => Panic | Ret a => f a end.

Definition result_bind {A B E} (m : result A E) (f : A → result B E) : result B E :=
  match m with Ok a => f a | Err e => Err e end.

Definition result_ok {A E} (m : result A E) : option A :=
  match m with Ok a => Some a | Err _ => None end.

Definition ok_or {A E} (m : option A) (e : E) : result A E :=
  match m with Some a => Ok a | None => Err e end.

Definition map_err {A E F} (f : E → F) (m : result A E) : result A F :=
  match m with Ok a => Ok a | Err e => Err (f e) end.

(** [.unwrap()], [.expect(..)] and map indexing. *)
Definition unwrap {A} (m : option A) : outcome A :=
  match m with Some a => Ret a | None => Panic end.

Declare Scope result_scope.
Delimit Scope result_scope with result.
Notation "x <-? c ; k" := (result_bind c (λ x, k))
  (at level 20, c at level 100, k at level 200) : result_scope.

(** * Tactics and hint databases *)

Create HintDb tele.

(** Case analysis on the scrutinee of the outermost match of a hypothesis or
    the goal. *)
Ltac case_on H :=
  match type of H with
  | context [match ?x with _ => _ end] =>
      lazymatch x with
      | context [match _ with _ => _ end] => fail
      | _ => destruct x eqn:?
      end
  end.

Ltac case_goal :=
  match goal with
  | |- context [match ?x with _ => _ end] =>
      lazymatch x with
      | context [match _ with _ => _ end] => fail
      | _ => destruct x eqn:?
      end
  end.

Ltac bool_to_Prop :=
  repeat match goal with
  | H : (_ <? _)%Z = true |- _ => apply Z.ltb_lt in H
  | H : (_ <? _)%Z = false |- _ => apply Z.ltb_ge in H
  | H : (_ <=? _)%Z = true |- _ => apply Z.leb_le in H
  | H : (_ <=? _)%Z = false |- _ => apply Z.leb_gt in H
  | H : (_ =? _)%Z = true |- _ => apply Z.eqb_eq in H
  | H : (_ =? _)%Z = false |- _ => apply Z.eqb_neq in H
  | H : (_ && _)%bool = true |- _ => apply andb_true_iff in H as [? ?]
  | H : (_ || _)%bool = false |- _ => apply orb_false_iff in H as [? ?]
  | H : negb _ = true |- _ => apply negb_true_iff in H
  | H : negb _ = false |- _ => apply negb_false_iff in H
  | H : bool_decide _ = true |- _ => apply bool_decide_eq_true_1 in H
  | H : bool_decide _ = false |- _ => apply bool_decide_eq_false_1 in H
  end.

(** * Generic lemmas *)

Section Bytes.
Open Scope Z_scope.

Lemma b2z_range b : 0 <= b2z b < 256.
Proof. unfold b2z. pose proof (Byte.to_N_bounded b). lia. Qed.

Lemma z2b_b2z b : z2b (b2z b) = b.
Proof.
  unfold z2b. rewrite Z.mod_small by apply b2z_range.
  unfold b2z. by rewrite N2Z.id, Byte.of_to_N.
Qed.

Lemma b2z_z2b z : b2z (z2b z) = z mod 256.
Proof.
  unfold z2b, b2z. pose proof (Z.mod_pos_bound z 256 eq_refl).
  pose proof (Byte.to_of_N_option_map (Z.to_N (z mod 256))) as E.
  rewrite (proj2 (N.leb_le _ _)) in E by lia.
  destruct (Byte.of_N _) as [b|]; simpl in *; [|done].
  injection E as ->. lia.
Qed.

Lemma b2z_inj b1 b2 : b2z b1 = b2z b2 → b1 = b2.
Proof. intros E. rewrite <- (z2b_b2z b1), <- (z2b_b2z b2). by rewrite E. Qed.

Lemma b2z_z2b_u8 z : is_u8 z → b2z (z2b z) = z.
Proof. unfold is_u8. intros. rewrite b2z_z2b, Z.mod_small; lia. Qed.

Lemma length_to_be_bytes n z : length (to_be_bytes n z) = n.
Proof. induction n; simpl; by f_equal. Qed.

Lemma length_to_le_bytes n z : length (to_le_bytes n z) = n.
Proof. unfold to_le_bytes. by rewrite length_reverse, length_to_be_bytes. Qed.

Lemma from_be_bytes_foldl l a :
  foldl (λ acc b, acc * 256 + b2z b) a l
  = a * 256 ^ Z.of_nat (length l) + from_be_bytes l.
Proof.
  unfold from_be_bytes. revert a. induction l as [|b l IH]; intros a; simpl foldl.
  - simpl. lia.
  - rewrite IH, (IH (0 * 256 + b2z b)). simpl length.
    rewrite Nat2Z.inj_succ, Z.pow_succ_r by lia. lia.
Qed.

Lemma from_be_bytes_cons b l :
  from_be_bytes (b :: l) = b2z b * 256 ^ Z.of_nat (length l) + from_be_bytes l.
Proof. unfold from_be_bytes at 1. simpl. by rewrite from_be_bytes_foldl. Qed.

Lemma from_be_bytes_range l : 0 <= from_be_bytes l < 256 ^ Z.of_nat (length l).
Proof.
  induction l as [|b l IH]; [done|].
  rewrite from_be_bytes_cons. pose proof (b2z_range b).
  simpl length. rewrite Nat2Z.inj_succ, Z.pow_succ_r by lia. nia.
Qed.

Lemma from_to_be_bytes n z : from_be_bytes (to_be_bytes n z) = z mod 256 ^ Z.of_nat n.
Proof.
  induction n as [|n IH]; [by rewrite Z.mod_1_r|].
  simpl to_be_bytes. rewrite from_be_bytes_cons, IH, length_to_be_bytes, b2z_z2b.
  rewrite Z.shiftr_div_pow2 by lia.
  replace (2 ^ (8 * Z.of_nat n)) with (256 ^ Z.of_nat n)
    by (rewrite Z.pow_mul_r by lia; done).
  rewrite Nat2Z.inj_succ, Z.pow_succ_r by lia.
  rewrite (Z.mul_comm 256), Z.rem_mul_r by lia. lia.
Qed.

Lemma to_be_bytes_mod n z w :
  z mod 256 ^ Z.of_nat n = w mod 256 ^ Z.of_nat n → to_be_bytes n z = to_be_bytes n w.
Proof.
  revert z w. induction n as [|n IH]; intros z w E; [done|].
  assert (E' : z mod 256 ^ Z.of_nat n = w mod 256 ^ Z.of_nat n).
  { rewrite Nat2Z.inj_succ, Z.pow_succ_r, Z.mul_comm in E by lia.
    assert (P : 0 < 256 ^ Z.of_nat n) by lia.
    rewrite !Z.rem_mul_r in E by lia.
    apply (f_equal (λ x, x mod 256 ^ Z.of_nat n)) in E.
    rewrite !(Z.mul_comm (256 ^ _)), !Z_mod_plus_full, !Zmod_mod in E. done. }
  simpl. rewrite (IH _ _ E'). f_equal. apply b2z_inj. rewrite !b2z_z2b.
  rewrite !Z.shiftr_div_pow2 by lia.
  replace (2 ^ (8 * Z.of_nat n)) with (256 ^ Z.of_nat n)
    by (rewrite Z.pow_mul_r by lia; done).
  rewrite Nat2Z.inj_succ, Z.pow_succ_r, Z.mul_comm in E by lia.
  rewrite !Z.rem_mul_r in E by lia. nia.
Qed.

Lemma to_from_be_bytes l : to_be_bytes (length l) (from_be_bytes l) = l.
Proof.
  induction l as [|b l IH]; [done|].
  simpl length. simpl to_be_bytes. pose proof (from_be_bytes_range l).
  f_equal.
  - apply b2z_inj. rewrite b2z_z2b, from_be_bytes_cons, Z.shiftr_div_pow2 by lia.
    replace (2 ^ (8 * Z.of_nat (length l))) with (256 ^ Z.of_nat (length l))
      by (rewrite Z.pow_mul_r by lia; done).
    pose proof (b2z_range b).
    rewrite Z.div_add_l, Z.div_small, Z.add_0_r, Z.mod_small by lia. done.
  - etrans; [|exact IH]. apply to_be_bytes_mod.
    rewrite from_be_bytes_cons, Z.add_comm, Z_mod_plus_full. done.
Qed.

Lemma to_from_be_bytes' n l : length l = n → to_be_bytes n (from_be_bytes l) = l.
Proof. intros <-. apply to_from_be_bytes. Qed.

Lemma from_to_le_bytes n z : from_le_bytes (to_le_bytes n z) = z mod 256 ^ Z.of_nat n.
Proof. unfold from_le_bytes, to_le_bytes. rewrite reverse_involutive. apply from_to_be_bytes. Qed.

Lemma to_from_le_bytes' n l : length l = n → to_le_bytes n (from_le_bytes l) = l.
Proof.
  intros <-. unfold to_le_bytes, from_le_bytes.
  rewrite to_from_be_bytes' by apply length_reverse. apply reverse_involutive.
Qed.

Lemma from_to_be_u16 z : is_u16 z → from_be_bytes (to_be_bytes 2 z) = z.
Proof. unfold is_u16. intros. rewrite from_to_be_bytes. by apply Z.mod_small. Qed.

Lemma from_to_be_u32 z : is_u32 z → from_be_bytes (to_be_bytes 4 z) = z.
Proof. unfold is_u32. intros. rewrite from_to_be_bytes. by apply Z.mod_small. Qed.

Lemma from_to_be_u64 z : is_u64 z → from_be_bytes (to_be_bytes 8 z) = z.
Proof. unfold is_u64. intros. rewrite from_to_be_bytes. by apply Z.mod_small. Qed.

Lemma from_to_le_u16 z : is_u16 z → from_le_bytes (to_le_bytes 2 z) = z.
Proof. unfold is_u16. intros. rewrite from_to_le_bytes. by apply Z.mod_small. Qed.

Lemma from_to_le_u32 z : is_u32 z → from_le_bytes (to_le_bytes 4 z) = z.
Proof. unfold is_u32. intros. rewrite from_to_le_bytes. by apply Z.mod_small. Qed.

Lemma from_le_bytes_range l : 0 <= from_le_bytes l < 256 ^ Z.of_nat (length l).
Proof. unfold from_le_bytes. rewrite <- length_reverse. apply from_be_bytes_range. Qed.

Lemma from_be_u16 l : length l = 2%nat → is_u16 (from_be_bytes l).
Proof. intros E. pose proof (from_be_bytes_range l). rewrite E in *. done. Qed.

Lemma from_be_u32 l : length l = 4%nat → is_u32 (from_be_bytes l).
Proof. intros E. pose proof (from_be_bytes_range l). rewrite E in *. done. Qed.

Lemma from_be_u64 l : length l = 8%nat → is_u64 (from_be_bytes l).
Proof. intros E. pose proof (from_be_bytes_range l). rewrite E in *. done. Qed.

Lemma to_be_bytes_inj n z w :
  0 <= z < 256 ^ Z.of_nat n → 0 <= w < 256 ^ Z.of_nat n →
  to_be_bytes n z = to_be_bytes n w → z = w.
Proof.
  intros Hz Hw E. apply (f_equal from_be_bytes) in E.
  rewrite !from_to_be_bytes, !Z.mod_small in E; auto.
Qed.
End Bytes.

Lemma from_be_bytes_1 b : from_be_bytes [b] = b2z b.
Proof. rewrite from_be_bytes_cons. unfold from_be_bytes. simpl. lia. Qed.

Lemma from_be_u8 l : length l = 1 → is_u8 (from_be_bytes l).
Proof. intros E. pose proof (from_be_bytes_range l). rewrite E in *. done. Qed.

Lemma u8_slice l : length l = 1 → [z2b (from_be_bytes l)] = l.
Proof. destruct l as [|b [|??]]; try done. intros _. by rewrite from_be_bytes_1, z2b_b2z. Qed.

#[export] Hint Resolve from_be_u8 from_be_u16 from_be_u32 from_be_u64 : tele.

#[global] Arguments to_be_bytes : simpl never.
#[global] Arguments from_be_bytes : simpl never.

Section Slices.
Context {A : Type}.
Implicit Types (l a : list A) (lo hi mid : nat).

Lemma length_slice lo hi l : hi ≤ length l → length (slice lo hi l) = hi - lo.
Proof. intros. unfold slice. rewrite length_take, length_drop. lia. Qed.

Lemma slice_skip lo hi a l :
  length a ≤ lo → slice lo hi (a ++ l) = slice (lo - length a) (hi - length a) l.
Proof.
  intros. unfold slice. rewrite drop_app_ge by done. f_equal. lia.
Qed.

Lemma slice_head hi a l : length a = hi → slice 0 hi (a ++ l) = a.
Proof. intros <-. unfold slice. rewrite drop_0, Nat.sub_0_r. by rewrite take_app_length. Qed.

Lemma drop_skip lo a l : length a ≤ lo → drop lo (a ++ l) = drop (lo - length a) l.
Proof. apply drop_app_ge. Qed.

Lemma slice_all hi l : length l = hi → slice 0 hi l = l.
Proof. intros <-. unfold slice. rewrite drop_0, Nat.sub_0_r. apply firstn_all. Qed.

Lemma slice_slice_app lo mid hi l :
  lo ≤ mid → mid ≤ hi → slice lo mid l ++ slice mid hi l = slice lo hi l.
Proof.
  intros. unfold slice.
  replace (hi - lo) with ((mid - lo) + (hi - mid)) by lia.
  rewrite <- take_take_drop, drop_drop. do 3 f_equal. lia.
Qed.

Lemma slice_drop_app lo mid l : lo ≤ mid → slice lo mid l ++ drop mid l = drop lo l.
Proof.
  intros. unfold slice. replace mid with (lo + (mid - lo)) at 2 by lia.
  rewrite <- drop_drop. apply take_drop.
Qed.

Lemma take_slice hi l : take hi l = slice 0 hi l.
Proof. unfold slice. by rewrite drop_0, Nat.sub_0_r. Qed.

Lemma length_put_at lo (bs : list A) l :
  lo + length bs ≤ length l → length (put_at lo bs l) = length l.
Proof. intros. unfold put_at. rewrite !length_app, length_take, length_drop. lia. Qed.

Lemma put_at_0 bs l : put_at 0 bs l = bs ++ drop (length bs) l.
Proof. done. Qed.

(** Writing [bs] right after an already written prefix [a]. *)
Lemma put_at_after a bs l lo :
  length a = lo → put_at lo bs (a ++ l) = a ++ bs ++ drop (length bs) l.
Proof.
  intros <-. unfold put_at. rewrite take_app_length.
  rewrite drop_app_ge by lia. do 3 f_equal. lia.
Qed.
End Slices.

(** Lengths of the encoders, and what a slice of a known layout is. *)
Create Rewrite HintDb tele_len.
#[export] Hint Rewrite length_to_be_bytes length_to_le_bytes : tele_len.
#[export] Hint Rewrite @length_app @length_cons @length_nil @length_take @length_drop @length_replicate : tele_len.

Ltac len_solve := unfold len in *; autorewrite with tele_len in *; simpl length in *; lia.

Ltac slices :=
  repeat first
    [ rewrite slice_head by len_solve
    | rewrite slice_skip by len_solve
    | rewrite drop_skip by len_solve
    | rewrite slice_all by len_solve
    | match goal with H : length ?x = _ |- context [length ?x] => rewrite H end
    | rewrite length_to_be_bytes | rewrite length_to_le_bytes
    | progress cbn [length Nat.sub] ].

Section Len.
Context {A : Type}.
Implicit Types (l : list A).
Open Scope Z_scope.

Lemma len_nonneg l : 0 <= len l.
Proof. unfold len. lia. Qed.

Lemma len_app l1 l2 : len (l1 ++ l2) = len l1 + len l2.
Proof. unfold len. rewrite length_app. lia. Qed.

Lemma len_cons (x : A) l : len (x :: l) = 1 + len l.
Proof. unfold len. simpl. lia. Qed.
End Len.

Section Chunks.
Context {A : Type}.
Implicit Types (l : list A).

Lemma concat_chunks_fuel fuel n l :
  n ≠ 0 → length l ≤ fuel → concat (chunks_fuel fuel n l) = l.
Proof.
  intros Hn. revert l. induction fuel as [|fuel IH]; intros [|x l] L; cbn [length chunks_fuel concat] in *;
    [done|lia|done|].
  rewrite IH by (rewrite length_drop; cbn [length]; lia). apply take_drop.
Qed.

Lemma concat_chunks n l : n ≠ 0 → concat (chunks n l) = l.
Proof. intros. by apply concat_chunks_fuel. Qed.

Lemma chunks_fuel_size fuel n l : Forall (λ c, length c ≤ n) (chunks_fuel fuel n l).
Proof.
  revert l. induction fuel as [|fuel IH]; intros [|x l]; simpl; try by constructor.
  constructor; [|apply IH]. rewrite length_take. lia.
Qed.

Lemma chunks_size n l : Forall (λ c, length c ≤ n) (chunks n l).
Proof. apply chunks_fuel_size. Qed.

Lemma length_chunks_fuel fuel n l :
  n ≠ 0 → length l ≤ fuel →
  length (chunks_fuel fuel n l) * n < length l + n ∧ length l ≤ length (chunks_fuel fuel n l) * n.
Proof.
  intros Hn. revert l. induction fuel as [|fuel IH]; intros [|x l] L; cbn [length chunks_fuel] in *; try lia.
  specialize (IH (drop n (x :: l))). rewrite length_drop in IH. cbn [length] in IH.
  specialize (IH ltac:(lia)). set (k := length (chunks_fuel _ _ _)) in *.
  rewrite Nat.mul_succ_l. destruct (decide (S (length l) ≤ n)); [|lia].
  destruct k; [lia|]. rewrite Nat.mul_succ_l in IH. lia.
Qed.

(** The number of chunks is the length over the chunk size, rounded up. *)
Lemma length_chunks n l :
  n ≠ 0 → length (chunks n l) * n < length l + n ∧ length l ≤ length (chunks n l) * n.
Proof. intros. by apply length_chunks_fuel. Qed.

Lemma chunks_nonempty n l : n ≠ 0 → l ≠ [] → chunks n l ≠ [].
Proof. intros Hn Hl E. apply Hl. by rewrite <- (concat_chunks n l), E. Qed.
End Chunks.

Lemma omap_length_le {A B} (f : A → option B) (l : list A) : (length (omap f l) ≤ length l)%nat.
Proof. induction l as [|x l IH]; [done|]. unfold omap in *. simpl. destruct (f x); simpl; lia. Qed.

Section MapSum.
Context `{Countable K} {A : Type} (f : A → Z).
Implicit Types (m : gmap K A).
Open Scope Z_scope.

Lemma map_sum_empty : map_sum f (∅ : gmap K A) = 0.
Proof. apply map_fold_empty. Qed.

Lemma map_sum_insert m k x :
  m !! k = None → map_sum f (<[k := x]> m) = f x + map_sum f m.
Proof. intros E. unfold map_sum. rewrite map_fold_insert_L; [done|intros; lia|done]. Qed.

Lemma map_sum_delete m k x :
  m !! k = Some x → map_sum f (delete k m) = map_sum f m - f x.
Proof.
  intros E. rewrite <- (insert_delete_id m k x) at 2 by done.
  rewrite map_sum_insert by apply lookup_delete_eq. lia.
Qed.

Lemma map_sum_update m k x y :
  m !! k = Some x → map_sum f (<[k := y]> m) = map_sum f m - f x + f y.
Proof.
  intros E. rewrite <- insert_delete_eq, map_sum_insert by apply lookup_delete_eq.
  rewrite (map_sum_delete _ _ _ E). lia.
Qed.

Lemma map_sum_filter (P : K * A → Prop) `{∀ x, Decision (P x)} m :
  (∀ k x, m !! k = Some x → ¬ P (k, x) → f x = 0) → map_sum f (filter P m) = map_sum f m.
Proof.
  induction m as [|k x m E IH] using map_ind; intros Hf; [by rewrite map_filter_empty|].
  rewrite (map_sum_insert m k x E), <- IH.
  - destruct (decide (P (k, x))) as [HP|HP].
    + rewrite map_filter_insert_True by done. apply map_sum_insert. rewrite map_lookup_filter, E. done.
    + rewrite map_filter_insert_False, delete_id by done. rewrite (Hf k x); [done|apply lookup_insert_eq|done].
  - intros k' x' Hk. apply Hf. rewrite lookup_insert_ne; [done|]. intros <-. congruence.
Qed.

Lemma map_sum_nonneg m : (∀ k x, m !! k = Some x → 0 <= f x) → 0 <= map_sum f m.
Proof.
  induction m as [|k x m E IH] using map_ind; intros Hf; [by rewrite map_sum_empty|].
  rewrite map_sum_insert by done.
  assert (0 <= f x) by (eapply Hf; apply lookup_insert_eq).
  assert (0 <= map_sum f m).
  { apply IH. intros k' x' E'. apply (Hf k'). rewrite lookup_insert_ne; congruence. }
  lia.
Qed.

Lemma map_sum_lookup_le m k x :
  (∀ k x, m !! k = Some x → 0 <= f x) → m !! k = Some x → f x <= map_sum f m.
Proof.
  intros Hf E. pose proof (map_sum_nonneg (delete k m)) as N.
  rewrite (map_sum_delete _ _ _ E) in N. apply Zle_0_minus_le, N.
  intros k' x' [_ E']%lookup_delete_Some. by eapply Hf.
Qed.
End MapSum.

(** A boolean fact about one byte, checked on the 256 of them. *)
Lemma u8_forall (P : Z → bool) : forallb P (seqZ 0 256) = true → ∀ z, is_u8 z → P z = true.
Proof.
  unfold is_u8. intros H z Hz. rewrite forallb_forall in H. apply H.
  apply list_elem_of_In, elem_of_seqZ. lia.
Qed.

Lemma omap_id_replicate_None {A} n : omap id (replicate n (@None A)) = [].
Proof. by induction n. Qed.

(** * Sizes of maps *)

Lemma size_insert_le {K A} `{Countable K} (m : gmap K A) k x : size (<[k := x]> m) ≤ S (size m).
Proof. rewrite map_size_insert. destruct (m !! k); unfold id; lia. Qed.

Lemma size_delete_le {K A} `{Countable K} (m : gmap K A) k : size (delete k m) ≤ size m.
Proof. rewrite map_size_delete. destruct (m !! k); unfold id; lia. Qed.

(** * Positive numbers as bytes

    Used by the concrete instances of the encoding classes. *)

Fixpoint bits_of (p : positive) : bytes :=
  match p with
  | 1%positive => []
  | (p~0)%positive => Byte.x30 :: bits_of p
  | (p~1)%positive => Byte.x31 :: bits_of p
  end.

Fixpoint of_bits (l : bytes) : positive :=
  match l with
  | [] => 1
  | b :: l' => if decide (b = Byte.x30) then (of_bits l')~0 else (of_bits l')~1
  end.

Lemma of_bits_bits p : of_bits (bits_of p) = p.
Proof. induction p as [p IH|p IH|]; simpl; by rewrite ?IH. Qed.
