(* ===== verification/Text.v ===== *)
(** What the programs use of Rust's [str]: trimming, splitting, searching, numbers
    and socket addresses in text. A string is its UTF-8 bytes. *)

From S2P Require Import Prelude.

(** * [str::trim]

    The characters with the White_Space property take one, two or three bytes. *)

Definition ws1 (a : byte) : bool := let a := b2z a in ((9 <=? a) && (a <=? 13) || (a =? 32))%Z.
Definition ws2 (a b : byte) : bool := ((b2z a =? 194) && ((b2z b =? 133) || (b2z b =? 160)))%Z.
Definition ws3 (a b c : byte) : bool :=
  let '(a, b, c) := (b2z a, b2z b, b2z c) in
  ((a =? 225) && (b =? 154) && (c =? 128)
   || (a =? 226) && (b =? 128) && ((128 <=? c) && (c <=? 138) || (c =? 168) || (c =? 169) || (c =? 175))
   || (a =? 226) && (b =? 129) && (c =? 159)
   || (a =? 227) && (b =? 128) && (c =? 128))%Z.

(** Dropping whitespace at the front, of which [w2] and [w3] say what its longer
    characters are. *)
Fixpoint strip_ws (w2 : byte → byte → bool) (w3 : byte → byte → byte → bool) (s : bytes) : bytes :=
  match s with
  | [] => []
  | a :: r1 =>
      if ws1 a then strip_ws w2 w3 r1 else
      match r1 with
      | [] => s
      | b :: r2 =>
          if w2 a b then strip_ws w2 w3 r2 else
          match r2 with
          | [] => s
          | c :: r3 => if w3 a b c then strip_ws w2 w3 r3 else s
          end
      end
  end.

Definition trim_start (s : bytes) : bytes := strip_ws ws2 ws3 s.
Definition trim_end (s : bytes) : bytes := reverse (strip_ws (λ b a, ws2 a b) (λ c b a, ws3 a b c) (reverse s)).
Definition trim (s : bytes) : bytes := trim_end (trim_start s).

Definition strip_prefix (p s : bytes) : option bytes :=
  if decide (take (length p) s = p) then Some (drop (length p) s) else None.

(** [split_whitespace] followed by [collect]: the text without its whitespace. *)
Fixpoint without_ws (s : bytes) : bytes :=
  match s with
  | [] => []
  | a :: r1 =>
      if ws1 a then without_ws r1 else
      match r1 with
      | [] => [a]
      | b :: r2 =>
          if ws2 a b then without_ws r2 else
          match r2 with
          | c :: r3 => if ws3 a b c then without_ws r3 else a :: without_ws r1
          | [] => a :: without_ws r1
          end
      end
  end.

Fixpoint starts_with (p s : bytes) : bool :=
  match p, s with
  | [], _ => true
  | a :: p, b :: s => bool_decide (a = b) && starts_with p s
  | _ :: _, [] => false
  end.

(** [str::find]: the first place a pattern occurs at. *)
Fixpoint find (p s : bytes) : option nat :=
  if starts_with p s then Some 0 else match s with [] => None | _ :: rest => S <$> find p rest end.

(** [str::split] at a character. *)
Fixpoint split (c : byte) (s : bytes) : list bytes :=
  match s with
  | [] => [[]]
  | b :: rest => if decide (b = c) then [] :: split c rest else match split c rest with w :: ws => (b :: w) :: ws | [] => [[b]] end
  end.

Definition to_ascii_lowercase (s : bytes) : bytes :=
  (λ b, if (65 <=? b2z b)%Z && (b2z b <=? 90)%Z then z2b (b2z b + 32) else b) <$> s.

Definition eq_ignore_ascii_case (a b : bytes) : bool := bool_decide (to_ascii_lowercase a = to_ascii_lowercase b).

(** [PathBuf::join] with a relative path. *)
Definition path_join (base p : bytes) : bytes :=
  match last base with
  | None => p
  | Some b => if decide (b = Byte.x2f) then base ++ p else base ++ [Byte.x2f] ++ p
  end.

(** * Numbers *)

Definition to_digit (radix : Z) (b : byte) : option Z :=
  let c := b2z b in
  let d := if (48 <=? c)%Z && (c <=? 57)%Z then (c - 48)%Z
           else if (97 <=? c)%Z && (c <=? 122)%Z then (c - 87)%Z
           else if (65 <=? c)%Z && (c <=? 90)%Z then (c - 55)%Z
           else 255%Z in
  if (d <? radix)%Z then Some d else None.

Fixpoint checked_digits (max acc : Z) (s : bytes) : option Z :=
  match s with
  | [] => Some acc
  | b :: rest => d ← to_digit 10 b; let acc := (acc * 10 + d)%Z in if (acc <=? max)%Z then checked_digits max acc rest else None
  end.

(** [str::parse] for an unsigned integer type with the given largest value. *)
Definition parse_uint (max : Z) (s : bytes) : option Z :=
  match s with
  | [] => None
  | b :: rest =>
      if decide (b = Byte.x2b) then (match rest with [] => None | _ => checked_digits max 0 rest end) else checked_digits max 0 s
  end.

(** * Socket addresses

    [core::net]'s parser: each reader takes from the front of the text. *)

Inductive IpAddr := V4 (octets : list Z) | V6 (segments : list Z).

(** An address with its port and, for IPv6, its scope. *)
Record SocketAddr := mkAddr { ip : IpAddr; port : Z; scope_id : Z }.

Definition read_given_char (c : byte) (s : bytes) : option bytes :=
  match s with b :: rest => if decide (b = c) then Some rest else None | [] => None end.

(** The loop of [read_number] with the digits read so far: it stops before what
    is not a digit, and fails on overflow or past the digit limit. *)
Fixpoint number_loop (radix max : Z) (limit : option nat) (count : nat) (acc : Z) (s : bytes) : option (Z * nat * bytes) :=
  match s with
  | [] => Some (acc, count, [])
  | b :: rest =>
      match to_digit radix b with
      | None => Some (acc, count, s)
      | Some d =>
          let acc := (acc * radix + d)%Z in
          if (max <? acc)%Z then None else
          match limit with
          | Some l => if decide (l < S count) then None else number_loop radix max limit (S count) acc rest
          | None => number_loop radix max limit (S count) acc rest
          end
      end
  end.

Definition read_number (radix max : Z) (limit : option nat) (allow_zero_prefix : bool) (s : bytes) : option (Z * bytes) :=
  '(v, count, rest) ← number_loop radix max limit 0 0 s;
  if decide (count = 0) then None
  else if negb allow_zero_prefix && bool_decide (head s = Some Byte.x30) && bool_decide (1 < count) then None
  else Some (v, rest).

(** A separator is read before every group but the first. *)
Definition read_separator {A} (sep : byte) (i : nat) (inner : bytes → option (A * bytes)) (s : bytes) : option (A * bytes) :=
  match i with O => inner s | S _ => s ← read_given_char sep s; inner s end.

Definition read_octet (i : nat) (s : bytes) : option (Z * bytes) := read_separator Byte.x2e i (read_number 10 255 (Some 3) false) s.

Definition read_ipv4_addr (s : bytes) : option (list Z * bytes) :=
  '(a, s) ← read_octet 0 s; '(b, s) ← read_octet 1 s; '(c, s) ← read_octet 2 s; '(d, s) ← read_octet 3 s; Some ([a; b; c; d], s).

(** [read_groups] with [n] of [limit] groups left to read from group [i] on:
    the groups, whether an IPv4 address ended them, and the rest. *)
Fixpoint read_groups (n i : nat) (s : bytes) : list Z * bool * bytes :=
  match n with
  | O => ([], false, s)
  | S n' =>
      match (if decide (1 < n) then read_separator Byte.x3a i read_ipv4_addr s else None) with
      | Some ([a; b; c; d], s') => ([a * 256 + b; c * 256 + d]%Z, true, s')
      | _ =>
          match read_separator Byte.x3a i (read_number 16 65535 (Some 4) true) s with
          | Some (g, s') => let '(gs, v4, rest) := read_groups n' (S i) s' in (g :: gs, v4, rest)
          | None => ([], false, s)
          end
      end
  end.

Definition read_ipv6_addr (s : bytes) : option (list Z * bytes) :=
  let '(head_groups, head_v4, s1) := read_groups 8 0 s in
  if decide (length head_groups = 8) then Some (head_groups, s1) else
  if head_v4 then None else
  s2 ← read_given_char Byte.x3a s1; s3 ← read_given_char Byte.x3a s2;
  let '(tail_groups, _, rest) := read_groups (8 - (length head_groups + 1)) 0 s3 in
  Some (head_groups ++ replicate (8 - length head_groups - length tail_groups) 0%Z ++ tail_groups, rest).

Definition read_scope_id (s : bytes) : option (Z * bytes) := s ← read_given_char Byte.x25 s; read_number 10 4294967295 None true s.

Definition read_port (s : bytes) : option (Z * bytes) := s ← read_given_char Byte.x3a s; read_number 10 65535 None true s.

Definition read_socket_addr_v4 (s : bytes) : option (SocketAddr * bytes) :=
  '(octets, s) ← read_ipv4_addr s; '(p, s) ← read_port s; Some (mkAddr (V4 octets) p 0, s).

Definition read_socket_addr_v6 (s : bytes) : option (SocketAddr * bytes) :=
  s ← read_given_char Byte.x5b s; '(segs, s) ← read_ipv6_addr s;
  let '(sc, s) := default (0%Z, s) (read_scope_id s) in
  s ← read_given_char Byte.x5d s; '(p, s) ← read_port s; Some (mkAddr (V6 segs) p sc, s).

(** [parse] takes the whole text. *)
Definition parse_socket_addr (s : bytes) : option SocketAddr :=
  match (match read_socket_addr_v4 s with Some r => Some r | None => read_socket_addr_v6 s end) with
  | Some (a, []) => Some a
  | _ => None
  end.

Definition parse_ip_addr (s : bytes) : option IpAddr :=
  match (match read_ipv4_addr s with Some (o, r) => Some (V4 o, r) | None => '(g, r) ← read_ipv6_addr s; Some (V6 g, r) end) with
  | Some (a, []) => Some a
  | _ => None
  end.

(** The decimal text of a number ([Display]), for numbers below 10{^n}. *)
Fixpoint dec_digits (n : nat) (z : Z) (acc : bytes) : bytes :=
  match n with
  | O => acc
  | S n' => let acc := z2b (48 + z mod 10) :: acc in if (z <? 10)%Z then acc else dec_digits n' (z / 10) acc
  end.

Definition dec_text (z : Z) : bytes := dec_digits 20 z [].

(** ** Trimming *)

Definition plain (b : byte) : bool := negb (ws1 b) && (b2z b <? 128)%Z.

Lemma strip_ws_head w2 w3 a s :
  ws1 a = false → (∀ b, w2 a b = false) → (∀ b c, w3 a b c = false) → strip_ws w2 w3 (a :: s) = a :: s.
Proof. intros H1 H2 H3. cbn [strip_ws]. rewrite H1. destruct s as [|b s]; [done|]. rewrite H2. destruct s as [|c s]; [done|]. by rewrite H3. Qed.

Lemma strip_ws_spaces w2 w3 ws s : forallb ws1 ws = true → strip_ws w2 w3 (ws ++ s) = strip_ws w2 w3 s.
Proof. induction ws as [|a ws IH]; [done|]. cbn [forallb app]. rewrite andb_true_iff. intros [Ha Hw]. cbn [strip_ws]. rewrite Ha. by apply IH. Qed.

Lemma ascii_not_wide a b c : (b2z a < 128)%Z → ws2 a b = false ∧ ws3 a b c = false ∧ ws2 b a = false ∧ ws3 c b a = false.
Proof.
  intros H. unfold ws2, ws3. cbv zeta.
  assert (E : ∀ n, (128 <= n)%Z → (b2z a =? n)%Z = false) by (intros; apply Z.eqb_neq; lia).
  rewrite !E by lia. replace (128 <=? b2z a)%Z with false by (symmetry; apply Z.leb_gt; lia).
  rewrite !andb_false_l, !andb_false_r. done.
Qed.

(** Text between plain characters survives with the whitespace around it gone. *)
Lemma trim_plain ws ws' s :
  forallb ws1 ws = true → forallb ws1 ws' = true → (∃ a s', s = a :: s' ∧ plain a = true) → (∃ z s', s = s' ++ [z] ∧ plain z = true) →
  trim (ws ++ s ++ ws') = s.
Proof.
  intros H1 H2 (a & sa & Ea & Ha) (z & sz & Ez & Hz). unfold plain in *. apply andb_true_iff in Ha as [Ha1 Ha2], Hz as [Hz1 Hz2].
  apply Z.ltb_lt in Ha2, Hz2. apply negb_true_iff in Ha1, Hz1.
  assert (E : trim_start (ws ++ s ++ ws') = s ++ ws').
  { unfold trim_start. rewrite strip_ws_spaces, Ea by done. apply strip_ws_head; [done|intros b; apply (ascii_not_wide a b b Ha2)|intros b c; apply (ascii_not_wide a b c Ha2)]. }
  unfold trim. rewrite E. unfold trim_end. rewrite reverse_app, strip_ws_spaces.
  - rewrite Ez, reverse_app. cbn [reverse rev_append app]. change (reverse [z]) with [z]. cbn [app].
    rewrite strip_ws_head; [|done|intros b; apply (ascii_not_wide z b b Hz2)|intros b c; apply (ascii_not_wide z b c Hz2)].
    by rewrite reverse_cons, reverse_involutive.
  - apply forallb_forall. intros x Hx. eapply forallb_forall in H2; [exact H2|]. apply list_elem_of_In. apply list_elem_of_In in Hx. set_solver.
Qed.


Definition all_plain (s : bytes) : Prop := s ≠ [] ∧ Forall (λ b, plain b = true) s.

Lemma trim_all_plain ws ws' s : forallb ws1 ws = true → forallb ws1 ws' = true → all_plain s → trim (ws ++ s ++ ws') = s.
Proof.
  intros H1 H2 [Hne Hs]. apply trim_plain; [done|done| |].
  - destruct s as [|a s]; [done|]. apply Forall_cons in Hs as [Ha _]. by eexists _, _.
  - destruct s as [|z s _] using rev_ind; [done|]. apply Forall_app in Hs as [_ Hz]. apply Forall_cons in Hz as [Hz _]. by eexists _, _.
Qed.

Lemma trim_id s : all_plain s → trim s = s.
Proof. intros H. rewrite <- (app_nil_r s) at 1. by apply (trim_all_plain [] []). Qed.


(** ** Numbers read back *)

Definition digit_of (d : Z) : byte := z2b (48 + d).

Definition dec_value (acc : Z) (ds : list Z) : Z := foldl (λ a d, a * 10 + d)%Z acc ds.

Lemma to_digit_digit d : (0 <= d < 10)%Z → to_digit 10 (digit_of d) = Some d ∧ digit_of d ≠ Byte.x2b ∧ plain (digit_of d) = true ∧ (digit_of d = Byte.x30 → d = 0%Z).
Proof.
  intros H. assert (E : forallb (λ d, bool_decide (to_digit 10 (digit_of d) = Some d) && bool_decide (digit_of d ≠ Byte.x2b) && plain (digit_of d)
    && (negb (bool_decide (digit_of d = Byte.x30)) || (d =? 0)%Z)) (seqZ 0 10) = true) by (vm_compute; reflexivity).
  rewrite forallb_forall in E. specialize (E d). rewrite <- list_elem_of_In, elem_of_seqZ in E. specialize (E ltac:(lia)).
  rewrite !andb_true_iff, orb_true_iff, negb_true_iff, !bool_decide_eq_true, bool_decide_eq_false, Z.eqb_eq in E. tauto.
Qed.

Lemma dec_value_ge acc ds : (0 <= acc)%Z → Forall (λ d, 0 <= d < 10)%Z ds → (acc <= dec_value acc ds)%Z.
Proof.
  intros Ha Hd. revert acc Ha. induction Hd as [|d ds Hd _ IH]; intros acc Ha; [done|]. cbn [dec_value foldl]. unfold dec_value in IH.
  specialize (IH (acc * 10 + d)%Z ltac:(lia)). lia.
Qed.

Lemma dec_digits_spec n : ∀ z acc, (0 <= z < 10 ^ Z.of_nat n)%Z → n ≠ 0 →
  ∃ ds, dec_digits n z acc = (digit_of <$> ds) ++ acc ∧ Forall (λ d, 0 <= d < 10)%Z ds ∧ dec_value 0 ds = z ∧ ds ≠ [] ∧ (head ds = Some 0%Z → ds = [0%Z]).
Proof.
  induction n as [|n IH]; intros z acc Hz Hn; [done|]. cbn [dec_digits]. cbv zeta. fold (digit_of (z mod 10)).
  pose proof (Z.mod_pos_bound z 10 ltac:(lia)) as Hm. destruct (Z.ltb_spec z 10) as [Hlt|Hge].
  - exists [z]. rewrite Z.mod_small by lia. split_and!; try done; [repeat constructor; lia|]. by intros [= ->].
  - assert (Hn' : n ≠ 0) by (intros ->; cbn in Hz; lia).
    destruct (IH (z / 10)%Z (digit_of (z mod 10) :: acc)) as (ds & -> & HF & Hv & Hne & H0); [|done|].
    { rewrite Nat2Z.inj_succ, Z.pow_succ_r in Hz by lia. split; [apply Z.div_pos; lia|]. apply Z.div_lt_upper_bound; lia. }
    exists (ds ++ [(z mod 10)%Z]). split_and!.
    + by rewrite fmap_app, <- app_assoc.
    + apply Forall_app. split; [done|]. repeat constructor; lia.
    + unfold dec_value in *. rewrite foldl_app, Hv. cbn [foldl]. pose proof (Z.div_mod z 10 ltac:(lia)). lia.
    + by destruct ds.
    + intros Hh. destruct ds as [|d ds]; [done|]. cbn in Hh. injection Hh as ->. rewrite (H0 eq_refl) in Hv. cbn in Hv.
      pose proof (Z.div_le_lower_bound z 10 1 ltac:(lia) ltac:(lia)). lia.
Qed.

Lemma number_loop_digits max limit rest : ∀ ds count acc,
  (0 <= acc)%Z → Forall (λ d, 0 <= d < 10)%Z ds → (dec_value acc ds <= max)%Z →
  match limit with Some l => count + length ds ≤ l | None => True end → (∀ b, head rest = Some b → to_digit 10 b = None) →
  number_loop 10 max limit count acc ((digit_of <$> ds) ++ rest) = Some (dec_value acc ds, count + length ds, rest).
Proof.
  induction ds as [|d ds IH]; intros count acc Ha Hd Hv Hl Hr.
  - cbn [fmap list_fmap app length]. rewrite Nat.add_0_r. destruct rest as [|b rest]; [done|]. cbn [number_loop]. by rewrite (Hr b eq_refl).
  - apply Forall_cons in Hd as [Hd Hds]. rewrite fmap_cons. cbn [app number_loop length] in *. destruct (to_digit_digit d Hd) as (-> & _).
    cbv zeta. cbn [dec_value foldl] in Hv |- *. pose proof (dec_value_ge (acc * 10 + d) ds ltac:(lia) Hds) as Hge. unfold dec_value in Hge.
    destruct (Z.ltb_spec max (acc * 10 + d)) as [Hbad|_]; [lia|].
    assert (E : number_loop 10 max limit (S count) (acc * 10 + d) ((digit_of <$> ds) ++ rest)
      = Some (dec_value (acc * 10 + d) ds, S count + length ds, rest)) by (apply IH; [lia|done|done|destruct limit; [lia|done]|done]).
    unfold dec_value in E |- *. destruct limit as [l|]; [rewrite decide_False by lia|]; rewrite E; do 3 f_equal; lia.
Qed.

Lemma checked_digits_digits max ds acc :
  (0 <= acc)%Z → Forall (λ d, 0 <= d < 10)%Z ds → (dec_value acc ds <= max)%Z → checked_digits max acc (digit_of <$> ds) = Some (dec_value acc ds).
Proof.
  revert acc. induction ds as [|d ds IH]; intros acc Ha Hd Hv; [done|]. apply Forall_cons in Hd as [Hd Hds]. rewrite fmap_cons. cbn [checked_digits].
  destruct (to_digit_digit d Hd) as (-> & _). cbn [mbind option_bind dec_value foldl] in Hv |- *.
  pose proof (dec_value_ge (acc * 10 + d) ds ltac:(lia) Hds) as Hge. unfold dec_value in Hge, IH. rewrite (proj2 (Z.leb_le _ _)) by lia. apply IH; [lia|done|done].
Qed.

Lemma dec_text_spec z : is_u64 z →
  ∃ ds, dec_text z = digit_of <$> ds ∧ Forall (λ d, 0 <= d < 10)%Z ds ∧ dec_value 0 ds = z ∧ ds ≠ [] ∧ (head ds = Some 0%Z → ds = [0%Z]).
Proof.
  intros Hz. destruct (dec_digits_spec 20 z []) as (ds & E & H); [unfold is_u64 in Hz; split; [lia|]; change (10 ^ Z.of_nat 20)%Z with 100000000000000000000%Z; lia|done|].
  exists ds. split; [|done]. unfold dec_text. by rewrite E, app_nil_r.
Qed.

(** [parse] reads back the [Display] of a number of the type. *)
Lemma parse_uint_dec max z : is_u64 z → (z <= max)%Z → parse_uint max (dec_text z) = Some z.
Proof.
  intros Hz Hm. destruct (dec_text_spec z Hz) as (ds & -> & HF & Hv & Hne & _). destruct ds as [|d ds]; [done|].
  unfold parse_uint. rewrite fmap_cons. pose proof HF as HF'. apply Forall_cons in HF' as [Hd _]. destruct (to_digit_digit d Hd) as (_ & Hp & _).
  rewrite decide_False by done. rewrite <- fmap_cons, checked_digits_digits by (done || lia). by rewrite Hv.
Qed.

Lemma read_number_dec max limit az z rest :
  is_u64 z → (z <= max)%Z → match limit with Some l => length (dec_text z) ≤ l | None => True end →
  (∀ b, head rest = Some b → to_digit 10 b = None) → read_number 10 max limit az (dec_text z ++ rest) = Some (z, rest).
Proof.
  intros Hz Hm Hl Hr. destruct (dec_text_spec z Hz) as (ds & E & HF & Hv & Hne & H0). rewrite E in *. rewrite length_fmap in Hl. unfold read_number.
  rewrite number_loop_digits by (done || lia). cbn [mbind option_bind]. rewrite Hv. cbn [Nat.add].
  destruct ds as [|d ds]; [done|]. cbn [length]. rewrite decide_False by done.
  assert (Hz0 : (bool_decide (head ((digit_of <$> d :: ds) ++ rest) = Some Byte.x30) && bool_decide (1 < S (length ds)))%bool = false).
  { apply andb_false_iff. rewrite !bool_decide_eq_false. apply Forall_cons in HF as [Hd _]. destruct (to_digit_digit d Hd) as (_ & _ & _ & Hd0).
    destruct (decide (digit_of d = Byte.x30)) as [E0|E0]; [right|left; cbn; congruence]. rewrite (Hd0 E0) in *. injection (H0 eq_refl) as ->. simpl. lia. }
  rewrite <- andb_assoc, Hz0, andb_false_r. done.
Qed.

(** ** Addresses read back *)

Definition ipv4_text (a b c d : Z) : bytes := dec_text a ++ [Byte.x2e] ++ dec_text b ++ [Byte.x2e] ++ dec_text c ++ [Byte.x2e] ++ dec_text d.

(** A host and a port ([format!("{host}:{port}")]). *)
Definition host_port (host : bytes) (port : Z) : bytes := host ++ [Byte.x3a] ++ dec_text port.

Lemma octet_len z : is_u8 z → length (dec_text z) ≤ 3.
Proof.
  intros Hz. assert (E : forallb (λ z, bool_decide (length (dec_text z) ≤ 3)) (seqZ 0 256) = true) by (vm_compute; reflexivity).
  pose proof (u8_forall _ E z Hz) as H. by apply bool_decide_eq_true in H.
Qed.

Lemma read_octet_dec i z rest :
  is_u8 z → (∀ b, head rest = Some b → to_digit 10 b = None) →
  read_octet i (match i with O => dec_text z ++ rest | S _ => [Byte.x2e] ++ dec_text z ++ rest end) = Some (z, rest).
Proof.
  intros Hz Hr. pose proof (octet_len z Hz). unfold is_u8 in Hz. unfold read_octet, read_separator.
  destruct i; cbn [read_given_char app mbind option_bind]; apply read_number_dec; (done || lia || (unfold is_u64; lia)).
Qed.

(** The text of an IPv4 address and port parses as that address. *)
Lemma parse_ipv4_addr a b c d p :
  is_u8 a → is_u8 b → is_u8 c → is_u8 d → is_u16 p →
  parse_socket_addr (host_port (ipv4_text a b c d) p) = Some (mkAddr (V4 [a; b; c; d]) p 0).
Proof.
  intros Ha Hb Hc Hd Hp. unfold parse_socket_addr, host_port, ipv4_text, read_socket_addr_v4, read_ipv4_addr. rewrite <- !app_assoc.
  assert (Hdot : ∀ s, (∀ x, head (Byte.x2e :: s) = Some x → to_digit 10 x = None)) by (by intros s x [= <-]).
  rewrite (read_octet_dec 0) by (done || apply Hdot). cbn [mbind option_bind]. rewrite (read_octet_dec 1) by (done || apply Hdot).
  cbn [mbind option_bind]. rewrite (read_octet_dec 2) by (done || apply Hdot). cbn [mbind option_bind].
  rewrite (read_octet_dec 3) by (done || (by intros x [= <-])). cbn [mbind option_bind]. unfold read_port. cbn [app read_given_char].
  rewrite decide_True by done. cbn [mbind option_bind]. pose proof (read_number_dec 65535 None true p []) as Hn. rewrite app_nil_r in Hn.
  unfold is_u16 in Hp. rewrite Hn by (done || lia || (unfold is_u64; lia)). done.
Qed.
