(* ===== verification/Crypto.v ===== *)
(** The AEAD layer ([rust/telesthete/src/crypto.rs]): suites, nonce and
    associated-data layout, key derivation and cipher selection. The
    cryptographic primitives live in third-party crates and are the parameters
    of the class [Crates]; [CratesSpec] collects the documented behaviour the
    code relies on. *)

From S2P Require Import Prelude.

(** ** The crates *)

(** [chacha20poly1305], [aes_gcm], [sha2] and [hkdf]. An AEAD call takes key,
    nonce, associated data and message; [None] is the crate's error. *)
Class Crates := {
  chacha_encrypt : bytes → bytes → bytes → bytes → option bytes;
  chacha_decrypt : bytes → bytes → bytes → bytes → option bytes;
  aes_new_from_slice : bytes → bool;
  aes_encrypt : bytes → bytes → bytes → bytes → option bytes;
  aes_decrypt : bytes → bytes → bytes → bytes → option bytes;
  sha256 : bytes → bytes;
  (** [hkdf_sha256 salt ikm info n]: the first [n] bytes of the expansion. *)
  hkdf_sha256 : bytes → bytes → bytes → nat → bytes;
}.

(** Both AEADs are deterministic, append a 16-byte tag, recover the plaintext
    of what they sealed, and accept nothing else under the same key, nonce and
    associated data. *)
Class CratesSpec {crates : Crates} := {
  chacha_open_seal k n a m c :
    chacha_encrypt k n a m = Some c → chacha_decrypt k n a c = Some m;
  chacha_seal_open k n a m c :
    chacha_decrypt k n a c = Some m → chacha_encrypt k n a m = Some c;
  chacha_tag_len k n a m c :
    chacha_encrypt k n a m = Some c → length c = length m + 16;
  aes_open_seal k n a m c :
    aes_encrypt k n a m = Some c → aes_decrypt k n a c = Some m;
  aes_seal_open k n a m c :
    aes_decrypt k n a c = Some m → aes_encrypt k n a m = Some c;
  aes_tag_len k n a m c :
    aes_encrypt k n a m = Some c → length c = length m + 16;
  sha256_len m : length (sha256 m) = 32;
  hkdf_len salt ikm info n : length (hkdf_sha256 salt ikm info n) = n;
}.

(** ** Constants and types *)

Definition BAND_ID_LEN : nat := 16.
Definition KEY_LEN : nat := 32.
Definition NONCE_LEN : nat := 12.
Definition TAG_LEN : nat := 16.

(** ChaCha20-Poly1305 takes every message of less than 2{^38} bytes. *)
Class AeadTotal {crates : Crates} := chacha_total k n a m :
  length k = KEY_LEN → length n = NONCE_LEN → (len m <= u32_max + 8)%Z → is_Some (chacha_encrypt k n a m).

(** AES-256-GCM takes every key of 32 bytes and every message of less than 2{^36} bytes. *)
Class AesTotal {crates : Crates} := aes_total k n a m :
  length k = KEY_LEN → length n = NONCE_LEN → (len m <= u32_max + 8)%Z → aes_new_from_slice k = true ∧ is_Some (aes_encrypt k n a m).

Definition BASELINE_CIPHER : string := "chacha20-poly1305".

Inductive CryptoError := Encrypt | Decrypt.

Inductive Suite := ChaCha20Poly1305 | Aes256Gcm.

#[global] Instance Suite_eq_dec : EqDecision Suite.
Proof. solve_decision. Defined.

Definition Suite_from_id (cipher_id : string) : option Suite :=
  if decide (cipher_id = "chacha20-poly1305") then Some ChaCha20Poly1305
  else if decide (cipher_id = "aes256-gcm") then Some Aes256Gcm
  else None.

Definition Suite_id (s : Suite) : string :=
  match s with
  | ChaCha20Poly1305 => "chacha20-poly1305"
  | Aes256Gcm => "aes256-gcm"
  end.

(** ** Operations *)

Definition nonce_bytes (seq : Z) : bytes :=
  put_at 4 (to_be_bytes 8 seq) (replicate NONCE_LEN Byte.x00).

Definition build_aad (channel_type channel_id : Z) : bytes :=
  [z2b channel_type; z2b (Z.shiftr channel_id 8); z2b channel_id].

Fixpoint select_first (prefs supported : list string) : option string :=
  match prefs with
  | [] => None
  | cid :: rest =>
      if (bool_decide (cid = BASELINE_CIPHER) || bool_decide (cid ∈ supported))%bool
      then Some cid else select_first rest supported
  end.

Definition select_cipher (initiator_prefs responder_supported : list string) : string :=
  default BASELINE_CIPHER (select_first initiator_prefs responder_supported).

Section Crypto.
Context {crates : Crates}.

Definition derive_band_id (psk : bytes) : bytes := take BAND_ID_LEN (sha256 psk).

Definition derive_key_for (psk : bytes) (cipher_id : string) : bytes :=
  hkdf_sha256 (str_bytes "telesthete-v1") psk
    (str_bytes "encryption-" ++ str_bytes cipher_id) KEY_LEN.

Definition derive_key (psk : bytes) : bytes := derive_key_for psk BASELINE_CIPHER.

Definition derive_session_key (psk : bytes) (cipher_id : string) (session : Z) : bytes :=
  hkdf_sha256 (str_bytes "telesthete-v1") psk
    (str_bytes "encryption-" ++ str_bytes cipher_id
     ++ str_bytes "-session-" ++ to_be_bytes 8 session) KEY_LEN.

Definition encrypt_suite (suite : Suite) (key : bytes) (seq : Z) (aad plaintext : bytes)
    : result bytes CryptoError :=
  let n := nonce_bytes seq in
  match suite with
  | ChaCha20Poly1305 => ok_or (chacha_encrypt key n aad plaintext) Encrypt
  | Aes256Gcm =>
      if aes_new_from_slice key then ok_or (aes_encrypt key n aad plaintext) Encrypt
      else Err Encrypt
  end.

Definition decrypt_suite (suite : Suite) (key : bytes) (seq : Z) (aad ciphertext : bytes)
    : result bytes CryptoError :=
  let n := nonce_bytes seq in
  match suite with
  | ChaCha20Poly1305 => ok_or (chacha_decrypt key n aad ciphertext) Decrypt
  | Aes256Gcm =>
      if aes_new_from_slice key then ok_or (aes_decrypt key n aad ciphertext) Decrypt
      else Err Decrypt
  end.

Definition encrypt key seq aad pt := encrypt_suite ChaCha20Poly1305 key seq aad pt.
Definition decrypt key seq aad ct := decrypt_suite ChaCha20Poly1305 key seq aad ct.

(** ** Lemmas *)

Lemma open_seal_suite {spec : CratesSpec} suite key seq aad pt ct :
  encrypt_suite suite key seq aad pt = Ok ct → decrypt_suite suite key seq aad ct = Ok pt.
Proof.
  unfold encrypt_suite, decrypt_suite, ok_or.
  destruct suite; [|destruct (aes_new_from_slice key); [|done]]; intros H; case_on H; inv H.
  - by erewrite chacha_open_seal.
  - by erewrite aes_open_seal.
Qed.

Lemma seal_open_suite {spec : CratesSpec} suite key seq aad pt ct :
  decrypt_suite suite key seq aad ct = Ok pt → encrypt_suite suite key seq aad pt = Ok ct.
Proof.
  unfold encrypt_suite, decrypt_suite, ok_or.
  destruct suite; [|destruct (aes_new_from_slice key); [|done]]; intros H; case_on H; inv H.
  - by erewrite chacha_seal_open.
  - by erewrite aes_seal_open.
Qed.

Lemma encrypt_suite_len {spec : CratesSpec} suite key seq aad pt ct :
  encrypt_suite suite key seq aad pt = Ok ct → length ct = length pt + TAG_LEN.
Proof.
  unfold encrypt_suite, ok_or, TAG_LEN.
  destruct suite; [|destruct (aes_new_from_slice key); [|done]]; intros H; case_on H; inv H.
  - by eapply chacha_tag_len.
  - by eapply aes_tag_len.
Qed.

Lemma length_derive_band_id {spec : CratesSpec} psk : length (derive_band_id psk) = BAND_ID_LEN.
Proof. unfold derive_band_id. rewrite length_take, sha256_len. done. Qed.

Lemma length_derive_session_key {spec : CratesSpec} psk cid ep :
  length (derive_session_key psk cid ep) = KEY_LEN.
Proof. apply hkdf_len. Qed.

Lemma length_derive_key {spec : CratesSpec} psk : length (derive_key psk) = KEY_LEN.
Proof. apply hkdf_len. Qed.

(** Sealing fails for no message that fits. *)
Lemma encrypt_suite_total {tot : AeadTotal} {atot : AesTotal} suite key seq aad pt :
  length key = KEY_LEN → (len pt <= u32_max + 8)%Z → ∃ ct, encrypt_suite suite key seq aad pt = Ok ct.
Proof.
  intros Hk Hl. assert (Hn : length (nonce_bytes seq) = NONCE_LEN) by done. unfold encrypt_suite. destruct suite.
  - destruct (chacha_total key (nonce_bytes seq) aad pt Hk Hn Hl) as [ct ->]. by exists ct.
  - destruct (aes_total key (nonce_bytes seq) aad pt Hk Hn Hl) as [-> [ct ->]]. by exists ct.
Qed.
End Crypto.

Lemma nonce_bytes_eq seq : nonce_bytes seq = replicate 4 Byte.x00 ++ to_be_bytes 8 seq.
Proof. done. Qed.

Lemma nonce_bytes_inj s1 s2 : is_u64 s1 → is_u64 s2 → nonce_bytes s1 = nonce_bytes s2 → s1 = s2.
Proof.
  intros H1 H2 E. rewrite !nonce_bytes_eq in E. apply app_inv_head in E.
  apply to_be_bytes_inj in E; [done|..]; unfold is_u64 in *; simpl in *; lia.
Qed.

Lemma build_aad_be ct cid : build_aad ct cid = z2b ct :: to_be_bytes 2 cid.
Proof. unfold build_aad, to_be_bytes. simpl. by rewrite Z.shiftr_0_r. Qed.

Lemma build_aad_inj ct1 cid1 ct2 cid2 :
  is_u8 ct1 → is_u8 ct2 → is_u16 cid1 → is_u16 cid2 →
  build_aad ct1 cid1 = build_aad ct2 cid2 → ct1 = ct2 ∧ cid1 = cid2.
Proof.
  intros ???? E. rewrite !build_aad_be in E.
  pose proof (f_equal (λ l, b2z (hd Byte.x00 l)) E) as E1.
  pose proof (f_equal (λ l, from_be_bytes (tail l)) E) as E2.
  cbn [hd tail] in E1, E2.
  rewrite !b2z_z2b_u8 in E1 by done. by rewrite !from_to_be_u16 in E2.
Qed.

Lemma select_first_Some prefs supported cid :
  select_first prefs supported = Some cid ↔
  ∃ before after, prefs = before ++ cid :: after
    ∧ (cid = BASELINE_CIPHER ∨ cid ∈ supported)
    ∧ Forall (λ c, c ≠ BASELINE_CIPHER ∧ c ∉ supported) before.
Proof.
  induction prefs as [|c rest IH]; simpl.
  { split; [done|]. intros (? & ? & E & _). by destruct x. }
  destruct (bool_decide _ || _)%bool eqn:E.
  - apply orb_true_iff in E. rewrite !bool_decide_eq_true in E. split.
    + intros [= ->]. by exists [], rest.
    + intros ([|b before] & after & E1 & H1 & H2); simplify_eq/=; [done|].
      inv H2. naive_solver.
  - apply orb_false_iff in E as [E1 E2]. bool_to_Prop. rewrite IH. split.
    + intros (before & after & -> & H1 & H2). exists (c :: before), after.
      split_and!; auto.
    + intros ([|b before] & after & E & H1 & H2); simplify_eq/=; [naive_solver|].
      inv H2. eauto 10.
Qed.

Lemma select_first_None prefs supported :
  select_first prefs supported = None ↔
  Forall (λ c, c ≠ BASELINE_CIPHER ∧ c ∉ supported) prefs.
Proof.
  induction prefs as [|c rest IH]; simpl; [by split|].
  rewrite Forall_cons, <- IH.
  destruct (bool_decide _ || _)%bool eqn:E.
  - apply orb_true_iff in E. rewrite !bool_decide_eq_true in E. naive_solver.
  - apply orb_false_iff in E as [E1 E2]. bool_to_Prop. naive_solver.
Qed.

Lemma Suite_from_id_id s : Suite_from_id (Suite_id s) = Some s.
Proof. by destruct s. Qed.

Lemma Suite_from_id_Some cid s : Suite_from_id cid = Some s → Suite_id s = cid.
Proof. unfold Suite_from_id. intros. repeat case_decide; by simplify_eq/=. Qed.

(** ** A concrete instance

    The hypotheses of [CratesSpec] can hold: a keyed checksum appended to the
    message satisfies all of them (it is of course not secure). *)

Definition sample_tag (k n a m : bytes) : bytes :=
  to_be_bytes 16 (from_be_bytes (k ++ n ++ a) + foldr (λ b s, b2z b + s)%Z 0%Z m).

Definition sample_seal (k n a m : bytes) : option bytes := Some (m ++ sample_tag k n a m).

Definition sample_open (k n a c : bytes) : option bytes :=
  let m := take (length c - 16) c in
  if decide (c = m ++ sample_tag k n a m) then Some m else None.

Definition sample_crates : Crates := {|
  chacha_encrypt := sample_seal;
  chacha_decrypt := sample_open;
  aes_new_from_slice k := Nat.eqb (length k) 32;
  aes_encrypt := sample_seal;
  aes_decrypt := sample_open;
  sha256 m := to_be_bytes 32 (from_be_bytes m * 2654435761 + 1);
  hkdf_sha256 salt ikm info n := to_be_bytes n (from_be_bytes (salt ++ ikm ++ info));
|}.

Lemma sample_open_seal k n a m c : sample_seal k n a m = Some c → sample_open k n a c = Some m.
Proof.
  intros [= <-]. unfold sample_open, sample_tag.
  set (tag := to_be_bytes 16 _).
  assert (E : take (length (m ++ tag) - 16) (m ++ tag) = m).
  { unfold tag. rewrite length_app, length_to_be_bytes, Nat.add_sub. apply take_app_length. }
  by rewrite E, decide_True.
Qed.

Lemma sample_seal_open k n a m c : sample_open k n a c = Some m → sample_seal k n a m = Some c.
Proof. unfold sample_open, sample_seal. case_decide; [|done]. intros [= <-]. by f_equal. Qed.

Lemma sample_len k n a m c : sample_seal k n a m = Some c → length c = length m + 16.
Proof. intros [= <-]. rewrite length_app. unfold sample_tag. by rewrite length_to_be_bytes. Qed.

#[global] Instance sample_crates_spec : @CratesSpec sample_crates.
Proof.
  constructor; simpl; intros;
    eauto using sample_open_seal, sample_seal_open, sample_len, length_to_be_bytes.
Qed.

#[global] Instance sample_total : @AeadTotal sample_crates.
Proof. intros k n a m _ _ _. by eexists. Qed.

#[global] Instance sample_aes_total : @AesTotal sample_crates.
Proof. intros k n a m Hk _ _. split; [by apply Nat.eqb_eq|by eexists]. Qed.

(** ** Properties *)

(** Cipher negotiation. [select_cipher] returns the first entry of the
    initiator's preference list that is the mandatory baseline or that the
    responder supports, and the baseline when no entry qualifies. *)
Theorem select_cipher_first_common prefs supported cid :
  select_cipher prefs supported = cid ↔
  (∃ before after, prefs = before ++ cid :: after
     ∧ (cid = BASELINE_CIPHER ∨ cid ∈ supported)
     ∧ Forall (λ c, c ≠ BASELINE_CIPHER ∧ c ∉ supported) before)
  ∨ (cid = BASELINE_CIPHER ∧ Forall (λ c, c ≠ BASELINE_CIPHER ∧ c ∉ supported) prefs).
Proof.
  unfold select_cipher. rewrite <- select_first_Some, <- select_first_None.
  destruct (select_first prefs supported); naive_solver.
Qed.

(** The nonce and the associated data determine the header fields they
    encode: two packets under one key with the same nonce have the same
    sequence, and equal associated data means equal channel type and id. *)
Theorem nonce_and_aad_injective s1 s2 ct1 ct2 cid1 cid2 :
  is_u64 s1 → is_u64 s2 → is_u8 ct1 → is_u8 ct2 → is_u16 cid1 → is_u16 cid2 →
  nonce_bytes s1 = nonce_bytes s2 → build_aad ct1 cid1 = build_aad ct2 cid2 →
  s1 = s2 ∧ ct1 = ct2 ∧ cid1 = cid2.
Proof.
  intros. split; [by apply nonce_bytes_inj|]. by apply build_aad_inj.
Qed.

Lemma nonce_and_aad_injective_witness :
  nonce_bytes 258 = nonce_bytes 258 ∧ (258 = 258 ∧ 2 = 2 ∧ 513 = 513)%Z.
Proof.
  split; [reflexivity|].
  apply (nonce_and_aad_injective 258 258 2 2 513 513);
    unfold is_u8, is_u16, is_u64; (reflexivity || lia).
Defined.
