(* ===== verification/Framing.v ===== *)
(** Packet framing ([rust/telesthete/src/framing.rs]): channel types, the
    27-byte cleartext header, packet encoding and decoding, route ids. *)

From S2P Require Import Prelude Crypto.

Definition HEADER_LEN : nat := 27.
Definition MIN_PACKET_LEN : nat := HEADER_LEN + TAG_LEN.
Definition PROTOCOL_VERSION : Z := 3.

Inductive ChannelType :=
  Control | Stream | Channel | Board | Drop | Route | Addressed.

#[global] Instance ChannelType_eq_dec : EqDecision ChannelType.
Proof. solve_decision. Defined.

(** The discriminants ([channel_type as u8]) and their inverse. *)
Definition ChannelType_to_u8 (t : ChannelType) : Z :=
  match t with
  | Control => 0 | Stream => 1 | Channel => 2 | Board => 3
  | Drop => 4 | Route => 5 | Addressed => 6
  end.

Definition ChannelType_from_u8 (x : Z) : option ChannelType :=
  match x with
  | 0 => Some Control
  | 1 => Some Stream
  | 2 => Some Channel
  | 3 => Some Board
  | 4 => Some Drop
  | 5 => Some Route
  | 6 => Some Addressed
  | _ => None
  end%Z.

#[global] Program Instance ChannelType_countable : Countable ChannelType :=
  inj_countable ChannelType_to_u8 ChannelType_from_u8 _.
Next Obligation. by intros []. Qed.

Record Header := mkHeader {
  band_id : bytes;
  channel_type : ChannelType;
  channel_id : Z;
  sequence : Z;
}.

#[global] Instance Header_eq_dec : EqDecision Header.
Proof. solve_decision. Defined.

(** The ranges of the field types ([BandId], [u16], [u64]). *)
Definition Header_wf (h : Header) : Prop :=
  length (band_id h) = BAND_ID_LEN ∧ is_u16 (channel_id h) ∧ is_u64 (sequence h).

Inductive FramingError :=
| TooShort (n : Z)
| UnknownChannelType (b : Z)
| CryptoErr (e : CryptoError).

(** [Header::write]: the buffer afterwards and the returned offset; a buffer
    shorter than the header makes the slice writes panic. *)
Definition Header_write (h : Header) (out : bytes) : outcome (bytes * nat) :=
  if decide (length out < HEADER_LEN) then Panic else
  let out := put_at 0 (band_id h) out in
  let out := put_at 16 [z2b (ChannelType_to_u8 (channel_type h))] out in
  let out := put_at 17 (to_be_bytes 2 (channel_id h)) out in
  let out := put_at 19 (to_be_bytes 8 (sequence h)) out in
  Ret (out, HEADER_LEN).

Definition Header_parse (input : bytes) : result Header FramingError :=
  if decide (length input < HEADER_LEN) then Err (TooShort (len input)) else
  let b16 := from_be_bytes (slice 16 17 input) in
  match ChannelType_from_u8 b16 with
  | None => Err (UnknownChannelType b16)
  | Some t =>
      Ok {| band_id := slice 0 BAND_ID_LEN input;
            channel_type := t;
            channel_id := from_be_bytes (slice 17 19 input);
            sequence := from_be_bytes (slice 19 27 input) |}
  end.

Definition ROUTE_ID_DOMAIN : bytes := str_bytes "telesthete-route-v1:".

(** [d.chunks_exact(2).map(u16::from_be_bytes)]: an odd last byte is ignored. *)
Fixpoint be_u16_pairs (d : bytes) : list Z :=
  match d with
  | a :: b :: rest => from_be_bytes [a; b] :: be_u16_pairs rest
  | _ => []
  end.

Section Framing.
Context {crates : Crates}.

Definition route_id_for (name : bytes) : Z :=
  let d := sha256 (ROUTE_ID_DOMAIN ++ name) in
  default 1%Z (snd <$> list_find (λ v, v ≠ 0%Z) (be_u16_pairs d)).

Definition encode_packet_suite (suite : Suite) (key band : bytes) (ct : ChannelType)
    (cid seq : Z) (plaintext : bytes) : outcome (result bytes FramingError) :=
  let aad := build_aad (ChannelType_to_u8 ct) cid in
  match encrypt_suite suite key seq aad plaintext with
  | Err e => Ret (Err (CryptoErr e))
  | Ok sealed =>
      let out := replicate HEADER_LEN Byte.x00 in
      let header := mkHeader band ct cid seq in
      '(out, _) ← Header_write header out;
      Ret (Ok (out ++ sealed))
  end.

Definition encode_packet := encode_packet_suite ChaCha20Poly1305.

Definition decode_packet_suite (suite : Suite) (key packet : bytes)
    : result (Header * bytes) FramingError :=
  if decide (length packet < MIN_PACKET_LEN) then Err (TooShort (len packet)) else
  (header <-? Header_parse packet;
   let aad := build_aad (ChannelType_to_u8 (channel_type header)) (channel_id header) in
   pt <-? map_err CryptoErr
            (decrypt_suite suite key (sequence header) aad (drop HEADER_LEN packet));
   Ok (header, pt))%result.

Definition decode_packet := decode_packet_suite ChaCha20Poly1305.
End Framing.

(** ** Lemmas *)

Lemma ChannelType_from_to t : ChannelType_from_u8 (ChannelType_to_u8 t) = Some t.
Proof. by destruct t. Qed.

Lemma ChannelType_to_from x t : ChannelType_from_u8 x = Some t → ChannelType_to_u8 t = x.
Proof.
  unfold ChannelType_from_u8. intros H.
  repeat (case_match; try discriminate); by simplify_eq/=.
Qed.

Lemma ChannelType_to_u8_range t : (0 <= ChannelType_to_u8 t <= 6)%Z.
Proof. destruct t; simpl; lia. Qed.

Lemma ChannelType_u8 t : is_u8 (ChannelType_to_u8 t).
Proof. unfold is_u8. pose proof (ChannelType_to_u8_range t). lia. Qed.

#[export] Hint Resolve ChannelType_u8 : tele.

(** The header as the concatenation of its fields. *)
Definition header_bytes (h : Header) : bytes :=
  band_id h ++ [z2b (ChannelType_to_u8 (channel_type h))]
  ++ to_be_bytes 2 (channel_id h) ++ to_be_bytes 8 (sequence h).

Lemma length_header_bytes h :
  length (band_id h) = BAND_ID_LEN → length (header_bytes h) = HEADER_LEN.
Proof.
  intros E. unfold header_bytes. rewrite !length_app, E, !length_to_be_bytes. done.
Qed.

Lemma Header_write_layout h out :
  length (band_id h) = BAND_ID_LEN → HEADER_LEN ≤ length out →
  Header_write h out = Ret (header_bytes h ++ drop HEADER_LEN out, HEADER_LEN).
Proof.
  intros E L. unfold Header_write, header_bytes, HEADER_LEN, BAND_ID_LEN in *.
  rewrite decide_False by lia. do 2 f_equal.
  rewrite put_at_0, E.
  rewrite put_at_after by done. rewrite app_assoc.
  rewrite put_at_after by len_solve. rewrite (app_assoc (_ ++ [_])).
  rewrite put_at_after by len_solve.
  rewrite !length_to_be_bytes. simpl length. rewrite !drop_drop.
  by rewrite <- !app_assoc.
Qed.

Lemma Header_parse_layout h rest :
  Header_wf h → Header_parse (header_bytes h ++ rest) = Ok h.
Proof.
  intros (E & Hc & Hs). unfold Header_parse.
  rewrite decide_False
    by (rewrite length_app, length_header_bytes by done; lia).
  unfold header_bytes, BAND_ID_LEN, HEADER_LEN in *. rewrite <- !app_assoc.
  slices. rewrite from_be_bytes_cons. cbn [length]. rewrite Z.mul_1_r.
  rewrite b2z_z2b_u8 by auto with tele. change (from_be_bytes []) with 0%Z.
  rewrite Z.add_0_r, ChannelType_from_to. f_equal.
  rewrite from_to_be_u16, from_to_be_u64 by done. by destruct h.
Qed.

(** A parsed header is well-formed and is what the packet starts with. *)
Lemma Header_parse_inv input h :
  Header_parse input = Ok h →
  Header_wf h ∧ input = header_bytes h ++ drop HEADER_LEN input ∧ HEADER_LEN ≤ length input.
Proof.
  unfold Header_parse. case_decide as L; [done|].
  destruct (ChannelType_from_u8 _) as [t|] eqn:Et; [|done]. intros [= <-].
  unfold HEADER_LEN in *. apply ChannelType_to_from in Et.
  assert (L1 : length (slice 16 17 input) = 1) by (rewrite length_slice; lia).
  assert (L2 : length (slice 17 19 input) = 2) by (rewrite length_slice; lia).
  assert (L3 : length (slice 19 27 input) = 8) by (rewrite length_slice; lia).
  split_and!; [|..|lia].
  - split_and!; simpl; [by rewrite length_slice by (unfold BAND_ID_LEN; lia)|
      by apply from_be_u16|by apply from_be_u64].
  - unfold header_bytes; cbn [band_id channel_type channel_id sequence].
    assert (E1 : [z2b (ChannelType_to_u8 t)] = slice 16 17 input).
    { rewrite Et. destruct (slice 16 17 input) as [|b [|??]]; try done.
      rewrite from_be_bytes_cons. simpl. rewrite Z.mul_1_r. unfold from_be_bytes. simpl.
      by rewrite Z.add_0_r, z2b_b2z. }
    rewrite E1, !to_from_be_bytes' by done. rewrite <- !app_assoc.
    rewrite slice_drop_app, slice_drop_app, slice_drop_app by lia.
    by rewrite slice_drop_app, drop_0 by (unfold BAND_ID_LEN; lia).
Qed.

Section FramingLemmas.
Context {crates : Crates}.

(** Encoding never panics: the header buffer it allocates is long enough. *)
Lemma encode_packet_suite_eq suite key band ct cid seq pt :
  length band = BAND_ID_LEN →
  encode_packet_suite suite key band ct cid seq pt =
  Ret (match encrypt_suite suite key seq (build_aad (ChannelType_to_u8 ct) cid) pt with
       | Ok sealed => Ok (header_bytes (mkHeader band ct cid seq) ++ sealed)
       | Err e => Err (CryptoErr e)
       end).
Proof.
  intros E. unfold encode_packet_suite.
  destruct (encrypt_suite _ _ _ _ _) as [sealed|e]; [|done].
  rewrite Header_write_layout; [|done|by rewrite length_replicate].
  simpl. by rewrite app_nil_r.
Qed.

Lemma decode_packet_suite_layout {spec : CratesSpec} suite key h sealed pt :
  Header_wf h →
  encrypt_suite suite key (sequence h)
    (build_aad (ChannelType_to_u8 (channel_type h)) (channel_id h)) pt = Ok sealed →
  decode_packet_suite suite key (header_bytes h ++ sealed) = Ok (h, pt).
Proof.
  intros W E. unfold decode_packet_suite.
  pose proof (length_header_bytes h (proj1 W)) as L.
  rewrite decide_False.
  2:{ rewrite length_app, L. rewrite (encrypt_suite_len _ _ _ _ _ _ E).
      unfold MIN_PACKET_LEN, HEADER_LEN, TAG_LEN. lia. }
  rewrite Header_parse_layout by done. cbn [result_bind].
  rewrite <- L, drop_app_length.
  rewrite (open_seal_suite _ _ _ _ _ _ E). done.
Qed.

Lemma decode_packet_suite_inv {spec : CratesSpec} suite key p h pt :
  decode_packet_suite suite key p = Ok (h, pt) →
  Header_wf h ∧ MIN_PACKET_LEN ≤ length p ∧
  ∃ sealed, p = header_bytes h ++ sealed ∧
    encrypt_suite suite key (sequence h)
      (build_aad (ChannelType_to_u8 (channel_type h)) (channel_id h)) pt = Ok sealed.
Proof.
  unfold decode_packet_suite. case_decide as L; [done|].
  destruct (Header_parse p) as [h'|] eqn:Hp; [|done]. cbn [result_bind].
  destruct (decrypt_suite _ _ _ _ _) as [pt'|] eqn:Hd; [|done]. intros [= <- <-].
  apply Header_parse_inv in Hp as (W & E & _).
  split_and!; [done|lia|]. exists (drop HEADER_LEN p). split; [done|].
  by apply seal_open_suite.
Qed.

End FramingLemmas.

Lemma be_u16_pairs_u16 n d : length d ≤ n → Forall is_u16 (be_u16_pairs d).
Proof.
  revert d. induction n as [|n IH]; intros [|a [|b d]]; simpl; intros L;
    try lia; try by constructor.
  constructor.
  - by apply from_be_u16.
  - apply IH. lia.
Qed.

(** ** Properties *)

Section FramingProperties.
Context {crates : Crates} {spec : CratesSpec}.

(** The 27-byte header round-trips: parsing what [Header_write] put at
    the start of a large enough buffer gives the header back, whatever
    follows it. *)
Theorem header_roundtrip (h : Header) (out : bytes) :
  Header_wf h → HEADER_LEN ≤ length out →
  ∃ buf, Header_write h out = Ret (buf, HEADER_LEN)
    ∧ Header_parse buf = Ok h ∧ length buf = length out.
Proof.
  intros W L. exists (header_bytes h ++ drop HEADER_LEN out). split_and!.
  - apply Header_write_layout; [apply W|done].
  - by apply Header_parse_layout.
  - rewrite length_app, length_header_bytes, length_drop by apply W. lia.
Qed.

(** Decoding inverts encoding under either suite: a packet the encoder
    produced decodes, under the same key and suite, to exactly the header
    fields and plaintext that went in, and is 43 bytes longer than the
    plaintext. *)
Theorem decode_encode suite key band ct cid seq pt p :
  Header_wf (mkHeader band ct cid seq) →
  encode_packet_suite suite key band ct cid seq pt = Ret (Ok p) →
  decode_packet_suite suite key p = Ok (mkHeader band ct cid seq, pt)
  ∧ length p = length pt + MIN_PACKET_LEN.
Proof.
  intros W. rewrite encode_packet_suite_eq by apply W.
  destruct (encrypt_suite _ _ _ _ _) as [sealed|] eqn:E; [|done]. intros [= <-].
  split; [by apply decode_packet_suite_layout|].
  rewrite length_app, length_header_bytes by apply W.
  rewrite (encrypt_suite_len _ _ _ _ _ _ E). unfold MIN_PACKET_LEN. lia.
Qed.

(** C32: encoding inverts decoding: any byte string the decoder accepts is
    the encoding of what it returned, so a packet has no malleable byte; in
    particular an accepted packet has at least 43 bytes and a known channel
    type. *)
Theorem encode_decode suite key p h pt :
  decode_packet_suite suite key p = Ok (h, pt) →
  Header_wf h ∧ MIN_PACKET_LEN ≤ length p ∧
  encode_packet_suite suite key (band_id h) (channel_type h) (channel_id h) (sequence h) pt
    = Ret (Ok p).
Proof.
  intros H. apply decode_packet_suite_inv in H as (W & L & sealed & -> & E).
  split_and!; [done..|]. rewrite encode_packet_suite_eq by apply W.
  rewrite E. by destruct h.
Qed.

(** A route id derived from a name is a nonzero [u16], so it is never
    the broadcast id 0. *)
Theorem route_id_for_range name : (1 <= route_id_for name <= u16_max)%Z.
Proof.
  unfold route_id_for, u16_max.
  destruct (list_find _ _) as [[i v]|] eqn:E; simpl; [|lia].
  apply list_find_Some in E as (E & Hv & _).
  pose proof (be_u16_pairs_u16 _ _ (Nat.le_refl
    (length (sha256 (ROUTE_ID_DOMAIN ++ name))))) as F.
  rewrite Forall_lookup in F. apply F in E. unfold is_u16 in E. lia.
Qed.
End FramingProperties.

(** Witnesses: a Stream packet under the sample crates. *)
Definition sample_header : Header := mkHeader (replicate 16 Byte.x07) Stream 48879 81985529216486895.

Definition sample_key : bytes := replicate 32 Byte.x2a.

Lemma header_roundtrip_witness :
  ∃ buf, Header_write sample_header (replicate 30 Byte.x00) = Ret (buf, HEADER_LEN)
    ∧ Header_parse buf = Ok sample_header ∧ length buf = 30.
Proof.
  apply (header_roundtrip sample_header (replicate 30 Byte.x00)).
  - unfold Header_wf, is_u16, is_u64; simpl; split_and!; (reflexivity || lia).
  - simpl. unfold HEADER_LEN. lia.
Defined.

Definition sample_packet : bytes :=
  match @encode_packet_suite sample_crates Aes256Gcm sample_key (band_id sample_header)
          Stream 48879 81985529216486895 (str_bytes "hello") with
  | Ret (Ok p) => p
  | _ => []
  end.

Lemma decode_encode_witness :
  @decode_packet_suite sample_crates Aes256Gcm sample_key sample_packet
    = Ok (sample_header, str_bytes "hello") ∧ length sample_packet = 48.
Proof.
  apply (@decode_encode sample_crates sample_crates_spec Aes256Gcm sample_key (band_id sample_header)
    Stream 48879 81985529216486895 (str_bytes "hello") sample_packet).
  - unfold Header_wf, is_u16, is_u64; simpl; split_and!; (reflexivity || lia).
  - vm_compute. reflexivity.
Defined.

Lemma encode_decode_witness :
  Header_wf sample_header ∧ MIN_PACKET_LEN ≤ length sample_packet ∧
  @encode_packet_suite sample_crates Aes256Gcm sample_key (band_id sample_header)
    Stream 48879 81985529216486895 (str_bytes "hello") = Ret (Ok sample_packet).
Proof.
  apply (@encode_decode sample_crates sample_crates_spec Aes256Gcm sample_key sample_packet
    sample_header (str_bytes "hello")).
  vm_compute. reflexivity.
Defined.
