(* ===== verification/HubFrame.v ===== *)
(** The hub's view of a packet ([rust/telesthitium/src/frame.rs]): the routing
    fields of the cleartext header and the hexadecimal form of a band id. *)

From S2P Require Import Prelude Crypto Framing.

Record RouteInfo := mkRouteInfo {
  ri_band_id : bytes;
  ri_channel_type : option ChannelType;
  ri_channel_id : Z;
}.

Definition route_info (pkt : bytes) : option RouteInfo :=
  if decide (length pkt < MIN_PACKET_LEN) then None else
  Some {| ri_band_id := slice 0 BAND_ID_LEN pkt;
          ri_channel_type := ChannelType_from_u8 (from_be_bytes (slice 16 17 pkt));
          ri_channel_id := from_be_bytes (slice 17 19 pkt) |}.

Definition band_hex (b : bytes) : bytes := to_hex b.

(** ** [str] slicing and [u8::from_str_radix]

    A [&str] is its UTF-8 bytes. Slicing panics when an end is not on a
    character boundary. *)
Definition is_char_boundary (s : bytes) (i : nat) : bool :=
  match s !! i with
  | None => Nat.eqb i (length s)
  | Some b => (b2z b <? 128)%Z || (192 <=? b2z b)%Z
  end.

Definition str_slice (lo hi : nat) (s : bytes) : outcome bytes :=
  if (is_char_boundary s lo && is_char_boundary s hi && Nat.leb lo hi)%bool
  then Ret (slice lo hi s) else Panic.

Definition hex_val (b : byte) : option Z :=
  let c := b2z b in
  if (48 <=? c)%Z && (c <=? 57)%Z then Some (c - 48)%Z
  else if (97 <=? c)%Z && (c <=? 102)%Z then Some (c - 87)%Z
  else if (65 <=? c)%Z && (c <=? 70)%Z then Some (c - 55)%Z
  else None.

(** Digits are accumulated with overflow checks. *)
Fixpoint radix16_digits (acc : Z) (s : bytes) : option Z :=
  match s with
  | [] => Some acc
  | b :: rest =>
      d ← hex_val b;
      let acc' := (acc * 16 + d)%Z in
      if (acc' <=? u8_max)%Z then radix16_digits acc' rest else None
  end.

(** A leading [+] is accepted before at least one digit. *)
Definition u8_from_str_radix16 (s : bytes) : option Z :=
  match s with
  | [] => None
  | b :: rest =>
      if decide (b2z b = 43%Z) then
        match rest with [] => None | _ => radix16_digits 0 rest end
      else radix16_digits 0 s
  end.

(** The loop of [band_from_hex] over the output bytes [i, i + n). *)
Fixpoint hex_bytes (s : bytes) (i n : nat) : outcome (option bytes) :=
  match n with
  | O => Ret (Some [])
  | S n' =>
      pair ← str_slice (i * 2) (i * 2 + 2) s;
      match u8_from_str_radix16 pair with
      | None => Ret None
      | Some v =>
          rest ← hex_bytes s (S i) n';
          Ret (cons (z2b v) <$> rest)
      end
  end.

Definition band_from_hex (s : bytes) : outcome (option bytes) :=
  if decide (length s ≠ BAND_ID_LEN * 2) then Ret None else hex_bytes s 0 BAND_ID_LEN.

(** ** Lemmas *)

Definition is_ascii (b : byte) : Prop := (b2z b < 128)%Z.

Lemma hex_digit_val n : (0 <= n < 16)%Z → hex_val (hex_digit n) = Some n ∧ is_ascii (hex_digit n)
  ∧ b2z (hex_digit n) ≠ 43%Z.
Proof.
  intros H. unfold hex_digit, hex_val, is_ascii.
  destruct (n <? 10)%Z eqn:E; bool_to_Prop; rewrite !b2z_z2b_u8 by (unfold is_u8; lia);
    repeat (case_match; bool_to_Prop); split_and!; try (f_equal; lia); try lia.
  all: exfalso; rewrite ?andb_false_iff, ?Z.leb_gt in *; lia.
Qed.

Lemma to_hex_cons b l :
  to_hex (b :: l) = hex_digit (b2z b / 16) :: hex_digit (b2z b mod 16) :: to_hex l.
Proof. done. Qed.

Lemma length_to_hex l : length (to_hex l) = 2 * length l.
Proof. induction l as [|b l IH]; [done|]. rewrite to_hex_cons. simpl. rewrite IH. lia. Qed.

Lemma hex_nibbles b : (0 <= b2z b / 16 < 16)%Z ∧ (0 <= b2z b mod 16 < 16)%Z.
Proof.
  pose proof (b2z_range b). split; [|apply Z.mod_pos_bound; lia].
  split; [apply Z.div_pos; lia|]. apply Z.div_lt_upper_bound; lia.
Qed.

Lemma from_str_radix16_byte b :
  u8_from_str_radix16 [hex_digit (b2z b / 16); hex_digit (b2z b mod 16)] = Some (b2z b).
Proof.
  destruct (hex_nibbles b) as [Hhi Hlo].
  destruct (hex_digit_val _ Hhi) as (V1 & _ & P1), (hex_digit_val _ Hlo) as (V2 & _ & _).
  simpl. rewrite decide_False by done. rewrite V1. simpl.
  pose proof (b2z_range b). pose proof (Z.div_mod (b2z b) 16 ltac:(lia)).
  rewrite (proj2 (Z.leb_le _ _)) by (unfold u8_max; lia). rewrite V2. simpl.
  rewrite (proj2 (Z.leb_le _ _)) by (unfold u8_max; lia). f_equal. lia.
Qed.

Lemma to_hex_ascii l : Forall is_ascii (to_hex l).
Proof.
  induction l as [|b l IH]; [constructor|]. rewrite to_hex_cons.
  destruct (hex_nibbles b) as [Hhi Hlo].
  repeat constructor; try (by apply hex_digit_val). done.
Qed.

(** In an ASCII string every in-range index is a character boundary. *)
Lemma str_slice_ascii lo hi s :
  Forall is_ascii s → lo ≤ hi → hi ≤ length s → str_slice lo hi s = Ret (slice lo hi s).
Proof.
  intros F H1 H2. unfold str_slice.
  assert (B : ∀ i, i ≤ length s → is_char_boundary s i = true).
  { intros i Hi. unfold is_char_boundary. destruct (s !! i) as [b|] eqn:E.
    - rewrite Forall_lookup in F. apply F in E. unfold is_ascii in E.
      by rewrite (proj2 (Z.ltb_lt _ _)).
    - apply lookup_ge_None in E. apply Nat.eqb_eq. lia. }
  by rewrite !B, (proj2 (Nat.leb_le _ _)) by lia.
Qed.

Lemma hex_bytes_ascii s i n :
  Forall is_ascii s → (i + n) * 2 ≤ length s → ∃ r, hex_bytes s i n = Ret r
    ∧ ∀ l, r = Some l → length l = n.
Proof.
  intros F. revert i. induction n as [|n IH]; intros i L; cbn [hex_bytes].
  { exists (Some []). split; [done|]. by intros ? [= <-]. }
  rewrite str_slice_ascii by (done || lia). cbn [mbind outcome_bind].
  destruct (u8_from_str_radix16 _) as [v|]; [|by exists None].
  destruct (IH (S i)) as (r & -> & Hr); [lia|]. cbn [mbind outcome_bind].
  exists (cons (z2b v) <$> r). split; [done|]. intros l E.
  destruct r as [l'|]; simplify_eq/=. f_equal. by apply Hr.
Qed.

Lemma hex_bytes_to_hex pre l :
  hex_bytes (to_hex (pre ++ l)) (length pre) (length l) = Ret (Some l).
Proof.
  revert pre. induction l as [|b l IH]; intros pre; [done|]. cbn [length hex_bytes].
  rewrite str_slice_ascii; [|apply to_hex_ascii|lia|].
  2:{ rewrite length_to_hex, length_app. simpl. lia. }
  assert (E : slice (length pre * 2) (length pre * 2 + 2) (to_hex (pre ++ b :: l))
            = [hex_digit (b2z b / 16); hex_digit (b2z b mod 16)]).
  { unfold to_hex. rewrite bind_app. fold (to_hex pre). fold (to_hex (b :: l)).
    rewrite slice_skip by (rewrite length_to_hex; lia).
    rewrite length_to_hex. unfold slice.
    replace (length pre * 2 + 2 - 2 * length pre - (length pre * 2 - 2 * length pre)) with 2 by lia.
    replace (length pre * 2 - 2 * length pre) with 0 by lia. done. }
  rewrite E. cbn [mbind outcome_bind]. rewrite from_str_radix16_byte.
  specialize (IH (pre ++ [b])). rewrite <- app_assoc in IH. simpl in IH.
  rewrite length_app, Nat.add_comm in IH. simpl in IH. rewrite IH.
  simpl. by rewrite z2b_b2z.
Qed.

(** ** Properties *)

(** A band id survives its hexadecimal form: [band_from_hex] recovers
    every 16-byte id from the [band_hex] the hub writes into socket names and
    URLs. *)
Theorem band_hex_roundtrip b :
  length b = BAND_ID_LEN → band_from_hex (band_hex b) = Ret (Some b).
Proof.
  intros L. unfold band_from_hex, band_hex. rewrite decide_False.
  2:{ rewrite length_to_hex, L. unfold BAND_ID_LEN. lia. }
  rewrite <- L. apply (hex_bytes_to_hex []).
Qed.

Lemma band_hex_roundtrip_witness :
  band_from_hex (band_hex (replicate 16 Byte.xbe)) = Ret (Some (replicate 16 Byte.xbe)).
Proof. apply (band_hex_roundtrip (replicate 16 Byte.xbe)). reflexivity. Defined.

(** On ASCII text [band_from_hex] never panics and returns a 16-byte id or
    nothing, but on a 32-byte UTF-8 text whose multi-byte character straddles
    an even index it panics on the slice instead of returning [None]. *)
Theorem band_from_hex_panics_only_on_non_ascii :
  (∀ s, Forall is_ascii s → ∃ r, band_from_hex s = Ret r
     ∧ ∀ b, r = Some b → length b = BAND_ID_LEN)
  ∧ ∃ s, length s = BAND_ID_LEN * 2 ∧ band_from_hex s = Panic.
Proof.
  split.
  - intros s F. unfold band_from_hex. case_decide as L; [by exists None|].
    apply hex_bytes_ascii; [done|]. rewrite L. done.
  - exists (str_bytes "a" ++ [Byte.xc3; Byte.xa9] ++ replicate 29 Byte.x30). split; reflexivity.
Qed.

(** The hub and the library read the same header: for every packet the
    library decodes, the hub extracts the same band id, channel type and
    channel id; the hub refuses exactly the packets below the 43-byte minimum,
    and whatever it reads is what the packet's first 19 bytes say. *)
Theorem route_info_agrees {crates : Crates} {spec : CratesSpec} (pkt : bytes) :
  (route_info pkt = None ↔ length pkt < MIN_PACKET_LEN)
  ∧ ∀ suite key h pt, decode_packet_suite suite key pkt = Ok (h, pt) →
      route_info pkt = Some (mkRouteInfo (band_id h) (Some (channel_type h)) (channel_id h)).
Proof.
  split.
  - unfold route_info. case_decide; split; (done || lia).
  - intros suite key h pt H. apply decode_packet_suite_inv in H as (W & L & sealed & -> & _).
    unfold route_info. rewrite decide_False by lia.
    destruct W as (E & Hc & Hs). unfold header_bytes. rewrite <- !app_assoc.
    unfold BAND_ID_LEN in *. slices.
    rewrite from_be_bytes_cons. cbn [length]. rewrite Z.mul_1_r, b2z_z2b_u8 by auto with tele.
    change (from_be_bytes []) with 0%Z.
    by rewrite Z.add_0_r, ChannelType_from_to, from_to_be_u16.
Qed.

(** What the hub reads of a packet a peer sealed, and its length. *)
Lemma sealed_route_info {crates : Crates} {spec : CratesSpec} suite key band ct cid seq pt pkt :
  Header_wf (mkHeader band ct cid seq) → encode_packet_suite suite key band ct cid seq pt = Ret (Ok pkt) →
  route_info pkt = Some (mkRouteInfo band (Some ct) cid) ∧ length pkt = MIN_PACKET_LEN + length pt.
Proof.
  intros W E. rewrite encode_packet_suite_eq in E by apply W. destruct (encrypt_suite _ _ _ _ _) as [sealed|] eqn:Es; [|done]. injection E as <-.
  split.
  - by apply (proj2 (route_info_agrees _) suite key (mkHeader band ct cid seq) pt), decode_packet_suite_layout.
  - apply encrypt_suite_len in Es. rewrite length_app, Es, length_header_bytes by apply W. unfold MIN_PACKET_LEN. lia.
Qed.

Lemma route_info_agrees_witness :
  route_info sample_packet = Some (mkRouteInfo (replicate 16 Byte.x07) (Some Stream) 48879).
Proof.
  apply (proj2 (@route_info_agrees sample_crates sample_crates_spec sample_packet)
    Aes256Gcm sample_key sample_header (str_bytes "hello")).
  vm_compute. reflexivity.
Defined.
