(* ===== verification/StreamWire.v ===== *)
(** Stream payload formats: the 8-byte Stream header
    ([rust/telesthete/src/wire/stream.rs]) and the dmabuf descriptor
    ([rust/telesthete/src/wire/dmabuf.rs]). *)

From S2P Require Import Prelude.

(** * Stream header *)

Definition STREAM_HEADER_LEN : nat := 8.

Definition FLAG_INIT : Z := 0x01.
Definition FLAG_KEYFRAME : Z := 0x02.
Definition FLAG_END_FRAME : Z := 0x04.
Definition FLAG_FRAGMENT_CONT : Z := 0x08.
Definition FLAG_DMABUF : Z := 0x10.
Definition FLAG_WITH_FENCE : Z := 0x20.
Definition FLAG_REUSE : Z := 0x40.
Definition FLAG_EXTENDED : Z := 0x80.

Definition StreamFlags_all : Z :=
  foldr Z.lor 0%Z [FLAG_INIT; FLAG_KEYFRAME; FLAG_END_FRAME; FLAG_FRAGMENT_CONT;
                   FLAG_DMABUF; FLAG_WITH_FENCE; FLAG_REUSE; FLAG_EXTENDED].

(** [StreamFlags::from_bits] fails when a bit outside the defined ones is set;
    [contains] tests one flag. *)
Definition StreamFlags_from_bits (raw : Z) : option Z :=
  if (Z.land raw (Z.lnot StreamFlags_all) =? 0)%Z then Some raw else None.

Definition flags_contains (flags f : Z) : bool := (Z.land flags f =? f)%Z.

Record StreamHeader := mkStreamHeader { sh_flags : Z; frame_id : Z }.

Definition StreamHeader_wf (h : StreamHeader) : Prop := is_u8 (sh_flags h) ∧ is_u32 (frame_id h).

Inductive StreamHeaderError :=
| StreamTooShort (n : Z)
| ReservedNonzero
| UnknownFlags (b : Z).

Definition StreamHeader_write (h : StreamHeader) (out : bytes)
    : result (bytes * nat) StreamHeaderError :=
  if decide (length out < STREAM_HEADER_LEN) then Err (StreamTooShort (len out)) else
  let out := put_at 0 [z2b (sh_flags h)] out in
  let out := put_at 1 [Byte.x00] out in
  let out := put_at 2 [Byte.x00] out in
  let out := put_at 3 [Byte.x00] out in
  let out := put_at 4 (to_be_bytes 4 (frame_id h)) out in
  Ok (out, STREAM_HEADER_LEN).

Definition StreamHeader_parse (input : bytes) : result (StreamHeader * bytes) StreamHeaderError :=
  if decide (length input < STREAM_HEADER_LEN) then Err (StreamTooShort (len input)) else
  let raw_flags := from_be_bytes (slice 0 1 input) in
  match StreamFlags_from_bits raw_flags with
  | None => Err (UnknownFlags raw_flags)
  | Some flags =>
      if decide (slice 1 4 input ≠ [Byte.x00; Byte.x00; Byte.x00]) then Err ReservedNonzero
      else Ok (mkStreamHeader flags (from_be_bytes (slice 4 8 input)),
               drop STREAM_HEADER_LEN input)
  end.

(** * dmabuf descriptor *)

Definition MAX_PLANES : Z := 4.
Definition MAX_FDS_PER_PACKET : Z := 5.
Definition DMABUF_HEADER_BYTES : nat := 22.
Definition PLANE_BYTES : nat := 9.

Record DmabufPlane := mkPlane { pl_offset : Z; pl_stride : Z; pl_fd_index : Z }.

Record DmabufDescriptor := mkDmabuf {
  db_width : Z;
  db_height : Z;
  db_fourcc : Z;
  db_modifier : Z;
  db_planes : list DmabufPlane;
  db_fd_count : Z;
}.

Definition DmabufPlane_wf (p : DmabufPlane) : Prop :=
  is_u32 (pl_offset p) ∧ is_u32 (pl_stride p) ∧ is_u8 (pl_fd_index p).

Definition DmabufDescriptor_wf (d : DmabufDescriptor) : Prop :=
  is_u32 (db_width d) ∧ is_u32 (db_height d) ∧ is_u32 (db_fourcc d)
  ∧ is_u64 (db_modifier d) ∧ is_u8 (db_fd_count d) ∧ Forall DmabufPlane_wf (db_planes d).

Inductive DmabufError :=
| DmaTooShort (got need : Z)
| PlaneCountOutOfRange (n : Z)
| FdCountOutOfRange (n : Z)
| FdIndexOutOfRange (fd idx : Z)
| ReuseFdMismatch (n : Z).

Definition encoded_len (plane_count : nat) : nat := DMABUF_HEADER_BYTES + PLANE_BYTES * plane_count.

(** The plane loop of [write]: the buffer and the offset after it. *)
Fixpoint write_planes (ps : list DmabufPlane) (off : nat) (out : bytes) : bytes * nat :=
  match ps with
  | [] => (out, off)
  | p :: rest =>
      let out := put_at off (to_be_bytes 4 (pl_offset p)) out in
      let out := put_at (off + 4) (to_be_bytes 4 (pl_stride p)) out in
      let out := put_at (off + 8) [z2b (pl_fd_index p)] out in
      write_planes rest (off + PLANE_BYTES) out
  end.

Definition Dmabuf_write (d : DmabufDescriptor) (out : bytes) : result (bytes * nat) DmabufError :=
  let need := encoded_len (length (db_planes d)) in
  if decide (length out < need) then Err (DmaTooShort (len out) (Z.of_nat need)) else
  if negb ((1 <=? len (db_planes d)) && (len (db_planes d) <=? MAX_PLANES))%Z
  then Err (PlaneCountOutOfRange (Z.min (len (db_planes d)) 255)) else
  if (MAX_FDS_PER_PACKET <? db_fd_count d)%Z then Err (FdCountOutOfRange (db_fd_count d)) else
  let out := put_at 0 (to_be_bytes 4 (db_width d)) out in
  let out := put_at 4 (to_be_bytes 4 (db_height d)) out in
  let out := put_at 8 (to_le_bytes 4 (db_fourcc d)) out in
  let out := put_at 12 (to_be_bytes 8 (db_modifier d)) out in
  let out := put_at 20 [z2b (len (db_planes d))] out in
  let out := put_at 21 [z2b (db_fd_count d)] out in
  Ok (write_planes (db_planes d) DMABUF_HEADER_BYTES out).

(** The plane loop of [parse], reading [n] planes from offset [off]. *)
Fixpoint parse_planes (input : bytes) (fd_count : Z) (n off : nat)
    : result (list DmabufPlane) DmabufError :=
  match n with
  | O => Ok []
  | S n' =>
      let offset := from_be_bytes (slice off (off + 4) input) in
      let stride := from_be_bytes (slice (off + 4) (off + 8) input) in
      let fd_index := from_be_bytes (slice (off + 8) (off + 9) input) in
      if ((0 <? fd_count) && (fd_count <=? fd_index))%Z
      then Err (FdIndexOutOfRange fd_count fd_index)
      else (rest <-? parse_planes input fd_count n' (off + PLANE_BYTES);
            Ok (mkPlane offset stride fd_index :: rest))%result
  end.

Definition Dmabuf_parse (input : bytes) : result DmabufDescriptor DmabufError :=
  if decide (length input < DMABUF_HEADER_BYTES)
  then Err (DmaTooShort (len input) (Z.of_nat DMABUF_HEADER_BYTES)) else
  let width := from_be_bytes (slice 0 4 input) in
  let height := from_be_bytes (slice 4 8 input) in
  let fourcc := from_le_bytes (slice 8 12 input) in
  let modifier := from_be_bytes (slice 12 20 input) in
  let plane_count := from_be_bytes (slice 20 21 input) in
  let fd_count := from_be_bytes (slice 21 22 input) in
  if negb ((1 <=? plane_count) && (plane_count <=? MAX_PLANES))%Z
  then Err (PlaneCountOutOfRange plane_count) else
  if (MAX_FDS_PER_PACKET <? fd_count)%Z then Err (FdCountOutOfRange fd_count) else
  let need := encoded_len (Z.to_nat plane_count) in
  if decide (length input < need) then Err (DmaTooShort (len input) (Z.of_nat need)) else
  (planes <-? parse_planes input fd_count (Z.to_nat plane_count) DMABUF_HEADER_BYTES;
   Ok (mkDmabuf width height fourcc modifier planes fd_count))%result.

(** [fd_count.saturating_sub(expected_fence_fds)] and the largest
    [fd_index + 1] over the planes. *)
Definition Dmabuf_check_flags (d : DmabufDescriptor) (flags : Z) : result unit DmabufError :=
  let expected_fence_fds := if flags_contains flags FLAG_WITH_FENCE then 1%Z else 0%Z in
  if flags_contains flags FLAG_REUSE then
    if (db_fd_count d =? expected_fence_fds)%Z then Ok tt else Err (ReuseFdMismatch (db_fd_count d))
  else
    let needed := foldr (λ p acc, Z.max (pl_fd_index p + 1) acc) 0%Z (db_planes d) in
    let available := Z.max 0 (db_fd_count d - expected_fence_fds) in
    if (available <? needed)%Z then Err (FdIndexOutOfRange (db_fd_count d) ((needed - 1) mod 256))
    else Ok tt.

Definition fourcc_to_str (fourcc : Z) : bytes := to_le_bytes 4 fourcc.

(** ** Lemmas *)

Definition stream_header_bytes (h : StreamHeader) : bytes :=
  [z2b (sh_flags h); Byte.x00; Byte.x00; Byte.x00] ++ to_be_bytes 4 (frame_id h).

Lemma StreamHeader_write_layout h out :
  STREAM_HEADER_LEN ≤ length out →
  StreamHeader_write h out = Ok (stream_header_bytes h ++ drop STREAM_HEADER_LEN out, STREAM_HEADER_LEN).
Proof.
  unfold StreamHeader_write, STREAM_HEADER_LEN. intros L.
  rewrite decide_False by lia. do 2 f_equal.
  do 8 (destruct out as [|? out]; [simpl in L; lia|]). done.
Qed.

(** Every flag byte is made of defined flags. *)
Lemma StreamFlags_from_bits_u8 raw : is_u8 raw → StreamFlags_from_bits raw = Some raw.
Proof.
  unfold is_u8, StreamFlags_from_bits. intros Hr.
  change StreamFlags_all with (Z.ones 8).
  rewrite <- Z.ldiff_land, Z.ldiff_ones_r, Z.shiftr_div_pow2, Z.div_small by lia. done.
Qed.

(** The two ends of one plane, and of the whole descriptor, as concatenations. *)
Definition plane_bytes (p : DmabufPlane) : bytes :=
  to_be_bytes 4 (pl_offset p) ++ to_be_bytes 4 (pl_stride p) ++ [z2b (pl_fd_index p)].

Definition dmabuf_bytes (d : DmabufDescriptor) : bytes :=
  (to_be_bytes 4 (db_width d) ++ to_be_bytes 4 (db_height d) ++ to_le_bytes 4 (db_fourcc d)
   ++ to_be_bytes 8 (db_modifier d) ++ [z2b (len (db_planes d))] ++ [z2b (db_fd_count d)])
  ++ (db_planes d ≫= plane_bytes).

Lemma length_plane_bytes p : length (plane_bytes p) = PLANE_BYTES.
Proof. unfold plane_bytes. by autorewrite with tele_len. Qed.

Lemma length_planes_bytes ps : length (ps ≫= plane_bytes) = PLANE_BYTES * length ps.
Proof.
  induction ps as [|p ps IH]; [done|].
  rewrite bind_cons, length_app, length_plane_bytes, IH. simpl length. lia.
Qed.

Lemma length_dmabuf_bytes d : length (dmabuf_bytes d) = encoded_len (length (db_planes d)).
Proof.
  unfold dmabuf_bytes. rewrite length_app, length_planes_bytes.
  by autorewrite with tele_len.
Qed.

Lemma write_planes_layout ps off a l :
  length a = off → PLANE_BYTES * length ps ≤ length l →
  write_planes ps off (a ++ l)
  = (a ++ (ps ≫= plane_bytes) ++ drop (PLANE_BYTES * length ps) l, off + PLANE_BYTES * length ps).
Proof.
  revert off a l. induction ps as [|p ps IH]; intros off a l E L.
  - simpl. rewrite drop_0, Nat.add_0_r. done.
  - unfold PLANE_BYTES in *. cbn [write_planes]. unfold PLANE_BYTES. simpl length in L.
    rewrite put_at_after by done. rewrite app_assoc.
    rewrite put_at_after by len_solve. rewrite (app_assoc (_ ++ to_be_bytes 4 _)).
    rewrite put_at_after by len_solve. rewrite (app_assoc _ [_]).
    rewrite IH by len_solve. rewrite !length_to_be_bytes, !drop_drop.
    f_equal; [|simpl length; lia].
    rewrite bind_cons. unfold plane_bytes at 2. rewrite <- !app_assoc.
    do 5 f_equal. simpl length. f_equal. lia.
Qed.

Lemma Dmabuf_write_layout d out :
  encoded_len (length (db_planes d)) ≤ length out →
  (1 <= len (db_planes d) <= MAX_PLANES)%Z → (db_fd_count d <= MAX_FDS_PER_PACKET)%Z →
  Dmabuf_write d out
  = Ok (dmabuf_bytes d ++ drop (encoded_len (length (db_planes d))) out,
        encoded_len (length (db_planes d))).
Proof.
  intros L Hp Hf. unfold Dmabuf_write. rewrite decide_False by lia.
  rewrite (proj2 (Z.leb_le 1 _)), (proj2 (Z.leb_le (len _) _)) by lia.
  rewrite (proj2 (Z.ltb_ge _ _)) by lia. cbn [andb negb]. f_equal.
  unfold encoded_len, DMABUF_HEADER_BYTES in *.
  rewrite put_at_0, put_at_after, app_assoc by len_solve.
  do 4 (rewrite put_at_after, app_assoc by len_solve).
  rewrite write_planes_layout by len_solve.
  unfold dmabuf_bytes. rewrite !length_to_be_bytes, length_to_le_bytes. simpl length.
  rewrite !drop_drop, <- !app_assoc. f_equal.
Qed.

(** What [parse] asks of the planes: with any fd at all, every plane names one. *)
Definition fds_ok (fd_count : Z) (p : DmabufPlane) : Prop :=
  fd_count = 0%Z ∨ (pl_fd_index p < fd_count)%Z.

#[export] Instance fds_ok_dec fd p : Decision (fds_ok fd p).
Proof. unfold fds_ok. apply _. Defined.

(** The first plane [parse] refuses. *)
Fixpoint first_bad_plane (fd_count : Z) (ps : list DmabufPlane) : option DmabufPlane :=
  match ps with
  | [] => None
  | p :: rest => if decide (fds_ok fd_count p) then first_bad_plane fd_count rest else Some p
  end.

Lemma first_bad_plane_None fd ps : first_bad_plane fd ps = None ↔ Forall (fds_ok fd) ps.
Proof.
  induction ps as [|p ps IH]; simpl; [done|].
  rewrite Forall_cons, <- IH. case_decide; naive_solver.
Qed.

Lemma fds_ok_test fd p :
  (0 <= fd)%Z → (0 <? fd)%Z && (fd <=? pl_fd_index p)%Z = negb (bool_decide (fds_ok fd p)).
Proof.
  intros. unfold fds_ok. case_bool_decide as E; cbn.
  - destruct (Z.ltb_spec 0 fd), (Z.leb_spec fd (pl_fd_index p)); try done. lia.
  - rewrite (proj2 (Z.ltb_lt _ _)), (proj2 (Z.leb_le _ _)); [done|lia..].
Qed.

Lemma plane_fields p r :
  DmabufPlane_wf p →
  from_be_bytes (slice 0 4 (plane_bytes p ++ r)) = pl_offset p
  ∧ from_be_bytes (slice 4 8 (plane_bytes p ++ r)) = pl_stride p
  ∧ from_be_bytes (slice 8 9 (plane_bytes p ++ r)) = pl_fd_index p.
Proof.
  intros (Wo & Ws & Wi). unfold plane_bytes. rewrite <- !app_assoc. slices.
  by rewrite !from_to_be_u32, from_be_bytes_1, b2z_z2b_u8 by done.
Qed.

Lemma parse_planes_layout fd ps off a l :
  (0 <= fd)%Z → Forall DmabufPlane_wf ps → length a = off →
  parse_planes (a ++ (ps ≫= plane_bytes) ++ l) fd (length ps) off
  = match first_bad_plane fd ps with
    | None => Ok ps
    | Some p => Err (FdIndexOutOfRange fd (pl_fd_index p))
    end.
Proof.
  intros Hfd W. revert off a. induction W as [|p ps Wp W IH]; intros off a <-; [done|].
  rewrite bind_cons, <- app_assoc. cbn [length parse_planes first_bad_plane].
  rewrite !(slice_skip _ _ a) by lia.
  replace (length a - length a) with 0 by lia.
  replace (length a + 4 - length a) with 4 by lia.
  replace (length a + 8 - length a) with 8 by lia.
  replace (length a + 9 - length a) with 9 by lia.
  destruct (plane_fields p ((ps ≫= plane_bytes) ++ l) Wp) as (-> & -> & ->).
  rewrite fds_ok_test by done. case_bool_decide as Hok; cbn [negb].
  - rewrite decide_True, app_assoc by done.
    rewrite IH by (rewrite length_app, length_plane_bytes; done).
    destruct (first_bad_plane fd ps); cbn; [done|]. by destruct p.
  - by rewrite decide_False by done.
Qed.

(** Reading back what was written: the descriptor when every plane names an
    available fd, the error for the first plane that does not otherwise. *)
Lemma Dmabuf_parse_layout d l :
  DmabufDescriptor_wf d →
  (1 <= len (db_planes d) <= MAX_PLANES)%Z → (db_fd_count d <= MAX_FDS_PER_PACKET)%Z →
  Dmabuf_parse (dmabuf_bytes d ++ l)
  = match first_bad_plane (db_fd_count d) (db_planes d) with
    | None => Ok d
    | Some p => Err (FdIndexOutOfRange (db_fd_count d) (pl_fd_index p))
    end.
Proof.
  intros (Ww & Wh & Wf & Wm & Wc & Wp) Hp Hf. unfold Dmabuf_parse.
  pose proof (length_dmabuf_bytes d) as L. unfold encoded_len, DMABUF_HEADER_BYTES, MAX_PLANES, MAX_FDS_PER_PACKET in *.
  rewrite decide_False by (rewrite length_app; lia).
  assert (Hu : is_u8 (len (db_planes d))) by (unfold is_u8; lia).
  assert (E : (from_be_bytes (slice 20 21 (dmabuf_bytes d ++ l)) = len (db_planes d)
    ∧ from_be_bytes (slice 21 22 (dmabuf_bytes d ++ l)) = db_fd_count d
    ∧ from_be_bytes (slice 0 4 (dmabuf_bytes d ++ l)) = db_width d
    ∧ from_be_bytes (slice 4 8 (dmabuf_bytes d ++ l)) = db_height d
    ∧ from_le_bytes (slice 8 12 (dmabuf_bytes d ++ l)) = db_fourcc d
    ∧ from_be_bytes (slice 12 20 (dmabuf_bytes d ++ l)) = db_modifier d)).
  { unfold dmabuf_bytes. rewrite <- !app_assoc. slices.
    by rewrite !from_to_be_u32, !from_be_bytes_1, !b2z_z2b_u8, from_to_le_u32, from_to_be_u64 by done. }
  destruct E as (-> & -> & -> & -> & -> & ->).
  rewrite (proj2 (Z.leb_le 1 _)), (proj2 (Z.leb_le (len _) _)) by lia.
  rewrite (proj2 (Z.ltb_ge _ _)) by lia. cbn [andb negb].
  replace (Z.to_nat (len (db_planes d))) with (length (db_planes d)) by (unfold len; lia).
  rewrite decide_False by (rewrite length_app; lia).
  unfold dmabuf_bytes. rewrite <- app_assoc.
  rewrite parse_planes_layout; [|unfold is_u8 in *; lia|done|by autorewrite with tele_len].
  destruct (first_bad_plane _ _); cbn; [done|]. by destruct d.
Qed.

(** The largest [fd_index + 1]. *)
Lemma fds_needed_spec ps n :
  (0 <= n)%Z →
  (foldr (λ p acc, Z.max (pl_fd_index p + 1) acc) 0 ps <= n)%Z
  ↔ Forall (λ p, (pl_fd_index p < n)%Z) ps.
Proof.
  intros Hn. induction ps as [|p ps IH]; simpl.
  - split; [constructor|lia].
  - rewrite Forall_cons, <- IH. lia.
Qed.

(** ** Properties *)

(** Writing a Stream header into a large enough buffer and parsing the
    buffer gives the header back with the bytes after it, and a parsed header
    writes back to the bytes it was read from; no flag byte is refused as
    unknown, so a refusal is a short buffer or a nonzero reserved byte. *)
Theorem stream_header_roundtrip h out input :
  StreamHeader_wf h → STREAM_HEADER_LEN ≤ length out →
  (∃ out', StreamHeader_write h out = Ok (out', STREAM_HEADER_LEN)
     ∧ StreamHeader_parse out' = Ok (h, drop STREAM_HEADER_LEN out)) ∧
  match StreamHeader_parse input with
  | Ok (h', rest) => StreamHeader_wf h' ∧ input = stream_header_bytes h' ++ rest
  | Err (StreamTooShort n) => n = len input ∧ length input < STREAM_HEADER_LEN
  | Err ReservedNonzero => slice 1 4 input ≠ replicate 3 Byte.x00
  | Err (UnknownFlags _) => False
  end.
Proof.
  intros (Hf & Hi) L. split.
  - rewrite StreamHeader_write_layout by done. eexists; split; [done|].
    unfold StreamHeader_parse, STREAM_HEADER_LEN in *.
    rewrite decide_False by (unfold stream_header_bytes; len_solve).
    unfold stream_header_bytes. rewrite <- !app_assoc.
    change ([z2b (sh_flags h); Byte.x00; Byte.x00; Byte.x00])
      with ([z2b (sh_flags h)] ++ [Byte.x00; Byte.x00; Byte.x00]).
    rewrite <- !app_assoc. slices.
    rewrite from_be_bytes_1, b2z_z2b_u8, StreamFlags_from_bits_u8 by done.
    rewrite decide_False by naive_solver. rewrite drop_0, from_to_be_u32 by done. by destruct h.
  - unfold StreamHeader_parse, STREAM_HEADER_LEN. case_decide as Hl; [by split|].
    assert (L1 : length (slice 0 1 input) = 1) by (rewrite length_slice; lia).
    assert (L4 : length (slice 4 8 input) = 4) by (rewrite length_slice; lia).
    rewrite StreamFlags_from_bits_u8 by auto with tele. case_decide as Hr; [done|].
    split; [split; simpl; auto with tele|]. unfold stream_header_bytes. simpl sh_flags. simpl frame_id.
    rewrite to_from_be_bytes' by done.
    change ([?x; Byte.x00; Byte.x00; Byte.x00]) with ([x] ++ [Byte.x00; Byte.x00; Byte.x00]).
    rewrite u8_slice, <- Hr by done.
    by rewrite <- !app_assoc, !slice_drop_app, drop_0 by lia.
Qed.

(** A dmabuf descriptor with 1 to 4 planes and at most 5 fds is written to
    [encoded_len] bytes from which [parse] returns the same descriptor exactly
    when no plane names an fd past a nonzero [fd_count]; otherwise the reader
    refuses the bytes the writer accepted, with the first such plane. *)
Theorem dmabuf_roundtrip d out :
  DmabufDescriptor_wf d → encoded_len (length (db_planes d)) ≤ length out →
  (1 <= len (db_planes d) <= MAX_PLANES)%Z → (db_fd_count d <= MAX_FDS_PER_PACKET)%Z →
  ∃ out', Dmabuf_write d out = Ok (out', encoded_len (length (db_planes d)))
    ∧ length out' = length out
    ∧ (Dmabuf_parse out' = Ok d ↔ Forall (fds_ok (db_fd_count d)) (db_planes d))
    ∧ (¬ Forall (fds_ok (db_fd_count d)) (db_planes d) →
       ∃ p, p ∈ db_planes d ∧ Dmabuf_parse out' = Err (FdIndexOutOfRange (db_fd_count d) (pl_fd_index p))).
Proof.
  intros W L Hp Hf. rewrite Dmabuf_write_layout by done. eexists; split; [done|].
  rewrite Dmabuf_parse_layout by done. rewrite <- first_bad_plane_None. split_and!.
  - rewrite length_app, length_dmabuf_bytes, length_drop. lia.
  - destruct (first_bad_plane _ _); naive_solver.
  - destruct (first_bad_plane (db_fd_count d) (db_planes d)) as [p|] eqn:E; [|done]. intros _.
    exists p. split; [|done]. clear -E. induction (db_planes d) as [|q ps IH]; simpl in E; [done|].
    rewrite elem_of_cons. case_decide; [auto|]. left. congruence.
Qed.

(** [check_flags] accepts a descriptor exactly when, under REUSE, the only
    fd is the fence the flags announce, and, without REUSE, every plane names an
    fd below the ones left after the fence. *)
Theorem dmabuf_check_flags_spec d flags :
  let fence := if flags_contains flags FLAG_WITH_FENCE then 1%Z else 0%Z in
  Dmabuf_check_flags d flags = Ok tt ↔
  if flags_contains flags FLAG_REUSE then db_fd_count d = fence
  else Forall (λ p, (pl_fd_index p < Z.max 0 (db_fd_count d - fence))%Z) (db_planes d).
Proof.
  intros fence. unfold Dmabuf_check_flags. fold fence.
  destruct (flags_contains flags FLAG_REUSE).
  - destruct (Z.eqb_spec (db_fd_count d) fence); naive_solver.
  - rewrite <- fds_needed_spec by lia. destruct (Z.ltb_spec (Z.max 0 (db_fd_count d - fence))
      (foldr (λ p acc, Z.max (pl_fd_index p + 1) acc) 0 (db_planes d)))%Z; split; try done; lia.
Qed.

(** ** Witnesses *)

Definition sample_planes : list DmabufPlane := [mkPlane 0 7680 0; mkPlane 8294400 3840 1].
Definition sample_dmabuf : DmabufDescriptor := mkDmabuf 1920 1080 842094158 0 sample_planes 2.
(** A reused two-fd buffer sent with a fresh fence: [fd_count] is 1. *)
Definition reused_dmabuf : DmabufDescriptor := mkDmabuf 1920 1080 842094158 0 sample_planes 1.

Lemma reused_dmabuf_wf : DmabufDescriptor_wf reused_dmabuf.
Proof. repeat (split || constructor); vm_compute; done. Qed.

Lemma stream_header_roundtrip_witness :
  ∃ out', StreamHeader_write (mkStreamHeader 0x12 7) (replicate 9 Byte.xff) = Ok (out', 8)
    ∧ StreamHeader_parse out' = Ok (mkStreamHeader 0x12 7, [Byte.xff]).
Proof.
  refine (proj1 (stream_header_roundtrip (mkStreamHeader 0x12 7) (replicate 9 Byte.xff) [] _ _)).
  - by split.
  - unfold STREAM_HEADER_LEN. simpl. lia.
Defined.

Lemma dmabuf_roundtrip_witness :
  ∃ out', Dmabuf_write reused_dmabuf (replicate 40 Byte.x00) = Ok (out', 40)
    ∧ ∃ p, p ∈ sample_planes ∧ Dmabuf_parse out' = Err (FdIndexOutOfRange 1 (pl_fd_index p)).
Proof.
  destruct (dmabuf_roundtrip reused_dmabuf (replicate 40 Byte.x00) reused_dmabuf_wf) as (out' & E & _ & _ & H).
  - vm_compute. lia.
  - vm_compute. done.
  - vm_compute. done.
  - exists out'. split; [exact E|]. apply H. intros F. rewrite <- first_bad_plane_None in F. done.
Defined.
