(* ===== verification/Fragment.v ===== *)
(** The fragmentation envelope and the reassembler
    ([rust/telesthete/src/wire/fragment.rs]). *)

From S2P Require Import Prelude.

(** * Chunks *)

Definition VERSION : byte := Byte.x01.
Definition FRAG_HEADER_LEN : nat := 21.
Definition MAX_CHANNEL_DATA : Z := 1024.
Definition MAX_CHUNK_PAYLOAD : Z := MAX_CHANNEL_DATA - Z.of_nat FRAG_HEADER_LEN.
Definition FRAGMENT_ID_LEN : nat := 16.

Record Chunk := mkChunk {
  fragment_id : bytes;
  seq : Z;
  total : Z;
  data : bytes;
}.

Definition Chunk_wf (c : Chunk) : Prop :=
  length (fragment_id c) = FRAGMENT_ID_LEN ∧ is_u16 (total c) ∧ (0 <= seq c < total c)%Z.

Definition pack_chunk (fid : bytes) (sq tot : Z) (d : bytes) : bytes :=
  [VERSION] ++ fid ++ to_be_bytes 2 sq ++ to_be_bytes 2 tot ++ d.

Definition parse_chunk (chunk : bytes) : option Chunk :=
  if decide (length chunk < FRAG_HEADER_LEN ∨ slice 0 1 chunk ≠ [VERSION]) then None else
  let fid := slice 1 17 chunk in
  let sq := from_be_bytes (slice 17 19 chunk) in
  let tot := from_be_bytes (slice 19 21 chunk) in
  if ((tot =? 0) || (tot <=? sq))%Z then None
  else Some (mkChunk fid sq tot (drop FRAG_HEADER_LEN chunk)).

(** [fragment]: both asserts panic; [as u16] casts keep the low 16 bits. *)
Definition fragment (payload : bytes) (chunk_size : Z) (fid : bytes) : outcome (list bytes) :=
  if (chunk_size <=? 0)%Z then Panic else
  match payload with
  | [] => Ret [pack_chunk fid 0 1 []]
  | _ =>
      let pieces := chunks (Z.to_nat chunk_size) payload in
      if (0xFFFF <? len pieces)%Z then Panic else
      let tot := wrap 16 (len pieces) in
      Ret (imap (λ i piece, pack_chunk fid (wrap 16 (Z.of_nat i)) tot piece) pieces)
  end.

(** * Reassembler *)

Definition DEFAULT_REASSEMBLY_TIMEOUT : Z := from_secs 30.
Definition DEFAULT_BUFFER_LIMIT : Z := 256.
Definition DEFAULT_MAX_FRAGMENTS : Z := 16384.
Definition WIRE_MAX_FRAGMENTS : Z := 0xFFFF.
Definition LIBRARY_MAX_BUFFERED_BYTES : Z := 64 * 1024 * 1024.
Definition DEFAULT_EVICTED_MEMORY : Z := 1024.

Record Partial := mkPartial {
  p_total : Z;
  p_parts : gmap Z bytes;
  p_size : Z;
  first_seen : Z;
  order : Z;
}.

(** [next_order] is a [u64] that only grows: it counts messages opened, at most one per
    chunk fed ([feed_all_order]), so it is kept unbounded. *)
Record Reassembler := mkReassembler {
  buffers : gmap bytes Partial;
  limit : Z;
  max_fragments : Z;
  max_chunk_payload : Z;
  max_buffered_bytes : option Z;
  timeout : Z;
  r_bytes : Z;
  evicted : gmap bytes Z;
  evicted_order : list (bytes * Z);
  next_order : Z;
}.

Definition Reassembler_new : Reassembler :=
  mkReassembler ∅ DEFAULT_BUFFER_LIMIT DEFAULT_MAX_FRAGMENTS MAX_CHUNK_PAYLOAD None
    DEFAULT_REASSEMBLY_TIMEOUT 0 ∅ [] 0.

Definition with_buffer_limit (l : Z) (r : Reassembler) : Reassembler :=
  mkReassembler (buffers r) (Z.max l 1) (max_fragments r) (max_chunk_payload r)
    (max_buffered_bytes r) (timeout r) (r_bytes r) (evicted r) (evicted_order r) (next_order r).

Definition with_max_fragments (m : Z) (r : Reassembler) : Reassembler :=
  mkReassembler (buffers r) (limit r) (Z.max m 1) (max_chunk_payload r)
    (max_buffered_bytes r) (timeout r) (r_bytes r) (evicted r) (evicted_order r) (next_order r).

Definition with_max_chunk_payload (m : Z) (r : Reassembler) : Reassembler :=
  mkReassembler (buffers r) (limit r) (max_fragments r) (Z.max m 1)
    (max_buffered_bytes r) (timeout r) (r_bytes r) (evicted r) (evicted_order r) (next_order r).

Definition with_max_buffered_bytes (m : option Z) (r : Reassembler) : Reassembler :=
  mkReassembler (buffers r) (limit r) (max_fragments r) (max_chunk_payload r)
    m (timeout r) (r_bytes r) (evicted r) (evicted_order r) (next_order r).

Definition with_timeout (t : Z) (r : Reassembler) : Reassembler :=
  mkReassembler (buffers r) (limit r) (max_fragments r) (max_chunk_payload r)
    (max_buffered_bytes r) t (r_bytes r) (evicted r) (evicted_order r) (next_order r).

Definition usize_saturating_mul (a b : Z) : Z := Z.min u64_max (a * b).

Definition for_chunk_size (chunk_size : Z) : Reassembler :=
  let chunk_size := Z.max chunk_size 1 in
  with_max_buffered_bytes
    (Some (Z.max LIBRARY_MAX_BUFFERED_BYTES (usize_saturating_mul chunk_size WIRE_MAX_FRAGMENTS)))
    (with_max_fragments WIRE_MAX_FRAGMENTS (with_max_chunk_payload chunk_size Reassembler_new)).

Definition buffered_bytes (r : Reassembler) : Z := r_bytes r.
Definition pending (r : Reassembler) : nat := size (buffers r).

(** Field updates. *)
Definition set_buffers (b : gmap bytes Partial) (bs : Z) (r : Reassembler) : Reassembler :=
  mkReassembler b (limit r) (max_fragments r) (max_chunk_payload r)
    (max_buffered_bytes r) (timeout r) bs (evicted r) (evicted_order r) (next_order r).

Definition set_evicted (e : gmap bytes Z) (o : list (bytes * Z)) (r : Reassembler) : Reassembler :=
  mkReassembler (buffers r) (limit r) (max_fragments r) (max_chunk_payload r)
    (max_buffered_bytes r) (timeout r) (r_bytes r) e o (next_order r).

Definition set_next_order (n : Z) (r : Reassembler) : Reassembler :=
  mkReassembler (buffers r) (limit r) (max_fragments r) (max_chunk_payload r)
    (max_buffered_bytes r) (timeout r) (r_bytes r) (evicted r) (evicted_order r) n.

(** [oldest]: [min_by_key] keeps the first entry among those of least order. *)
Definition older (acc : option (bytes * Z)) (e : bytes * Partial) : option (bytes * Z) :=
  match acc with
  | Some (k, o) => if (order e.2 <? o)%Z then Some (e.1, order e.2) else Some (k, o)
  | None => Some (e.1, order e.2)
  end.

Definition oldest (exclude : option bytes) (r : Reassembler) : option bytes :=
  fst <$> foldl older None (filter (λ e, Some e.1 ≠ exclude) (map_to_list (buffers r))).

Definition drop_partial (fid : bytes) (r : Reassembler) : Reassembler :=
  match buffers r !! fid with
  | Some p => set_buffers (delete fid (buffers r)) (r_bytes r - p_size p) r
  | None => r
  end.

(** [if self.evicted.get(&old) == Some(&at) { self.evicted.remove(&old); }] *)
Definition forget_evicted (e : gmap bytes Z) (x : bytes * Z) : gmap bytes Z :=
  if decide (e !! x.1 = Some x.2) then delete x.1 e else e.

(** The trimming loop of [evict]: pop while more ids than the cap are held. *)
Fixpoint trim_evicted (e : gmap bytes Z) (o : list (bytes * Z)) : gmap bytes Z * list (bytes * Z) :=
  if (Z.of_nat (size e) <=? DEFAULT_EVICTED_MEMORY)%Z then (e, o) else
  match o with
  | [] => (e, [])
  | x :: o' => trim_evicted (forget_evicted e x) o'
  end.

Definition evict (fid : bytes) (now : Z) (r : Reassembler) : Reassembler :=
  let r := drop_partial fid r in
  let '(e, o) := trim_evicted (<[fid := now]> (evicted r)) (evicted_order r ++ [(fid, now)]) in
  set_evicted e o r.

Definition expired (r : Reassembler) (now at_ : Z) : bool := (timeout r <? duration_since now at_)%Z.

(** The first loop of [gc]: pop expired ids from the front. *)
Fixpoint gc_evicted (exp : Z → bool) (e : gmap bytes Z) (o : list (bytes * Z))
    : gmap bytes Z * list (bytes * Z) :=
  match o with
  | [] => (e, [])
  | x :: o' => if exp x.2 then gc_evicted exp (forget_evicted e x) o' else (e, o)
  end.

Definition gc (now : Z) (r : Reassembler) : Reassembler :=
  let '(e, o) := gc_evicted (expired r now) (evicted r) (evicted_order r) in
  let r := set_evicted e o r in
  if decide (buffers r = ∅) then r else
  let stale := fst <$> filter (λ e, expired r now (first_seen e.2) = true) (map_to_list (buffers r)) in
  foldl (λ r k, drop_partial k r) r stale.

(** The budget loop of [feed]. [Some (r, true)]: there is room now; [Some (r,
    false)]: only this message is left and it was evicted; [None]: out of fuel.
    Every round removes a partial, so one more round than there are partials
    is enough. *)
Fixpoint make_room (fuel : nat) (max n : Z) (fid : bytes) (now : Z) (r : Reassembler)
    : option (Reassembler * bool) :=
  match fuel with
  | O => None
  | S fuel' =>
      if (max <? r_bytes r + n)%Z then
        match oldest (Some fid) r with
        | Some victim => make_room fuel' max n fid now (evict victim now r)
        | None => Some (evict fid now r, false)
        end
      else Some (r, true)
  end.

(** [part.parts[&i]] for each [i] in order; a missing index panics. *)
Definition join_parts (p : Partial) : outcome bytes :=
  foldl (λ acc i, out ← acc; d ← unwrap (p_parts p !! i); Ret (out ++ d))
    (Ret []) (seqZ 0 (p_total p)).

(** The partial of the chunk is opened when there is none, evicting the oldest
    message when the buffers are full. *)
Definition open_partial (now : Z) (c : Chunk) (r : Reassembler) : Reassembler :=
  match buffers r !! fragment_id c with
  | Some _ => r
  | None =>
      let r := if (limit r <=? Z.of_nat (size (buffers r)))%Z then
                 match oldest None r with Some victim => evict victim now r | None => r end
               else r in
      let o := next_order r in
      let r := set_next_order (o + 1) r in
      set_buffers (<[fragment_id c := mkPartial (total c) ∅ 0 now o]> (buffers r)) (r_bytes r) r
  end.

(** The last part of [feed]: store the chunk in its partial, and return the
    message when it is complete. *)
Definition store_chunk (now : Z) (c : Chunk) (r : Reassembler) : outcome (Reassembler * option bytes) :=
  let n := len (data c) in
  let r := open_partial now c r in
  entry ← unwrap (buffers r !! fragment_id c);
  let entry := mkPartial (p_total entry) (<[seq c := data c]> (p_parts entry))
                 (p_size entry + n) (first_seen entry) (order entry) in
  let r := set_buffers (<[fragment_id c := entry]> (buffers r)) (r_bytes r + n) r in
  if negb (Z.of_nat (size (p_parts entry)) =? p_total entry)%Z then Ret (r, None) else
  part ← unwrap (buffers r !! fragment_id c);
  let r := set_buffers (delete (fragment_id c) (buffers r)) (r_bytes r - p_size part) r in
  out ← join_parts part;
  Ret (r, Some out).

(** [feed]; a loop that ran out of fuel would show as a panic, like an index
    that is missing. *)
Definition feed (now : Z) (chunk : bytes) (r : Reassembler) : outcome (Reassembler * option bytes) :=
  match parse_chunk chunk with
  | None => Ret (r, None)
  | Some c =>
    if (max_fragments r <? total c)%Z then Ret (r, None) else
    let r := gc now r in
    if decide (is_Some (evicted r !! fragment_id c)) then Ret (r, None) else
    let existing := p_total <$> buffers r !! fragment_id c in
    let mismatch := match existing with Some t => negb (t =? total c)%Z | None => false end in
    let r := if mismatch then drop_partial (fragment_id c) r else r in
    let existing := if mismatch then None else existing in
    dup ← match existing with
          | Some _ => p ← unwrap (buffers r !! fragment_id c);
                      Ret (bool_decide (is_Some (p_parts p !! seq c)))
          | None => Ret false
          end;
    if (dup : bool) then Ret (r, None) else
    if bool_decide (existing = None) && (total c =? 1)%Z then Ret (r, Some (data c)) else
    let n := len (data c) in
    if (max_chunk_payload r <? n)%Z then Ret (r, None) else
    '(r, room) ←
      match max_buffered_bytes r with
      | Some max =>
          if (max <? n)%Z then Ret (r, false)
          else unwrap (make_room (S (size (buffers r))) max n (fragment_id c) now r)
      | None => Ret (r, true)
      end;
    if (room : bool) then store_chunk now c r else Ret (r, None)
  end.

(** Feeding a sequence of payloads, each with its arrival time. *)
Fixpoint feed_all (r : Reassembler) (evs : list (Z * bytes))
    : outcome (Reassembler * list (option bytes)) :=
  match evs with
  | [] => Ret (r, [])
  | (now, chunk) :: evs' =>
      '(r, o) ← feed now chunk r;
      '(r, os) ← feed_all r evs';
      Ret (r, o :: os)
  end.

(** ** Chunk lemmas *)

Lemma parse_pack_chunk fid sq tot d :
  length fid = FRAGMENT_ID_LEN → is_u16 tot → (0 <= sq < tot)%Z →
  parse_chunk (pack_chunk fid sq tot d) = Some (mkChunk fid sq tot d).
Proof.
  unfold FRAGMENT_ID_LEN, is_u16. intros E Ht Hs. unfold parse_chunk, pack_chunk, FRAG_HEADER_LEN.
  slices. rewrite decide_False by (intros [?|?]; [len_solve|done]).
  rewrite !from_to_be_u16 by (unfold is_u16; lia).
  rewrite (proj2 (Z.eqb_neq _ _)), (proj2 (Z.leb_gt _ _)) by lia. simpl orb. cbv iota.
  by rewrite drop_0.
Qed.

Lemma parse_chunk_inv w c :
  parse_chunk w = Some c →
  Chunk_wf c ∧ w = pack_chunk (fragment_id c) (seq c) (total c) (data c).
Proof.
  unfold parse_chunk, Chunk_wf, pack_chunk, FRAG_HEADER_LEN, FRAGMENT_ID_LEN.
  case_decide as Hd; [done|]. apply Decidable.not_or in Hd as [Hl Hv].
  apply dec_stable in Hv.
  destruct (_ || _) eqn:Hb; [done|]. intros [= <-]. bool_to_Prop.
  cbn [fragment_id seq total data app].
  assert (L2 : length (slice 17 19 w) = 2) by (rewrite length_slice; lia).
  assert (L3 : length (slice 19 21 w) = 2) by (rewrite length_slice; lia).
  pose proof (from_be_bytes_range (slice 17 19 w)).
  split; [split_and!; [by rewrite length_slice by lia|by apply from_be_u16|lia|lia]|].
  change (VERSION :: ?x) with ([VERSION] ++ x).
  rewrite <- Hv, !to_from_be_bytes' by done.
  by rewrite !slice_drop_app, drop_0 by lia.
Qed.

(** The pieces of a message: an empty message has one empty piece. *)
Definition pieces_of (chunk_size : Z) (payload : bytes) : list bytes :=
  match payload with [] => [[]] | _ => chunks (Z.to_nat chunk_size) payload end.

Lemma concat_pieces_of cs payload : (0 < cs)%Z → concat (pieces_of cs payload) = payload.
Proof. intros. destruct payload as [|b l]; [done|]. apply concat_chunks. lia. Qed.

Lemma pieces_of_pos cs payload : (0 < cs)%Z → (1 <= len (pieces_of cs payload))%Z.
Proof.
  intros. unfold len. destruct payload as [|b l]; [done|].
  destruct (pieces_of cs (b :: l)) eqn:E; [|simpl; lia].
  apply chunks_nonempty in E; [done|lia|done].
Qed.

Lemma pieces_of_size cs payload :
  (0 < cs)%Z → Forall (λ d, (len d <= cs)%Z) (pieces_of cs payload).
Proof.
  intros. destruct payload as [|b l].
  - repeat constructor. unfold len. simpl. lia.
  - unfold pieces_of. eapply Forall_impl; [apply chunks_size|]. unfold len. intros d Hd. simpl in Hd. lia.
Qed.

(** The wire chunks of a message that fits in 65535 pieces. *)
Definition wires_of (cs : Z) (payload fid : bytes) : list bytes :=
  let ps := pieces_of cs payload in
  imap (λ i d, pack_chunk fid (Z.of_nat i) (len ps) d) ps.

Lemma fragment_eq payload cs fid :
  (0 < cs)%Z →
  fragment payload cs fid =
  if (0xFFFF <? len (pieces_of cs payload))%Z then Panic else Ret (wires_of cs payload fid).
Proof.
  intros Hc. unfold fragment. rewrite (proj2 (Z.leb_gt _ _)) by lia.
  destruct payload as [|b l]; [done|].
  change (chunks _ (b :: l)) with (pieces_of cs (b :: l)).
  destruct (Z.ltb_spec 65535 (len (pieces_of cs (b :: l)))); [done|].
  unfold wires_of. f_equal. pose proof (len_nonneg (pieces_of cs (b :: l))).
  apply imap_ext. intros i d Hi. apply lookup_lt_Some in Hi. unfold wrap, len in *.
  by rewrite !Z.mod_small by lia.
Qed.

(** ** Reassembler lemmas *)

Definition config (r : Reassembler) :=
  (limit r, max_fragments r, max_chunk_payload r, max_buffered_bytes r, timeout r).

Lemma drop_partial_buffers k r : buffers (drop_partial k r) = delete k (buffers r).
Proof.
  unfold drop_partial. destruct (buffers r !! k) eqn:E; [done|]. by rewrite delete_id.
Qed.

Lemma drop_partial_frame k r :
  config (drop_partial k r) = config r ∧ evicted (drop_partial k r) = evicted r
  ∧ evicted_order (drop_partial k r) = evicted_order r ∧ next_order (drop_partial k r) = next_order r.
Proof. unfold drop_partial. by destruct (buffers r !! k). Qed.

Lemma foldl_older_None l : foldl older None l = None → l = [].
Proof.
  destruct l as [|e l]; [done|]. simpl.
  assert (G : ∀ k o, foldl older (Some (k, o)) l ≠ None).
  { induction l as [|e' l IH]; intros k o; simpl; [done|]. case_match; apply IH. }
  intros E. by apply G in E.
Qed.

Lemma foldl_older_Some l k o k' o' :
  foldl older (Some (k, o)) l = Some (k', o') →
  ((k', o') = (k, o) ∨ ∃ e, e ∈ l ∧ k' = e.1 ∧ o' = order e.2)
  ∧ (o' <= o)%Z ∧ Forall (λ e, (o' <= order e.2)%Z) l.
Proof.
  revert k o. induction l as [|e l IH]; intros k o; simpl.
  - intros [= -> ->]. split_and!; [by left|lia|constructor].
  - case_match eqn:Hc; bool_to_Prop; intros E; apply IH in E as (H1 & H2 & H3).
    + split_and!; [|lia|constructor; [lia|done]].
      destruct H1 as [[= -> ->]|(e' & ? & ? & ?)]; right; [exists e|exists e']; set_solver.
    + split_and!; [|lia|constructor; [lia|done]].
      destruct H1 as [?|(e' & ? & ? & ?)]; [by left|right; exists e'; set_solver].
Qed.

(** [oldest] returns a buffered message other than the excluded one, and no
    other such message is older. *)
Lemma oldest_Some ex r k :
  oldest ex r = Some k →
  ∃ p, buffers r !! k = Some p ∧ Some k ≠ ex
    ∧ ∀ k' p', buffers r !! k' = Some p' → Some k' ≠ ex → (order p <= order p')%Z.
Proof.
  unfold oldest. set (l := filter _ _). intros E.
  assert (Hl : ∀ k p, (k, p) ∈ l ↔ Some k ≠ ex ∧ buffers r !! k = Some p).
  { intros. unfold l. by rewrite list_elem_of_filter, elem_of_map_to_list. }
  destruct l as [|[k0 p0] l']; [done|]. simpl in E.
  destruct (foldl older (Some (k0, order p0)) l') as [[k1 o1]|] eqn:F; [|done].
  simplify_eq/=. apply foldl_older_Some in F as (H1 & H2 & H3). rewrite Forall_forall in H3.
  assert (G : ∃ p, (k, p) ∈ (k0, p0) :: l' ∧ order p = o1).
  { destruct H1 as [[= -> ->]|([k2 p2] & ? & ? & ?)]; simplify_eq/=.
    - exists p0. set_solver.
    - exists p2. set_solver. }
  destruct G as (p & Hin & Ho). apply Hl in Hin as [Hne Hp]. exists p. split_and!; [done..|].
  intros k' p' Hk' Hne'. subst o1. assert (Hin : (k', p') ∈ (k0, p0) :: l') by by apply Hl.
  apply elem_of_cons in Hin as [[= -> ->]|Hin]; [done|]. apply (H3 _ Hin).
Qed.

Lemma oldest_None ex r k p :
  oldest ex r = None → buffers r !! k = Some p → ex = Some k.
Proof.
  unfold oldest. intros E Hk. apply fmap_None, foldl_older_None in E.
  destruct (decide (Some k = ex)) as [<-|Hne]; [done|].
  assert (Hin : (k, p) ∈ filter (λ e, Some e.1 ≠ ex) (map_to_list (buffers r))).
  { apply list_elem_of_filter. by rewrite elem_of_map_to_list. }
  rewrite E in Hin. set_solver.
Qed.

(** *** Invariant *)

Record Partial_wf (next : Z) (p : Partial) : Prop := {
  pw_parts : ∀ i d, p_parts p !! i = Some d → (0 <= i < p_total p)%Z;
  pw_incomplete : (Z.of_nat (size (p_parts p)) < p_total p)%Z;
  pw_size : p_size p = map_sum len (p_parts p);
  pw_order : (order p < next)%Z;
}.

Record Reassembler_wf (r : Reassembler) : Prop := {
  rw_limit : (1 <= limit r)%Z;
  rw_partial : ∀ k p, buffers r !! k = Some p → Partial_wf (next_order r) p;
  rw_orders : ∀ k1 k2 p1 p2, buffers r !! k1 = Some p1 → buffers r !! k2 = Some p2 →
                order p1 = order p2 → k1 = k2;
  rw_bytes : r_bytes r = map_sum p_size (buffers r);
  rw_count : (Z.of_nat (size (buffers r)) <= limit r)%Z;
  rw_budget : ∀ m, max_buffered_bytes r = Some m → (r_bytes r <= Z.max 0 m)%Z;
  rw_evicted : ∀ k at_, evicted r !! k = Some at_ → (k, at_) ∈ evicted_order r;
  rw_evicted_count : (Z.of_nat (size (evicted r)) <= DEFAULT_EVICTED_MEMORY)%Z;
  rw_disjoint : ∀ k, is_Some (evicted r !! k) → buffers r !! k = None;
}.

Lemma Partial_wf_size_nonneg n p : Partial_wf n p → (0 <= p_size p)%Z.
Proof. intros W. rewrite (pw_size _ _ W). apply map_sum_nonneg. intros. apply len_nonneg. Qed.

Lemma Partial_wf_mono n m p : (n <= m)%Z → Partial_wf n p → Partial_wf m p.
Proof. intros ? [????]. split; auto. lia. Qed.

Lemma map_delete_size_le {A} (m : gmap bytes A) k : size (delete k m) ≤ size m.
Proof.
  destruct (m !! k) eqn:E; [rewrite map_size_delete_Some by done; lia|by rewrite delete_id].
Qed.

Lemma rw_size_le r k p :
  Reassembler_wf r → buffers r !! k = Some p → (0 <= p_size p <= r_bytes r)%Z.
Proof.
  intros W E. split; [eapply Partial_wf_size_nonneg, (rw_partial _ W), E|].
  rewrite (rw_bytes _ W). eapply map_sum_lookup_le; [|exact E].
  intros ???. eapply Partial_wf_size_nonneg, (rw_partial _ W). done.
Qed.

Lemma drop_partial_bytes k r :
  Reassembler_wf r →
  r_bytes (drop_partial k r) = map_sum p_size (delete k (buffers r))
  ∧ (r_bytes (drop_partial k r) <= r_bytes r)%Z.
Proof.
  intros W. unfold drop_partial. destruct (buffers r !! k) eqn:E; simpl.
  - pose proof (rw_size_le _ _ _ W E). rewrite (map_sum_delete _ _ _ _ E), (rw_bytes _ W) in *. lia.
  - rewrite delete_id, (rw_bytes _ W) by done. lia.
Qed.

Lemma drop_partial_wf k r : Reassembler_wf r → Reassembler_wf (drop_partial k r).
Proof.
  intros W. pose proof (drop_partial_bytes k r W) as [Hb Hle].
  destruct (drop_partial_frame k r) as ([= Hl Hf Hc Hm Ht] & He & Ho & Hn).
  pose proof W as []. split; rewrite ?Hl, ?Hm, ?He, ?Ho, ?Hn, ?drop_partial_buffers; auto.
  - intros ?? [_ ?]%lookup_delete_Some. eauto.
  - intros ???? [_ ?]%lookup_delete_Some [_ ?]%lookup_delete_Some. eauto.
  - pose proof (map_delete_size_le (buffers r) k). lia.
  - intros m Em. specialize (rw_budget0 m Em). lia.
  - intros k' Hk'. apply lookup_delete_None. right. auto.
Qed.

Lemma forget_evicted_subset e x k at_ : forget_evicted e x !! k = Some at_ → e !! k = Some at_.
Proof. unfold forget_evicted. case_decide; [|done]. by intros [_ ?]%lookup_delete_Some. Qed.

Lemma forget_evicted_size e x : size (forget_evicted e x) ≤ size e.
Proof. unfold forget_evicted. case_decide; [apply map_delete_size_le|done]. Qed.

(** What is left of the remembered ids stays listed in what is left of the
    queue. *)
Lemma forget_evicted_listed e x o :
  (∀ k at_, e !! k = Some at_ → (k, at_) ∈ x :: o) →
  ∀ k at_, forget_evicted e x !! k = Some at_ → (k, at_) ∈ o.
Proof.
  intros H k at_ Hk. pose proof (forget_evicted_subset _ _ _ _ Hk) as He.
  specialize (H _ _ He). apply elem_of_cons in H as [<-|?]; [|done].
  unfold forget_evicted in Hk. simpl in Hk. rewrite decide_True in Hk by done.
  by rewrite lookup_delete_eq in Hk.
Qed.

Lemma trim_evicted_spec o e e' o' :
  trim_evicted e o = (e', o') →
  (∀ k at_, e !! k = Some at_ → (k, at_) ∈ o) →
  (∀ k at_, e' !! k = Some at_ → e !! k = Some at_ ∧ (k, at_) ∈ o')
  ∧ (Z.of_nat (size e') <= DEFAULT_EVICTED_MEMORY)%Z.
Proof.
  revert e. induction o as [|x o IH]; intros e; simpl; case_match eqn:Hs; bool_to_Prop.
  - intros [= <- <-]. naive_solver.
  - intros [= <- <-] H. destruct (decide (e = ∅)) as [->|Hne]; [by rewrite map_size_empty in Hs|].
    apply map_choose in Hne as (k & at_ & Hk). specialize (H _ _ Hk). set_solver.
  - intros [= <- <-] H. naive_solver.
  - intros E H. destruct (IH _ E (forget_evicted_listed _ _ _ H)) as [H1 H2].
    split; [|done]. intros k at_ Hk. destruct (H1 _ _ Hk) as [?%forget_evicted_subset ?]. done.
Qed.

Lemma gc_evicted_spec exp o e e' o' :
  gc_evicted exp e o = (e', o') →
  (∀ k at_, e !! k = Some at_ → (k, at_) ∈ o) →
  (∀ k at_, e' !! k = Some at_ → e !! k = Some at_ ∧ (k, at_) ∈ o') ∧ size e' ≤ size e.
Proof.
  revert e. induction o as [|x o IH]; intros e; simpl.
  - intros [= <- <-]. naive_solver.
  - case_match; [|intros [= <- <-]; naive_solver]. intros E Hl.
    destruct (IH _ E (forget_evicted_listed _ _ _ Hl)) as [H1 H2].
    split; [|pose proof (forget_evicted_size e x); lia].
    intros k at_ Hk. destruct (H1 _ _ Hk) as [?%forget_evicted_subset ?]. done.
Qed.

Lemma set_evicted_wf e o r :
  Reassembler_wf r →
  (∀ k at_, e !! k = Some at_ → (k, at_) ∈ o) →
  (Z.of_nat (size e) <= DEFAULT_EVICTED_MEMORY)%Z →
  (∀ k, is_Some (e !! k) → buffers r !! k = None) →
  Reassembler_wf (set_evicted e o r).
Proof. intros [] ???. by split. Qed.

Lemma evict_eq k now r :
  ∃ e o, evict k now r = set_evicted e o (drop_partial k r)
    ∧ trim_evicted (<[k := now]> (evicted r)) (evicted_order r ++ [(k, now)]) = (e, o).
Proof.
  unfold evict. destruct (drop_partial_frame k r) as (_ & -> & -> & _).
  destruct (trim_evicted _ _) as [e o]. by exists e, o.
Qed.

Lemma evict_frame k now r :
  config (evict k now r) = config r ∧ next_order (evict k now r) = next_order r
  ∧ buffers (evict k now r) = delete k (buffers r) ∧ r_bytes (evict k now r) = r_bytes (drop_partial k r).
Proof.
  destruct (evict_eq k now r) as (e & o & -> & _).
  destruct (drop_partial_frame k r) as (Hc & _ & _ & Hn).
  split_and!; [exact Hc|exact Hn|exact (drop_partial_buffers k r)|done].
Qed.

Lemma evict_wf k now r : Reassembler_wf r → Reassembler_wf (evict k now r).
Proof.
  intros W. destruct (evict_eq k now r) as (e & o & -> & E).
  destruct (trim_evicted_spec _ _ _ _ E) as [H1 H2].
  { intros k' at_ [[-> ->]|[Hne Hk]]%lookup_insert_Some; [set_solver|].
    apply elem_of_app. left. by apply (rw_evicted _ W). }
  apply set_evicted_wf; [by apply drop_partial_wf|naive_solver|done|].
  intros k' [at_ Hk]. rewrite drop_partial_buffers. apply lookup_delete_None.
  destruct (H1 _ _ Hk) as [[[-> ->]|[Hne Hk']]%lookup_insert_Some _]; [by left|right].
  by apply (rw_disjoint _ W).
Qed.

(** Evicting [k] remembers no other message. *)
Lemma evict_evicted_ne k k' now r :
  Reassembler_wf r → k ≠ k' → evicted r !! k' = None → evicted (evict k now r) !! k' = None.
Proof.
  intros W Hne Hn. destruct (evict_eq k now r) as (e & o & -> & E). simpl.
  destruct (trim_evicted_spec _ _ _ _ E) as [H1 _].
  { intros k1 at_ [[-> ->]|[? Hk]]%lookup_insert_Some; [set_solver|].
    apply elem_of_app. left. by apply (rw_evicted _ W). }
  destruct (e !! k') as [at_|] eqn:Hk; [|done].
  destruct (H1 _ _ Hk) as [[[-> _]|[_ ?]]%lookup_insert_Some _]; congruence.
Qed.

Definition drop_partials (ks : list bytes) (r : Reassembler) : Reassembler :=
  foldl (λ r k, drop_partial k r) r ks.

Lemma drop_all_spec ks r :
  Reassembler_wf r →
  Reassembler_wf (drop_partials ks r) ∧ config (drop_partials ks r) = config r
  ∧ evicted (drop_partials ks r) = evicted r ∧ next_order (drop_partials ks r) = next_order r
  ∧ (r_bytes (drop_partials ks r) <= r_bytes r)%Z
  ∧ ∀ k p, buffers (drop_partials ks r) !! k = Some p ↔ k ∉ ks ∧ buffers r !! k = Some p.
Proof.
  unfold drop_partials. revert r. induction ks as [|k ks IH]; intros r W; simpl.
  - split_and!; [done..|lia|]. set_solver.
  - destruct (IH _ (drop_partial_wf k r W)) as (W' & Hc & He & Hn & Hb & Hl).
    destruct (drop_partial_frame k r) as (Hc' & He' & _ & Hn').
    pose proof (drop_partial_bytes k r W) as [_ ?].
    split_and!; [done|congruence..|lia|]. intros k' p.
    rewrite Hl, drop_partial_buffers, lookup_delete_Some, not_elem_of_cons. naive_solver.
Qed.

(** [gc] keeps exactly the partials that have not timed out. *)
Lemma gc_spec now r :
  Reassembler_wf r →
  Reassembler_wf (gc now r) ∧ config (gc now r) = config r ∧ next_order (gc now r) = next_order r
  ∧ (r_bytes (gc now r) <= r_bytes r)%Z
  ∧ (∀ k, evicted r !! k = None → evicted (gc now r) !! k = None)
  ∧ ∀ k p, buffers (gc now r) !! k = Some p
       ↔ buffers r !! k = Some p ∧ (duration_since now (first_seen p) <= timeout r)%Z.
Proof.
  intros W. unfold gc. destruct (gc_evicted _ _ _) as [e o] eqn:E.
  destruct (gc_evicted_spec _ _ _ _ _ E (rw_evicted _ W)) as [H1 H2].
  assert (W' : Reassembler_wf (set_evicted e o r)).
  { apply set_evicted_wf; [done|naive_solver|pose proof (rw_evicted_count _ W); lia|].
    intros k [at_ Hk]. apply (rw_disjoint _ W). exists at_. naive_solver. }
  assert (Hev : ∀ k, evicted r !! k = None → e !! k = None).
  { intros k Hn. destruct (e !! k) eqn:Hk; [|done]. apply H1 in Hk as [? _]. congruence. }
  case_decide as Hb; simpl in Hb.
  - split_and!; [done..|simpl;lia|exact Hev|]. intros k p. simpl. rewrite Hb, lookup_empty. naive_solver.
  - change (foldl _ _ ?ks) with (drop_partials ks (set_evicted e o r)).
    set (ks := fst <$> _). destruct (drop_all_spec ks _ W') as (W2 & Hc & He & Hn & Hle & Hl).
    split_and!; [done|exact Hc|exact Hn|exact Hle|intros k Hk; rewrite He; simpl; auto|].
    intros k p. rewrite Hl. simpl.
    assert (Hks : k ∈ ks ↔ ∃ p, buffers r !! k = Some p ∧ (timeout r < duration_since now (first_seen p))%Z).
    { unfold ks. rewrite list_elem_of_fmap. setoid_rewrite list_elem_of_filter. unfold expired. simpl. split.
      - intros ([k' p'] & -> & Hx & Hin%elem_of_map_to_list). bool_to_Prop. eauto.
      - intros (p' & Hk & Hx). exists (k, p'). rewrite elem_of_map_to_list. simpl.
        split_and!; [done|by apply Z.ltb_lt|done]. }
    rewrite Hks. split.
    + intros [Hno Hk]. split; [done|]. apply Z.nlt_ge. eauto.
    + intros [Hk Hx]. split; [|done]. intros (p' & Hk' & Hx'). simplify_eq. lia.
Qed.

(** What a message already holds. *)
Definition own_size (fid : bytes) (r : Reassembler) : Z := from_option p_size 0%Z (buffers r !! fid).

Lemma only_own_bytes fid r :
  Reassembler_wf r → oldest (Some fid) r = None → r_bytes r = own_size fid r.
Proof.
  intros W Ho. rewrite (rw_bytes _ W). unfold own_size.
  assert (Hd : delete fid (buffers r) = ∅).
  { apply map_empty. intros k. apply eq_None_not_Some. intros [p [Hne Hk]%lookup_delete_Some].
    apply (oldest_None _ _ _ _ Ho) in Hk. congruence. }
  destruct (buffers r !! fid) as [p|] eqn:Hp; simpl.
  - pose proof (map_sum_delete p_size _ _ _ Hp) as E. rewrite Hd, map_sum_empty in E. lia.
  - rewrite delete_id in Hd by done. by rewrite Hd, map_sum_empty.
Qed.

Lemma make_room_spec fuel max n fid now r :
  Reassembler_wf r → size (buffers r) < fuel →
  ∃ r' room, make_room fuel max n fid now r = Some (r', room)
    ∧ Reassembler_wf r' ∧ config r' = config r
    ∧ (∀ k p, buffers r' !! k = Some p → buffers r !! k = Some p)
    ∧ (room = true → (r_bytes r' + n <= max)%Z ∧ buffers r' !! fid = buffers r !! fid
        ∧ (evicted r !! fid = None → evicted r' !! fid = None))
    ∧ ((own_size fid r + n <= max)%Z → room = true).
Proof.
  revert r. induction fuel as [|fuel IH]; intros r W Hf; [lia|]. simpl.
  destruct (Z.ltb_spec max (r_bytes r + n)).
  2:{ exists r, true. split_and!; auto. }
  destruct (oldest (Some fid) r) as [victim|] eqn:Ho.
  - apply oldest_Some in Ho as (p & Hp & Hne & _).
    destruct (evict_frame victim now r) as (Hc & Hn & Hb & _).
    destruct (IH (evict victim now r)) as (r' & room & E & W' & Hc' & Hs & Hroom & Hfit).
    { by apply evict_wf. }
    { rewrite Hb, map_size_delete_Some by done. destruct (size (buffers r)) eqn:Hz; [|lia].
      apply map_size_empty_inv in Hz. rewrite Hz in Hp. by rewrite lookup_empty in Hp. }
    exists r', room. split_and!; [done|done|congruence|..].
    + intros k q Hk. apply Hs in Hk. rewrite Hb in Hk. by apply lookup_delete_Some in Hk as [_ ?].
    + intros Ht. destruct (Hroom Ht) as (Hr & Hl & He). split_and!; [done|..].
      * rewrite Hl, Hb, lookup_delete_ne; [done|]. congruence.
      * intros Hn'. apply He, evict_evicted_ne; [done|congruence|done].
    + intros Hown. apply Hfit. unfold own_size in *. rewrite Hb, lookup_delete_ne by congruence. done.
  - destruct (evict_frame fid now r) as (Hc & Hn & Hb & _).
    exists (evict fid now r), false. split_and!; [done|by apply evict_wf|done|..|done|].
    + intros k p. rewrite Hb. by intros [_ ?]%lookup_delete_Some.
    + pose proof (only_own_bytes fid r W Ho). lia.
Qed.

(** [open_partial]: the partial of the chunk is there, empty and marked with the
    present if it was not, and no other partial is new. *)
Lemma open_partial_spec now c r :
  Reassembler_wf r → Chunk_wf c → evicted r !! fragment_id c = None →
  let r' := open_partial now c r in
  Reassembler_wf r' ∧ config r' = config r ∧ (r_bytes r' <= r_bytes r)%Z
  ∧ (∀ k p, k ≠ fragment_id c → buffers r' !! k = Some p → buffers r !! k = Some p)
  ∧ match buffers r !! fragment_id c with
    | Some p => buffers r' !! fragment_id c = Some p
    | None => ∃ o, buffers r' !! fragment_id c = Some (mkPartial (total c) ∅ 0 now o)
    end
  ∧ ((Z.of_nat (size (buffers r)) < limit r)%Z ∨ is_Some (buffers r !! fragment_id c) →
     evicted r' = evicted r).
Proof.
  intros W (_ & Ht & Hs) He. unfold open_partial.
  destruct (buffers r !! fragment_id c) as [p|] eqn:Hb; [split_and!; auto; lia|].
  set (r1 := if (_ <=? _)%Z then _ else r).
  assert (H1 : Reassembler_wf r1 ∧ config r1 = config r ∧ (r_bytes r1 <= r_bytes r)%Z
    ∧ (∀ k p, buffers r1 !! k = Some p → buffers r !! k = Some p)
    ∧ (Z.of_nat (size (buffers r1)) < limit r)%Z ∧ evicted r1 !! fragment_id c = None
    ∧ ((Z.of_nat (size (buffers r)) < limit r)%Z → evicted r1 = evicted r)).
  { unfold r1. destruct (Z.leb_spec (limit r) (Z.of_nat (size (buffers r)))); [|split_and!; auto; lia].
    pose proof (rw_limit _ W). pose proof (rw_count _ W).
    destruct (oldest None r) as [v|] eqn:Ho.
    - apply oldest_Some in Ho as (p & Hp & _ & _).
      destruct (evict_frame v now r) as (Hc & _ & Hb' & Hb2). pose proof (drop_partial_bytes v r W) as [_ ?].
      split_and!; [by apply evict_wf|done|lia|..].
      + rewrite Hb'. by intros ?? [_ ?]%lookup_delete_Some.
      + rewrite Hb', map_size_delete_Some by done. lia.
      + apply evict_evicted_ne; [done|congruence|done].
      + lia.
    - destruct (decide (buffers r = ∅)) as [Hz|Hz]; [rewrite Hz, map_size_empty in *; lia|].
      apply map_choose in Hz as (k & p & Hk). by apply (oldest_None _ _ _ _ Ho) in Hk. }
  destruct H1 as (W1 & Hc & Hle & Hsub & Hsz & He1 & Hev).
  assert (Hb1 : buffers r1 !! fragment_id c = None).
  { destruct (buffers r1 !! _) eqn:E; [|done]. apply Hsub in E. congruence. }
  injection Hc as Hc1 Hc2 Hc3 Hc4 Hc5.
  split_and!; [|unfold config; simpl; congruence|done|..].
  - pose proof W1 as []. split; simpl; auto.
    + intros k p [[<- <-]|[_ Hk]]%lookup_insert_Some.
      * split; simpl; [set_solver|rewrite map_size_empty; lia|by rewrite map_sum_empty|lia].
      * eapply Partial_wf_mono; [|eauto]. lia.
    + intros k1 k2 p1 p2 [[<- <-]|[? Hk1]]%lookup_insert_Some [[<- <-]|[? Hk2]]%lookup_insert_Some Ho; simpl in *; eauto.
      * pose proof (pw_order _ _ (rw_partial0 _ _ Hk2)). lia.
      * pose proof (pw_order _ _ (rw_partial0 _ _ Hk1)). lia.
    + rewrite map_sum_insert by done. simpl. lia.
    + rewrite map_size_insert_None by done. lia.
    + intros k Hk. apply lookup_insert_None. split; [by apply rw_disjoint0|].
      intros <-. rewrite He1 in Hk. by destruct Hk.
  - intros k p Hne. simpl. rewrite lookup_insert_ne by done. apply Hsub.
  - simpl. exists (next_order r1). apply lookup_insert_eq.
  - intros [Hlt|[??]]; [|congruence]. simpl. auto.
Qed.

(** A partial that holds as many parts as it needs holds all of them. *)
Lemma parts_complete (m : gmap Z bytes) t :
  (∀ i d, m !! i = Some d → (0 <= i < t)%Z) → Z.of_nat (size m) = t →
  ∀ i, (0 <= i < t)%Z → is_Some (m !! i).
Proof.
  intros Hr Hs i Hi. apply elem_of_dom.
  assert (Hsub : dom m ⊆ list_to_set (C := gset Z) (seqZ 0 t)).
  { intros j Hj. apply elem_of_dom in Hj as [d Hd]. apply elem_of_list_to_set, elem_of_seqZ.
    specialize (Hr _ _ Hd). lia. }
  assert (Heq : dom m ≡ list_to_set (C := gset Z) (seqZ 0 t)).
  { apply set_subseteq_size_equiv; [done|].
    rewrite size_list_to_set, length_seqZ, size_dom by apply NoDup_seqZ. lia. }
  apply Heq. apply elem_of_list_to_set, elem_of_seqZ. lia.
Qed.

Definition joined (m : gmap Z bytes) (t : Z) : bytes :=
  concat ((λ i, default [] (m !! i)) <$> seqZ 0 t).

Lemma join_parts_complete p :
  (∀ i, (0 <= i < p_total p)%Z → is_Some (p_parts p !! i)) →
  join_parts p = Ret (joined (p_parts p) (p_total p)).
Proof.
  intros H. unfold join_parts, joined.
  assert (G : ∀ l acc, (∀ i, i ∈ l → is_Some (p_parts p !! i)) →
    foldl (λ acc i, out ← acc; d ← unwrap (p_parts p !! i); Ret (out ++ d)) (Ret acc) l
    = Ret (acc ++ concat ((λ i, default [] (p_parts p !! i)) <$> l))).
  { induction l as [|i l IH]; intros acc Hl; simpl; [by rewrite app_nil_r|].
    destruct (Hl i) as [d Hd]; [set_solver|]. rewrite Hd. simpl.
    rewrite IH by set_solver. by rewrite app_assoc. }
  rewrite G; [done|]. intros i Hi%elem_of_seqZ. apply H. lia.
Qed.

Definition parts_of (fid : bytes) (r : Reassembler) : gmap Z bytes :=
  from_option p_parts ∅ (buffers r !! fid).

(** What a partial of the chunk's message must look like for the chunk to be
    stored: same total, the part not there yet. *)
Definition fits (c : Chunk) (r : Reassembler) : Prop :=
  ∀ p, buffers r !! fragment_id c = Some p → p_total p = total c ∧ p_parts p !! seq c = None.

Definition within_budget (n : Z) (r : Reassembler) : Prop :=
  ∀ m, max_buffered_bytes r = Some m → (r_bytes r + n <= m)%Z.

(** Storing the chunk [entry] already updated, in a state with the partial. *)
Lemma store_entry_wf c r p :
  Reassembler_wf r → Chunk_wf c → buffers r !! fragment_id c = Some p →
  p_total p = total c → p_parts p !! seq c = None → within_budget (len (data c)) r →
  Z.of_nat (size (<[seq c := data c]> (p_parts p))) ≠ total c →
  Reassembler_wf (set_buffers
    (<[fragment_id c := mkPartial (p_total p) (<[seq c := data c]> (p_parts p))
        (p_size p + len (data c)) (first_seen p) (order p)]> (buffers r)) (r_bytes r + len (data c)) r).
Proof.
  intros W (_ & _ & Hs) Hp Ht Hn Hb Hsz. pose proof W as [].
  pose proof (rw_partial0 _ _ Hp) as []. pose proof (len_nonneg (data c)).
  split; simpl; auto.
  - intros k q [[<- <-]|[_ Hk]]%lookup_insert_Some; [|eauto]. split; simpl; [|..|lia].
    + intros i d [[<- <-]|[_ Hi]]%lookup_insert_Some; [lia|eauto].
    + rewrite map_size_insert_None in * by done. lia.
    + rewrite map_sum_insert by done. lia.
  - intros k1 k2 p1 p2 [[<- <-]|[? Hk1]]%lookup_insert_Some [[<- <-]|[? Hk2]]%lookup_insert_Some Ho;
      simpl in *; eauto.
  - rewrite (map_sum_update _ _ _ _ _ Hp). simpl. lia.
  - by rewrite map_size_insert_Some by eauto.
  - intros m Hm. specialize (Hb m Hm). lia.
  - intros k Hk. apply lookup_insert_None. split; [auto|]. intros <-. by rewrite (rw_disjoint0 _ Hk) in Hp.
Qed.

Lemma store_chunk_spec now c r :
  Reassembler_wf r → Chunk_wf c → evicted r !! fragment_id c = None →
  fits c r → within_budget (len (data c)) r →
  let parts := <[seq c := data c]> (parts_of (fragment_id c) r) in
  ∃ r', Reassembler_wf r' ∧ config r' = config r
    ∧ (∀ k p, k ≠ fragment_id c → buffers r' !! k = Some p → buffers r !! k = Some p)
    ∧ (r_bytes r' <= r_bytes r + len (data c))%Z
    ∧ ((Z.of_nat (size (buffers r)) < limit r)%Z ∨ is_Some (buffers r !! fragment_id c) →
       evicted r' = evicted r)
    ∧ if decide (Z.of_nat (size parts) = total c) then
        store_chunk now c r = Ret (r', Some (joined parts (total c)))
        ∧ (∀ i, (0 <= i < total c)%Z → is_Some (parts !! i)) ∧ buffers r' !! fragment_id c = None
      else store_chunk now c r = Ret (r', None)
        ∧ ∃ p, buffers r' !! fragment_id c = Some p ∧ p_total p = total c ∧ p_parts p = parts
            ∧ first_seen p = from_option first_seen now (buffers r !! fragment_id c).
Proof.
  intros W Wc He Hf Hb parts. unfold store_chunk.
  destruct (open_partial_spec now c r W Wc He) as (W1 & Hc1 & Hle & Hsub & Hopen & Hev).
  set (r1 := open_partial now c r) in *.
  assert (Hp : ∃ p, buffers r1 !! fragment_id c = Some p ∧ p_total p = total c ∧ p_parts p !! seq c = None
    ∧ <[seq c := data c]> (p_parts p) = parts
    ∧ first_seen p = from_option first_seen now (buffers r !! fragment_id c)).
  { unfold parts, parts_of, fits in *. destruct (buffers r !! fragment_id c) as [p|].
    - exists p. naive_solver.
    - destruct Hopen as [o Ho]. eexists; split; [exact Ho|]. simpl. rewrite lookup_empty. done. }
  clear Hopen. destruct Hp as (p & Hp & Ht & Hn & Hparts & Hfs). rewrite Hp. simpl mbind.
  unfold mbind, outcome_bind, unwrap. cbn [p_parts p_total]. rewrite Hparts, Ht.
  injection Hc1 as Hc1 Hc2 Hc3 Hc4 Hc5. pose proof (len_nonneg (data c)).
  assert (Hwb : within_budget (len (data c)) r1).
  { intros m Hm. rewrite Hc4 in Hm. specialize (Hb m Hm). lia. }
  case_decide as Hsz.
  - rewrite (proj2 (Z.eqb_eq _ _)) by done. simpl negb. cbv iota.
    cbn [buffers set_buffers]. rewrite lookup_insert_eq.
    assert (Hall : ∀ i, (0 <= i < total c)%Z → is_Some (parts !! i)).
    { apply parts_complete; [|done]. intros i d. rewrite <- Hparts.
      intros [[<- <-]|[_ Hi]]%lookup_insert_Some; [apply Wc|].
      rewrite <- Ht. by apply (pw_parts _ _ (rw_partial _ W1 _ _ Hp)) in Hi. }
    rewrite join_parts_complete by done. cbn [p_parts p_total p_size].
    match goal with |- context [Ret (?x, Some _)] => exists x end.
    split_and!; [| | | |exact Hev|done|done|].
    + pose proof (drop_partial_wf (fragment_id c) r1 W1) as Wd.
      unfold drop_partial in Wd. rewrite Hp in Wd.
      unfold set_buffers. rewrite delete_insert_eq.
      replace (r_bytes _ + _ - _)%Z with (r_bytes r1 - p_size p)%Z by (simpl; lia). exact Wd.
    + unfold config. simpl. congruence.
    + intros k q Hne. simpl. rewrite delete_insert_eq, lookup_delete_ne by done. by apply Hsub.
    + simpl. pose proof (rw_size_le _ _ _ W1 Hp). lia.
    + simpl. apply lookup_delete_eq.
  - rewrite (proj2 (Z.eqb_neq _ _)) by done. simpl negb. cbv iota.
    match goal with |- context [Ret (?x, None)] => exists x end.
    split_and!; [| | | |exact Hev|done|].
    + rewrite <- Ht, <- Hparts. apply store_entry_wf; try done. by rewrite Hparts.
    + unfold config. simpl. congruence.
    + intros k q Hne. simpl. rewrite lookup_insert_ne by done. by apply Hsub.
    + simpl. lia.
    + simpl. rewrite lookup_insert_eq. eexists; split_and!; done.
Qed.

(** *** Feeding *)

Definition no_new_partial (r r' : Reassembler) : Prop :=
  ∀ k p, buffers r' !! k = Some p → buffers r !! k = Some p.

Lemma drop_partial_no_new k r : no_new_partial r (drop_partial k r).
Proof. intros k' p. rewrite drop_partial_buffers. by intros [_ ?]%lookup_delete_Some. Qed.

Lemma no_new_partial_trans r1 r2 r3 :
  no_new_partial r1 r2 → no_new_partial r2 r3 → no_new_partial r1 r3.
Proof. unfold no_new_partial. eauto. Qed.

Lemma no_new_partial_refl r : no_new_partial r r.
Proof. by intros ??. Qed.

#[local] Hint Resolve no_new_partial_refl : core.

(** The byte budget's part of [feed]: a chunk is let in only when it fits. *)
Lemma room_spec now c r :
  Reassembler_wf r → evicted r !! fragment_id c = None → fits c r →
  ∃ r' room,
    (match max_buffered_bytes r with
     | Some max => if (max <? len (data c))%Z then Ret (r, false)
         else unwrap (make_room (S (size (buffers r))) max (len (data c)) (fragment_id c) now r)
     | None => Ret (r, true) end) = Ret (r', room)
    ∧ Reassembler_wf r' ∧ config r' = config r ∧ no_new_partial r r'
    ∧ (room = true → evicted r' !! fragment_id c = None ∧ fits c r' ∧ within_budget (len (data c)) r').
Proof.
  intros W He Hfits. unfold within_budget. destruct (max_buffered_bytes r) as [max|] eqn:Hm.
  2:{ exists r, true. split_and!; try done. intros _. rewrite Hm. by split_and!. }
  destruct (max <? len (data c))%Z; [by exists r, false; split_and!|].
  destruct (make_room_spec (S (size (buffers r))) max (len (data c)) (fragment_id c) now r W)
    as (r' & room & -> & W' & Hc & Hs & Hr & _); [lia|].
  exists r', room. split_and!; [done..|]. intros Ht. destruct (Hr Ht) as (Hle & Hb & He').
  split_and!; [auto|..].
  - intros p Hp. apply Hfits. by rewrite <- Hb.
  - intros m Hm'. injection Hc. congruence.
Qed.

(** A partial message that disagrees about its total is dropped. *)
Lemma mismatch_spec (mm : bool) c r :
  Reassembler_wf r → mm = match p_total <$> buffers r !! fragment_id c with Some t => negb (t =? total c)%Z | None => false end →
  let r' := if mm then drop_partial (fragment_id c) r else r in
  let existing := if mm then None else p_total <$> buffers r !! fragment_id c in
  Reassembler_wf r' ∧ config r' = config r ∧ no_new_partial r r' ∧ evicted r' = evicted r
  ∧ (existing = None ∧ buffers r' !! fragment_id c = None
     ∨ ∃ p, existing = Some (total c) ∧ buffers r' !! fragment_id c = Some p ∧ p_total p = total c).
Proof.
  intros W Hmm. destruct mm; cbn zeta.
  - destruct (drop_partial_frame (fragment_id c) r) as (? & ? & _).
    split_and!; [by apply drop_partial_wf|done|apply drop_partial_no_new|done|].
    left. split; [done|]. rewrite drop_partial_buffers. apply lookup_delete_eq.
  - split_and!; try done. destruct (buffers r !! fragment_id c) as [p|]; simpl in *; [right|by left].
    symmetry in Hmm. bool_to_Prop. exists p. by rewrite Hmm.
Qed.

(** The state a refused chunk leaves. *)
Ltac refused r := exists r, None; split_and!; [done..|left; by auto].

(** [feed] on every input: the chunk is refused and nothing new is buffered,
    or it is a whole message, or it is stored. *)
Lemma feed_cases now w r :
  Reassembler_wf r →
  ∃ r' o, feed now w r = Ret (r', o) ∧ Reassembler_wf r' ∧ config r' = config r
    ∧ ((o = None ∧ no_new_partial r r')
       ∨ ∃ c, parse_chunk w = Some c ∧
           ((total c = 1%Z ∧ o = Some (data c) ∧ no_new_partial r r')
            ∨ ∃ r2, Reassembler_wf r2 ∧ no_new_partial r r2 ∧ evicted r2 !! fragment_id c = None
                ∧ fits c r2 ∧ within_budget (len (data c)) r2 ∧ store_chunk now c r2 = Ret (r', o))).
Proof.
  intros W. unfold feed.
  destruct (parse_chunk w) as [c|] eqn:Hpc.
  2:{ refused r. }
  destruct (max_fragments r <? total c)%Z; [refused r|].
  destruct (gc_spec now r W) as (W1 & Hc1 & _ & _ & _ & Hl1). set (r1 := gc now r) in *.
  assert (N1 : no_new_partial r r1) by (intros k p Hk%Hl1; naive_solver).
  case_decide as He; [refused r1|].
  apply eq_None_not_Some in He.
  set (mm := match _ <$> _ with Some t => _ | None => false end).
  destruct (mismatch_spec mm c r1 W1 eq_refl) as (W2 & Hc2 & N2 & He2 & Hex). cbn zeta in *.
  set (r2 := if mm then _ else r1) in *. set (existing := if mm then None else _) in *.
  assert (N : no_new_partial r r2) by eauto using no_new_partial_trans.
  clearbody existing r2 mm. rewrite <- Hc1, <- Hc2 in *.
  assert (Hdup : ∃ dup, (match existing with
      | Some _ => p ← unwrap (buffers r2 !! fragment_id c); Ret (bool_decide (is_Some (p_parts p !! seq c)))
      | None => Ret false end) = Ret dup ∧ (dup = false → fits c r2)).
  { destruct Hex as [[-> Hn]|(p & -> & Hp & Ht)].
    - exists false. split; [done|]. intros _ q Hq. congruence.
    - rewrite Hp. simpl. eexists; split; [done|]. intros Hd q Hq. simplify_eq.
      split; [done|]. apply bool_decide_eq_false_1, eq_None_not_Some in Hd. done. }
  destruct Hdup as (dup & -> & Hfits). cbn [mbind outcome_bind].
  destruct dup; [refused r2|]. specialize (Hfits eq_refl).
  destruct (bool_decide (existing = None) && (total c =? 1)%Z) eqn:H1.
  { bool_to_Prop. exists r2, (Some (data c)). split_and!; [done..|]. right. exists c. split; [done|].
    left. by split_and!. }
  destruct (max_chunk_payload r2 <? len (data c))%Z; [refused r2|].
  rewrite <- He2 in He. clear He2 Hex Hc1 Hc2 N1 N2 H1.
  destruct (room_spec now c r2 W2 He Hfits) as (r3 & room & -> & W3 & Hc3 & N3 & Hr3). cbn [mbind outcome_bind].
  assert (N' : no_new_partial r r3) by eauto using no_new_partial_trans.
  destruct room; [|refused r3].
  destruct (Hr3 eq_refl) as (He3 & Hf3 & Hb3). destruct (parse_chunk_inv _ _ Hpc) as [Wc _].
  destruct (store_chunk_spec now c r3 W3 Wc He3 Hf3 Hb3) as (r' & W' & Hc' & _ & _ & _ & Hst).
  assert (Hs : ∃ o, store_chunk now c r3 = Ret (r', o)) by (case_decide; naive_solver).
  destruct Hs as [o Hs]. exists r', o. split_and!; [done..|congruence|].
  right. exists c. split; [done|]. right. exists r3. by split_and!.
Qed.

(** Feeding any payload at any time neither panics nor loops, and keeps the
    invariant. *)
Lemma feed_wf now w r :
  Reassembler_wf r → ∃ r' o, feed now w r = Ret (r', o) ∧ Reassembler_wf r' ∧ config r' = config r.
Proof. intros W. destruct (feed_cases now w r W) as (r' & o & ? & ? & ? & _). eauto. Qed.

(** A chunk of a message that fits is stored, whatever else is buffered. *)
Lemma feed_accept now w c r :
  Reassembler_wf r → parse_chunk w = Some c → (total c <= max_fragments r)%Z →
  evicted r !! fragment_id c = None → fits c r →
  (∀ p, buffers r !! fragment_id c = Some p → (duration_since now (first_seen p) <= timeout r)%Z) →
  (len (data c) <= max_chunk_payload r)%Z →
  (∀ m, max_buffered_bytes r = Some m → (own_size (fragment_id c) r + len (data c) <= m)%Z) →
  (buffers r !! fragment_id c = None → total c ≠ 1%Z) →
  ∃ r2, Reassembler_wf r2 ∧ config r2 = config r ∧ evicted r2 !! fragment_id c = None
    ∧ buffers r2 !! fragment_id c = buffers r !! fragment_id c
    ∧ within_budget (len (data c)) r2 ∧ feed now w r = store_chunk now c r2
    ∧ no_new_partial r r2
    ∧ (within_budget (len (data c)) r → evicted r = ∅ → evicted r2 = ∅).
Proof.
  intros W Hpc Hmf He Hf Hage Hcp Hown H1. unfold feed. rewrite Hpc.
  rewrite (proj2 (Z.ltb_ge _ _)) by lia.
  destruct (gc_spec now r W) as (W1 & Hc1 & _ & Hby1 & He1 & Hl1). set (r1 := gc now r) in *.
  assert (N1 : no_new_partial r r1) by (intros k p Hk%Hl1; naive_solver).
  assert (Hev1 : evicted r = ∅ → evicted r1 = ∅).
  { intros Hz. apply map_empty. intros k. apply He1. by rewrite Hz. }
  assert (Hb1 : buffers r1 !! fragment_id c = buffers r !! fragment_id c).
  { apply option_eq. intros p. rewrite Hl1. naive_solver. }
  pose proof Hc1 as [= _ _ Hc1c Hc1m _]. specialize (He1 _ He). clearbody r1.
  rewrite decide_False by (rewrite He1; by intros [??]). rewrite Hb1.
  assert (Hmm : match p_total <$> buffers r !! fragment_id c with
    | Some t => negb (t =? total c)%Z | None => false end = false).
  { destruct (buffers r !! fragment_id c) as [p|] eqn:E; [|done]. simpl.
    destruct (Hf _ E) as [-> _]. by rewrite Z.eqb_refl. }
  rewrite Hmm.
  assert (Hdup : (match p_total <$> buffers r !! fragment_id c with
      | Some _ => p ← unwrap (buffers r1 !! fragment_id c); Ret (bool_decide (is_Some (p_parts p !! seq c)))
      | None => Ret false end) = Ret false).
  { rewrite Hb1. destruct (buffers r !! fragment_id c) as [p|] eqn:E; [|done]. simpl.
    by destruct (Hf _ E) as [_ ->]. }
  rewrite Hdup. cbn [mbind outcome_bind].
  assert (Hs : bool_decide (p_total <$> buffers r !! fragment_id c = None) && (total c =? 1)%Z = false).
  { destruct (buffers r !! fragment_id c); simpl; [done|].
    apply Z.eqb_neq, H1. done. }
  rewrite Hs, (proj2 (Z.ltb_ge _ _)) by lia. rewrite Hc1m.
  assert (Hpos : (0 <= own_size (fragment_id c) r)%Z).
  { unfold own_size. destruct (buffers r !! fragment_id c) as [p|] eqn:E; simpl; [|lia].
    eapply Partial_wf_size_nonneg, (rw_partial _ W), E. }
  destruct (max_buffered_bytes r) as [max|] eqn:Hm; cbn [mbind outcome_bind].
  2:{ exists r1. split_and!; try done. intros m. congruence. }
  specialize (Hown _ eq_refl). rewrite (proj2 (Z.ltb_ge _ _)) by lia.
  destruct (make_room_spec (S (size (buffers r1))) max (len (data c)) (fragment_id c) now r1 W1)
    as (r3 & room & E3 & W3 & Hc3 & N3 & Hr3 & Hfit); [lia|]. rewrite E3. cbn [mbind outcome_bind unwrap].
  assert (room = true) as ->. { apply Hfit. unfold own_size. rewrite Hb1. exact Hown. }
  destruct (Hr3 eq_refl) as (Hle & Hb3 & He3).
  exists r3. split_and!; [done|congruence|auto|congruence|..|done|by eapply no_new_partial_trans|].
  - intros m Hm'. injection Hc3. intros. rewrite Hc1m in *. congruence.
  - intros Hwb Hz. specialize (Hwb _ Hm). simpl in E3.
    rewrite (proj2 (Z.ltb_ge _ _)) in E3 by lia. simplify_eq. auto.
Qed.

(** *** Where a message comes from *)

Definition parts_received (H : list bytes) (r : Reassembler) : Prop :=
  ∀ k p i d, buffers r !! k = Some p → p_parts p !! i = Some d → pack_chunk k i (p_total p) d ∈ H.

(** [out] is the concatenation, in order, of all the chunks of one message, each
    of them among the received payloads. *)
Definition assembled (H : list bytes) (out : bytes) : Prop :=
  ∃ fid ds, out = concat ds ∧ ds ≠ []
    ∧ ∀ i d, ds !! i = Some d → pack_chunk fid (Z.of_nat i) (len ds) d ∈ H.

Lemma joined_assembled H fid m t :
  (0 < t)%Z → (∀ i, (0 <= i < t)%Z → is_Some (m !! i)) →
  (∀ i d, m !! i = Some d → pack_chunk fid i t d ∈ H) → assembled H (joined m t).
Proof.
  intros Ht Hall HH. exists fid, ((λ i, default [] (m !! i)) <$> seqZ 0 t).
  assert (Hl : len ((λ i, default [] (m !! i)) <$> seqZ 0 t) = t).
  { unfold len. rewrite length_fmap, length_seqZ. lia. }
  split_and!; [done|intros E; rewrite E in Hl; unfold len in Hl; simpl in Hl; lia|].
  intros i d Hi. rewrite Hl. apply list_lookup_fmap_Some in Hi as (j & -> & Hj).
  apply lookup_seqZ in Hj as [-> Hj]. destruct (Hall (0 + Z.of_nat i)%Z) as [d' Hd']; [lia|].
  replace (0 + Z.of_nat i)%Z with (Z.of_nat i) in * by lia. rewrite Hd'. simpl. by apply HH.
Qed.

Lemma parts_received_sub H H' r r' :
  no_new_partial r r' → (∀ w, w ∈ H → w ∈ H') → parts_received H r → parts_received H' r'.
Proof. intros N HH Hr k p i d Hk Hi. eauto. Qed.

Lemma feed_sound H now w r r' o :
  Reassembler_wf r → parts_received H r → feed now w r = Ret (r', o) →
  parts_received (H ++ [w]) r' ∧ ∀ out, o = Some out → assembled (H ++ [w]) out.
Proof.
  intros W HH E. destruct (feed_cases now w r W) as (r1 & o1 & E1 & W' & _ & Hcase).
  rewrite E in E1. injection E1 as <- <-.
  assert (HH' : ∀ x, x ∈ H → x ∈ H ++ [w]) by set_solver.
  destruct Hcase as [[-> N]|(c & Hpc & Hcase)]; [split; [by eapply parts_received_sub|done]|].
  apply parse_chunk_inv in Hpc as [Wc Hw].
  destruct Hcase as [(Ht & -> & N)|(r2 & W2 & N & He & Hf & Hb & Hst)].
  - split; [by eapply parts_received_sub|]. intros out [= <-].
    exists (fragment_id c), [data c]. split_and!; [simpl; by rewrite app_nil_r|done|].
    intros [|i] d; simpl; [|by rewrite lookup_nil]. intros [= <-].
    assert (seq c = 0%Z) as Hs by (unfold Chunk_wf in Wc; lia). change (len [data c]) with 1%Z.
    rewrite Hw, Hs, Ht. set_solver.
  - destruct (store_chunk_spec now c r2 W2 Wc He Hf Hb) as (r3 & W3 & _ & Hsub & _ & _ & Hres).
    assert (Hparts : ∀ i d, <[seq c:=data c]> (parts_of (fragment_id c) r2) !! i = Some d →
      pack_chunk (fragment_id c) i (total c) d ∈ H ++ [w]).
    { unfold parts_of. intros i d [[<- <-]|[_ Hi]]%lookup_insert_Some; [rewrite <- Hw; set_solver|].
      destruct (buffers r2 !! fragment_id c) as [p|] eqn:Hp; simpl in Hi; [|by rewrite lookup_empty in Hi].
      destruct (Hf _ Hp) as [<- _]. apply HH', (HH _ _ _ _ (N _ _ Hp) Hi). }
    case_decide as Hd.
    + destruct Hres as (Hst' & Hall & Hn). rewrite Hst in Hst'. injection Hst' as -> ->. split.
      * intros k p i d Hk. destruct (decide (k = fragment_id c)) as [->|Hne]; [congruence|].
        intros Hi. apply HH'. eauto.
      * intros out [= <-]. eapply joined_assembled; [|done|exact Hparts]. destruct Wc as (_&_&?). lia.
    + destruct Hres as (Hst' & p & Hp & Ht & Hpp & _). rewrite Hst in Hst'. injection Hst' as -> ->.
      split; [|done]. intros k q i d Hk. destruct (decide (k = fragment_id c)) as [->|Hne].
      * simplify_eq. rewrite Hpp, Ht. apply Hparts.
      * intros Hi. apply HH'. eauto.
Qed.

Lemma feed_all_sound H evs r :
  Reassembler_wf r → parts_received H r →
  ∃ r' os, feed_all r evs = Ret (r', os) ∧ Reassembler_wf r' ∧ config r' = config r
    ∧ length os = length evs
    ∧ ∀ i out, os !! i = Some (Some out) → assembled (H ++ take (S i) evs.*2) out.
Proof.
  revert H r. induction evs as [|[now w] evs IH]; intros H r W HH; simpl.
  - exists r, []. split_and!; try done.
  - destruct (feed_wf now w r W) as (r1 & o & E & W1 & Hc1). rewrite E. cbn [mbind outcome_bind].
    destruct (feed_sound _ _ _ _ _ _ W HH E) as [HH1 Ho].
    destruct (IH (H ++ [w]) r1 W1 HH1) as (r' & os & -> & W' & Hc' & Hl & Hos).
    exists r', (o :: os). split_and!; [done|done|congruence|simpl; congruence|].
    intros [|i] out Hi; simpl in Hi.
    + simplify_eq. rewrite take_0. auto.
    + apply Hos in Hi. by rewrite <- app_assoc in Hi.
Qed.

(** The arrival counter moves by at most one for each chunk fed. *)
Lemma make_room_order fuel max n fid now r r' room :
  make_room fuel max n fid now r = Some (r', room) → next_order r' = next_order r.
Proof.
  revert r. induction fuel as [|fuel IH]; intros r; [done|]. cbn [make_room].
  destruct (_ <? _)%Z; [|by intros [= <- _]]. destruct (oldest _ r) as [v|]; [intros E%IH; rewrite E; apply evict_frame|intros [= <- _]; apply evict_frame].
Qed.

Lemma store_chunk_order now c r r' o : store_chunk now c r = Ret (r', o) → (next_order r' <= next_order r + 1)%Z.
Proof.
  assert (Ho : (next_order (open_partial now c r) <= next_order r + 1)%Z).
  { unfold open_partial. destruct (buffers r !! fragment_id c); [lia|]. cbv zeta. destruct (_ <=? _)%Z; [|cbn; lia].
    destruct (oldest None r) as [v|]; [|cbn; lia]. cbn. by rewrite (proj1 (proj2 (evict_frame v now r))). }
  unfold store_chunk. cbv zeta. destruct (unwrap _) as [|p]; [done|]. cbn [mbind outcome_bind].
  destruct (negb _); [by intros [= <- _]|]. destruct (unwrap _) as [|q]; [done|]. cbn [mbind outcome_bind].
  destruct (join_parts q) as [|out]; [done|]. by intros [= <- _].
Qed.

Lemma feed_order now w r r' o : Reassembler_wf r → feed now w r = Ret (r', o) → (next_order r' <= next_order r + 1)%Z.
Proof.
  intros W. unfold feed. destruct (parse_chunk w) as [c|]; [|intros [= <- _]; lia].
  destruct (_ <? total c)%Z; [intros [= <- _]; lia|]. destruct (gc_spec now r W) as (_ & _ & <- & _). case_decide; [intros [= <- _]; lia|]. cbv zeta.
  set (mm := match _ <$> _ with Some t => _ | None => false end). set (r2 := if mm then _ else _).
  assert (E2 : next_order r2 = next_order (gc now r)) by (subst r2; destruct mm; [apply drop_partial_frame|done]). rewrite <- E2. clearbody r2.
  destruct (match (if mm then None else _) with Some _ => _ | None => _ end) as [|[]]; [done|intros [= <- _]; lia|]. cbn [mbind outcome_bind].
  destruct (_ && _); [intros [= <- _]; lia|]. destruct (_ <? len (data c))%Z; [intros [= <- _]; lia|].
  destruct (max_buffered_bytes r2) as [max|]; [destruct (max <? _)%Z|]; cbn [mbind outcome_bind]; [intros [= <- _]; lia| |apply store_chunk_order].
  destruct (make_room _ _ _ _ _ _) as [[r3 room]|] eqn:E3; [|done]. cbn [unwrap mbind outcome_bind].
  rewrite <- (make_room_order _ _ _ _ _ _ _ _ E3). destruct room; [apply store_chunk_order|intros [= <- _]; lia].
Qed.

Lemma feed_all_order evs r r' os : Reassembler_wf r → feed_all r evs = Ret (r', os) → (next_order r' <= next_order r + len evs)%Z.
Proof.
  revert r os. induction evs as [|[now w] evs IH]; intros r os W; cbn [feed_all]; [intros [= <- _]; unfold len; simpl; lia|].
  destruct (feed_wf now w r W) as (r1 & o & E & W1 & _). rewrite E. cbn [mbind outcome_bind].
  destruct (feed_all r1 evs) as [|[r2 os2]] eqn:E2; [done|]. intros [= <- _]. apply IH in E2; [|done]. apply feed_order in E; [|done].
  rewrite len_cons. lia.
Qed.

Lemma feed_all_app r evs1 evs2 :
  feed_all r (evs1 ++ evs2) =
  ('(r, os1) ← feed_all r evs1; '(r, os2) ← feed_all r evs2; Ret (r, os1 ++ os2)).
Proof.
  revert r. induction evs1 as [|[now w] evs1 IH]; intros r; simpl.
  - by destruct (feed_all r evs2) as [|[??]].
  - destruct (feed now w r) as [|[r1 o]]; simpl; [done|]. rewrite IH.
    destruct (feed_all r1 evs1) as [|[r2 os]]; simpl; [done|].
    by destruct (feed_all r2 evs2) as [|[r3 os3]].
Qed.

(** The reassemblers a caller can make. *)
Inductive Built : Reassembler → Prop :=
| Built_new : Built Reassembler_new
| Built_for_chunk_size n : Built (for_chunk_size n)
| Built_buffer_limit n r : Built r → Built (with_buffer_limit n r)
| Built_max_fragments n r : Built r → Built (with_max_fragments n r)
| Built_max_chunk_payload n r : Built r → Built (with_max_chunk_payload n r)
| Built_max_buffered_bytes m r : Built r → Built (with_max_buffered_bytes m r)
| Built_timeout t r : Built r → Built (with_timeout t r).

Lemma empty_wf r :
  buffers r = ∅ → evicted r = ∅ → r_bytes r = 0%Z → (1 <= limit r)%Z → Reassembler_wf r.
Proof.
  intros Hb He Hz Hl. split; rewrite ?Hb, ?He, ?Hz, ?map_size_empty, ?map_sum_empty; try done; try lia.
Qed.

Lemma Built_empty r :
  Built r → buffers r = ∅ ∧ evicted r = ∅ ∧ r_bytes r = 0%Z ∧ (1 <= limit r)%Z.
Proof.
  induction 1; simpl; destruct_and?; split_and!; try done; unfold DEFAULT_BUFFER_LIMIT; lia.
Qed.

Lemma Built_wf r : Built r → Reassembler_wf r.
Proof. intros (?&?&?&?)%Built_empty. by apply empty_wf. Qed.

Lemma Built_parts_received r : Built r → parts_received [] r.
Proof. intros (Hb&_)%Built_empty k p i d. by rewrite Hb, lookup_empty. Qed.

(** *** Reassembly of a whole message *)

Section Reassemble.
Context (fid : bytes) (ps : list bytes).

Definition piece (i : Z) : bytes := default [] (ps !! Z.to_nat i).
Definition wire (i : Z) : bytes := pack_chunk fid i (len ps) (piece i).
Definition todo_size (todo : list Z) : Z := foldr (λ i a, len (piece i) + a)%Z 0%Z todo.

Lemma todo_size_nonneg todo : (0 <= todo_size todo)%Z.
Proof. induction todo as [|i l IH]; simpl; [lia|]. pose proof (len_nonneg (piece i)). lia. Qed.

Lemma joined_pieces m :
  (∀ i, (0 <= i < len ps)%Z → m !! i = Some (piece i)) → joined m (len ps) = concat ps.
Proof.
  intros Hm. unfold joined. f_equal. apply list_eq. intros j.
  rewrite list_lookup_fmap. destruct (decide (j < length ps)) as [Hj|Hj].
  - rewrite lookup_seqZ_lt by (unfold len; lia). simpl. rewrite Hm by (unfold len; lia). simpl.
    unfold piece. replace (Z.to_nat (0 + Z.of_nat j)) with j by lia.
    by destruct (lookup_lt_is_Some_2 ps j Hj) as [d ->].
  - rewrite lookup_seqZ_ge by (unfold len; lia). by rewrite lookup_ge_None_2 by lia.
Qed.

Lemma full_size (m : gmap Z bytes) :
  (∀ i d, m !! i = Some d → (0 <= i < len ps)%Z) →
  (∀ i, (0 <= i < len ps)%Z → is_Some (m !! i)) → Z.of_nat (size m) = len ps.
Proof.
  intros Hr Hall.
  assert (Hd : dom m ≡ list_to_set (C := gset Z) (seqZ 0 (len ps))).
  { intros j. rewrite elem_of_dom, elem_of_list_to_set, elem_of_seqZ. split.
    - intros [d Hd]. specialize (Hr _ _ Hd). lia.
    - intros. apply Hall. lia. }
  rewrite <- size_dom, Hd, size_list_to_set, length_seqZ by apply NoDup_seqZ.
  pose proof (len_nonneg ps). lia.
Qed.

Lemma pieces_seq : piece <$> seqZ 0 (len ps) = ps.
Proof.
  apply list_eq. intros j. rewrite list_lookup_fmap.
  destruct (decide (j < length ps)) as [Hj|Hj].
  - rewrite lookup_seqZ_lt by (unfold len; lia). simpl. unfold piece.
    replace (Z.to_nat (0 + Z.of_nat j)) with j by lia.
    by destruct (lookup_lt_is_Some_2 ps j Hj) as [d ->].
  - rewrite lookup_seqZ_ge by (unfold len; lia). by rewrite lookup_ge_None_2 by lia.
Qed.

Lemma todo_size_concat l : todo_size l = len (concat (piece <$> l)).
Proof.
  induction l as [|i l IH]; [done|]. rewrite fmap_cons. cbn [concat]. by rewrite len_app, <- IH.
Qed.

Lemma todo_size_perm l1 l2 : l1 ≡ₚ l2 → todo_size l1 = todo_size l2.
Proof. induction 1; simpl; lia. Qed.

Lemma wires_seq : wire <$> seqZ 0 (len ps) = imap (λ i d, pack_chunk fid (Z.of_nat i) (len ps) d) ps.
Proof.
  apply list_eq. intros j. rewrite list_lookup_imap, list_lookup_fmap.
  destruct (decide (j < length ps)) as [Hj|Hj].
  - rewrite lookup_seqZ_lt by (unfold len; lia). simpl. unfold wire, piece.
    replace (0 + Z.of_nat j)%Z with (Z.of_nat j) by lia. rewrite Nat2Z.id.
    by destruct (lookup_lt_is_Some_2 ps j Hj) as [d ->].
  - rewrite lookup_seqZ_ge by (unfold len; lia). by rewrite lookup_ge_None_2 by lia.
Qed.

Context (r0 : Reassembler) (t0 : Z).
Context (Hfid : length fid = FRAGMENT_ID_LEN).
Context (Hps : ps ≠ []) (Hu16 : (len ps <= 0xFFFF)%Z).
Context (Hmf : (len ps <= max_fragments r0)%Z).
Context (Hcp : Forall (λ d, (len d <= max_chunk_payload r0)%Z) ps).
Context (Hfit : ∀ m, max_buffered_bytes r0 = Some m → (len (concat ps) <= m)%Z).

(** The state when the chunks of [todo] have not arrived yet. *)
Record Holding (todo : list Z) (r : Reassembler) : Prop := {
  h_wf : Reassembler_wf r;
  h_config : config r = config r0;
  h_evicted : evicted r !! fid = None;
  h_partial : ∀ p, buffers r !! fid = Some p → p_total p = len ps ∧ first_seen p = t0;
  h_parts : ∀ i, (0 <= i < len ps)%Z →
              parts_of fid r !! i = if decide (i ∈ todo) then None else Some (piece i);
  h_size : (map_sum len (parts_of fid r) + todo_size todo = len (concat ps))%Z;
}.

Lemma parse_wire i : (0 <= i < len ps)%Z → parse_chunk (wire i) = Some (mkChunk fid i (len ps) (piece i)).
Proof. intros Hi. unfold wire. rewrite parse_pack_chunk; [done|exact Hfid|unfold is_u16; lia|exact Hi]. Qed.

Lemma piece_len i : (0 <= i < len ps)%Z → (len (piece i) <= max_chunk_payload r0)%Z.
Proof.
  intros Hi. unfold piece. unfold len in Hi.
  destruct (lookup_lt_is_Some_2 ps (Z.to_nat i)) as [d Hd]; [lia|]. rewrite Hd. simpl.
  by eapply (proj1 (Forall_lookup _ _) Hcp).
Qed.

Lemma parts_of_range todo r i d :
  Holding todo r → parts_of fid r !! i = Some d → (0 <= i < len ps)%Z.
Proof.
  intros [W _ _ Hp _ _] Hi. unfold parts_of in Hi.
  destruct (buffers r !! fid) as [p|] eqn:E; simpl in Hi; [|done].
  destruct (Hp _ eq_refl) as [<- _]. by eapply (pw_parts _ _ (rw_partial _ W _ _ E)).
Qed.

Lemma own_size_parts r : Reassembler_wf r → own_size fid r = map_sum len (parts_of fid r).
Proof.
  intros W. unfold own_size, parts_of. destruct (buffers r !! fid) as [p|] eqn:E; simpl.
  - apply (pw_size _ _ (rw_partial _ W _ _ E)).
  - by rewrite map_sum_empty.
Qed.

(** Nothing but this message is buffered and nothing was evicted. *)
Definition Solo (r : Reassembler) : Prop :=
  evicted r = ∅ ∧ ∀ k p, buffers r !! k = Some p → k = fid.

Lemma solo_bytes r : Reassembler_wf r → Solo r → r_bytes r = own_size fid r.
Proof.
  intros W [_ Hs]. apply only_own_bytes; [done|].
  destruct (oldest (Some fid) r) as [k|] eqn:E; [|done].
  apply oldest_Some in E as (p & Hp & Hne & _). apply Hs in Hp. congruence.
Qed.

(** The parts held once a chunk of those still missing is added. *)
Lemma holding_insert i todo r :
  Holding (i :: todo) r → i ∉ todo → (0 <= i < len ps)%Z →
  (∀ j, (0 <= j < len ps)%Z → <[i := piece i]> (parts_of fid r) !! j = if decide (j ∈ todo) then None else Some (piece j))
  ∧ ∀ j d, <[i := piece i]> (parts_of fid r) !! j = Some d → (0 <= j < len ps)%Z.
Proof.
  intros HH Hni Hi. split.
  - intros j Hj. destruct (decide (j = i)) as [->|Hne].
    + by rewrite lookup_insert_eq, decide_False.
    + rewrite lookup_insert_ne, (h_parts _ _ HH) by done.
      destruct (decide (j ∈ todo)); [rewrite decide_True|rewrite decide_False]; set_solver.
  - intros j d [[<- _]|[_ Hj]]%lookup_insert_Some; [done|]. by apply (parts_of_range (i :: todo) r j d).
Qed.

(** A chunk of this message evicts nothing when nothing else is buffered. *)
Lemma solo_room i todo r r2 :
  Holding (i :: todo) r → Reassembler_wf r2 → no_new_partial r r2 → Solo r →
  within_budget (len (piece i)) r ∧ ((Z.of_nat (size (buffers r2)) < limit r2)%Z ∨ is_Some (buffers r2 !! fid)).
Proof.
  intros HH W2 N2 Hsolo. pose proof HH as [W Hc _ _ _ Hsz]. injection Hc as _ _ _ Hc4 _. simpl in Hsz.
  pose proof (solo_bytes r W Hsolo) as Hby. destruct Hsolo as [Hz Hsolo]. pose proof (todo_size_nonneg todo). split.
  - intros m Hm. rewrite Hc4 in Hm. specialize (Hfit m Hm). rewrite Hby, own_size_parts by done. lia.
  - destruct (buffers r2 !! fid) as [p|] eqn:Hbf; [by right|left].
    assert (buffers r2 = ∅) as ->.
    { apply map_empty. intros k. destruct (buffers r2 !! k) as [p|] eqn:Hk; [|done].
      pose proof (Hsolo _ _ (N2 _ _ Hk)). congruence. }
    rewrite map_size_empty. pose proof (rw_limit _ W2). lia.
Qed.

(** One more chunk: stored, or the message is complete. *)
Lemma holding_step now i todo r :
  Holding (i :: todo) r → i ∉ todo → (0 <= i < len ps)%Z →
  (∀ j, j ∈ todo → (0 <= j < len ps)%Z) →
  (buffers r !! fid = None → now = t0 ∧ len ps ≠ 1%Z) → (now - t0 <= timeout r0)%Z → (0 <= timeout r0)%Z →
  ∃ r', (Solo r → Solo r') ∧
    if decide (todo = []) then
      feed now (wire i) r = Ret (r', Some (concat ps))
      ∧ Reassembler_wf r' ∧ config r' = config r0 ∧ buffers r' !! fid = None
    else feed now (wire i) r = Ret (r', None) ∧ Holding todo r' ∧ is_Some (buffers r' !! fid).
Proof.
  intros HH. pose proof HH as [W Hc He Hp Hparts Hsz]. intros Hni Hi Htodo Hfirst Hage Hto.
  injection Hc as Hc1 Hc2 Hc3 Hc4 Hc5. pose proof (piece_len i Hi). pose proof (todo_size_nonneg todo).
  simpl in Hsz. set (c := mkChunk fid i (len ps) (piece i)).
  assert (Hin : parts_of fid r !! i = None) by (rewrite Hparts, decide_True; set_solver).
  assert (Hfits : fits c r).
  { intros p E. simpl in E. destruct (Hp _ E) as [Ht _]. split; [done|].
    unfold parts_of in Hin. by rewrite E in Hin. }
  destruct (feed_accept now (wire i) c r) as (r2 & W2 & Hc' & He2 & Hb2 & Hwb & -> & N2 & Hev2); try done.
  { by apply parse_wire. }
  { simpl. lia. }
  { intros p E. destruct (Hp _ E) as [_ ->]. unfold duration_since. lia. }
  { simpl. lia. }
  { simpl. intros m Hm. rewrite own_size_parts by done. rewrite Hc4 in Hm. specialize (Hfit m Hm). lia. }
  { simpl. intros E. by apply Hfirst. }
  assert (Wc : Chunk_wf c) by (split_and!; simpl; [done|unfold is_u16; lia..]).
  assert (Hf2 : fits c r2) by (intros p; rewrite Hb2; apply Hfits).
  assert (Hpo : parts_of fid r2 = parts_of fid r) by (unfold parts_of; simpl in Hb2; by rewrite Hb2).
  destruct (store_chunk_spec now c r2 W2 Wc He2 Hf2 Hwb) as (r' & W' & Hc'' & Hsub' & _ & Hev' & Hres).
  simpl in Hres. rewrite Hpo in Hres. exists r'. split.
  { intros Hsolo. destruct (solo_room i todo r r2 HH W2 N2 Hsolo) as [Hwb1 Hroom]. destruct Hsolo as [Hz Hsolo]. split.
    - by rewrite Hev', Hev2.
    - intros k p Hk. destruct (decide (k = fid)) as [|Hne]; [done|]. apply Hsub' in Hk; [eauto|done]. }
  destruct (holding_insert i todo r HH Hni Hi) as [Hnew Hrange].
  destruct (decide (todo = [])) as [->|Hne].
  - rewrite decide_True in Hres.
    2:{ apply full_size; [done|]. intros j Hj. rewrite Hnew by done. rewrite decide_False by set_solver. eauto. }
    destruct Hres as (-> & _ & Hbn). split_and!; [|done|unfold config in *; congruence|done].
    do 3 f_equal. apply joined_pieces. intros j Hj.
    rewrite Hnew by done. by rewrite decide_False by set_solver.
  - destruct todo as [|k todo']; [done|].
    rewrite decide_False in Hres.
    2:{ intros E. destruct (parts_complete _ _ Hrange E k) as [d Hd]; [apply Htodo; set_solver|].
        rewrite Hnew, decide_True in Hd; [done|set_solver|apply Htodo; set_solver]. }
    destruct Hres as (-> & p & Hb & Ht & Hpp & Hfs). split_and!; [done| |by rewrite Hb].
    assert (Hpo' : parts_of fid r' = <[i := piece i]> (parts_of fid r)) by (unfold parts_of at 1; by rewrite Hb).
    split; [done|unfold config in *; congruence|..].
    + destruct (evicted r' !! fid) eqn:E; [|done]. rewrite (rw_disjoint _ W') in Hb; [done|by rewrite E].
    + intros q Hq. simplify_eq. split; [done|]. simpl in Hb2. rewrite Hfs, Hb2.
      destruct (buffers r !! fid) as [p0|] eqn:E; simpl; [by apply Hp|by apply Hfirst].
    + intros j Hj. rewrite Hpo'. by apply Hnew.
    + rewrite Hpo', map_sum_insert by done. lia.
Qed.

(** The chunks of [todo1] arrive, those of [todo2] do not yet. *)
Lemma holding_run todo1 todo2 evs r :
  Holding (todo1 ++ todo2) r → NoDup (todo1 ++ todo2) →
  (∀ j, j ∈ todo1 ++ todo2 → (0 <= j < len ps)%Z) →
  (buffers r !! fid = None → len ps ≠ 1%Z ∧ (todo1 ≠ [] → head evs.*1 = Some t0)) →
  evs.*2 = wire <$> todo1 → Forall (λ e, (e.1 - t0 <= timeout r0)%Z) evs → (0 <= timeout r0)%Z →
  ∃ r' os, feed_all r evs = Ret (r', os) ∧ (Solo r → Solo r') ∧
    if decide (todo2 = [] ∧ todo1 ≠ []) then
      os = replicate (length todo1 - 1) None ++ [Some (concat ps)]
      ∧ Reassembler_wf r' ∧ config r' = config r0 ∧ buffers r' !! fid = None
    else os = replicate (length todo1) None ∧ Holding todo2 r'.
Proof.
  intros Hh Hnd Hr Hfirst Hev Hage Hto. revert evs r Hh Hnd Hr Hfirst Hev Hage.
  induction todo1 as [|i todo1 IH]; intros evs r Hh Hnd Hr Hfirst Hev Hage.
  { simpl in Hev. apply fmap_nil_inv in Hev as ->. exists r, []. split_and!; try done.
    rewrite decide_False by naive_solver. done. }
  destruct evs as [|[now w] evs]; [done|]. simpl in Hev. injection Hev as -> Hev.
  apply Forall_cons in Hage as [Hage1 Hage]. simpl in Hage1.
  apply NoDup_cons in Hnd as [Hni Hnd].
  destruct (holding_step now i (todo1 ++ todo2) r Hh Hni) as (r1 & Hso & Hs);
    [apply Hr; set_solver|intros; apply Hr; set_solver| |done..|].
  { intros E. destruct (Hfirst E) as [H1 H2]. specialize (H2 ltac:(done)). simpl in H2. split; [congruence|done]. }
  cbn [feed_all]. destruct (decide (todo1 ++ todo2 = [])) as [Ht|Ht].
  - apply app_nil in Ht as [-> ->]. apply fmap_nil_inv in Hev as ->. destruct Hs as (-> & Hs).
    cbn [mbind outcome_bind feed_all]. exists r1, [Some (concat ps)].
    split_and!; [done..|]. rewrite decide_True by done. done.
  - destruct Hs as (-> & Hh1 & Hb1). cbn [mbind outcome_bind].
    destruct (IH evs r1 Hh1 Hnd) as (r' & os & E & Hso' & Hres); try done.
    { intros j Hj. apply Hr. set_solver. }
    { intros E. rewrite E in Hb1. by destruct Hb1. }
    rewrite E. cbn [mbind outcome_bind]. exists r', (None :: os). split_and!; [done|auto|].
    destruct (decide (todo2 = [])) as [->|Hne].
    + rewrite app_nil_r in Ht. rewrite decide_True in Hres by done. rewrite decide_True by done.
      destruct Hres as (-> & Hres). split; [|done]. destruct todo1; [done|]. simpl. by rewrite Nat.sub_0_r.
    + rewrite decide_False in Hres by naive_solver. rewrite decide_False by naive_solver.
      destruct Hres as [-> ?]. done.
Qed.

(** Before any chunk, [todo] is everything. *)
Lemma holding_start todo :
  Reassembler_wf r0 → evicted r0 !! fid = None → buffers r0 !! fid = None →
  todo ≡ₚ seqZ 0 (len ps) → Holding todo r0.
Proof.
  intros W He Hb Hp. split; try done.
  - intros p. congruence.
  - intros i Hi. unfold parts_of. rewrite Hb. simpl. rewrite lookup_empty, decide_True; [done|].
    rewrite Hp. apply elem_of_seqZ. lia.
  - unfold parts_of. rewrite Hb. simpl.
    rewrite map_sum_empty, (todo_size_perm _ _ Hp), todo_size_concat, pieces_seq. lia.
Qed.

(** A message of one chunk. *)
Lemma single_chunk now :
  Reassembler_wf r0 → evicted r0 !! fid = None → buffers r0 !! fid = None → len ps = 1%Z →
  feed now (wire 0) r0 = Ret (gc now r0, Some (concat ps)).
Proof.
  intros W He Hb H1. unfold feed. rewrite parse_wire by lia. cbn [total].
  rewrite (proj2 (Z.ltb_ge _ _)) by lia.
  destruct (gc_spec now r0 W) as (_ & _ & _ & _ & He1 & Hl1). cbn [fragment_id].
  rewrite decide_False by (rewrite (He1 _ He); by intros [??]).
  assert (Hb1 : buffers (gc now r0) !! fid = None).
  { apply eq_None_not_Some. intros [p Hk%Hl1]. destruct Hk. congruence. }
  rewrite Hb1. cbn -[gc len]. rewrite H1. cbn -[gc]. do 3 f_equal.
  assert (H1' : length ps = 1) by (unfold len in H1; lia).
  unfold piece. destruct ps as [|d [|??]]; try done. simpl. by rewrite app_nil_r.
Qed.

(** Every chunk once, in any order, within the timeout of the first. *)
Lemma reassemble evs :
  Reassembler_wf r0 → evicted r0 !! fid = None → buffers r0 !! fid = None →
  evs.*2 ≡ₚ wire <$> seqZ 0 (len ps) → head evs.*1 = Some t0 →
  Forall (λ e, (e.1 - t0 <= timeout r0)%Z) evs → (0 <= timeout r0)%Z →
  ∃ r', feed_all r0 evs = Ret (r', replicate (length evs - 1) None ++ [Some (concat ps)]).
Proof.
  intros W He Hb Hperm Hhd Hage Hto.
  pose proof Hperm as Hperm'. apply Permutation_map_inv in Hperm' as (todo & Hev & Hp).
  assert (Hl : length evs = length todo) by (rewrite <- (length_fmap snd), Hev; apply length_fmap).
  assert (Hl2 : length todo = length ps).
  { rewrite <- Hp, length_seqZ. unfold len. lia. }
  assert (Hr : ∀ j, j ∈ todo → (0 <= j < len ps)%Z).
  { intros j Hj. rewrite <- Hp in Hj. apply elem_of_seqZ in Hj. lia. }
  rewrite Hl. destruct (decide (len ps = 1%Z)) as [H1|H1].
  - assert (length ps = 1) as H1' by (unfold len in H1; lia).
    destruct todo as [|i [|??]]; try (simpl in Hl2; lia). destruct evs as [|[now w] [|??]]; try done.
    simpl in Hev. injection Hev as ->. simpl.
    assert (i = 0%Z) as -> by (specialize (Hr i ltac:(set_solver)); lia).
    rewrite single_chunk by done. cbn [mbind outcome_bind]. by eexists.
  - destruct (holding_run todo [] evs r0) as (r' & os & -> & _ & Hres); rewrite ?app_nil_r; try done.
    + by apply holding_start.
    + rewrite <- Hp. apply NoDup_seqZ.
    + rewrite decide_True in Hres.
      * destruct Hres as [-> _]. by eexists.
      * split; [done|]. intros ->. destruct ps; [done|]. simpl in Hl2. lia.
Qed.
End Reassemble.

(** *** A stream of messages, in order *)

Section Stream.
Context (cs : Z) (Hcs : (0 < cs)%Z).

(** A message with its fragment id. *)
Definition Msg_ok (m : bytes * bytes) : Prop :=
  length m.1 = FRAGMENT_ID_LEN ∧ (len (pieces_of cs m.2) <= 0xFFFF)%Z ∧ (len m.2 <= u64_max)%Z.

Definition msg_wires (m : bytes * bytes) : list bytes := wires_of cs m.2 m.1.
Definition stream_wires (ms : list (bytes * bytes)) : list bytes := ms ≫= msg_wires.

(** All the events of a list come within [t] of the first. *)
Definition within (t : Z) (evs : list (Z * bytes)) : Prop :=
  match evs with [] => True | e0 :: _ => Forall (λ e, (e.1 - e0.1 <= t)%Z) evs end.

(** The chunks of each message arrive within [t] of its first chunk. *)
Fixpoint timely (t : Z) (ms : list (bytes * bytes)) (evs : list (Z * bytes)) : Prop :=
  match ms with
  | [] => True
  | m :: ms' => let n := length (msg_wires m) in within t (take n evs) ∧ timely t ms' (drop n evs)
  end.

Definition Idle (r : Reassembler) : Prop :=
  Reassembler_wf r ∧ config r = config (for_chunk_size cs) ∧ evicted r = ∅ ∧ buffers r = ∅.

Lemma Idle_new : Idle (for_chunk_size cs).
Proof using Type. split; [apply Built_wf, Built_for_chunk_size|done]. Qed.

Lemma length_msg_wires m : length (msg_wires m) = length (pieces_of cs m.2).
Proof using Type. apply length_imap. Qed.

(** What [for_chunk_size] makes room for. *)
Lemma for_chunk_size_room payload m :
  (len payload <= u64_max)%Z → (len (pieces_of cs payload) <= 0xFFFF)%Z →
  max_buffered_bytes (for_chunk_size cs) = Some m → (len payload <= m)%Z.
Proof using Hcs.
  intros Hlp Hl. cbn [for_chunk_size with_max_buffered_bytes max_buffered_bytes]. intros [= <-].
  unfold usize_saturating_mul, WIRE_MAX_FRAGMENTS.
  destruct payload as [|b l]; [change (@len byte []) with 0%Z; unfold LIBRARY_MAX_BUFFERED_BYTES; lia|].
  destruct (length_chunks (Z.to_nat cs) (b :: l)) as [_ Hge]; [lia|].
  change (chunks _ (b :: l)) with (pieces_of cs (b :: l)) in Hge.
  unfold len in *. nia.
Qed.

(** In an idle reassembler nothing stands in the way of a message. *)
Lemma idle_fits m r :
  Msg_ok m → Idle r →
  let ps := pieces_of cs m.2 in
  ps ≠ [] ∧ (len ps <= max_fragments r)%Z
  ∧ Forall (λ d, (len d <= max_chunk_payload r)%Z) ps
  ∧ (∀ k, max_buffered_bytes r = Some k → (len (concat ps) <= k)%Z)
  ∧ timeout r = DEFAULT_REASSEMBLY_TIMEOUT
  ∧ evicted r !! m.1 = None ∧ buffers r !! m.1 = None ∧ Solo m.1 r.
Proof using Hcs.
  intros (Hf & Hl & Hlp) (W & [= Hc1 Hc2 Hc3 Hc4 Hc5] & Hev & Hb) ps.
  rewrite Hev, Hb, !lookup_empty.
  assert (Hsolo : Solo m.1 r) by (split; [done|intros k p; by rewrite Hb, lookup_empty]).
  split; [|split; [|split; [|split; [|split; [|done]]]]].
  - intros E. pose proof (pieces_of_pos cs m.2 Hcs) as Hp. fold ps in Hp. by rewrite E in Hp.
  - rewrite Hc2. cbn [for_chunk_size with_max_buffered_bytes with_max_fragments max_fragments].
    unfold WIRE_MAX_FRAGMENTS. fold ps in Hl. lia.
  - eapply Forall_impl; [by apply pieces_of_size|]. intros d Hd. cbv beta in *. rewrite Hc3.
    cbn [for_chunk_size with_max_buffered_bytes with_max_fragments with_max_chunk_payload max_chunk_payload]. lia.
  - intros k Hk. unfold ps. rewrite concat_pieces_of by done.
    apply for_chunk_size_room; [done|done|]. etrans; [symmetry; exact Hc4|exact Hk].
  - by rewrite Hc5.
Qed.

Lemma idle_again fid r r' :
  Idle r → Reassembler_wf r' → config r' = config r → Solo fid r' → buffers r' !! fid = None → Idle r'.
Proof using Type.
  intros (_ & Hc & _) W' Hc' [Hz Hs] Hn. split_and!; [done|congruence|done|].
  apply map_empty. intros k. destruct (buffers r' !! k) eqn:Hk; [|done].
  pose proof (Hs _ _ Hk) as ->. congruence.
Qed.

Lemma idle_gc (fid : bytes) now r : Idle r → Idle (gc now r).
Proof using Type.
  intros I. pose proof I as (W & Hc & Hev & Hb).
  destruct (gc_spec now r W) as (W' & Hc' & _ & _ & He1 & Hl1).
  assert (Hbz : ∀ k, buffers (gc now r) !! k = None).
  { intros k. apply eq_None_not_Some. intros [p [Hk _]%Hl1]. by rewrite Hb in Hk. }
  apply (idle_again fid r); [done|done|done| |apply Hbz]. split.
  - apply map_empty. intros k. apply He1. by rewrite Hev.
  - intros k p. by rewrite Hbz.
Qed.

(** The chunks of a message that arrived, in order, in an idle reassembler. *)
Lemma feed_message m evs r :
  Msg_ok m → Idle r → evs.*2 `prefix_of` msg_wires m → within DEFAULT_REASSEMBLY_TIMEOUT evs →
  ∃ r' os, feed_all r evs = Ret (r', os) ∧
    if decide (length evs = length (msg_wires m)) then omap id os = [m.2] ∧ Idle r' else omap id os = [].
Proof using Hcs.
  intros Hm I [post Hpre] Ht. pose proof Hm as (Hf & Hl & Hlp). pose proof I as (W & _).
  destruct (idle_fits m r Hm I) as (Hps & Hmf & Hcp & Hfit & Hto & He & Hbf & Hsolo).
  set (ps := pieces_of cs m.2) in *.
  assert (Hcat : concat ps = m.2) by by apply concat_pieces_of.
  assert (Hwires : msg_wires m = wire m.1 ps <$> seqZ 0 (len ps)).
  { unfold msg_wires, wires_of. fold ps. by rewrite wires_seq. }
  assert (Hn' : length (msg_wires m) = length ps) by apply length_msg_wires.
  destruct evs as [|[t0 w0] evs0] eqn:Eevs.
  { exists r, []. split; [done|]. rewrite decide_False; [done|]. rewrite Hn'. by destruct ps. }
  rewrite <- Eevs in *.
  assert (Hn : length evs ≤ length ps) by (rewrite <- Hn', Hpre, length_app, length_fmap; lia).
  destruct (decide (len ps = 1%Z)) as [H1|H1].
  - assert (H1' : length ps = 1) by (unfold len in H1; lia).
    assert (evs0 = []) as -> by (destruct evs0; [done|]; rewrite Eevs in Hn; simpl in Hn; lia).
    rewrite Hwires, H1, Eevs in Hpre. simpl in Hpre. injection Hpre as Hw _.
    rewrite Eevs. simpl. rewrite <- Hw, (single_chunk m.1 ps r) by done. cbn [mbind outcome_bind].
    eexists _, _. split; [done|]. rewrite Hn', H1', decide_True by done.
    split; [simpl; by rewrite Hcat|by apply (idle_gc m.1)].
  - set (todo1 := take (length evs) (seqZ 0 (len ps))). set (todo2 := drop (length evs) (seqZ 0 (len ps))).
    assert (Htodo : todo1 ++ todo2 = seqZ 0 (len ps)) by apply take_drop.
    assert (Hev1 : evs.*2 = wire m.1 ps <$> todo1).
    { unfold todo1. rewrite fmap_take, <- Hwires, Hpre, <- (length_fmap snd evs). by rewrite take_app_length. }
    assert (H2 : todo2 = [] ∧ todo1 ≠ [] ↔ length evs = length ps).
    { rewrite <- !length_zero_iff_nil. unfold todo1, todo2. rewrite length_drop, length_take, length_seqZ.
      rewrite Eevs in *. unfold len. simpl length in *. lia. }
    destruct (holding_run m.1 ps r t0 Hf Hps Hl Hmf Hcp Hfit todo1 todo2 evs r) as (r' & os & E & Hso & Hres);
      rewrite ?Htodo; try done.
    + by apply holding_start.
    + apply NoDup_seqZ.
    + intros j Hj%elem_of_seqZ. lia.
    + intros _. split; [done|]. by rewrite Eevs.
    + rewrite Hto. rewrite Eevs in Ht |- *. exact Ht.
    + by rewrite Hto.
    + exists r', os. split; [done|]. rewrite Hn'. destruct (decide (length evs = length ps)) as [Hall|Hpart].
      * rewrite decide_True in Hres by by apply H2. destruct Hres as (-> & W' & Hc' & Hbn).
        rewrite omap_app, omap_id_replicate_None. split; [simpl; by rewrite Hcat|eapply idle_again; eauto].
      * rewrite decide_False in Hres by by rewrite H2. destruct Hres as [-> _]. apply omap_id_replicate_None.
Qed.

(** In-order, timely delivery of any part of a stream of messages gives those
    whose last chunk arrived. *)
Lemma feed_stream ms evs r :
  Forall Msg_ok ms → Idle r → evs.*2 `prefix_of` stream_wires ms →
  timely DEFAULT_REASSEMBLY_TIMEOUT ms evs →
  ∃ r' os, feed_all r evs = Ret (r', os) ∧ omap id os `prefix_of` ms.*2
    ∧ (evs.*2 = stream_wires ms → omap id os = ms.*2).
Proof using Hcs.
  intros Hok. revert evs r. induction Hok as [|m ms Hm Hms IH]; intros evs r I Hpre Ht.
  - apply prefix_nil_inv, fmap_nil_inv in Hpre as ->. exists r, []. split_and!; done.
  - unfold stream_wires in *. rewrite bind_cons in *. fold (stream_wires ms) in *.
    destruct Ht as [Ht1 Ht2]. set (n := length (msg_wires m)) in *.
    assert (Hev : evs.*2 = take (length evs) (msg_wires m ++ stream_wires ms)).
    { destruct Hpre as [post ->]. by rewrite <- (length_fmap snd evs), take_app_length. }
    assert (Hp1 : (take n evs).*2 = take (length evs) (msg_wires m)).
    { rewrite fmap_take, Hev, take_take, Nat.min_comm, <- take_take. unfold n. by rewrite take_app_length. }
    assert (Hp2 : (drop n evs).*2 = take (length evs - n) (stream_wires ms)).
    { rewrite fmap_drop, Hev, skipn_firstn_comm. unfold n. by rewrite drop_app_length. }
    destruct (feed_message m (take n evs) r Hm I) as (r1 & os1 & E1 & H1); [|done|].
    { rewrite Hp1. exists (drop (length evs) (msg_wires m)). by rewrite take_drop. }
    fold n in H1. rewrite length_take in H1.
    assert (Efa : feed_all r evs = ('(r2, os2) ← feed_all r1 (drop n evs); Ret (r2, os1 ++ os2))).
    { rewrite <- (take_drop n evs) at 1. by rewrite feed_all_app, E1. }
    rewrite Efa.
    destruct (decide (n `min` length evs = n)) as [Hn|Hn].
    + destruct H1 as [Ho1 I1]. destruct (IH (drop n evs) r1 I1) as (r2 & os2 & -> & Ho2 & Hall); [|done|].
      { rewrite Hp2. exists (drop (length evs - n) (stream_wires ms)). by rewrite take_drop. }
      cbn [mbind outcome_bind]. exists r2, (os1 ++ os2). split; [done|]. rewrite omap_app, Ho1.
      split; [by apply prefix_cons|]. intros Eall. simpl. f_equal. apply Hall.
      rewrite fmap_drop, Eall. unfold n. by rewrite drop_app_length.
    + rewrite drop_ge by lia. simpl. exists r1, (os1 ++ []). split; [done|]. rewrite app_nil_r, H1.
      split; [apply prefix_nil|]. intros Eall. apply (f_equal length) in Eall.
      rewrite length_fmap, length_app in Eall. fold n in Eall. lia.
Qed.
End Stream.

(** Everything [fragment] emits is accepted, see [reassemble_any_order]. *)
Lemma reassemble_emitted cs payload fid ws before r os evs t0 :
  (0 < cs)%Z → (len payload <= u64_max)%Z → length fid = FRAGMENT_ID_LEN →
  fragment payload cs fid = Ret ws →
  feed_all (for_chunk_size cs) before = Ret (r, os) →
  buffers r !! fid = None → evicted r !! fid = None →
  evs.*2 ≡ₚ ws → head evs.*1 = Some t0 →
  Forall (λ e, (e.1 - t0 <= DEFAULT_REASSEMBLY_TIMEOUT)%Z) evs →
  ∃ r', feed_all r evs = Ret (r', replicate (length ws - 1) None ++ [Some payload]).
Proof.
  intros Hcs Hlp Hf Hfr Hbefore Hb He Hperm Hhd Hage.
  rewrite fragment_eq in Hfr by done.
  destruct (Z.ltb_spec 65535 (len (pieces_of cs payload))) as [Hl|Hl]; [done|]. injection Hfr as <-.
  pose proof (Built_for_chunk_size cs) as B.
  destruct (feed_all_sound [] before _ (Built_wf _ B) (Built_parts_received _ B))
    as (r1 & os1 & E & W & Hc & _ & _). rewrite E in Hbefore. injection Hbefore as -> ->.
  injection Hc as _ Hmf Hcp Hmb Hto.
  cbn [for_chunk_size with_max_buffered_bytes with_max_fragments with_max_chunk_payload
       max_fragments max_chunk_payload max_buffered_bytes timeout Reassembler_new] in *.
  rewrite <- (Permutation_length Hperm), length_fmap, <- (concat_pieces_of cs payload) by done.
  unfold wires_of in Hperm. rewrite <- (wires_seq fid) in Hperm.
  apply (reassemble fid (pieces_of cs payload) r t0); try done.
  - intros Hn. pose proof (pieces_of_pos cs payload Hcs). by rewrite Hn in *.
  - rewrite Hmf. unfold WIRE_MAX_FRAGMENTS. lia.
  - eapply Forall_impl; [by apply pieces_of_size|]. intros d Hd. cbv beta in *. lia.
  - intros m Hm. rewrite concat_pieces_of by done.
    apply (for_chunk_size_room cs); [done|done|done|]. etrans; [symmetry; exact Hmb|exact Hm].
  - by rewrite Hto.
  - rewrite Hto. done.
Qed.

(** ** Properties *)

(** Packing a chunk and parsing it back is the identity, and a payload
    parses to a chunk only if it is the packing of that chunk, whose index is
    below its nonzero total. *)
Theorem chunk_roundtrip c w :
  Chunk_wf c →
  parse_chunk (pack_chunk (fragment_id c) (seq c) (total c) (data c)) = Some c
  ∧ ∀ c', parse_chunk w = Some c' →
      Chunk_wf c' ∧ w = pack_chunk (fragment_id c') (seq c') (total c') (data c').
Proof.
  intros (Hf & Ht & Hs). split; [|apply parse_chunk_inv].
  rewrite parse_pack_chunk by done. by destruct c.
Qed.

(** [fragment] panics exactly for a zero chunk size or a message of more
    than 65535 pieces; otherwise its chunks, each of at most [chunk_size] bytes
    of data, are numbered in order with the same total and id, and their data
    concatenated are the payload. *)
Theorem fragment_spec payload cs fid :
  (0 <= cs)%Z → length fid = FRAGMENT_ID_LEN →
  match fragment payload cs fid with
  | Panic => cs = 0%Z ∨ (0xFFFF * cs < len payload)%Z
  | Ret ws => ∃ ds, concat ds = payload ∧ (1 <= len ds <= 0xFFFF)%Z ∧ length ws = length ds
      ∧ ∀ i d, ds !! i = Some d → (len d <= cs)%Z
          ∧ ∃ w, ws !! i = Some w ∧ parse_chunk w = Some (mkChunk fid (Z.of_nat i) (len ds) d)
  end.
Proof.
  intros Hc Hf. destruct (decide (cs = 0%Z)) as [->|Hne]; [by left|].
  rewrite fragment_eq by lia. pose proof (pieces_of_pos cs payload ltac:(lia)).
  destruct (Z.ltb_spec 65535 (len (pieces_of cs payload))) as [Hl|Hl].
  - right. destruct payload as [|b l]; [done|].
    destruct (length_chunks (Z.to_nat cs) (b :: l)) as [Hlt _]; [lia|]. unfold len in *.
    change (pieces_of cs (b :: l)) with (chunks (Z.to_nat cs) (b :: l)) in *. nia.
  - exists (pieces_of cs payload). split_and!; [apply concat_pieces_of; lia|done|done|apply length_imap|].
    intros i d Hi. split.
    { eapply (proj1 (Forall_lookup _ _) (pieces_of_size cs payload ltac:(lia))). done. }
    eexists. split; [unfold wires_of; rewrite list_lookup_imap, Hi; done|].
    apply lookup_lt_Some in Hi. unfold len in *. apply parse_pack_chunk; [done|unfold is_u16; lia|lia].
Qed.

(** C23: feeding any sequence of payloads at any times to a reassembler neither
    panics nor loops, and memory stays bounded: at most [limit] partial
    messages, at most the configured budget of bytes, at most 1024 remembered
    ids; the byte count is exactly what the partials hold, no partial is
    complete, none belongs to an evicted message, and arrival orders are
    distinct. *)
Theorem reassembler_invariant r evs :
  Built r →
  ∃ r' os, feed_all r evs = Ret (r', os) ∧ Reassembler_wf r' ∧ length os = length evs
    ∧ (Z.of_nat (pending r') <= limit r)%Z
    ∧ (∀ m, max_buffered_bytes r = Some m → (buffered_bytes r' <= Z.max 0 m)%Z).
Proof.
  intros B. destruct (feed_all_sound [] evs r (Built_wf _ B) (Built_parts_received _ B))
    as (r' & os & E & W & Hc & Hl & _). injection Hc as Hc1 _ _ Hc4 _.
  exists r', os. split_and!; [done..|rewrite <- Hc1; apply (rw_count _ W)|].
  rewrite <- Hc4. apply (rw_budget _ W).
Qed.

(** Whatever is fed, in whatever order, a message the reassembler returns
    is the concatenation in order of all the chunks of one fragment id, every
    one of them received by then. *)
Theorem reassembler_sound r evs :
  Built r →
  ∃ r' os, feed_all r evs = Ret (r', os)
    ∧ ∀ i out, os !! i = Some (Some out) → assembled (take (S i) evs.*2) out.
Proof.
  intros B. destruct (feed_all_sound [] evs r (Built_wf _ B) (Built_parts_received _ B))
    as (r' & os & E & _ & _ & _ & Ho). eauto.
Qed.

(** C12: a reassembler made for a chunk size accepts everything [fragment] emits
    at that size: after any traffic, the chunks of a message with a fresh id,
    fed in any order within the timeout of the first, give the payload with the
    last chunk and nothing before. *)
Theorem reassemble_any_order cs payload fid ws before r os evs t0 :
  (0 < cs)%Z → (len payload <= u64_max)%Z → length fid = FRAGMENT_ID_LEN →
  fragment payload cs fid = Ret ws →
  feed_all (for_chunk_size cs) before = Ret (r, os) →
  buffers r !! fid = None → evicted r !! fid = None →
  evs.*2 ≡ₚ ws → head evs.*1 = Some t0 →
  Forall (λ e, (e.1 - t0 <= DEFAULT_REASSEMBLY_TIMEOUT)%Z) evs →
  ∃ r', feed_all r evs = Ret (r', replicate (length ws - 1) None ++ [Some payload]).
Proof. apply reassemble_emitted. Qed.

(** ** Witnesses *)

Definition sample_fid : bytes := replicate 16 Byte.x07.
Definition sample_payload : bytes := str_bytes "a telesthete message".
Definition sample_wires : list bytes := wires_of 8 sample_payload sample_fid.
(** The three chunks of [sample_payload] at 8 bytes a chunk, last one first. *)
Definition sample_events : list (Z * bytes) := imap (λ i w, (Z.of_nat i * 10, w)%Z) (reverse sample_wires).

Lemma chunk_roundtrip_witness :
  parse_chunk (pack_chunk sample_fid 2 3 [Byte.x61]) = Some (mkChunk sample_fid 2 3 [Byte.x61]).
Proof.
  refine (proj1 (chunk_roundtrip (mkChunk sample_fid 2 3 [Byte.x61]) [] _)).
  by split_and!.
Defined.

Lemma fragment_spec_witness :
  length sample_wires = 3 ∧ ∃ ds, concat ds = sample_payload ∧ length sample_wires = length ds.
Proof.
  split; [by vm_compute|].
  pose proof (fragment_spec sample_payload 8 sample_fid ltac:(done) eq_refl) as H.
  change (fragment sample_payload 8 sample_fid) with (Ret sample_wires) in H.
  destruct H as (ds & Hc & _ & Hl & _). by exists ds.
Defined.

Lemma reassembler_invariant_witness :
  ∃ r' os, feed_all Reassembler_new sample_events = Ret (r', os) ∧ (Z.of_nat (pending r') <= 256)%Z.
Proof.
  destruct (reassembler_invariant Reassembler_new sample_events Built_new)
    as (r' & os & E & _ & _ & Hp & _). exists r', os. split; [exact E|exact Hp].
Defined.

Lemma reassembler_sound_witness : assembled (sample_events.*2) sample_payload.
Proof.
  destruct (reassembler_sound Reassembler_new sample_events Built_new) as (r' & os & E & Ho).
  apply (Ho 2). assert (Hos : os = [None; None; Some sample_payload]).
  { clear Ho. vm_compute in E. injection E as _ <-. reflexivity. }
  rewrite Hos. reflexivity.
Defined.

Lemma reassemble_any_order_witness :
  ∃ r', feed_all (for_chunk_size 8) sample_events = Ret (r', [None; None; Some sample_payload]).
Proof.
  apply (reassemble_any_order 8 sample_payload sample_fid sample_wires [] (for_chunk_size 8) [] sample_events 0).
  - lia.
  - vm_compute. congruence.
  - reflexivity.
  - reflexivity.
  - reflexivity.
  - reflexivity.
  - reflexivity.
  - change (sample_events.*2) with (reverse sample_wires). apply reverse_Permutation.
  - reflexivity.
  - repeat constructor; vm_compute; done.
Defined.
