(* ===== verification/Channel.v ===== *)
(** The reliable Channel: frames, the sans-io connection state machine, the
    per-connection task and the demultiplexer
    ([rust/telesthete/src/channel.rs]). *)

From S2P Require Import Prelude Fragment.

(** * Frames *)

Definition FLAG_SYN : Z := 0x01.
Definition FLAG_FIN : Z := 0x02.
Definition FLAG_ACK : Z := 0x04.
Definition FLAG_RST : Z := 0x08.
Definition RESERVED_MASK : Z := 0xF0.
Definition CHANNEL_HEADER_LEN : nat := 19.
Definition DEFAULT_WINDOW : Z := 32.
Definition DEFAULT_RTO : Z := 500.
Definition MAX_RETRIES : Z := 10.

Record ChannelFrame := mkFrame {
  f_flags : Z;
  f_ack_num : Z;
  f_window : Z;
  f_seq : Z;
  f_data : bytes;
}.

(** [flags & FLAG != 0] *)
Definition has_flag (flags f : Z) : bool := negb (Z.land flags f =? 0)%Z.

Definition frame_wf (f : ChannelFrame) : Prop :=
  (0 <= f_flags f < 16)%Z ∧ is_u64 (f_ack_num f) ∧ is_u16 (f_window f) ∧ is_u64 (f_seq f).

Definition frame_serialize (f : ChannelFrame) : bytes :=
  [z2b (f_flags f)] ++ to_be_bytes 8 (f_ack_num f) ++ to_be_bytes 2 (f_window f)
  ++ to_be_bytes 8 (f_seq f) ++ f_data f.

Definition frame_parse (buf : bytes) : option ChannelFrame :=
  if decide (length buf < CHANNEL_HEADER_LEN) then None else
  let flags := from_be_bytes (slice 0 1 buf) in
  if has_flag flags RESERVED_MASK then None else
  Some (mkFrame flags (from_be_bytes (slice 1 9 buf)) (from_be_bytes (slice 9 11 buf))
          (from_be_bytes (slice 11 19 buf)) (drop CHANNEL_HEADER_LEN buf)).

Definition consumes_seq (f : ChannelFrame) : bool :=
  has_flag (f_flags f) FLAG_SYN || has_flag (f_flags f) FLAG_FIN || bool_decide (f_data f ≠ []).

(** * Connection state machine *)

Inductive ConnState := Closed | SynSent | Established | FinSent.

#[export] Instance ConnState_eq_dec : EqDecision ConnState.
Proof. solve_decision. Defined.

Record Unacked := mkUnacked { u_flags : Z; u_seq : Z; u_data : bytes }.

Record ChannelCore := mkCore {
  state : ConnState;
  send_next : Z;
  unacked : list Unacked;
  send_queue : list bytes;
  peer_window : Z;
  closing : bool;
  rcv_next : Z;
  recv_buffer : gmap Z ChannelFrame;
  reassembler : Reassembler;
  window : Z;
  rto : Z;
  retries : Z;
  outbox : list bytes;
  delivered : list bytes;
  just_established : bool;
  peer_closed : bool;
  dead : bool;
}.

(** Field updates. *)
Definition set_state (v : ConnState) (c : ChannelCore) : ChannelCore :=
  mkCore v (send_next c) (unacked c) (send_queue c) (peer_window c) (closing c) (rcv_next c)
    (recv_buffer c) (reassembler c) (window c) (rto c) (retries c) (outbox c)
    (delivered c) (just_established c) (peer_closed c) (dead c).
Definition set_send_next (v : Z) (c : ChannelCore) : ChannelCore :=
  mkCore (state c) v (unacked c) (send_queue c) (peer_window c) (closing c) (rcv_next c)
    (recv_buffer c) (reassembler c) (window c) (rto c) (retries c) (outbox c)
    (delivered c) (just_established c) (peer_closed c) (dead c).
Definition set_unacked (v : list Unacked) (c : ChannelCore) : ChannelCore :=
  mkCore (state c) (send_next c) v (send_queue c) (peer_window c) (closing c) (rcv_next c)
    (recv_buffer c) (reassembler c) (window c) (rto c) (retries c) (outbox c)
    (delivered c) (just_established c) (peer_closed c) (dead c).
Definition set_send_queue (v : list bytes) (c : ChannelCore) : ChannelCore :=
  mkCore (state c) (send_next c) (unacked c) v (peer_window c) (closing c) (rcv_next c)
    (recv_buffer c) (reassembler c) (window c) (rto c) (retries c) (outbox c)
    (delivered c) (just_established c) (peer_closed c) (dead c).
Definition set_peer_window (v : Z) (c : ChannelCore) : ChannelCore :=
  mkCore (state c) (send_next c) (unacked c) (send_queue c) v (closing c) (rcv_next c)
    (recv_buffer c) (reassembler c) (window c) (rto c) (retries c) (outbox c)
    (delivered c) (just_established c) (peer_closed c) (dead c).
Definition set_closing (v : bool) (c : ChannelCore) : ChannelCore :=
  mkCore (state c) (send_next c) (unacked c) (send_queue c) (peer_window c) v (rcv_next c)
    (recv_buffer c) (reassembler c) (window c) (rto c) (retries c) (outbox c)
    (delivered c) (just_established c) (peer_closed c) (dead c).
Definition set_rcv_next (v : Z) (c : ChannelCore) : ChannelCore :=
  mkCore (state c) (send_next c) (unacked c) (send_queue c) (peer_window c) (closing c) v
    (recv_buffer c) (reassembler c) (window c) (rto c) (retries c) (outbox c)
    (delivered c) (just_established c) (peer_closed c) (dead c).
Definition set_recv_buffer (v : gmap Z ChannelFrame) (c : ChannelCore) : ChannelCore :=
  mkCore (state c) (send_next c) (unacked c) (send_queue c) (peer_window c) (closing c)
    (rcv_next c) v (reassembler c) (window c) (rto c) (retries c) (outbox c)
    (delivered c) (just_established c) (peer_closed c) (dead c).
Definition set_reassembler (v : Reassembler) (c : ChannelCore) : ChannelCore :=
  mkCore (state c) (send_next c) (unacked c) (send_queue c) (peer_window c) (closing c)
    (rcv_next c) (recv_buffer c) v (window c) (rto c) (retries c) (outbox c)
    (delivered c) (just_established c) (peer_closed c) (dead c).
Definition set_retries (v : Z) (c : ChannelCore) : ChannelCore :=
  mkCore (state c) (send_next c) (unacked c) (send_queue c) (peer_window c) (closing c)
    (rcv_next c) (recv_buffer c) (reassembler c) (window c) (rto c) v (outbox c)
    (delivered c) (just_established c) (peer_closed c) (dead c).
Definition set_outbox (v : list bytes) (c : ChannelCore) : ChannelCore :=
  mkCore (state c) (send_next c) (unacked c) (send_queue c) (peer_window c) (closing c)
    (rcv_next c) (recv_buffer c) (reassembler c) (window c) (rto c) (retries c) v
    (delivered c) (just_established c) (peer_closed c) (dead c).
Definition set_delivered (v : list bytes) (c : ChannelCore) : ChannelCore :=
  mkCore (state c) (send_next c) (unacked c) (send_queue c) (peer_window c) (closing c)
    (rcv_next c) (recv_buffer c) (reassembler c) (window c) (rto c) (retries c)
    (outbox c) v (just_established c) (peer_closed c) (dead c).
Definition set_just_established (v : bool) (c : ChannelCore) : ChannelCore :=
  mkCore (state c) (send_next c) (unacked c) (send_queue c) (peer_window c) (closing c)
    (rcv_next c) (recv_buffer c) (reassembler c) (window c) (rto c) (retries c)
    (outbox c) (delivered c) v (peer_closed c) (dead c).
Definition set_peer_closed (v : bool) (c : ChannelCore) : ChannelCore :=
  mkCore (state c) (send_next c) (unacked c) (send_queue c) (peer_window c) (closing c)
    (rcv_next c) (recv_buffer c) (reassembler c) (window c) (rto c) (retries c)
    (outbox c) (delivered c) (just_established c) v (dead c).
Definition set_dead (v : bool) (c : ChannelCore) : ChannelCore :=
  mkCore (state c) (send_next c) (unacked c) (send_queue c) (peer_window c) (closing c)
    (rcv_next c) (recv_buffer c) (reassembler c) (window c) (rto c) (retries c)
    (outbox c) (delivered c) (just_established c) (peer_closed c) v.

Definition ChannelCore_new (window rto : Z) : ChannelCore :=
  mkCore Closed 0 [] [] DEFAULT_WINDOW false 0 ∅ (for_chunk_size MAX_CHUNK_PAYLOAD)
    window rto 0 [] [] false false false.

Definition has_unacked (c : ChannelCore) : bool := bool_decide (unacked c ≠ []).

Definition emit (flags sq : Z) (d : bytes) (c : ChannelCore) : ChannelCore :=
  let frame := mkFrame flags (rcv_next c) (window c) sq d in
  set_outbox (outbox c ++ [frame_serialize frame]) c.

Definition emit_reliable (flags sq : Z) (d : bytes) (c : ChannelCore) : ChannelCore :=
  emit flags sq d (set_unacked (unacked c ++ [mkUnacked flags sq d]) c).

Definition emit_pure_ack (c : ChannelCore) : ChannelCore := emit FLAG_ACK (send_next c) [] c.

(** [let seq = self.send_next; self.send_next += 1; self.emit_reliable(..)] *)
Definition emit_next (flags : Z) (d : bytes) (c : ChannelCore) : ChannelCore :=
  emit_reliable flags (send_next c) d (set_send_next (wrap 64 (send_next c + 1)) c).

Definition connect (c : ChannelCore) : ChannelCore :=
  if decide (state c ≠ Closed) then c else emit_next FLAG_SYN [] (set_state SynSent c).

(** The data loop of [pump]: it pops the queue, so it is structural in it. *)
Fixpoint pump_data (q : list bytes) (limit : Z) (c : ChannelCore) : ChannelCore :=
  match q with
  | d :: q' =>
      if (len (unacked c) <? limit)%Z
      then pump_data q' limit (emit_next FLAG_ACK d (set_send_queue q' c))
      else c
  | [] => c
  end.

Definition pump (c : ChannelCore) : ChannelCore :=
  if decide (state c ≠ Established) then c else
  let limit := Z.max (peer_window c) 1 in
  let c := pump_data (send_queue c) limit c in
  if closing c && bool_decide (send_queue c = []) && (len (unacked c) <? limit)%Z then
    set_closing false (set_state FinSent (emit_next (Z.lor FLAG_FIN FLAG_ACK) [] c))
  else c.

(** [fid] is the random id [getrandom] fills in. *)
Definition send_message (fid msg : bytes) (c : ChannelCore) : outcome ChannelCore :=
  ws ← fragment msg MAX_CHUNK_PAYLOAD fid;
  Ret (pump (set_send_queue (send_queue c ++ ws) c)).

Definition close (c : ChannelCore) : ChannelCore := pump (set_closing true c).

(** The loop of [ack]. *)
Fixpoint drop_acked (ack_num : Z) (us : list Unacked) : list Unacked :=
  match us with
  | u :: us' => if (u_seq u <? ack_num)%Z then drop_acked ack_num us' else us
  | [] => []
  end.

Definition ack (ack_num : Z) (c : ChannelCore) : ChannelCore :=
  let ack_num := Z.min ack_num (send_next c) in
  let before := length (unacked c) in
  let c := set_unacked (drop_acked ack_num (unacked c)) c in
  if decide (length (unacked c) ≠ before) then set_retries 0 c else c.

Definition teardown (c : ChannelCore) : ChannelCore :=
  set_dead true (set_send_queue [] (set_unacked [] (set_state Closed c))).

Definition on_timeout (c : ChannelCore) : ChannelCore :=
  if decide (unacked c = []) then c else
  if (MAX_RETRIES <=? retries c)%Z then teardown c else
  let c := set_retries (retries c + 1) c in
  foldl (λ c u, emit (u_flags u) (u_seq u) (u_data u) c) c (unacked c).

(** The drain loop of [deliver]: every round removes a buffered frame, so one
    more round than there are buffered frames is enough; running out of fuel
    would show as a panic. *)
Fixpoint drain (fuel : nat) (now : Z) (c : ChannelCore) : outcome ChannelCore :=
  match fuel with
  | O => Panic
  | S fuel' =>
      match recv_buffer c !! rcv_next c with
      | None => Ret c
      | Some fr =>
          let c := set_recv_buffer (delete (rcv_next c) (recv_buffer c)) c in
          let c := set_rcv_next (wrap 64 (rcv_next c + 1)) c in
          c ← (if has_flag (f_flags fr) FLAG_FIN then
                 let c := set_peer_closed true c in
                 Ret (if decide (state c = Established) then
                        set_state FinSent (emit_next (Z.lor FLAG_FIN FLAG_ACK) [] c)
                      else c)
               else if decide (f_data fr ≠ []) then
                 '(r, m) ← feed now (f_data fr) (reassembler c);
                 let c := set_reassembler r c in
                 Ret (match m with
                      | Some msg => set_delivered (delivered c ++ [msg]) c
                      | None => c
                      end)
               else Ret c);
          drain fuel' now c
      end
  end.

Definition deliver (now : Z) (f : ChannelFrame) (c : ChannelCore) : outcome ChannelCore :=
  if negb (consumes_seq f) then Ret c else
  if (f_seq f <? rcv_next c)%Z || bool_decide (is_Some (recv_buffer c !! f_seq f))
  then Ret (emit_pure_ack c) else
  if (wrap 64 (rcv_next c + window c) <=? f_seq f)%Z then Ret (emit_pure_ack c) else
  let c := set_recv_buffer (<[f_seq f := f]> (recv_buffer c)) c in
  c ← drain (S (size (recv_buffer c))) now c;
  Ret (emit_pure_ack c).

(** The responder's and the simultaneous opener's answer to a SYN. *)
Definition answer_syn (f : ChannelFrame) (c : ChannelCore) : ChannelCore :=
  let c := set_rcv_next (wrap 64 (f_seq f + 1)) c in
  let c := set_just_established true (set_state Established c) in
  emit_next (Z.lor FLAG_SYN FLAG_ACK) [] c.

Definition on_frame (now : Z) (f : ChannelFrame) (c : ChannelCore) : outcome ChannelCore :=
  let c := set_peer_window (f_window f) (ack (f_ack_num f) c) in
  if has_flag (f_flags f) FLAG_RST then Ret (teardown (set_peer_closed true c)) else
  match state c with
  | Closed => Ret (if has_flag (f_flags f) FLAG_SYN then answer_syn f c else c)
  | SynSent =>
      Ret (if has_flag (f_flags f) FLAG_SYN && has_flag (f_flags f) FLAG_ACK then
             let c := set_rcv_next (wrap 64 (f_seq f + 1)) c in
             let c := set_just_established true (set_state Established c) in
             pump (emit_pure_ack c)
           else if has_flag (f_flags f) FLAG_SYN then answer_syn f c
           else c)
  | Established | FinSent => c ← deliver now f c; Ret (pump c)
  end.

(** * Connection task *)

(** What a round of the [select!] of [run_connection] can receive. *)
Inductive ConnEvent :=
| CmdConnect
| CmdSend (fid d : bytes)
| CmdClose
| CmdGone
| FrameIn (f : ChannelFrame)
| HubGone
| TimerFired.

Record Conn := mkConn {
  core : ChannelCore;
  deliver_tx : bool;
  pending_connect : bool;
  deadline : option Z;
  running : bool;
}.

(** What a round does to the outside: payloads handed to the transport,
    messages handed to the endpoint, and whether a waiting [connect] was
    answered. *)
Record ConnOut := mkOut { o_sent : list bytes; o_messages : list bytes; o_connected : bool }.

Definition Conn_new (window rto : Z) : Conn :=
  mkConn (ChannelCore_new window rto) true false None true.

(** The part of a round after the event was handled: flush the outputs, tell
    the endpoint, stop when dead, re-arm the timer. [rx_open] says whether the
    endpoint still holds its receiver. *)
Definition conn_flush (now : Z) (rx_open : bool) (t : Conn) : Conn * ConnOut :=
  let c := core t in
  let sent := outbox c in
  let msgs := if deliver_tx t && rx_open then delivered c else [] in
  let tx := deliver_tx t && (rx_open || bool_decide (delivered c = [])) in
  let answered := just_established c && pending_connect t in
  let pend := pending_connect t && negb (just_established c) in
  let c := set_just_established false (set_delivered [] (set_outbox [] c)) in
  let tx := tx && negb (peer_closed c) in
  let out := mkOut sent msgs answered in
  if dead c then (mkConn c tx pend (deadline t) false, out) else
  let dl := if has_unacked c
            then Some (match deadline t with Some d => d | None => now + rto c end)%Z
            else None in
  (mkConn c tx pend dl true, out).

Definition conn_round (now : Z) (rx_open : bool) (ev : ConnEvent) (t : Conn)
    : outcome (Conn * ConnOut) :=
  let c := core t in
  let go c := Ret (conn_flush now rx_open (mkConn c (deliver_tx t) (pending_connect t) (deadline t) true)) in
  let stop := Ret (mkConn c (deliver_tx t) (pending_connect t) (deadline t) false, mkOut [] [] false) in
  match ev with
  | CmdConnect =>
      if decide (state c = Established) then
        '(t', out) ← go c;
        Ret (t', mkOut (o_sent out) (o_messages out) true)
      else Ret (conn_flush now rx_open (mkConn (connect c) (deliver_tx t) true (deadline t) true))
  | CmdSend fid d => c ← send_message fid d c; go c
  | CmdClose => go (close c)
  | CmdGone => stop
  | FrameIn f => c ← on_frame now f c; go c
  | HubGone => stop
  | TimerFired => Ret (conn_flush now rx_open (mkConn (on_timeout c) (deliver_tx t) (pending_connect t) None true))
  end.

(** * Demultiplexer *)

(** The hub's table: per (peer, channel) the outer-sequence watermark, and the
    connections that have a task. *)
Record Hub := mkHub {
  watermarks : gmap (string * Z) Z;
  routes : gset (string * Z);
}.

Definition Hub_new : Hub := mkHub ∅ ∅.

Definition hub_open (peer : string) (cid : Z) (h : Hub) : Hub :=
  mkHub (watermarks h) ({[(peer, cid)]} ∪ routes h).

(** One packet through the demultiplexer: the frame for the task of its key, if
    any. The watermark moves before the frame is parsed or routed. *)
Definition hub_packet (from : string) (cid sequence : Z) (payload : bytes) (h : Hub)
    : Hub * option ((string * Z) * ChannelFrame) :=
  let key := (from, cid) in
  let stale := match watermarks h !! key with Some prev => (sequence <=? prev)%Z | None => false end in
  if stale then (h, None) else
  let h := mkHub (<[key := sequence]> (watermarks h)) (routes h) in
  match frame_parse payload with
  | None => (h, None)
  | Some f => if decide (key ∈ routes h) then (h, Some (key, f)) else (h, None)
  end.

(** A peer restarted: its watermarks are cleared. *)
Definition hub_rebase (addr : string) (h : Hub) : Hub :=
  mkHub (filter (λ e, e.1.1 ≠ addr) (watermarks h)) (routes h).

(** ** Frame lemmas *)

Lemma has_flag_spec flags n : has_flag flags (2 ^ Z.of_nat n) = Z.testbit flags (Z.of_nat n).
Proof.
  unfold has_flag. destruct (Z.testbit flags (Z.of_nat n)) eqn:E.
  - apply negb_true_iff, Z.eqb_neq. intros H.
    apply (f_equal (λ x, Z.testbit x (Z.of_nat n))) in H.
    rewrite Z.land_spec, Z.pow2_bits_true, E, Z.bits_0 in H by lia. done.
  - apply negb_false_iff, Z.eqb_eq, Z.bits_inj'. intros m Hm.
    rewrite Z.land_spec, Z.bits_0, Z.pow2_bits_eqb by lia.
    destruct (Z.eqb_spec (Z.of_nat n) m) as [<-|]; [by rewrite E|by rewrite andb_false_r].
Qed.

(** The four defined flags are the low half of the byte. *)
Lemma reserved_mask_spec flags : is_u8 flags → has_flag flags RESERVED_MASK = (16 <=? flags)%Z.
Proof.
  intros Hf. apply eqb_prop. revert flags Hf. apply u8_forall. by vm_compute.
Qed.

Lemma frame_parse_serialize f : frame_wf f → frame_parse (frame_serialize f) = Some f.
Proof.
  intros (Hf & Ha & Hw & Hs). unfold frame_parse, frame_serialize, CHANNEL_HEADER_LEN.
  rewrite decide_False by len_solve. slices.
  rewrite from_be_bytes_1, b2z_z2b_u8 by (unfold is_u8; lia).
  rewrite reserved_mask_spec by (unfold is_u8; lia). rewrite (proj2 (Z.leb_gt _ _)) by lia.
  rewrite !from_to_be_u64, from_to_be_u16, drop_0 by done. by destruct f.
Qed.

Lemma frame_parse_inv w f : frame_parse w = Some f → frame_wf f ∧ w = frame_serialize f.
Proof.
  unfold frame_parse, frame_wf, frame_serialize, CHANNEL_HEADER_LEN.
  case_decide as Hl; [done|].
  assert (L0 : length (slice 0 1 w) = 1) by (rewrite length_slice; lia).
  assert (L1 : length (slice 1 9 w) = 8) by (rewrite length_slice; lia).
  assert (L2 : length (slice 9 11 w) = 2) by (rewrite length_slice; lia).
  assert (L3 : length (slice 11 19 w) = 8) by (rewrite length_slice; lia).
  rewrite reserved_mask_spec by auto with tele.
  destruct (Z.leb_spec 16 (from_be_bytes (slice 0 1 w))); [done|]. intros [= <-].
  pose proof (from_be_bytes_range (slice 0 1 w)).
  cbn [f_flags f_ack_num f_window f_seq f_data]. split; [split_and!; auto with tele; lia|].
  rewrite !to_from_be_bytes', u8_slice by done.
  by rewrite !slice_drop_app, drop_0 by lia.
Qed.

(** ** State machine lemmas *)

(** What a drained frame gives to the reassembler. *)
Definition frame_chunk (fr : ChannelFrame) : list bytes :=
  if has_flag (f_flags fr) FLAG_FIN then [] else
  if decide (f_data fr ≠ []) then [f_data fr] else [].

(** The parts of the state the receive path leaves alone. *)
Definition rest (c : ChannelCore) :=
  (send_queue c, peer_window c, closing c, window c, rto c, retries c, just_established c, dead c).

Definition send_side (c : ChannelCore) := (state c, send_next c, unacked c, outbox c).

(** [c'] answered the peer's FIN with its own, when [r] was the next expected seq. *)
Definition fin_answered (c c' : ChannelCore) (r : Z) : Prop :=
  state c = Established
  ∧ send_side c' = (FinSent, wrap 64 (send_next c + 1),
      unacked c ++ [mkUnacked (Z.lor FLAG_FIN FLAG_ACK) (send_next c) []],
      outbox c ++ [frame_serialize (mkFrame (Z.lor FLAG_FIN FLAG_ACK) r (window c) (send_next c) [])]).

Record drained (now : Z) (c c' : ChannelCore) (frs : list ChannelFrame) : Prop := {
  d_frames : ∀ i fr, frs !! i = Some fr → recv_buffer c !! (rcv_next c + Z.of_nat i)%Z = Some fr;
  d_next : rcv_next c' = (rcv_next c + len frs)%Z;
  d_buffer : ∀ k, recv_buffer c' !! k =
    if decide (rcv_next c <= k < rcv_next c')%Z then None else recv_buffer c !! k;
  d_stop : recv_buffer c' !! rcv_next c' = None;
  d_rest : rest c' = rest c;
  d_send : send_side c' = send_side c ∨
    ∃ r, (rcv_next c < r <= rcv_next c')%Z ∧ fin_answered c c' r;
  d_fed : ∃ os, feed_all (reassembler c) (pair now <$> (frs ≫= frame_chunk)) = Ret (reassembler c', os)
            ∧ delivered c' = delivered c ++ omap id os;
}.

(** One round of the drain loop on a frame that is there. *)
Definition drain_one (now : Z) (fr : ChannelFrame) (c : ChannelCore) : outcome ChannelCore :=
  let c := set_recv_buffer (delete (rcv_next c) (recv_buffer c)) c in
  let c := set_rcv_next (wrap 64 (rcv_next c + 1)) c in
  if has_flag (f_flags fr) FLAG_FIN then
    let c := set_peer_closed true c in
    Ret (if decide (state c = Established) then
           set_state FinSent (emit_next (Z.lor FLAG_FIN FLAG_ACK) [] c)
         else c)
  else if decide (f_data fr ≠ []) then
    '(r, m) ← feed now (f_data fr) (reassembler c);
    let c := set_reassembler r c in
    Ret (match m with
         | Some msg => set_delivered (delivered c ++ [msg]) c
         | None => c
         end)
  else Ret c.

Lemma drain_S fuel now c :
  drain (S fuel) now c =
  match recv_buffer c !! rcv_next c with
  | None => Ret c
  | Some fr => c ← drain_one now fr c; drain fuel now c
  end.
Proof. done. Qed.

Lemma drain_one_spec now fr c :
  Reassembler_wf (reassembler c) → (0 <= rcv_next c)%Z → (rcv_next c + 1 < 2 ^ 64)%Z →
  ∃ c', drain_one now fr c = Ret c' ∧ Reassembler_wf (reassembler c')
    ∧ rcv_next c' = (rcv_next c + 1)%Z ∧ recv_buffer c' = delete (rcv_next c) (recv_buffer c)
    ∧ rest c' = rest c
    ∧ (send_side c' = send_side c ∨ fin_answered c c' (rcv_next c'))
    ∧ ∃ os, feed_all (reassembler c) (pair now <$> frame_chunk fr) = Ret (reassembler c', os)
        ∧ delivered c' = delivered c ++ omap id os.
Proof.
  intros W H0 H1. unfold drain_one, frame_chunk.
  assert (Hw : wrap 64 (rcv_next c + 1) = (rcv_next c + 1)%Z) by (unfold wrap; rewrite Z.mod_small; lia).
  destruct (has_flag (f_flags fr) FLAG_FIN).
  - eexists; split; [done|]. cbn [state set_peer_closed set_rcv_next set_recv_buffer].
    case_decide as Hs; (split_and!; [exact W|exact Hw|done|done| |]).
    + right. split; [done|]. unfold send_side. simpl. by rewrite Hs || rewrite Hw.
    + exists []. split; [done|]. simpl. by rewrite app_nil_r.
    + by left.
    + exists []. split; [done|]. simpl. by rewrite app_nil_r.
  - case_decide as Hd.
    + cbn [set_rcv_next set_recv_buffer reassembler].
      destruct (feed_wf now (f_data fr) (reassembler c) W) as (r & o & E & W' & _).
      rewrite E. cbn [mbind outcome_bind]. eexists; split; [done|].
      destruct o as [msg|]; (split_and!; [exact W'|exact Hw|done|done|by left|]).
      * exists [Some msg]. simpl. rewrite E. done.
      * exists [None]. simpl. rewrite E. simpl. by rewrite app_nil_r.
    + eexists; split; [done|]. split_and!; [exact W|exact Hw|done|done|by left|].
      exists []. split; [done|]. simpl. by rewrite app_nil_r.
Qed.

Lemma fin_answered_trans c c1 c2 r :
  rest c1 = rest c → rcv_next c1 = r → fin_answered c c1 r → send_side c2 = send_side c1 → fin_answered c c2 r.
Proof. intros _ _ [Hs He] E. split; [done|]. by rewrite E. Qed.

Lemma fin_answered_shift c c1 c2 r :
  rest c1 = rest c → send_side c1 = send_side c → fin_answered c1 c2 r → fin_answered c c2 r.
Proof.
  unfold fin_answered, rest, send_side. intros Hr Hs [H1 H2]. simplify_eq.
  split; [congruence|]. rewrite H2. congruence.
Qed.

(** The drain loop ends, and processes the contiguous run of buffered frames
    that starts at [rcv_next], in order. *)
Lemma drain_spec fuel now c :
  Reassembler_wf (reassembler c) → (0 <= rcv_next c)%Z →
  (∀ k f, recv_buffer c !! k = Some f → (k + 1 < 2 ^ 64)%Z) →
  size (recv_buffer c) < fuel →
  ∃ c' frs, drain fuel now c = Ret c' ∧ Reassembler_wf (reassembler c') ∧ drained now c c' frs.
Proof.
  revert c. induction fuel as [|fuel IH]; intros c W H0 Hk Hsz; [lia|]. rewrite drain_S.
  destruct (recv_buffer c !! rcv_next c) as [fr|] eqn:Hfr.
  2:{ exists c, []. split; [done|]. split; [done|]. split; try done.
      - change (len []) with 0%Z. lia.
      - intros k. rewrite decide_False by lia. done.
      - by left.
      - exists []. split; [done|]. simpl. by rewrite app_nil_r. }
  destruct (drain_one_spec now fr c W H0 (Hk _ _ Hfr)) as (c1 & -> & W1 & Hn1 & Hb1 & Hr1 & Hs1 & os1 & Hf1 & Hd1).
  cbn [mbind outcome_bind].
  destruct (IH c1 W1) as (c' & frs & -> & W' & D); [lia|..].
  { intros k f. rewrite Hb1. intros [_ ?]%lookup_delete_Some. eauto. }
  { rewrite Hb1, map_size_delete_Some by done. destruct (size (recv_buffer c)) eqn:Hz; [|lia].
    apply map_size_empty_inv in Hz. by rewrite Hz, lookup_empty in Hfr. }
  exists c', (fr :: frs). split; [done|]. split; [done|].
  destruct D as [Df Dn Db Ds Dr Dsd (os & Hf & Hd)].
  pose proof (len_nonneg frs). rewrite Hn1 in *. split.
  - intros [|i] fr' Hi; simpl in Hi.
    + simplify_eq. by replace (rcv_next c + Z.of_nat 0)%Z with (rcv_next c) by lia.
    + apply Df in Hi. rewrite Hb1 in Hi. apply lookup_delete_Some in Hi as [_ Hi].
      by replace (rcv_next c + Z.of_nat (S i))%Z with (rcv_next c + 1 + Z.of_nat i)%Z by lia.
  - rewrite len_cons. lia.
  - intros k. rewrite Db, Hb1. destruct (decide (k = rcv_next c)) as [->|Hne].
    + rewrite decide_False by lia. rewrite decide_True by lia. apply lookup_delete_eq.
    + rewrite lookup_delete_ne by done. destruct (decide (rcv_next c <= k < rcv_next c')%Z).
      * by rewrite decide_True by lia.
      * by rewrite decide_False by lia.
  - done.
  - congruence.
  - destruct Hs1 as [Hs1|Hs1], Dsd as [Dsd|(r & Hr & Dsd)].
    + left. congruence.
    + right. exists r. split; [lia|]. by eapply fin_answered_shift.
    + right. exists (rcv_next c + 1)%Z. split; [lia|]. by eapply fin_answered_trans.
    + exfalso. destruct Hs1 as [_ E]. destruct Dsd as [E' _]. unfold send_side in E. congruence.
  - exists (os1 ++ os). rewrite bind_cons, fmap_app, feed_all_app, Hf1. cbn [mbind outcome_bind].
    rewrite Hf. cbn [mbind outcome_bind]. split; [done|]. by rewrite Hd, Hd1, omap_app, app_assoc.
Qed.

Lemma wrap64_u64 z : is_u64 (wrap 64 z).
Proof. unfold is_u64, wrap. apply Z.mod_pos_bound. lia. Qed.

(** What sending leaves alone. *)
Definition recv_side (c : ChannelCore) :=
  (rcv_next c, recv_buffer c, reassembler c, delivered c, peer_closed c, window c, rto c,
   peer_window c, just_established c, retries c, dead c).

Lemma pump_data_frame q limit c :
  recv_side (pump_data q limit c) = recv_side c ∧ state (pump_data q limit c) = state c
  ∧ closing (pump_data q limit c) = closing c
  ∧ (is_u64 (send_next c) → is_u64 (send_next (pump_data q limit c))).
Proof.
  revert c. induction q as [|d q IH]; intros c; simpl; [done|]. case_match; [|done].
  destruct (IH (emit_next FLAG_ACK d (set_send_queue q c))) as (-> & -> & -> & Hn).
  split_and!; try done. intros _. apply Hn, wrap64_u64.
Qed.

Lemma pump_frame c :
  recv_side (pump c) = recv_side c
  ∧ (is_u64 (send_next c) → is_u64 (send_next (pump c)))
  ∧ (state (pump c) = state c ∨ state c = Established ∧ state (pump c) = FinSent).
Proof.
  unfold pump. case_decide as Hs; [by split_and!; auto|].
  destruct (pump_data_frame (send_queue c) (Z.max (peer_window c) 1) c) as (Hr & Hst & _ & Hn).
  set (c1 := pump_data _ _ _) in *. case_match.
  - split_and!; [exact Hr| |by right].
    intros _. apply wrap64_u64.
  - split_and!; auto.
Qed.

(** The invariant of a live connection, whatever the peer sends. *)
Record Core_wf (c : ChannelCore) : Prop := {
  cw_window : is_u16 (window c);
  cw_peer_window : is_u16 (peer_window c);
  cw_send_next : is_u64 (send_next c);
  cw_rcv_next : is_u64 (rcv_next c);
  cw_reassembler : Reassembler_wf (reassembler c);
  cw_buffer : ∀ k f, recv_buffer c !! k = Some f →
    (rcv_next c < k < rcv_next c + window c)%Z ∧ (k + 1 < 2 ^ 64)%Z ∧ f_seq f = k;
  cw_retries : (0 <= retries c <= MAX_RETRIES)%Z;
  cw_early : state c = Closed ∨ state c = SynSent → recv_buffer c = ∅;
}.

Lemma recv_side_wf c c' :
  Core_wf c → recv_side c' = recv_side c → is_u64 (send_next c') →
  (state c' = Closed ∨ state c' = SynSent → state c = Closed ∨ state c = SynSent) → Core_wf c'.
Proof.
  unfold recv_side. intros [] [= E1 E2 E3 E4 E5 E6 E7 E8 E9 E10 E11] Hn Hs.
  split; rewrite ?E1, ?E2, ?E3, ?E6, ?E8, ?E10; auto.
Qed.

Lemma pump_wf c : Core_wf c → Core_wf (pump c).
Proof.
  intros W. destruct (pump_frame c) as (Hr & Hn & Hs).
  eapply recv_side_wf; [done|done|apply Hn, W|]. destruct Hs as [->|[-> ->]]; naive_solver.
Qed.

Lemma emit_wf flags sq d c : Core_wf c → Core_wf (emit flags sq d c).
Proof. intros W. eapply recv_side_wf; [done|done|apply W|done]. Qed.

Lemma emit_next_wf flags d c : Core_wf c → Core_wf (emit_next flags d c).
Proof. intros W. eapply recv_side_wf; [done|done|apply wrap64_u64|done]. Qed.

Lemma ack_wf a c : Core_wf c → Core_wf (ack a c) ∧ state (ack a c) = state c.
Proof. intros []. unfold ack. case_decide; (split; [|done]); split; simpl; auto. done. Qed.

Lemma set_peer_window_wf v c : Core_wf c → is_u16 v → Core_wf (set_peer_window v c).
Proof. intros [] ?. by split. Qed.

Lemma emit_pure_ack_wf c : Core_wf c → Core_wf (emit_pure_ack c).
Proof. unfold emit_pure_ack. apply emit_wf. Qed.

(** The reorder buffer holds at most [window - 1] frames. *)
Lemma recv_buffer_bound c : Core_wf c → (Z.of_nat (size (recv_buffer c)) <= Z.max 0 (window c - 1))%Z.
Proof.
  intros W. rewrite <- size_dom.
  assert (Hsub : dom (recv_buffer c) ⊆ list_to_set (C := gset Z) (seqZ (rcv_next c + 1) (window c - 1))).
  { intros k Hk. apply elem_of_dom in Hk as [f Hk]. apply elem_of_list_to_set, elem_of_seqZ.
    destruct (cw_buffer _ W _ _ Hk) as (? & ? & ?). lia. }
  apply subseteq_size in Hsub. rewrite size_list_to_set, length_seqZ in Hsub by apply NoDup_seqZ. lia.
Qed.

(** [deliver] on any frame: refused and re-acknowledged, or buffered and the
    run that is now contiguous drained. *)
Lemma deliver_cases now f c :
  Core_wf c → frame_wf f →
  (consumes_seq f = false ∧ deliver now f c = Ret c)
  ∨ (consumes_seq f = true ∧ deliver now f c = Ret (emit_pure_ack c)
     ∧ (f_seq f < rcv_next c ∨ is_Some (recv_buffer c !! f_seq f)
        ∨ rcv_next c + window c <= f_seq f ∨ 2 ^ 64 <= rcv_next c + window c)%Z)
  ∨ (consumes_seq f = true ∧ (rcv_next c <= f_seq f < rcv_next c + window c)%Z
     ∧ (rcv_next c + window c < 2 ^ 64)%Z ∧ recv_buffer c !! f_seq f = None
     ∧ ∃ c1 frs, deliver now f c = Ret (emit_pure_ack c1) ∧ Reassembler_wf (reassembler c1)
        ∧ drained now (set_recv_buffer (<[f_seq f := f]> (recv_buffer c)) c) c1 frs).
Proof.
  intros W (_ & _ & _ & Hs). unfold deliver. destruct (consumes_seq f); [right|by left]. simpl negb. cbv iota.
  pose proof (cw_rcv_next _ W). pose proof (cw_window _ W). unfold is_u64, is_u16 in *.
  destruct (Z.ltb_spec (f_seq f) (rcv_next c)); simpl orb; [left; by split_and!; auto|].
  destruct (bool_decide _) eqn:Hb; bool_to_Prop; [left; by split_and!; auto|].
  apply eq_None_not_Some in Hb.
  destruct (decide (2 ^ 64 <= rcv_next c + window c)%Z) as [Hov|Hov].
  { assert (Hw : wrap 64 (rcv_next c + window c) = (rcv_next c + window c - 2 ^ 64)%Z).
    { unfold wrap. symmetry. apply (Z.mod_unique_pos _ _ 1); lia. }
    rewrite Hw, (proj2 (Z.leb_le _ _)) by lia. left. split_and!; auto. }
  assert (Hw : wrap 64 (rcv_next c + window c) = (rcv_next c + window c)%Z)
    by (unfold wrap; rewrite Z.mod_small; lia).
  rewrite Hw. destruct (Z.leb_spec (rcv_next c + window c) (f_seq f)); [left; by split_and!; auto|].
  right. split_and!; [done|lia|lia|lia|done|].
  edestruct (drain_spec (S (size (recv_buffer (set_recv_buffer (<[f_seq f:=f]> (recv_buffer c)) c)))) now
    (set_recv_buffer (<[f_seq f := f]> (recv_buffer c)) c)) as (c1 & frs & -> & W1 & D).
  - apply W.
  - simpl. lia.
  - simpl. intros k g [[<- <-]|[_ Hk]]%lookup_insert_Some; [lia|].
    destruct (cw_buffer _ W _ _ Hk) as (? & ? & ?). lia.
  - lia.
  - exists c1, frs. by split_and!.
Qed.

(** After the drain the buffer again lies strictly above [rcv_next]. *)
Lemma drained_wf now f c c1 frs :
  Core_wf c → (state c = Established ∨ state c = FinSent) →
  (rcv_next c <= f_seq f < rcv_next c + window c)%Z → (rcv_next c + window c < 2 ^ 64)%Z →
  Reassembler_wf (reassembler c1) →
  drained now (set_recv_buffer (<[f_seq f := f]> (recv_buffer c)) c) c1 frs →
  Core_wf c1 ∧ (state c1 = Established ∨ state c1 = FinSent)
  ∧ (rcv_next c <= rcv_next c1)%Z ∧ (rcv_next c1 < 2 ^ 64)%Z.
Proof.
  intros W Hst Hseq Hov W1 [Df Dn Db Ds Dr Dsd _].
  pose proof (len_nonneg frs) as Hlen. simpl in Dn, Db, Df.
  pose proof (cw_rcv_next _ W) as Hrn. unfold is_u64 in Hrn.
  assert (Hkeys : ∀ k g, <[f_seq f := f]> (recv_buffer c) !! k = Some g →
    (rcv_next c <= k < rcv_next c + window c)%Z ∧ f_seq g = k).
  { intros k g [[<- <-]|[_ Hk]]%lookup_insert_Some; [done|].
    destruct (cw_buffer _ W _ _ Hk) as (? & ? & ?). lia. }
  assert (Hlt : (rcv_next c1 <= rcv_next c + window c)%Z).
  { destruct frs as [|fr0 frs0] eqn:Efr; [rewrite Dn; change (len []) with 0%Z; lia|]. rewrite <- Efr in *.
    destruct (lookup_lt_is_Some_2 frs (length frs - 1)) as [g Hg]; [rewrite Efr; simpl; lia|].
    apply Df, Hkeys in Hg. unfold len in *. lia. }
  injection Dr as Hr1 Hr2 Hr3 Hr4 Hr5 Hr6 Hr7 Hr8. simpl in *.
  assert (Hst' : state c1 = Established ∨ state c1 = FinSent).
  { destruct Dsd as [Dsd|(r & _ & _ & Dsd)]; unfold send_side in Dsd; simpl in Dsd; simplify_eq.
    - congruence.
    - right. congruence. }
  split_and!; [|done|lia|lia]. split; rewrite ?Hr4, ?Hr2, ?Hr6; try apply W.
  - destruct Dsd as [Dsd|(r & _ & _ & Dsd)]; unfold send_side in Dsd; simpl in Dsd; injection Dsd as _ -> _ _.
    + apply W.
    + apply wrap64_u64.
  - unfold is_u64. lia.
  - done.
  - intros k g. rewrite Db. case_decide as Hd; [done|]. intros Hk. pose proof (Hkeys _ _ Hk) as [Hr Hq].
    assert (k ≠ rcv_next c1).
    { intros ->. rewrite Db in Ds. rewrite decide_False in Ds by lia. congruence. }
    split_and!; [lia..|done].
  - intros [E|E]; destruct Hst' as [E'|E']; congruence.
Qed.

(** A live connection that gets any well-formed frame neither panics nor loops;
    it stays live with the invariant, or was reset. *)
Lemma on_frame_wf now f c :
  Core_wf c → frame_wf f → dead c = false →
  ∃ c', on_frame now f c = Ret c'
    ∧ if has_flag (f_flags f) FLAG_RST then dead c' = true ∧ unacked c' = [] ∧ send_queue c' = []
      else Core_wf c' ∧ dead c' = false.
Proof.
  intros W Wf Hdead. unfold on_frame. pose proof Wf as (_ & _ & Hw & Hs).
  destruct (ack_wf (f_ack_num f) c W) as [W1 S1].
  assert (D1 : dead (ack (f_ack_num f) c) = false) by (unfold ack; case_decide; done).
  pose proof (set_peer_window_wf _ _ W1 Hw) as W2.
  set (c2 := set_peer_window (f_window f) (ack (f_ack_num f) c)) in *.
  assert (D2 : dead c2 = false) by done.
  clearbody c2. clear W1 S1 D1 W.
  destruct (has_flag (f_flags f) FLAG_RST); [by eexists|].
  assert (Hpump : ∀ c, Core_wf c → dead c = false → Core_wf (pump c) ∧ dead (pump c) = false).
  { intros c' Wc Dc. split; [by apply pump_wf|]. destruct (pump_frame c') as ([=] & _). congruence. }
  assert (Hest : ∀ c, Core_wf c → (state c = Closed ∨ state c = SynSent) →
    Core_wf (set_just_established true (set_state Established (set_rcv_next (wrap 64 (f_seq f + 1)) c)))).
  { intros c' Wc Sc. pose proof (cw_early _ Wc Sc) as Hb. destruct Wc. split; simpl; auto using wrap64_u64.
    intros k g. by rewrite Hb, lookup_empty. }
  assert (Hsyn : ∀ c, Core_wf c → (state c = Closed ∨ state c = SynSent) → dead c = false →
    Core_wf (answer_syn f c) ∧ dead (answer_syn f c) = false).
  { intros c' Wc Sc Dc. split; [|done]. apply emit_next_wf. by apply Hest. }
  destruct (state c2) eqn:Est.
  - eexists; split; [done|]. case_match; auto.
  - eexists; split; [done|]. case_match; [|case_match; auto].
    apply Hpump; [|done]. apply emit_pure_ack_wf. auto.
  - destruct (deliver_cases now f c2 W2 Wf) as [(_ & ->)|[(_ & -> & _)|(_ & H1 & H2 & _ & c1 & frs & -> & Wr & D)]];
      cbn [mbind outcome_bind]; eexists; (split; [done|]).
    + by apply Hpump.
    + apply Hpump; [by apply emit_pure_ack_wf|done].
    + destruct (drained_wf _ _ _ _ _ W2 (or_introl Est) H1 H2 Wr D) as (W3 & _).
      apply Hpump; [by apply emit_pure_ack_wf|]. destruct D as [_ _ _ _ [= ] _ _]. simpl in *. congruence.
  - destruct (deliver_cases now f c2 W2 Wf) as [(_ & ->)|[(_ & -> & _)|(_ & H1 & H2 & _ & c1 & frs & -> & Wr & D)]];
      cbn [mbind outcome_bind]; eexists; (split; [done|]).
    + by apply Hpump.
    + apply Hpump; [by apply emit_pure_ack_wf|done].
    + destruct (drained_wf _ _ _ _ _ W2 (or_intror Est) H1 H2 Wr D) as (W3 & _).
      apply Hpump; [by apply emit_pure_ack_wf|]. destruct D as [_ _ _ _ [= ] _ _]. simpl in *. congruence.
Qed.

(** *** The other handlers *)

Lemma connect_wf c : Core_wf c → Core_wf (connect c).
Proof.
  intros W. unfold connect. case_decide as Hs; [done|].
  eapply recv_side_wf; [exact W|done|apply wrap64_u64|by left].
Qed.

Lemma send_message_wf fid d c :
  Core_wf c → (len (pieces_of MAX_CHUNK_PAYLOAD d) <= 0xFFFF)%Z →
  ∃ c', send_message fid d c = Ret c' ∧ Core_wf c' ∧ dead c' = dead c.
Proof.
  intros W Hl. unfold send_message. rewrite fragment_eq by done.
  rewrite (proj2 (Z.ltb_ge _ _)) by done. cbn [mbind outcome_bind]. eexists; split; [done|].
  set (c1 := set_send_queue _ c). assert (W1 : Core_wf c1) by by destruct W.
  split; [by apply pump_wf|]. destruct (pump_frame c1) as (Hr & _). by injection Hr.
Qed.

Lemma on_timeout_wf c : Core_wf c → dead c = false → Core_wf (on_timeout c) ∧ dead (on_timeout c) = false
  ∨ dead (on_timeout c) = true.
Proof.
  intros W Hd. unfold on_timeout. case_decide; [by left|].
  destruct (Z.leb_spec MAX_RETRIES (retries c)); [by right|left].
  assert (G : ∀ us c, let c' := foldl (λ c u, emit (u_flags u) (u_seq u) (u_data u) c) c us in
    Core_wf c → Core_wf c' ∧ dead c' = dead c).
  { induction us as [|u us IH]; intros c0; simpl; [done|]. intros W0.
    destruct (IH _ (emit_wf (u_flags u) (u_seq u) (u_data u) c0 W0)). done. }
  destruct (G (unacked (set_retries (retries c + 1) c)) (set_retries (retries c + 1) c)) as [W' D'].
  { destruct W. split; simpl; try done. lia. }
  split; [done|]. by rewrite D'.
Qed.

(** What the endpoint and the hub can hand to the task: a parsed frame, a
    message that fits the envelope. *)
Definition event_ok (ev : ConnEvent) : Prop :=
  match ev with
  | FrameIn f => frame_wf f
  | CmdSend _ d => (len (pieces_of MAX_CHUNK_PAYLOAD d) <= 0xFFFF)%Z
  | _ => True
  end.

Definition Conn_wf (t : Conn) : Prop := running t = true → Core_wf (core t) ∧ dead (core t) = false.

Lemma conn_flush_wf now rx t :
  (Core_wf (core t) ∧ dead (core t) = false ∨ dead (core t) = true) → Conn_wf (conn_flush now rx t).1.
Proof.
  intros Hc. unfold conn_flush. simpl. destruct (dead (core t)) eqn:Hd; simpl; intros Hr; [done|].
  destruct Hc as [[W _]|?]; [|done]. split; [by destruct W|done].
Qed.

Lemma conn_round_wf now rx ev t :
  Conn_wf t → running t = true → event_ok ev →
  ∃ t' out, conn_round now rx ev t = Ret (t', out) ∧ Conn_wf t'.
Proof.
  intros Wt Hr Hev. destruct (Wt Hr) as [W Hd]. unfold conn_round.
  assert (G : ∀ c tx pc dl, (Core_wf c ∧ dead c = false ∨ dead c = true) →
    ∃ t' out, Ret (conn_flush now rx (mkConn c tx pc dl true)) = Ret (t', out) ∧ Conn_wf t').
  { intros c tx pc dl Hc. pose proof (conn_flush_wf now rx (mkConn c tx pc dl true) Hc).
    destruct (conn_flush _ _ _) as [t' out]. by exists t', out. }
  destruct ev as [|fid d| | |f| |]; cbn [mbind outcome_bind] in *.
  - case_decide.
    + pose proof (conn_flush_wf now rx (mkConn (core t) (deliver_tx t) (pending_connect t) (deadline t) true)
        (or_introl (conj W Hd))).
      destruct (conn_flush _ _ _) as [t' out]. by eexists _, _.
    + apply G. left. split; [by apply connect_wf|]. unfold connect. by case_decide.
  - destruct (send_message_wf fid d (core t) W Hev) as (c' & -> & W' & D'). cbn [mbind outcome_bind].
    apply G. left. by rewrite D'.
  - apply G. left. unfold close. set (c1 := set_closing true (core t)).
    assert (W1 : Core_wf c1) by by destruct W. split; [by apply pump_wf|].
    destruct (pump_frame c1) as (Hs & _). injection Hs. congruence.
  - by eexists _, _.
  - destruct (on_frame_wf now f (core t) W Hev Hd) as (c' & -> & Hc'). cbn [mbind outcome_bind].
    apply G. destruct (has_flag _ _); naive_solver.
  - by eexists _, _.
  - apply G. by apply on_timeout_wf.
Qed.

(** A task handling a sequence of events until it stops. *)
Fixpoint run_task (evs : list (Z * bool * ConnEvent)) (t : Conn) : outcome (Conn * list ConnOut) :=
  match evs with
  | [] => Ret (t, [])
  | (now, rx, ev) :: evs' =>
      if running t then
        '(t, out) ← conn_round now rx ev t;
        '(t, outs) ← run_task evs' t;
        Ret (t, out :: outs)
      else Ret (t, [])
  end.

(** ** Properties *)

(** A Channel frame parses back from its serialization; a payload parses
    only to the frame it is the serialization of, so never with a reserved flag
    bit or a missing field, and refusals are exactly those. *)
Theorem channel_frame_roundtrip f w :
  frame_wf f →
  frame_parse (frame_serialize f) = Some f
  ∧ match frame_parse w with
    | Some g => frame_wf g ∧ w = frame_serialize g
    | None => length w < CHANNEL_HEADER_LEN ∨ (16 <= from_be_bytes (slice 0 1 w))%Z
    end.
Proof.
  intros Wf. split; [by apply frame_parse_serialize|].
  destruct (frame_parse w) as [g|] eqn:E; [by apply frame_parse_inv|].
  unfold frame_parse in E. case_decide as Hl; [by left|]. right. unfold CHANNEL_HEADER_LEN in Hl.
  rewrite reserved_mask_spec in E by (apply from_be_u8; rewrite length_slice; lia).
  by destruct (Z.leb_spec 16 (from_be_bytes (slice 0 1 w))).
Qed.

(** A connection task that gets any events (any frame the parser lets
    through, any sequence numbers and acknowledgements included) neither panics
    nor loops, its reorder buffer never holds as many frames as the window it
    advertises, and its retry counter stays within the limit. *)
Theorem channel_task_safe window rto evs :
  is_u16 window → Forall (λ e, event_ok e.2) evs →
  ∃ t outs, run_task evs (Conn_new window rto) = Ret (t, outs) ∧
    (running t = true →
     (Z.of_nat (size (recv_buffer (core t))) <= Z.max 0 (Channel.window (core t) - 1))%Z
     ∧ (0 <= retries (core t) <= MAX_RETRIES)%Z ∧ Reassembler_wf (reassembler (core t))).
Proof.
  intros Hw Hev.
  assert (W : Conn_wf (Conn_new window rto)).
  { intros _. split; [|done]. split; simpl; try done. apply Built_wf, Built_for_chunk_size. }
  revert W. generalize (Conn_new window rto) as t. induction Hev as [|[[now rx] ev] evs Hok Hev IH]; intros t W; simpl.
  - exists t, []. split; [done|]. intros [Wc _]%W. split_and!; [by apply recv_buffer_bound|apply Wc..].
  - destruct (running t) eqn:Hr; [|exists t, []; by rewrite Hr].
    destruct (conn_round_wf now rx ev t W Hr Hok) as (t1 & out & -> & W1). cbn [mbind outcome_bind].
    destruct (IH t1 W1) as (t2 & outs & -> & H2). cbn [mbind outcome_bind]. by exists t2, (out :: outs).
Qed.

(** A connection that closed in order is never CLOSED again: once FIN_SENT,
    no frame short of a reset changes the state or ends the task, and with
    everything acknowledged the timer does nothing either. *)
Theorem fin_sent_never_closes now f c c' :
  Core_wf c → frame_wf f → dead c = false → state c = FinSent →
  has_flag (f_flags f) FLAG_RST = false → on_frame now f c = Ret c' →
  state c' = FinSent ∧ dead c' = false
  ∧ (unacked c' = [] → state (on_timeout c') = FinSent ∧ dead (on_timeout c') = false).
Proof.
  intros W Wf Hd Hs Hrst E.
  assert (H : state c' = FinSent ∧ dead c' = false).
  { destruct (on_frame_wf now f c W Wf Hd) as (c1 & E1 & H1). rewrite Hrst in H1.
    rewrite E in E1. injection E1 as <-. split; [|apply H1].
    pose proof Wf as (_ & _ & Hw & _). destruct (ack_wf (f_ack_num f) c W) as [W1 S1].
    pose proof (set_peer_window_wf _ _ W1 Hw) as W2.
    unfold on_frame in E. rewrite Hrst in E. set (c2 := set_peer_window _ _) in *.
    assert (Hs2 : state c2 = FinSent) by (rewrite <- Hs, <- S1; done). clearbody c2. rewrite Hs2 in E.
    assert (Hp : ∀ c, state c = FinSent → state (pump c) = FinSent).
    { intros c0 H0. unfold pump. by rewrite decide_True by by rewrite H0. }
    destruct (deliver_cases now f c2 W2 Wf) as [(_ & E2)|[(_ & E2 & _)|(_ & _ & _ & _ & c1 & frs & E2 & _ & D)]];
      rewrite E2 in E; cbn [mbind outcome_bind] in E; injection E as <-; apply Hp; try done.
    destruct D as [_ _ _ _ _ [Dsd|(r & _ & Dsd & _)] _]; simpl in *; [|congruence].
    injection Dsd. congruence. }
  split_and!; [apply H|apply H|]. intros Hu. unfold on_timeout. by rewrite decide_True.
Qed.

(** Retransmission is bounded: with nothing acknowledged, the first ten
    timeouts resend every frame in flight and keep the connection, and the
    eleventh drops it with its queues. *)
Theorem retransmission_bounded c n :
  unacked c ≠ [] → retries c = 0%Z → dead c = false →
  let cn := Nat.iter n on_timeout c in
  (n ≤ 10 → dead cn = false ∧ unacked cn = unacked c ∧ state cn = state c ∧ retries cn = Z.of_nat n
     ∧ length (outbox cn) = length (outbox c) + n * length (unacked c))
  ∧ (n = 11 → dead cn = true ∧ unacked cn = [] ∧ send_queue cn = [] ∧ state cn = Closed).
Proof.
  intros Hu Hr Hd.
  assert (F : ∀ us c0, let c' := foldl (λ c u, emit (u_flags u) (u_seq u) (u_data u) c) c0 us in
    dead c' = dead c0 ∧ unacked c' = unacked c0 ∧ state c' = state c0 ∧ retries c' = retries c0
    ∧ length (outbox c') = length (outbox c0) + length us).
  { induction us as [|u us IH]; intros c0; simpl; [split_and!; try done; lia|].
    destruct (IH (emit (u_flags u) (u_seq u) (u_data u) c0)) as (-> & -> & -> & -> & ->).
    split_and!; try done. simpl. rewrite length_app. simpl. lia. }
  assert (G : ∀ n, n ≤ 10 → let cn := Nat.iter n on_timeout c in
    dead cn = false ∧ unacked cn = unacked c ∧ state cn = state c ∧ retries cn = Z.of_nat n
    ∧ length (outbox cn) = length (outbox c) + n * length (unacked c)).
  { intros k. induction k as [|k IH]; intros Hk; simpl; [split_and!; try done; lia|].
    destruct IH as (I1 & I2 & I3 & I4 & I5); [lia|]. set (ck := Nat.iter k on_timeout c) in *.
    unfold on_timeout at 1 2 3 4 5. rewrite decide_False by congruence.
    rewrite (proj2 (Z.leb_gt _ _)) by (unfold MAX_RETRIES; lia).
    destruct (F (unacked (set_retries (retries ck + 1) ck)) (set_retries (retries ck + 1) ck))
      as (-> & -> & -> & -> & ->). simpl. rewrite I2. split_and!; try done; lia. }
  split; [apply G|]. intros Hn. cbv zeta. remember 10 as k eqn:Hk. assert (n = S k) as -> by lia.
  destruct (G k) as (I1 & I2 & I3 & I4 & I5); [lia|]. rewrite Nat.iter_succ.
  set (ck := Nat.iter k on_timeout c) in *. clearbody ck.
  unfold on_timeout. rewrite decide_False by congruence. rewrite I4, Hk. done.
Qed.

(** Replay protection of the demultiplexer: a frame is routed only if its
    outer sequence is above every sequence routed or dropped as malformed for
    its (peer, channel), after which everything up to that sequence is refused
    there, and other keys are untouched. *)
Theorem hub_replay_protection from cid sequence payload h h' key f :
  hub_packet from cid sequence payload h = (h', Some (key, f)) →
  key = (from, cid) ∧ key ∈ routes h ∧ frame_parse payload = Some f
  ∧ (∀ prev, watermarks h !! key = Some prev → (prev < sequence)%Z)
  ∧ (∀ s p, (s <= sequence)%Z → hub_packet from cid s p h' = (h', None))
  ∧ (∀ k, k ≠ key → watermarks h' !! k = watermarks h !! k).
Proof.
  unfold hub_packet.
  destruct (match watermarks h !! (from, cid) with Some prev => _ | None => _ end) eqn:Hst; [done|].
  destruct (frame_parse payload) as [g|]; [|done]. case_decide as Hr; [|done]. intros [= <- <- <-]. simpl in *.
  split_and!; try done.
  - intros prev Hp. rewrite Hp in Hst. by bool_to_Prop.
  - intros s p Hs. rewrite lookup_insert_eq. by rewrite (proj2 (Z.leb_le _ _)).
  - intros k Hk. by rewrite lookup_insert_ne.
Qed.

(** ** Witnesses *)

Definition sample_frame : ChannelFrame := mkFrame FLAG_ACK 42 32 7 [Byte.x70].

Lemma sample_frame_wf : frame_wf sample_frame.
Proof. repeat split; vm_compute; done. Qed.

Lemma channel_frame_roundtrip_witness :
  frame_parse (frame_serialize sample_frame) = Some sample_frame.
Proof. exact (proj1 (channel_frame_roundtrip sample_frame [] sample_frame_wf)). Defined.

(** A SYN with the largest sequence number, then data around the wrap. *)
Definition hostile_events : list (Z * bool * ConnEvent) :=
  [(0%Z, true, FrameIn (mkFrame FLAG_SYN 99 1 u64_max []));
   (1%Z, true, FrameIn (mkFrame FLAG_ACK 0 0 5 [Byte.x00]));
   (2%Z, true, FrameIn (mkFrame FLAG_ACK u64_max 7 31 [Byte.x01]));
   (3%Z, true, TimerFired)].

Lemma channel_task_safe_witness :
  ∃ t outs, run_task hostile_events (Conn_new 32 500) = Ret (t, outs)
    ∧ (running t = true → (Z.of_nat (size (recv_buffer (core t))) <= Z.max 0 (window (core t) - 1))%Z).
Proof.
  destruct (channel_task_safe 32 500 hostile_events) as (t & outs & E & H).
  - by vm_compute.
  - repeat constructor; vm_compute; congruence.
  - exists t, outs. split; [exact E|]. intros Hr. apply (H Hr).
Defined.

(** A responder that has closed and whose FIN was acknowledged. *)
Definition closed_core : ChannelCore := set_send_next 2 (set_state FinSent (ChannelCore_new 32 500)).

Lemma closed_core_wf : Core_wf closed_core.
Proof. split; simpl; try done. apply Built_wf, Built_for_chunk_size. Qed.

Lemma fin_sent_never_closes_witness :
  ∃ c', on_frame 5 (mkFrame FLAG_ACK 2 32 1 []) closed_core = Ret c'
    ∧ state c' = FinSent ∧ dead c' = false.
Proof.
  eexists. split; [reflexivity|].
  refine (match fin_sent_never_closes 5 (mkFrame FLAG_ACK 2 32 1 []) closed_core _
            closed_core_wf _ eq_refl eq_refl eq_refl eq_refl with conj a (conj b _) => conj a b end).
  repeat split; vm_compute; done.
Defined.

Definition waiting_core : ChannelCore := connect (ChannelCore_new 32 500).

Lemma retransmission_bounded_witness :
  dead (Nat.iter 10 on_timeout waiting_core) = false ∧ dead (Nat.iter 11 on_timeout waiting_core) = true.
Proof.
  split.
  - refine (proj1 (proj1 (retransmission_bounded waiting_core 10 _ eq_refl eq_refl) _)); [done|lia].
  - refine (proj1 (proj2 (retransmission_bounded waiting_core 11 _ eq_refl eq_refl) _)); done.
Defined.

Definition sample_hub : Hub := hub_open "10.0.0.2:7300" 16 Hub_new.

Lemma hub_replay_protection_witness :
  ∃ h', hub_packet "10.0.0.2:7300" 16 9 (frame_serialize sample_frame) sample_hub
      = (h', Some (("10.0.0.2:7300", 16%Z), sample_frame))
    ∧ hub_packet "10.0.0.2:7300" 16 9 (frame_serialize sample_frame) h' = (h', None).
Proof.
  eexists. split; [vm_compute; reflexivity|].
  eapply (hub_replay_protection "10.0.0.2:7300" 16 9 (frame_serialize sample_frame) sample_hub);
    [vm_compute; reflexivity|lia].
Defined.
