(* ===== verification/ChannelNet.v ===== *)
(** Two Channel connections over a network that loses, duplicates, delays and
    reorders payloads: the stream of chunks each side hands to its reassembler
    is, in order and without gaps or repetitions, what the other side sent. *)

From S2P Require Import Prelude Fragment Channel.

(** * The system *)

(** One side: its connection task, every payload it has handed to the
    transport, the messages its endpoint has submitted (with their fragment
    ids) and received, and the chunks it has given to its reassembler, with
    their times. *)
Record Peer := mkPeer {
  conn : Conn;
  sent : list bytes;
  submitted : list (bytes * bytes);
  received : list bytes;
  fed : list (Z * bytes);
}.

Definition Peer_new (window rto : Z) : Peer := mkPeer (Conn_new window rto) [] [] [] [].

(** The run of buffered frames that starts at [n]. *)
Fixpoint contiguous (fuel : nat) (buf : gmap Z ChannelFrame) (n : Z) : list ChannelFrame :=
  match fuel with
  | O => []
  | S fuel' => match buf !! n with Some fr => fr :: contiguous fuel' buf (n + 1) | None => [] end
  end.

(** What a round gives to the reassembler, computed beforehand: whether [on_frame] buffers
    the frame, and the run of frames that follows it. This is a history only; that it is
    the calls of [feed] the task makes is part of [channel_in_order]: feeding it to a new
    reassembler gives the task's own. *)
Definition accepts (f : ChannelFrame) (c : ChannelCore) : bool :=
  negb (has_flag (f_flags f) FLAG_RST)
  && match state c with Established | FinSent => true | _ => false end
  && consumes_seq f
  && negb ((f_seq f <? rcv_next c)%Z || bool_decide (is_Some (recv_buffer c !! f_seq f)))
  && negb (wrap 64 (rcv_next c + window c) <=? f_seq f)%Z.

Definition feeds (ev : ConnEvent) (c : ChannelCore) : list bytes :=
  match ev with
  | FrameIn f =>
      if accepts f c then
        let buf := <[f_seq f := f]> (recv_buffer c) in
        contiguous (S (size buf)) buf (rcv_next c) ≫= frame_chunk
      else []
  | _ => []
  end.

Definition submits (ev : ConnEvent) : list (bytes * bytes) :=
  match ev with CmdSend fid d => [(fid, d)] | _ => [] end.

(** A round of one side, with what it adds to the histories. *)
Definition peer_round (now : Z) (rx_open : bool) (ev : ConnEvent) (p : Peer) : outcome Peer :=
  '(t, out) ← conn_round now rx_open ev (conn p);
  Ret (mkPeer t (sent p ++ o_sent out) (submitted p ++ submits ev)
         (received p ++ o_messages out) (fed p ++ (pair now <$> feeds ev (core (conn p))))).

(** What can happen to a side: any command, a timer, or the arrival of any
    payload the other side ever sent (so also late, twice or never). *)
Definition possible (other : Peer) (ev : ConnEvent) : Prop :=
  match ev with
  | FrameIn f => ∃ w, w ∈ sent other ∧ frame_parse w = Some f
  | CmdSend fid d => Msg_ok MAX_CHUNK_PAYLOAD (fid, d)
  | _ => True
  end.

(** A side moves while its task runs and it has sent fewer than 2^63 sequenced
    frames. *)
Inductive peer_step (other p : Peer) : Peer → Prop :=
| peer_step_intro now rx_open ev p' :
    running (conn p) = true → (send_next (core (conn p)) < 2 ^ 63)%Z →
    possible other ev → peer_round now rx_open ev p = Ret p' → peer_step other p p'.

Inductive net_step : Peer * Peer → Peer * Peer → Prop :=
| step_left a b a' : peer_step b a a' → net_step (a, b) (a', b)
| step_right a b b' : peer_step a b b' → net_step (a, b) (a, b').

(** * Sequence numbers *)

Definition u_chunk (u : Unacked) : list bytes :=
  frame_chunk (mkFrame (u_flags u) 0 0 (u_seq u) (u_data u)).

Definition chunks_of (L : list Unacked) : list bytes := L ≫= u_chunk.

(** The frame is the one logged under the sequence number [k]. *)
Definition matches (L : list Unacked) (k : Z) (f : ChannelFrame) : Prop :=
  (0 <= k)%Z ∧ ∃ u, L !! Z.to_nat k = Some u ∧ f_flags f = u_flags u ∧ f_data f = u_data u.

(** A payload a side sent: an acknowledgement of at most [r], and either no
    sequence number of its own or a logged frame. *)
Definition sent_ok (r win : Z) (L : list Unacked) (w : bytes) : Prop :=
  ∃ f, w = frame_serialize f ∧ frame_wf f ∧ (f_ack_num f <= r)%Z ∧ f_window f = win
    ∧ (f_flags f = FLAG_ACK ∧ f_data f = [] ∨ matches L (f_seq f) f).

Lemma matches_app L L' k f : matches L k f → matches (L ++ L') k f.
Proof. intros (Hk & u & Hu & ?). split; [done|]. exists u. split; [by apply lookup_app_l_Some|done]. Qed.

Lemma matches_lt L k f : matches L k f → (0 <= k < len L)%Z.
Proof. intros (Hk & u & Hu & _). apply lookup_lt_Some in Hu. unfold len. lia. Qed.

Lemma matches_chunk L k f u : matches L k f → L !! Z.to_nat k = Some u → frame_chunk f = u_chunk u.
Proof.
  intros (_ & u' & Hu' & Hf & Hd) Hu. simplify_eq. unfold u_chunk, frame_chunk. simpl. by rewrite Hf, Hd.
Qed.

Lemma sent_ok_mono r r' win L L' w : (r <= r')%Z → sent_ok r win L w → sent_ok r' win (L ++ L') w.
Proof.
  intros Hr (f & Hw & Wf & Ha & Hwin & Hf). exists f. split_and!; [done..|lia|done|].
  destruct Hf as [?|Hm]; [by left|right]. by apply matches_app.
Qed.

(** The sequencing invariant of the sending side: the log [L] of sequenced
    frames, of which the unacknowledged ones are a suffix, and everything sent
    ([H], then the outbox) drawn from it. *)
Record Seqs (c : ChannelCore) (L : list Unacked) (H : list bytes) : Prop := {
  q_next : send_next c = len L;
  q_seqs : ∀ i u, L !! i = Some u → u_seq u = Z.of_nat i ∧ (0 <= u_flags u < 16)%Z;
  q_unacked : unacked c = drop (length L - length (unacked c)) L;
  q_unacked_le : length (unacked c) ≤ length L;
  q_sent : Forall (sent_ok (rcv_next c) (window c) L) (H ++ outbox c);
  q_window : is_u16 (window c);
  q_rcv_next : is_u64 (rcv_next c);
  q_small : (len L < 2 ^ 64)%Z;
}.

(** How many sequenced frames the peer has acknowledged. *)
Definition acked (c : ChannelCore) (L : list Unacked) : nat := length L - length (unacked c).

Lemma Seqs_emit flags sq d c L H :
  Seqs c L H → is_u64 sq → (0 <= flags < 16)%Z →
  (flags = FLAG_ACK ∧ d = [] ∨ (∃ u, L !! Z.to_nat sq = Some u ∧ u_flags u = flags ∧ u_data u = d)) →
  Seqs (emit flags sq d c) L H.
Proof.
  intros [] Hs Hf Hm.
  assert (Wf : frame_wf (mkFrame flags (rcv_next c) (window c) sq d)) by (unfold frame_wf; simpl; auto).
  split; simpl; try done. rewrite app_assoc. apply Forall_app. split; [done|].
  apply Forall_singleton. exists (mkFrame flags (rcv_next c) (window c) sq d). simpl.
  split; [done|]. split; [done|]. split; [lia|]. split; [done|].
  destruct Hm as [?|(u & Hu & <- & <-)]; [by left|right]. simpl. split; [unfold is_u64 in Hs; simpl; lia|].
  by exists u.
Qed.

Lemma Seqs_pure_ack c L H : Seqs c L H → Seqs (emit_pure_ack c) L H.
Proof.
  intros Q. pose proof (q_small _ _ _ Q). unfold emit_pure_ack. apply Seqs_emit; [done|..|by left].
  - rewrite (q_next _ _ _ Q). unfold is_u64. pose proof (len_nonneg L). lia.
  - done.
Qed.

Lemma Seqs_emit_next flags d c L H :
  Seqs c L H → (len L + 1 < 2 ^ 64)%Z → (0 <= flags < 16)%Z →
  Seqs (emit_next flags d c) (L ++ [mkUnacked flags (len L) d]) H
  ∧ acked (emit_next flags d c) (L ++ [mkUnacked flags (len L) d]) = acked c L.
Proof.
  intros Q Hl Hf. pose proof (len_nonneg L) as H0. set (u := mkUnacked flags (len L) d).
  assert (Hacked : acked (emit_next flags d c) (L ++ [u]) = acked c L).
  { unfold acked, emit_next, emit_reliable. simpl. rewrite !length_app. simpl.
    pose proof (q_unacked_le _ _ _ Q). lia. }
  split; [|done]. unfold emit_next. apply Seqs_emit.
  - destruct Q. split; simpl; try done.
    + unfold wrap. rewrite q_next0, Z.mod_small, len_app by lia. done.
    + intros i v [Hi|[Hi Hv]]%lookup_app_Some; [by apply q_seqs0|].
      apply list_lookup_singleton_Some in Hv as [Hi0 <-]. simpl. split; [unfold len; lia|done].
    + rewrite q_next0, q_unacked0 at 1. rewrite !length_app. simpl.
      replace (length L + 1 - (length (unacked c) + 1)) with (length L - length (unacked c)) by lia.
      rewrite drop_app_le by lia. done.
    + rewrite !length_app. simpl. lia.
    + eapply Forall_impl; [done|]. intros w. apply sent_ok_mono. lia.
    + rewrite len_app. exact Hl.
  - rewrite (q_next _ _ _ Q). unfold is_u64. lia.
  - done.
  - right. exists u. simpl. rewrite (q_next _ _ _ Q). unfold len. rewrite Nat2Z.id.
    split; [|done]. by rewrite lookup_app_r, Nat.sub_diag by lia.
Qed.

(** * The sending side *)

Definition syn_u (u : Unacked) : Prop :=
  (u_flags u = FLAG_SYN ∨ u_flags u = Z.lor FLAG_SYN FLAG_ACK) ∧ u_data u = [].
Definition data_u (u : Unacked) : Prop := u_flags u = FLAG_ACK ∧ u_data u ≠ [].
Definition fin_u (u : Unacked) : Prop := u_flags u = Z.lor FLAG_FIN FLAG_ACK ∧ u_data u = [].

(** The log is SYNs, then data, then at most FINs, as the state allows. *)
Definition Shape (st : ConnState) (L : list Unacked) : Prop :=
  ∃ S D F, L = S ++ D ++ F ∧ Forall syn_u S ∧ Forall data_u D ∧ Forall fin_u F
    ∧ match st with
      | Closed => L = []
      | SynSent => D = [] ∧ F = []
      | Established => F = []
      | FinSent => True
      end.

Lemma Shape_syn L u :
  Shape Closed L → syn_u u → Shape SynSent (L ++ [u]) ∧ Shape Established (L ++ [u]).
Proof.
  intros (S & D & F & _ & _ & _ & _ & ->) Hu. simpl.
  split; exists [u], [], []; split_and!; try done; by constructor.
Qed.

Lemma Shape_syn_sent L u :
  Shape SynSent L → syn_u u → Shape Established L ∧ Shape Established (L ++ [u]).
Proof.
  intros (S & D & F & -> & HS & _ & _ & -> & ->) Hu. rewrite !app_nil_r. split.
  - exists S, [], []. by rewrite !app_nil_r.
  - exists (S ++ [u]), [], []. rewrite !app_nil_r. split_and!; try done.
    apply Forall_app; split; [done|]. by constructor.
Qed.

Lemma Shape_data L u : Shape Established L → data_u u → Shape Established (L ++ [u]).
Proof.
  intros (S & D & F & -> & HS & HD & _ & ->) Hu. exists S, (D ++ [u]), [].
  rewrite !app_nil_r, app_assoc. split_and!; try done.
  apply Forall_app; split; [done|]. by constructor.
Qed.

Lemma Shape_fin L u : Shape Established L → fin_u u → Shape FinSent (L ++ [u]).
Proof.
  intros (S & D & F & -> & HS & HD & _ & ->) Hu. exists S, D, [u].
  rewrite !app_nil_r, <- app_assoc. split_and!; try done. by constructor.
Qed.

Lemma chunks_of_app L L' : chunks_of (L ++ L') = chunks_of L ++ chunks_of L'.
Proof. apply bind_app. Qed.

Lemma syn_chunk u : syn_u u → u_chunk u = [].
Proof. intros ([Hf|Hf] & Hd); unfold u_chunk, frame_chunk; simpl; by rewrite Hf, Hd. Qed.

Lemma fin_chunk u : fin_u u → u_chunk u = [].
Proof. intros [Hf _]. unfold u_chunk, frame_chunk. simpl. by rewrite Hf. Qed.

Lemma data_chunk u : data_u u → u_chunk u = [u_data u].
Proof. intros [Hf Hd]. unfold u_chunk, frame_chunk. simpl. by rewrite Hf, decide_True. Qed.

Lemma chunks_of_syns S : Forall syn_u S → chunks_of S = [].
Proof. induction 1 as [|u S Hu HS IH]; [done|]. unfold chunks_of in *. by rewrite bind_cons, syn_chunk, IH. Qed.

(** Nothing but SYNs comes up to a SYN. *)
Lemma Shape_syn_prefix st L k u :
  Shape st L → L !! k = Some u → has_flag (u_flags u) FLAG_SYN = true → chunks_of (take (S k) L) = [].
Proof.
  intros (Sy & D & F & -> & HS & HD & HF & _) Hk Hu.
  assert (Hlt : k < length Sy).
  { apply lookup_app_Some in Hk as [Hk|[_ Hk]]; [by apply lookup_lt_Some in Hk|].
    exfalso. apply lookup_app_Some in Hk as [Hk|[_ Hk]].
    - destruct (proj1 (Forall_lookup _ _) HD _ _ Hk) as [E _]. by rewrite E in Hu.
    - destruct (proj1 (Forall_lookup _ _) HF _ _ Hk) as [E _]. by rewrite E in Hu. }
  rewrite take_app_le by lia. apply chunks_of_syns. by apply Forall_take.
Qed.

(** The sending invariant: sequencing, shape, and that the chunks logged and
    the chunks queued are, in order, the chunks [Q] of the submitted messages. *)
Record Sender (c : ChannelCore) (L : list Unacked) (H Q : list bytes) : Prop := {
  s_seqs : Seqs c L H;
  s_shape : Shape (state c) L;
  s_queue : chunks_of L ++ send_queue c = Q;
  s_nonempty : Forall (λ d, d ≠ []) (send_queue c);
  s_peer_window : is_u16 (peer_window c);
}.

Lemma Sender_data d q c L H Q :
  Sender c L H Q → state c = Established → send_queue c = d :: q → (len L + 1 < 2 ^ 64)%Z →
  Sender (emit_next FLAG_ACK d (set_send_queue q c)) (L ++ [mkUnacked FLAG_ACK (len L) d]) H Q
  ∧ acked (emit_next FLAG_ACK d (set_send_queue q c)) (L ++ [mkUnacked FLAG_ACK (len L) d]) = acked c L.
Proof.
  intros [S1 S2 S3 S4 S5] Hst Hq Hl. rewrite Hq in *. apply Forall_cons in S4 as [Hd S4].
  assert (S1' : Seqs (set_send_queue q c) L H) by by destruct S1.
  destruct (Seqs_emit_next FLAG_ACK d _ _ _ S1' Hl) as [S1'' Ha]; [done|].
  split; [|exact Ha]. split; try done.
  - simpl. rewrite Hst in *. by apply Shape_data.
  - rewrite chunks_of_app, <- app_assoc, <- S3. f_equal. simpl. by rewrite data_chunk.
Qed.

Lemma pump_data_Sender q limit c L H Q :
  Sender c L H Q → state c = Established → send_queue c = q →
  (len L + Z.max 0 (limit - len (unacked c)) + 1 < 2 ^ 64)%Z →
  ∃ new, Sender (pump_data q limit c) (L ++ new) H Q ∧ acked (pump_data q limit c) (L ++ new) = acked c L
    ∧ (len new <= Z.max 0 (limit - len (unacked c)))%Z.
Proof.
  revert c L. induction q as [|d q IH]; intros c L Sd Hst Hq Hb; simpl.
  { exists []. rewrite app_nil_r. split_and!; [done..|]. change (len []) with 0%Z. lia. }
  destruct (Z.ltb_spec (len (unacked c)) limit) as [Hlt|Hge].
  2:{ exists []. rewrite app_nil_r. split_and!; [done..|]. change (len []) with 0%Z. lia. }
  destruct (Sender_data d q c L H Q Sd Hst Hq) as [Sd1 Ha1]; [lia|].
  set (c1 := emit_next _ _ _) in *. set (u := mkUnacked _ _ _) in *.
  assert (Hu : len (unacked c1) = (len (unacked c) + 1)%Z) by (unfold c1; simpl; rewrite len_app; done).
  destruct (IH c1 (L ++ [u]) Sd1) as (new & Sd2 & Ha2 & Hn2); [done|done| |].
  { rewrite Hu, len_app. change (len [u]) with 1%Z. lia. }
  exists ([u] ++ new). rewrite app_assoc. split_and!; [done|congruence|].
  rewrite len_app. change (len [u]) with 1%Z. lia.
Qed.

Lemma Sender_fin c L H Q :
  Sender c L H Q → state c = Established → (len L + 1 < 2 ^ 64)%Z →
  let u := mkUnacked (Z.lor FLAG_FIN FLAG_ACK) (len L) [] in
  Sender (set_state FinSent (emit_next (Z.lor FLAG_FIN FLAG_ACK) [] c)) (L ++ [u]) H Q
  ∧ acked (set_state FinSent (emit_next (Z.lor FLAG_FIN FLAG_ACK) [] c)) (L ++ [u]) = acked c L.
Proof.
  intros [S1 S2 S3 S4 S5] Hst Hl u.
  destruct (Seqs_emit_next (Z.lor FLAG_FIN FLAG_ACK) [] _ _ _ S1 Hl) as [S1' Ha]; [done|].
  split; [|exact Ha]. split; try done.
  - by destruct S1'.
  - simpl. rewrite Hst in *. by apply Shape_fin.
  - simpl. rewrite chunks_of_app, <- S3. f_equal. by rewrite app_nil_r.
Qed.

Lemma pump_Sender c L H Q :
  Sender c L H Q → (len L < 2 ^ 63 + 4)%Z →
  ∃ new, Sender (pump c) (L ++ new) H Q ∧ acked (pump c) (L ++ new) = acked c L.
Proof.
  intros Sd Hl. unfold pump. case_decide as Hst; [exists []; by rewrite app_nil_r|].
  pose proof (s_peer_window _ _ _ _ Sd) as Hpw. unfold is_u16 in Hpw. pose proof (len_nonneg (unacked c)).
  destruct (pump_data_Sender (send_queue c) (Z.max (peer_window c) 1) c L H Q Sd Hst eq_refl)
    as (new & Sd1 & Ha1 & Hn1); [lia|].
  destruct (pump_data_frame (send_queue c) (Z.max (peer_window c) 1) c) as (_ & Hst1 & _).
  set (c1 := pump_data _ _ _) in *. case_match; [|by exists new].
  destruct (Sender_fin c1 (L ++ new) H Q Sd1) as [Sd2 Ha2]; [congruence|rewrite len_app; lia|].
  rewrite <- app_assoc in *. eexists. split; [|rewrite <- Ha1; exact Ha2].
  destruct Sd2 as [S1 S2 S3 S4 S5]. split; try done. by destruct S1.
Qed.

Lemma Shape_any st L : Shape st L → Shape FinSent L.
Proof. intros (S & D & F & ? & ? & ? & ? & _). by exists S, D, F. Qed.

(** No frame of the protocol carries RST. *)
Lemma Shape_no_rst st L k f : Shape st L → matches L k f → has_flag (f_flags f) FLAG_RST = false.
Proof.
  intros (Sy & D & F & -> & HS & HD & HF & _) (_ & u & Hu & -> & _).
  apply lookup_app_Some in Hu as [Hu|[_ Hu]].
  { destruct (proj1 (Forall_lookup _ _) HS _ _ Hu) as [[->| ->] _]; done. }
  apply lookup_app_Some in Hu as [Hu|[_ Hu]].
  - by destruct (proj1 (Forall_lookup _ _) HD _ _ Hu) as [-> _].
  - by destruct (proj1 (Forall_lookup _ _) HF _ _ Hu) as [-> _].
Qed.

(** [c1] sends like [c0] and has received at least as much. *)
Lemma Sender_transfer c0 c1 L H Q :
  Sender c0 L H Q → send_side c1 = send_side c0 → rest c1 = rest c0 →
  (rcv_next c0 <= rcv_next c1)%Z → is_u64 (rcv_next c1) →
  Sender c1 L H Q ∧ acked c1 L = acked c0 L.
Proof.
  unfold send_side, rest. intros [[] S2 S3 S4 S5] [= E1 E2 E3 E4] [= F1 F2 F3 F4 F5 F6 F7 F8] Hr Hu.
  split; [|unfold acked; congruence]. split; rewrite ?E1, ?F1, ?F2; try done.
  split; rewrite ?E2, ?E3, ?E4, ?F4; try done.
  eapply Forall_impl; [done|]. intros w Hw. rewrite <- (app_nil_r L). by eapply sent_ok_mono.
Qed.

Lemma connect_Sender c L H Q :
  Sender c L H Q → (len L < 2 ^ 63)%Z →
  ∃ new, Sender (connect c) (L ++ new) H Q ∧ acked (connect c) (L ++ new) = acked c L.
Proof.
  intros [S1 S2 S3 S4 S5] Hl. unfold connect. case_decide as Hst; [exists []; by rewrite app_nil_r|].
  assert (S1' : Seqs (set_state SynSent c) L H) by by destruct S1.
  destruct (Seqs_emit_next FLAG_SYN [] _ _ _ S1') as [S1'' Ha]; [lia|done|].
  exists [mkUnacked FLAG_SYN (len L) []]. split; [|exact Ha]. split; try done.
  - simpl. rewrite Hst in S2. apply (Shape_syn L); [done|]. split; [by left|done].
  - rewrite chunks_of_app, <- S3. f_equal. by rewrite app_nil_r.
Qed.

Lemma answer_syn_Sender f c L H Q :
  Sender c L H Q → state c = Closed ∨ state c = SynSent → (len L < 2 ^ 63)%Z →
  (rcv_next c <= wrap 64 (f_seq f + 1))%Z →
  ∃ new, Sender (answer_syn f c) (L ++ new) H Q ∧ acked (answer_syn f c) (L ++ new) = acked c L.
Proof.
  intros [S1 S2 S3 S4 S5] Hst Hl Hr. unfold answer_syn.
  set (c1 := set_just_established true _).
  assert (S1' : Seqs c1 L H).
  { destruct S1. split; try done; simpl; [|apply wrap64_u64].
    eapply Forall_impl; [done|]. intros w Hw. rewrite <- (app_nil_r L). by eapply sent_ok_mono. }
  destruct (Seqs_emit_next (Z.lor FLAG_SYN FLAG_ACK) [] _ _ _ S1') as [S1'' Ha]; [lia|done|].
  exists [mkUnacked (Z.lor FLAG_SYN FLAG_ACK) (len L) []]. split; [|exact Ha]. split; try done.
  - simpl. destruct Hst as [Hst|Hst]; rewrite Hst in S2.
    + apply (Shape_syn L); [done|]. split; [by right|done].
    + apply (Shape_syn_sent L); [done|]. split; [by right|done].
  - rewrite chunks_of_app, <- S3. f_equal. by rewrite app_nil_r.
Qed.

Lemma send_message_Sender fid d c L H ms :
  Sender c L H (stream_wires MAX_CHUNK_PAYLOAD ms) → Msg_ok MAX_CHUNK_PAYLOAD (fid, d) → (len L < 2 ^ 63)%Z →
  ∃ c' new, send_message fid d c = Ret c'
    ∧ Sender c' (L ++ new) H (stream_wires MAX_CHUNK_PAYLOAD (ms ++ [(fid, d)]))
    ∧ acked c' (L ++ new) = acked c L
    ∧ recv_side c' = recv_side c ∧ (state c' = state c ∨ state c = Established ∧ state c' = FinSent).
Proof.
  intros Sd (_ & Hl16 & _) Hl. unfold send_message. rewrite fragment_eq by done.
  rewrite (proj2 (Z.ltb_ge _ _)) by done. cbn [mbind outcome_bind].
  set (c1 := set_send_queue _ c).
  assert (Sd1 : Sender c1 L H (stream_wires MAX_CHUNK_PAYLOAD (ms ++ [(fid, d)]))).
  { destruct Sd as [S1 S2 S3 S4 S5]. split; try done.
    - by destruct S1.
    - simpl. unfold stream_wires in *. rewrite bind_app, <- S3, <- app_assoc. do 2 f_equal.
      simpl. by rewrite app_nil_r.
    - simpl. apply Forall_app. split; [done|]. apply Forall_lookup. intros i w Hw.
      unfold wires_of in Hw. rewrite list_lookup_imap in Hw. destruct (_ !! i); simplify_eq/=. done. }
  destruct (pump_Sender c1 L H _ Sd1) as (new & Sd2 & Ha); [lia|].
  destruct (pump_frame c1) as (Hr & _ & Hs). eexists _, new. split_and!; done.
Qed.

Lemma on_timeout_Sender c L H Q :
  Sender c L H Q →
  on_timeout c = teardown c
  ∨ (Sender (on_timeout c) L H Q ∧ acked (on_timeout c) L = acked c L
     ∧ state (on_timeout c) = state c ∧ dead (on_timeout c) = dead c).
Proof.
  intros Sd. unfold on_timeout. case_decide as Hu; [by right|]. case_match; [by left|right].
  set (c1 := set_retries _ c).
  assert (Sd1 : Sender c1 L H Q) by (destruct Sd as [[] ????]; by split).
  assert (Hall : Forall (λ u, L !! Z.to_nat (u_seq u) = Some u ∧ is_u64 (u_seq u) ∧ (0 <= u_flags u < 16)%Z) (unacked c1)).
  { destruct Sd1 as [S1 _ _ _ _]. rewrite (q_unacked _ _ _ S1). apply Forall_lookup. intros i u Hi.
    rewrite lookup_drop in Hi. pose proof (lookup_lt_Some _ _ _ Hi).
    destruct (q_seqs _ _ _ S1 _ _ Hi) as [Hs Hf]. pose proof (q_small _ _ _ S1). unfold len in *.
    rewrite Hs, Nat2Z.id. split_and!; [done|unfold is_u64; lia..]. }
  assert (G : ∀ us c2, Sender c2 L H Q →
    Forall (λ u, L !! Z.to_nat (u_seq u) = Some u ∧ is_u64 (u_seq u) ∧ (0 <= u_flags u < 16)%Z) us →
    let c3 := foldl (λ c u, emit (u_flags u) (u_seq u) (u_data u) c) c2 us in
    Sender c3 L H Q ∧ acked c3 L = acked c2 L ∧ state c3 = state c2 ∧ dead c3 = dead c2).
  { induction us as [|u us IH]; intros c2 Sd2 Hus; [done|].
    apply Forall_cons in Hus as [(Hk & Hq & Hf) Hus].
    destruct (IH (emit (u_flags u) (u_seq u) (u_data u) c2)) as (Sd3 & Ha & Hst & Hd); [|done|by split_and!].
    destruct Sd2 as [S1 S2 S3 S4 S5]. split; try done. apply Seqs_emit; [done|done|done|]. right. by exists u. }
  exact (G (unacked c1) c1 Sd1 Hall).
Qed.

Lemma drop_acked_drop L k a :
  (∀ i u, L !! i = Some u → u_seq u = Z.of_nat i) → k ≤ length L → (0 <= a <= len L)%Z →
  drop_acked a (drop k L) = drop (Nat.max k (Z.to_nat a)) L.
Proof.
  intros Hs. remember (length L - k) as n eqn:Hn. revert k Hn. induction n as [|n IH]; intros k Hn Hk Ha.
  - unfold len in Ha. rewrite !drop_ge by lia. done.
  - destruct (lookup_lt_is_Some_2 L k) as [u Hu]; [lia|].
    rewrite (drop_S _ _ _ Hu). simpl. rewrite (Hs _ _ Hu).
    destruct (Z.ltb_spec (Z.of_nat k) a).
    + rewrite IH by lia. f_equal. lia.
    + rewrite <- (drop_S _ _ _ Hu). f_equal. lia.
Qed.

Lemma ack_Sender a c L H Q :
  Sender c L H Q → (0 <= a)%Z →
  Sender (ack a c) L H Q ∧ acked (ack a c) L = Nat.max (acked c L) (Z.to_nat (Z.min a (len L))).
Proof.
  intros [S1 S2 S3 S4 S5] Ha. unfold ack. pose proof (len_nonneg L) as HL.
  assert (E : drop_acked (Z.min a (send_next c)) (unacked c)
              = drop (Nat.max (acked c L) (Z.to_nat (Z.min a (len L)))) L).
  { rewrite (q_next _ _ _ S1), (q_unacked _ _ _ S1) at 1. apply drop_acked_drop.
    - intros i u Hi. apply (q_seqs _ _ _ S1 _ _ Hi).
    - unfold acked. lia.
    - lia. }
  set (m := Nat.max _ _) in *. assert (Hm : m ≤ length L) by (unfold m, acked, len in *; lia).
  set (c1 := set_unacked _ c).
  assert (Hlen : length (unacked c1) = length L - m) by (unfold c1; simpl; rewrite E, length_drop; done).
  assert (Hack : acked c1 L = m) by (unfold acked; rewrite Hlen; lia).
  assert (Sd1 : Sender c1 L H Q).
  { split; try done. destruct S1. split; try done.
    - rewrite Hlen. unfold c1. simpl. rewrite E. f_equal. lia.
    - lia. }
  case_decide; [|done]. split; [|done]. destruct Sd1 as [[] ????]. by split.
Qed.

(** * The receiving side *)

(** The receiving invariant, against the peer's log [LP]: everything below
    [rcv_next] was given to the reassembler, in order and once; what is
    buffered is from the log; [hist] is every message the reassembler returned. *)
Record Receiver (c : ChannelCore) (LP : list Unacked) (fd : list (Z * bytes)) (hist : list bytes) : Prop := {
  v_next : (0 <= rcv_next c <= len LP)%Z;
  v_buffer : ∀ k f, recv_buffer c !! k = Some f → matches LP k f;
  v_fed : fd.*2 = chunks_of (take (Z.to_nat (rcv_next c)) LP);
  v_feed : ∃ os, feed_all (for_chunk_size MAX_CHUNK_PAYLOAD) fd = Ret (reassembler c, os) ∧ omap id os = hist;
  v_early : state c = Closed ∨ state c = SynSent → rcv_next c = 0%Z;
}.

Lemma Receiver_transfer c0 c1 LP fd hist :
  Receiver c0 LP fd hist → rcv_next c1 = rcv_next c0 → recv_buffer c1 = recv_buffer c0 →
  reassembler c1 = reassembler c0 →
  (state c1 = Closed ∨ state c1 = SynSent → state c0 = Closed ∨ state c0 = SynSent) → Receiver c1 LP fd hist.
Proof. intros [] E1 E2 E3 Hs. split; rewrite ?E1, ?E2, ?E3; auto. Qed.

Lemma Receiver_log c LP new fd hist : Receiver c LP fd hist → Receiver c (LP ++ new) fd hist.
Proof.
  intros []. split; try done.
  - rewrite len_app. pose proof (len_nonneg new). lia.
  - intros. apply matches_app. auto.
  - rewrite v_fed0. f_equal. rewrite take_app_le; [done|]. unfold len in *. lia.
Qed.

Lemma contiguous_spec fuel buf n frs :
  (∀ i fr, frs !! i = Some fr → buf !! (n + Z.of_nat i)%Z = Some fr) →
  buf !! (n + len frs)%Z = None → length frs < fuel → contiguous fuel buf n = frs.
Proof.
  revert fuel n. induction frs as [|fr frs IH]; intros [|fuel] n Hf Hn Hl; simpl in Hl; try lia; simpl.
  - change (len []) with 0%Z in Hn. rewrite Z.add_0_r in Hn. by rewrite Hn.
  - pose proof (Hf 0 fr eq_refl) as H0. rewrite Z.add_0_r in H0. rewrite H0. f_equal. apply IH.
    + intros i fr' Hi. replace (n + 1 + Z.of_nat i)%Z with (n + Z.of_nat (S i))%Z by lia. by apply Hf.
    + rewrite len_cons in Hn. by replace (n + 1 + len frs)%Z with (n + (1 + len frs))%Z by lia.
    + lia.
Qed.

(** The frames of a run are distinct entries of the buffer. *)
Lemma run_length (buf : gmap Z ChannelFrame) n frs :
  (∀ i fr, frs !! i = Some fr → buf !! (n + Z.of_nat i)%Z = Some fr) → length frs ≤ size buf.
Proof.
  revert buf n. induction frs as [|fr frs IH]; intros buf n Hf; simpl; [lia|].
  pose proof (Hf 0 fr eq_refl) as H0. rewrite Z.add_0_r in H0.
  assert (Hd : length frs ≤ size (delete n buf)).
  { apply (IH _ (n + 1)%Z). intros i fr' Hi. rewrite lookup_delete_ne by lia.
    replace (n + 1 + Z.of_nat i)%Z with (n + Z.of_nat (S i))%Z by lia. by apply Hf. }
  rewrite map_size_delete_Some in Hd by done.
  assert (size buf ≠ 0) by (intros Hz%map_size_empty_inv; by rewrite Hz, lookup_empty in H0). lia.
Qed.

Lemma drained_contiguous now c c1 frs :
  drained now c c1 frs → contiguous (S (size (recv_buffer c))) (recv_buffer c) (rcv_next c) = frs.
Proof.
  intros [Df Dn Db Ds _ _ _]. apply contiguous_spec; [done|..].
  - rewrite <- Dn. rewrite Db in Ds. by rewrite decide_False in Ds by lia.
  - pose proof (run_length _ _ _ Df). lia.
Qed.

(** A run of frames of the log is the corresponding part of its chunks. *)
Lemma run_chunks LP n frs :
  (0 <= n)%Z → (∀ i fr, frs !! i = Some fr → matches LP (n + Z.of_nat i) fr) →
  chunks_of (take (Z.to_nat (n + len frs)) LP) = chunks_of (take (Z.to_nat n) LP) ++ (frs ≫= frame_chunk).
Proof.
  intros Hn. induction frs as [|fr frs IH] using rev_ind; intros Hm.
  - change (len []) with 0%Z. by rewrite Z.add_0_r, app_nil_r.
  - rewrite len_app, bind_app, app_assoc. change (len [fr]) with 1%Z.
    assert (Hk : matches LP (n + len frs) fr).
    { apply Hm. rewrite lookup_app_r, Nat.sub_diag by lia. done. }
    pose proof Hk as (_ & u & Hu & _). pose proof (len_nonneg frs).
    replace (Z.to_nat (n + (len frs + 1))) with (S (Z.to_nat (n + len frs))) by lia.
    rewrite (take_S_r _ _ _ Hu), chunks_of_app, IH.
    + f_equal. simpl. by rewrite (matches_chunk _ _ _ _ Hk Hu).
    + intros i fr' Hi. apply Hm. by apply lookup_app_l_Some.
Qed.

(** Accepting a frame of the log and draining keeps the receiving invariant. *)
Lemma drained_Receiver now f c c1 frs LP fd hist :
  Receiver c LP fd hist → matches LP (f_seq f) f → delivered c = [] →
  (state c1 = Established ∨ state c1 = FinSent) →
  drained now (set_recv_buffer (<[f_seq f := f]> (recv_buffer c)) c) c1 frs →
  Receiver c1 LP (fd ++ (pair now <$> (frs ≫= frame_chunk))) (hist ++ delivered c1).
Proof.
  intros [V1 V2 V3 (os & V4 & V4') V5] Hm Hdel Hst [Df Dn Db Ds Dr Dsd (os1 & Df1 & Df2)]. simpl in *.
  assert (Hbuf : ∀ k g, <[f_seq f := f]> (recv_buffer c) !! k = Some g → matches LP k g).
  { intros k g [[<- <-]|[_ Hk]]%lookup_insert_Some; auto. }
  pose proof (len_nonneg frs) as Hlen. split.
  - rewrite Dn. destruct frs as [|fr0 frs0] eqn:Efr; [change (len []) with 0%Z; lia|]. rewrite <- Efr in *.
    destruct (lookup_lt_is_Some_2 frs (length frs - 1)) as [g Hg]; [rewrite Efr; simpl; lia|].
    apply Df, Hbuf, matches_lt in Hg. unfold len in *. lia.
  - intros k g. rewrite Db. case_decide; [done|]. apply Hbuf.
  - rewrite fmap_app, Dn, run_chunks, V3 by (try lia; eauto). f_equal.
    rewrite <- list_fmap_compose. apply list_fmap_id.
  - exists (os ++ os1). rewrite feed_all_app, V4. cbn [mbind outcome_bind]. rewrite Df1. cbn [mbind outcome_bind].
    split; [done|]. by rewrite omap_app, V4', Df2, Hdel.
  - intros [E|E]; destruct Hst; congruence.
Qed.

Definition open_state (c : ChannelCore) : Prop := state c = Established ∨ state c = FinSent.

Lemma accepts_spec f c :
  Core_wf c → has_flag (f_flags f) FLAG_RST = false → open_state c →
  accepts f c = consumes_seq f && negb ((f_seq f <? rcv_next c)%Z || bool_decide (is_Some (recv_buffer c !! f_seq f)))
                && negb (wrap 64 (rcv_next c + window c) <=? f_seq f)%Z.
Proof. intros W Hr [Hs|Hs]; unfold accepts; by rewrite Hr, Hs. Qed.

Lemma accepts_refused f c :
  Core_wf c → has_flag (f_flags f) FLAG_RST = false → open_state c → frame_wf f →
  (f_seq f < rcv_next c ∨ is_Some (recv_buffer c !! f_seq f)
   ∨ rcv_next c + window c <= f_seq f ∨ 2 ^ 64 <= rcv_next c + window c)%Z → accepts f c = false.
Proof.
  intros W Hr Hs (_ & _ & _ & Hq) Hc. rewrite accepts_spec by done.
  pose proof (cw_rcv_next _ W). pose proof (cw_window _ W). unfold is_u64, is_u16 in *.
  destruct (consumes_seq f); [simpl|done].
  destruct (Z.ltb_spec (f_seq f) (rcv_next c)); [done|]. simpl.
  destruct (bool_decide _) eqn:Hb; bool_to_Prop; [done|]. simpl.
  apply negb_false_iff, Z.leb_le. destruct Hc as [?|[?|[Hc|Hc]]]; [lia|done|..].
  - unfold wrap. etrans; [apply Z.mod_le; lia|done].
  - unfold wrap. rewrite <- (Z_mod_plus_full _ (-1)), Z.mod_small by lia. lia.
Qed.

Lemma accepts_taken f c :
  Core_wf c → has_flag (f_flags f) FLAG_RST = false → open_state c → consumes_seq f = true →
  (rcv_next c <= f_seq f < rcv_next c + window c)%Z → (rcv_next c + window c < 2 ^ 64)%Z →
  recv_buffer c !! f_seq f = None → accepts f c = true.
Proof.
  intros W Hr Hs Hc H1 H2 Hb. rewrite accepts_spec, Hc, Hb by done.
  pose proof (cw_rcv_next _ W). pose proof (cw_window _ W). unfold is_u64, is_u16 in *.
  rewrite (proj2 (Z.ltb_ge _ _)) by lia. unfold wrap. rewrite Z.mod_small by lia.
  by rewrite (proj2 (Z.leb_gt _ _)) by lia.
Qed.

Lemma deliver_net now f c L H Q LP fd hist :
  Core_wf c → frame_wf f → open_state c → has_flag (f_flags f) FLAG_RST = false → delivered c = [] →
  Sender c L H Q → (len L < 2 ^ 63 + 2)%Z → Receiver c LP fd hist →
  (consumes_seq f = true → matches LP (f_seq f) f) →
  ∃ c1 new, deliver now f c = Ret c1 ∧ Core_wf c1 ∧ open_state c1
    ∧ Sender c1 (L ++ new) H Q ∧ acked c1 (L ++ new) = acked c L ∧ (len new <= 1)%Z
    ∧ Receiver c1 LP (fd ++ (pair now <$> feeds (FrameIn f) c)) (hist ++ delivered c1)
    ∧ (rcv_next c <= rcv_next c1)%Z ∧ dead c1 = dead c ∧ window c1 = window c.
Proof.
  intros W Wf Hst Hrst Hdel Sd Hl Rc Hm.
  assert (Hack : ∀ c L, Sender c L H Q → Sender (emit_pure_ack c) L H Q ∧ acked (emit_pure_ack c) L = acked c L).
  { intros c' L' [S1 S2 S3 S4 S5]. split; [|done]. split; try done. by apply Seqs_pure_ack. }
  unfold feeds. destruct (deliver_cases now f c W Wf)
    as [(Hc & ->)|[(Hc & -> & Href)|(Hc & H1 & H2 & Hb & c1 & frs & -> & Wr & D)]].
  - exists c, []. rewrite !app_nil_r, Hdel, app_nil_r.
    assert (accepts f c = false) as -> by (rewrite accepts_spec, Hc by done; done).
    rewrite app_nil_r. by split_and!.
  - exists (emit_pure_ack c), []. rewrite app_nil_r, (accepts_refused f c) by done.
    destruct (Hack _ _ Sd) as [Sd1 Ha1]. rewrite app_nil_r. simpl delivered. rewrite Hdel, app_nil_r.
    split_and!; try done; [by apply emit_pure_ack_wf|eapply Receiver_transfer; [exact Rc|done..]].
  - rewrite accepts_taken by done. pose proof (drained_contiguous _ _ _ _ D) as Hcont.
    cbn [recv_buffer rcv_next set_recv_buffer] in Hcont. cbv zeta. rewrite Hcont.
    destruct (drained_wf _ _ _ _ _ W Hst H1 H2 Wr D) as (W1 & Hst1 & Hle & Hlt).
    pose proof (cw_rcv_next _ W) as Hu0. pose proof (cw_rcv_next _ W1) as Hu1.
    pose proof (drained_Receiver _ _ _ _ _ _ _ _ Rc (Hm Hc) Hdel Hst1 D) as Rc1.
    pose proof (d_rest _ _ _ _ D) as Hrest. pose proof Hrest as [= E1 E2 E3 E4 E5 E6 E7 E8]. simpl in *.
    assert (Hfin : ∃ new, Sender c1 (L ++ new) H Q ∧ acked c1 (L ++ new) = acked c L ∧ (len new <= 1)%Z).
    { destruct (d_send _ _ _ _ D) as [Hs|(r & Hr & Hest & Hs)].
      - exists []. rewrite app_nil_r. destruct (Sender_transfer c c1 L H Q) as [Sd1 Ha1]; try done.
      - simpl in Hr, Hest. destruct (Sender_transfer c (set_rcv_next r c) L H Q) as [Sd0 Ha0]; try done.
        { simpl. lia. }
        { unfold is_u64 in *. simpl. lia. }
        destruct (Sender_fin _ _ _ _ Sd0) as [Sd1 Ha1]; [done|lia|].
        eexists. rewrite <- Ha0. destruct (Sender_transfer _ c1 _ H Q Sd1) as [Sd2 Ha2].
        + exact Hs.
        + exact Hrest.
        + simpl. lia.
        + done.
        + split; [exact Sd2|]. split; [rewrite Ha2; exact Ha1|done]. }
    destruct Hfin as (new & Sd1 & Ha1 & Hn1). destruct (Hack _ _ Sd1) as [Sd2 Ha2].
    exists (emit_pure_ack c1), new. split; [done|]. split; [by apply emit_pure_ack_wf|].
    split; [exact Hst1|]. split; [done|]. split; [by rewrite Ha2|]. split; [done|].
    split; [|by split_and!]. simpl. eapply Receiver_transfer; [exact Rc1|done..].
Qed.

(** A SYN of the log opens the receiving side without giving it any chunk. *)
Lemma syn_Receiver f c c1 LP fd hist :
  Receiver c LP fd hist → state c = Closed ∨ state c = SynSent → matches LP (f_seq f) f →
  has_flag (f_flags f) FLAG_SYN = true → Shape FinSent LP → recv_buffer c = ∅ →
  rcv_next c1 = (f_seq f + 1)%Z → recv_buffer c1 = recv_buffer c → reassembler c1 = reassembler c →
  open_state c1 → Receiver c1 LP fd hist.
Proof.
  intros [V1 V2 V3 V4 V5] Hst Hm Hsyn Hsh Hb E1 E2 E3 Hst1.
  pose proof (matches_lt _ _ _ Hm). pose proof Hm as (_ & u & Hu & Hf & _). rewrite Hf in Hsyn.
  split; rewrite ?E1, ?E3; try done.
  - lia.
  - intros k g. by rewrite E2, Hb, lookup_empty.
  - rewrite V3, (V5 Hst). replace (Z.to_nat (f_seq f + 1)) with (S (Z.to_nat (f_seq f))) by lia.
    by rewrite (Shape_syn_prefix _ _ _ _ Hsh Hu Hsyn).
  - intros [E|E]; destruct Hst1; congruence.
Qed.

Section OnFrame.
Context (now : Z) (f : ChannelFrame) (H Q : list bytes) (LP : list Unacked)
  (fd : list (Z * bytes)) (hist : list bytes) (L : list Unacked).
Context (Wf : frame_wf f) (Hl : (len L < 2 ^ 63)%Z) (Hsh : Shape FinSent LP) (HlP : (len LP < 2 ^ 64)%Z).
Context (Hf : f_flags f = FLAG_ACK ∧ f_data f = [] ∨ matches LP (f_seq f) f).

(** What processing the frame keeps, from [c] to [c']. *)
Definition keeps (c c' : ChannelCore) : Prop :=
  ∃ new, Sender c' (L ++ new) H Q ∧ acked c' (L ++ new) = acked c L
    ∧ Receiver c' LP (fd ++ (pair now <$> feeds (FrameIn f) c)) (hist ++ delivered c')
    ∧ (rcv_next c <= rcv_next c')%Z ∧ window c' = window c.

Lemma keeps_same c :
  Sender c L H Q → Receiver c LP fd hist → delivered c = [] → feeds (FrameIn f) c = [] → keeps c c.
Proof using Type.
  intros Sd Rc Hdel Hfe. exists []. rewrite Hfe, Hdel, !app_nil_r. by split_and!.
Qed.

(** A SYN before the connection is open, answered in [c'] one way or another. *)
Lemma keeps_syn c c' new :
  Core_wf c → Receiver c LP fd hist → delivered c = [] → state c = Closed ∨ state c = SynSent →
  has_flag (f_flags f) FLAG_SYN = true →
  Sender c' (L ++ new) H Q → acked c' (L ++ new) = acked c L →
  rcv_next c' = wrap 64 (f_seq f + 1) → recv_buffer c' = recv_buffer c → reassembler c' = reassembler c →
  delivered c' = delivered c → window c' = window c → open_state c' → keeps c c'.
Proof using Hf Hsh HlP.
  intros W Rc Hdel Hst Hs Sd Ha E1 E2 E3 E4 E5 Ho.
  assert (Hm : matches LP (f_seq f) f) by (destruct Hf as [[F1 _]|Hm]; [by rewrite F1 in Hs|done]).
  pose proof (matches_lt _ _ _ Hm). pose proof (v_early _ _ _ _ Rc Hst) as Hz.
  assert (Hw : wrap 64 (f_seq f + 1) = (f_seq f + 1)%Z) by (unfold wrap; rewrite Z.mod_small; lia).
  assert (Hfe : feeds (FrameIn f) c = []).
  { unfold feeds, accepts. destruct Hst as [E|E]; by rewrite E, andb_false_r. }
  exists new. split_and!; [done|done| |lia|done]. rewrite Hfe, app_nil_r, E4, Hdel, app_nil_r.
  eapply (syn_Receiver f c); eauto; [apply (cw_early _ W Hst)|congruence].
Qed.

Lemma keeps_answer c :
  Core_wf c → Sender c L H Q → Receiver c LP fd hist → delivered c = [] →
  state c = Closed ∨ state c = SynSent → has_flag (f_flags f) FLAG_SYN = true → keeps c (answer_syn f c).
Proof using Hf Hsh HlP Hl.
  intros W Sd Rc Hdel Hst Hs.
  destruct (decide (rcv_next c <= wrap 64 (f_seq f + 1))%Z) as [Hle|Hle].
  - destruct (answer_syn_Sender f c L H Q Sd Hst Hl Hle) as (new & Sd1 & Ha1).
    eapply (keeps_syn c _ new); eauto; try done. by left.
  - exfalso. rewrite (v_early _ _ _ _ Rc Hst) in Hle. apply Hle. apply wrap64_u64.
Qed.

Lemma keeps_syn_ack c :
  Core_wf c → Sender c L H Q → Receiver c LP fd hist → delivered c = [] → state c = SynSent →
  has_flag (f_flags f) FLAG_SYN = true →
  keeps c (pump (emit_pure_ack (set_just_established true (set_state Established
    (set_rcv_next (wrap 64 (f_seq f + 1)) c))))).
Proof using Hf Hsh HlP Hl.
  intros W Sd Rc Hdel Hst Hs. set (c3 := emit_pure_ack _).
  assert (Hle : (rcv_next c <= wrap 64 (f_seq f + 1))%Z).
  { rewrite (v_early _ _ _ _ Rc (or_intror Hst)). apply wrap64_u64. }
  assert (Sd3 : Sender c3 L H Q).
  { destruct (Sender_transfer c (set_rcv_next (wrap 64 (f_seq f + 1)) c) L H Q Sd) as [Sd3 _]; try done.
    { apply wrap64_u64. }
    destruct Sd3 as [T1 T2 T3 T4 T5]. split; try done.
    - apply Seqs_pure_ack. by destruct T1.
    - simpl in *. rewrite Hst in T2. apply (Shape_syn_sent L (mkUnacked FLAG_SYN 0 [])); [done|].
      split; [by left|done]. }
  destruct (pump_Sender c3 L H Q Sd3) as (new & Sd4 & Ha4); [lia|].
  destruct (pump_frame c3) as ([= P1 P2 P3 P4 P5 P6 P7 P8 P9 P10 P11] & _ & P12).
  eapply (keeps_syn c _ new); eauto; try done.
  unfold open_state. destruct P12 as [->|[_ ->]]; [by left|by right].
Qed.

Lemma keeps_deliver c c' :
  Core_wf c → Sender c L H Q → Receiver c LP fd hist → delivered c = [] → open_state c →
  has_flag (f_flags f) FLAG_RST = false →
  (c1 ← deliver now f c; Ret (pump c1)) = Ret c' → keeps c c'.
Proof using Hf Hl Wf.
  intros W Sd Rc Hdel Hst Hrst E.
  assert (Hpure : consumes_seq f = true → matches LP (f_seq f) f).
  { destruct Hf as [[E1 E2]|Hm]; [|done]. unfold consumes_seq. by rewrite E1, E2. }
  destruct (deliver_net now f c L H Q LP fd hist) as
    (c1 & new & E1 & W1 & Hst1 & Sd1 & Ha1 & Hn & Rc1 & Hle & Hd1 & Hw1); try done; [lia|].
  rewrite E1 in E. cbn [mbind outcome_bind] in E. injection E as <-.
  destruct (pump_Sender c1 (L ++ new) H Q Sd1) as (new2 & Sd2 & Ha2); [rewrite len_app; lia|].
  destruct (pump_frame c1) as ([= P1 P2 P3 P4 P5 P6 P7 P8 P9 P10 P11] & _ & P12).
  exists (new ++ new2). rewrite app_assoc. split; [done|]. split; [congruence|].
  split; [|split; [lia|congruence]]. rewrite P4. eapply Receiver_transfer; [exact Rc1|done..|].
  destruct P12 as [->|[_ ->]]; [done|naive_solver].
Qed.
End OnFrame.

(** A live connection that receives a frame its peer sent. *)
Lemma on_frame_net now f c L H Q LP fd hist :
  Core_wf c → dead c = false → frame_wf f → delivered c = [] →
  Sender c L H Q → (len L < 2 ^ 63)%Z → Receiver c LP fd hist → Shape FinSent LP → (len LP < 2 ^ 64)%Z →
  (f_flags f = FLAG_ACK ∧ f_data f = [] ∨ matches LP (f_seq f) f) →
  ∃ c' new, on_frame now f c = Ret c' ∧ Core_wf c' ∧ dead c' = false
    ∧ Sender c' (L ++ new) H Q
    ∧ acked c' (L ++ new) = Nat.max (acked c L) (Z.to_nat (Z.min (f_ack_num f) (len L)))
    ∧ Receiver c' LP (fd ++ (pair now <$> feeds (FrameIn f) c)) (hist ++ delivered c')
    ∧ (rcv_next c <= rcv_next c')%Z ∧ window c' = window c.
Proof.
  intros W Hdead Wf Hdel Sd Hl Rc Hsh HlP Hf. pose proof Wf as (_ & Ha & Hw & _).
  assert (Hrst : has_flag (f_flags f) FLAG_RST = false).
  { destruct Hf as [[-> _]|Hm]; [done|by eapply Shape_no_rst]. }
  destruct (on_frame_wf now f c W Wf Hdead) as (c' & Eon & Hc'). rewrite Hrst in Hc'. destruct Hc' as [W' D'].
  destruct (ack_Sender (f_ack_num f) c L H Q Sd) as [Sd1 Ha1]; [unfold is_u64 in Ha; lia|].
  destruct (ack_wf (f_ack_num f) c W) as [W1 S1].
  set (c2 := set_peer_window (f_window f) (ack (f_ack_num f) c)).
  assert (W2 : Core_wf c2) by by apply set_peer_window_wf.
  assert (Sd2 : Sender c2 L H Q) by (destruct Sd1 as [[] ????]; by split).
  assert (Hfr : state c2 = state c ∧ rcv_next c2 = rcv_next c ∧ recv_buffer c2 = recv_buffer c
    ∧ reassembler c2 = reassembler c ∧ window c2 = window c ∧ delivered c2 = delivered c).
  { unfold c2, ack. case_decide; done. }
  destruct Hfr as (F1 & F2 & F3 & F4 & F5 & F6).
  assert (Rc2 : Receiver c2 LP fd hist) by (eapply Receiver_transfer; [exact Rc|done..|by rewrite F1]).
  assert (Hfeeds : feeds (FrameIn f) c = feeds (FrameIn f) c2) by (unfold feeds, accepts; by rewrite F1, F2, F3, F5).
  assert (Hk : keeps now f H Q LP fd hist L c2 c').
  { unfold on_frame in Eon. fold c2 in Eon. rewrite Hrst in Eon. rewrite <- F6 in Hdel.
    assert (Hsame : state c2 = Closed ∨ state c2 = SynSent → keeps now f H Q LP fd hist L c2 c2).
    { intros Hst. apply keeps_same; try done. unfold feeds, accepts. destruct Hst as [E|E]; by rewrite E, andb_false_r. }
    clearbody c2. destruct (state c2) eqn:Est.
    - injection Eon as <-. destruct (has_flag (f_flags f) FLAG_SYN) eqn:Hs; [apply keeps_answer; auto|auto].
    - injection Eon as <-. destruct (has_flag (f_flags f) FLAG_SYN) eqn:Hs; simpl; [|auto].
      destruct (has_flag (f_flags f) FLAG_ACK); [by apply keeps_syn_ack|apply keeps_answer; auto].
    - eapply keeps_deliver; eauto. by left.
    - eapply keeps_deliver; eauto. by right. }
  destruct Hk as (new & Sd3 & Ha3 & Rc3 & Hle & Hwin). exists c', new.
  rewrite Hfeeds, <- F2, <- F5. split_and!; try done. rewrite Ha3. exact Ha1.
Qed.

(** * Both sides *)

Abbreviation wires := (stream_wires MAX_CHUNK_PAYLOAD).

(** The handler of each event, before the outputs are flushed. *)
Definition handle (now : Z) (ev : ConnEvent) (c : ChannelCore) : outcome ChannelCore :=
  match ev with
  | CmdConnect => Ret (if decide (state c = Established) then c else connect c)
  | CmdSend fid d => send_message fid d c
  | CmdClose => Ret (close c)
  | FrameIn f => on_frame now f c
  | TimerFired => Ret (on_timeout c)
  | CmdGone | HubGone => Ret c
  end.

Definition stops (ev : ConnEvent) : Prop := ev = CmdGone ∨ ev = HubGone.

Lemma conn_round_handle now rx ev t t' out :
  conn_round now rx ev t = Ret (t', out) → ¬ stops ev →
  ∃ c1 pc dl out1, handle now ev (core t) = Ret c1
    ∧ conn_flush now rx (mkConn c1 (deliver_tx t) pc dl true) = (t', out1)
    ∧ o_sent out = o_sent out1 ∧ o_messages out = o_messages out1.
Proof.
  unfold conn_round, stops, handle. intros E Hs.
  destruct ev as [|fid d| | |f| |]; cbn [mbind outcome_bind] in *; try (exfalso; apply Hs; by auto).
  - case_decide; [|injection E as E; by eexists _, _, _, out].
    destruct (conn_flush _ _ _) as [t1 out1] eqn:Ef. injection E as <- <-. by eexists _, _, _, out1.
  - destruct (send_message fid d (core t)) as [|c1]; [done|]. injection E as E. by eexists _, _, _, out.
  - injection E as E. by eexists _, _, _, out.
  - destruct (on_frame now f (core t)) as [|c1]; [done|]. injection E as E. by eexists _, _, _, out.
  - injection E as E. by eexists _, _, _, out.
Qed.

Definition flushed (c : ChannelCore) : ChannelCore :=
  set_just_established false (set_delivered [] (set_outbox [] c)).

Lemma conn_flush_spec now rx c tx pc dl t' out :
  conn_flush now rx (mkConn c tx pc dl true) = (t', out) →
  core t' = flushed c ∧ running t' = negb (dead c) ∧ o_sent out = outbox c
  ∧ (o_messages out = delivered c ∨ o_messages out = [] ∧ (deliver_tx t' = true → delivered c = []))
  ∧ (deliver_tx t' = true → tx = true) ∧ (o_messages out ≠ [] → tx = true).
Proof.
  unfold conn_flush. simpl. intros E.
  destruct (dead c), tx, rx; simplify_eq/=; split_and!; try done; auto; right; split; try done;
    intros [? _]%andb_true_iff; by bool_to_Prop.
Qed.

Record PeerInv (p : Peer) (L : list Unacked) : Prop := {
  p_seqs : Seqs (core (conn p)) L (sent p);
  p_shape : Shape FinSent L;
  p_prefix : chunks_of L `prefix_of` wires (submitted p);
  p_ok : Forall (Msg_ok MAX_CHUNK_PAYLOAD) (submitted p);
  p_clean : outbox (core (conn p)) = [] ∧ delivered (core (conn p)) = [];
  p_run : running (conn p) = true →
    Sender (core (conn p)) L (sent p) (wires (submitted p))
    ∧ Core_wf (core (conn p)) ∧ dead (core (conn p)) = false;
}.

(** [q] against the log of its peer. *)
Record DirInv (q : Peer) (LP : list Unacked) : Prop := {
  d_hist : ∃ hist, Receiver (set_state FinSent (core (conn q))) LP (fed q) hist
    ∧ received q `prefix_of` hist ∧ (deliver_tx (conn q) = true → received q = hist);
  d_early : running (conn q) = true →
    state (core (conn q)) = Closed ∨ state (core (conn q)) = SynSent → rcv_next (core (conn q)) = 0%Z;
}.

(** Nothing is dropped from the retransmission queue before the peer has it. *)
Definition AckInv (p : Peer) (L : list Unacked) (q : Peer) : Prop :=
  running (conn p) = true → (Z.of_nat (acked (core (conn p)) L) <= rcv_next (core (conn q)))%Z.

Lemma Sender_flushed c L H Q : Sender c L H Q → Sender (flushed c) L (H ++ outbox c) Q.
Proof. intros [[] S2 S3 S4 S5]. split; try done. split; try done. simpl. by rewrite app_nil_r. Qed.

Lemma Core_wf_flushed c : Core_wf c → Core_wf (flushed c).
Proof. by intros []. Qed.

(** What one handler keeps, for a running side whose peer has sent the log [LP]
    and received up to [r]. *)
Record Keeps (c' : ChannelCore) (L : list Unacked) (H Q : list bytes) (LP : list Unacked)
    (fd : list (Z * bytes)) (hist : list bytes) (r : Z) : Prop := {
  k_sender : Sender c' L H Q;
  k_wf : Core_wf c';
  k_alive : dead c' = false;
  k_acked : (Z.of_nat (acked c' L) <= r)%Z;
  k_receiver : Receiver c' LP fd (hist ++ delivered c');
}.

Lemma recv_side_next c c' : recv_side c' = recv_side c → (rcv_next c <= rcv_next c')%Z.
Proof. intros E. apply (f_equal (λ x, x.1.1.1.1.1.1.1.1.1.1)) in E. simpl in E. lia. Qed.

(** A handler that only sends. *)
Lemma Keeps_send c c' L L' H Q Q' LP fd hist r :
  Keeps c L H Q LP fd hist r → recv_side c' = recv_side c →
  (state c' = Closed ∨ state c' = SynSent → state c = Closed ∨ state c = SynSent) →
  Sender c' L' H Q' → acked c' L' = acked c L → Keeps c' L' H Q' LP fd hist r.
Proof.
  intros [Sd W Hd Ha Rc] Hr Hs Sd' Ha'. pose proof Hr as [= P1 P2 P3 P4 P5 P6 P7 P8 P9 P10 P11].
  split; [done| |congruence|congruence|].
  - eapply recv_side_wf; [exact W|done| |done].
    destruct Sd' as [S1 _ _ _ _]. rewrite (q_next _ _ _ S1). pose proof (q_small _ _ _ S1).
    pose proof (len_nonneg L'). unfold is_u64. lia.
  - rewrite P4. by eapply Receiver_transfer.
Qed.

Lemma foldl_emit_frame us c :
  let c' := foldl (λ c u, emit (u_flags u) (u_seq u) (u_data u) c) c us in
  recv_side c' = recv_side c.
Proof. revert c. induction us as [|u us IH]; intros c; [done|]. simpl. by rewrite IH. Qed.

(** A retransmission keeps everything but the retry counter. *)
Lemma Keeps_retries c L H Q LP fd hist r n :
  Keeps c L H Q LP fd hist r → (0 <= n <= MAX_RETRIES)%Z → Keeps (set_retries n c) L H Q LP fd hist r.
Proof.
  intros [[[] ????] [] Hd Ha Rc] Hn.
  split; first [done|by split|by eapply Receiver_transfer].
Qed.

Lemma Keeps_timeout c L H Q LP fd hist r :
  Keeps c L H Q LP fd hist r →
  on_timeout c = teardown c ∨ Keeps (on_timeout c) L H Q LP fd hist r.
Proof.
  intros K. destruct (on_timeout_Sender c L H Q (k_sender _ _ _ _ _ _ _ _ K)) as [?|(Sd & Ha & Hst & _)]; [by left|].
  revert Sd Ha Hst. unfold on_timeout. case_decide; [by right|].
  destruct (Z.leb_spec MAX_RETRIES (retries c)); [by left|]. intros Sd Ha Hst. right.
  pose proof (cw_retries _ (k_wf _ _ _ _ _ _ _ _ K)).
  eapply (Keeps_send (set_retries (retries c + 1) c)); [apply Keeps_retries; [done|lia]|apply foldl_emit_frame| |done|done].
  by rewrite Hst.
Qed.

(** What an event must satisfy for the handlers: a frame was sent by the peer. *)
Definition honest (LP : list Unacked) (r : Z) (ev : ConnEvent) : Prop :=
  match ev with
  | FrameIn f => frame_wf f ∧ (f_ack_num f <= r)%Z ∧ (f_flags f = FLAG_ACK ∧ f_data f = [] ∨ matches LP (f_seq f) f)
  | CmdSend fid d => Msg_ok MAX_CHUNK_PAYLOAD (fid, d)
  | _ => True
  end.

(** One handler, on the state of a running side. *)
Lemma handle_net now ev c L H ms LP fd hist r :
  Keeps c L H (wires ms) LP fd hist r → delivered c = [] →
  (len L < 2 ^ 63)%Z → Shape FinSent LP → (len LP < 2 ^ 64)%Z → ¬ stops ev → honest LP r ev →
  handle now ev c = Ret (teardown c) ∧ ev = TimerFired
  ∨ ∃ c' new, handle now ev c = Ret c' ∧ (rcv_next c <= rcv_next c')%Z
      ∧ Keeps c' (L ++ new) H (wires (ms ++ submits ev)) LP (fd ++ (pair now <$> feeds ev c)) hist r.
Proof.
  intros K Hdel Hl Hsh HlP Hns Hev. pose proof K as [Sd W Hd Ha Rc].
  destruct ev as [|fid d| | |f| |]; cbn [handle submits feeds honest] in *;
    rewrite ?app_nil_r; try (exfalso; apply Hns; unfold stops; by auto).
  - right. case_decide as Hst; [exists c, []; by rewrite app_nil_r|].
    destruct (connect_Sender c L H _ Sd Hl) as (new & Sd1 & Ha1). exists (connect c), new.
    assert (Hr : recv_side (connect c) = recv_side c) by (unfold connect; by case_decide).
    split; [done|]. split; [by apply recv_side_next|]. eapply Keeps_send; try done.
    unfold connect. case_decide; naive_solver.
  - right. destruct (send_message_Sender fid d c L H ms Sd Hev Hl) as (c' & new & E & Sd1 & Ha1 & Hr & Hs).
    exists c', new. split; [done|]. split; [by apply recv_side_next|]. eapply Keeps_send; try done.
    destruct Hs as [->|[_ ->]]; naive_solver.
  - right. unfold close. set (c1 := set_closing true c).
    assert (Sd0 : Sender c1 L H (wires ms)) by (destruct Sd as [[] ????]; by split).
    destruct (pump_Sender c1 L H _ Sd0) as (new & Sd1 & Ha1); [lia|].
    destruct (pump_frame c1) as (Hr & _ & Hs). exists (pump c1), new. split; [done|].
    split; [by apply recv_side_next|]. eapply Keeps_send; [exact K|exact Hr| |done|done].
    destruct Hs as [->|[_ ->]]; naive_solver.
  - right. destruct Hev as (Wf & Hr & Hm).
    pose proof Rc as Rc'. rewrite Hdel, app_nil_r in Rc'.
    destruct (on_frame_net now f c L H (wires ms) LP fd hist) as
      (c' & new & E & W' & D' & Sd' & Ha' & Rc1 & Hle & _); try done.
    exists c', new. split; [done|]. split; [done|]. split; try done. rewrite Ha'. lia.
  - destruct (Keeps_timeout _ _ _ _ _ _ _ _ K) as [->|K']; [by left|right].
    exists (on_timeout c), []. rewrite app_nil_r. split; [done|]. split; [|done].
    unfold on_timeout. case_decide; [lia|]. case_match; [done|].
    by apply (recv_side_next (set_retries (retries c + 1) c)), foldl_emit_frame.
Qed.

Lemma possible_honest b LB ev :
  PeerInv b LB → possible b ev → honest LB (rcv_next (core (conn b))) ev.
Proof.
  intros Ib. destruct ev as [|fid d| | |f| |]; simpl; try done. intros (w & Hw & Hp).
  pose proof (q_sent _ _ _ (p_seqs _ _ Ib)) as Hs. apply Forall_app in Hs as [Hs _].
  rewrite Forall_forall in Hs. destruct (Hs _ Hw) as (f0 & -> & Wf & Ha & _ & Hm).
  rewrite frame_parse_serialize in Hp by done. by simplify_eq.
Qed.

Lemma DirInv_log b LA new : DirInv b LA → DirInv b (LA ++ new).
Proof.
  intros [(hist & Rc & Hr) He]. split; [|done]. exists hist. split; [by apply Receiver_log|done].
Qed.

(** The invariant of a side that ran a handler and flushed its outputs. *)
Lemma flush_inv now rx c1 pc dl t' out a L LB ms fd hist r :
  Keeps c1 L (sent a) (wires ms) LB fd hist r → Forall (Msg_ok MAX_CHUNK_PAYLOAD) ms →
  conn_flush now rx (mkConn c1 (deliver_tx (conn a)) pc dl true) = (t', out) →
  received a `prefix_of` hist → (deliver_tx (conn a) = true → received a = hist) →
  let a' := mkPeer t' (sent a ++ o_sent out) ms (received a ++ o_messages out) fd in
  PeerInv a' L ∧ DirInv a' LB ∧ (Z.of_nat (acked (core t') L) <= r)%Z ∧ rcv_next (core t') = rcv_next c1.
Proof.
  intros [Sd W Hd Ha Rc] Hok Hf Hpre Heq a'.
  destruct (conn_flush_spec _ _ _ _ _ _ _ _ Hf) as (Ec & Er & Es & Em & Et & Et').
  assert (Sd' : Sender (flushed c1) L (sent a ++ outbox c1) (wires ms)) by by apply Sender_flushed.
  split_and!; [| |by rewrite Ec|by rewrite Ec].
  - split; simpl; rewrite ?Ec, ?Es; try done.
    + apply Sd'.
    + eapply Shape_any, Sd'.
    + rewrite <- (s_queue _ _ _ _ Sd'). by apply prefix_app_r.
    + intros _. split_and!; [done|by apply Core_wf_flushed|done].
  - split; simpl; rewrite Ec.
    + exists (hist ++ delivered c1). split; [|split].
      * eapply Receiver_transfer; [exact Rc|done..|]. by intros [E|E].
      * destruct Em as [Em|[Em _]]; rewrite Em.
        -- destruct (decide (delivered c1 = [])) as [Hn|Hn]; [by rewrite Hn, !app_nil_r|].
           rewrite (Heq (Et' ltac:(by rewrite Em))). done.
        -- rewrite app_nil_r. by apply prefix_app_r.
      * intros Ht. rewrite (Heq (Et Ht)). f_equal. destruct Em as [Em|[Em Hn]]; [done|]. by rewrite Em, (Hn Ht).
    + intros _ Hst. apply (v_early _ _ _ _ Rc). exact Hst.
Qed.

(** The same, when the handler gave up on the peer. *)
Lemma teardown_inv now rx pc dl t' out a L LB :
  PeerInv a L → DirInv a LB →
  conn_flush now rx (mkConn (teardown (core (conn a))) (deliver_tx (conn a)) pc dl true) = (t', out) →
  let a' := mkPeer t' (sent a ++ o_sent out) (submitted a) (received a ++ o_messages out) (fed a) in
  PeerInv a' L ∧ DirInv a' LB ∧ running t' = false ∧ rcv_next (core t') = rcv_next (core (conn a)).
Proof.
  intros [P1 P2 P3 P4 [P5 P6] P7] [(hist & Rc & Hpre & Heq) He] Hf a'.
  destruct (conn_flush_spec _ _ _ _ _ _ _ _ Hf) as (Ec & Er & Es & Em & Et & Et').
  simpl in *. rewrite P5, P6 in *.
  assert (o_messages out = []) as Hm by naive_solver.
  split_and!; [| |done|by rewrite Ec].
  - split; simpl; rewrite ?Ec, ?Es, ?Er; try done. destruct P1.
    rewrite P5, app_nil_r in *. split; simpl; try done; [|lia|by rewrite app_nil_r].
    rewrite drop_ge by lia. done.
  - split; simpl; rewrite Ec, ?Er, ?Hm, ?app_nil_r; [|done].
    exists hist. split; [|naive_solver]. eapply Receiver_transfer; [exact Rc|done..].
Qed.

Lemma peer_step_inv a b a' LA LB :
  PeerInv a LA → PeerInv b LB → DirInv a LB → DirInv b LA → AckInv a LA b → AckInv b LB a →
  peer_step b a a' →
  ∃ new, PeerInv a' (LA ++ new) ∧ DirInv a' LB ∧ DirInv b (LA ++ new)
    ∧ AckInv a' (LA ++ new) b ∧ AckInv b LB a'.
Proof.
  intros Ia Ib Da Db Aa Ab [now rx ev a'' Hrun Hl Hpos E].
  unfold peer_round in E. destruct (conn_round now rx ev (conn a)) as [|[t' out]] eqn:Ecr; [done|].
  cbn [mbind outcome_bind] in E. injection E as <-.
  destruct (p_run _ _ Ia Hrun) as (Sd & W & Hd). pose proof (p_clean _ _ Ia) as [Hout Hdel].
  destruct Da as [(hist & Rc & Hpre & Heq) He].
  assert (Rc' : Receiver (core (conn a)) LB (fed a) hist).
  { destruct Rc. split; try done. by apply He. }
  rewrite (q_next _ _ _ (s_seqs _ _ _ _ Sd)) in Hl.
  assert (Hsub : Forall (Msg_ok MAX_CHUNK_PAYLOAD) (submitted a ++ submits ev)).
  { apply Forall_app. split; [apply Ia|]. destruct ev; by constructor. }
  assert (Hstop : stops ev ∨ ¬ stops ev) by (destruct ev; unfold stops; naive_solver).
  destruct Hstop as [Hs|Hs].
  { assert (t' = mkConn (core (conn a)) (deliver_tx (conn a)) (pending_connect (conn a)) (deadline (conn a)) false
      ∧ out = mkOut [] [] false ∧ submits ev = [] ∧ feeds ev (core (conn a)) = []) as (-> & -> & -> & ->)
      by (destruct Hs as [-> | ->]; simpl in Ecr; by simplify_eq).
    exists []. simpl. rewrite !app_nil_r. split_and!; [by destruct Ia| |done|done|exact Ab].
    split; [by exists hist|done]. }
  destruct (conn_round_handle _ _ _ _ _ _ Ecr Hs) as (c1 & pc & dl & out1 & Eh & Ef & -> & ->).
  pose proof (possible_honest _ _ _ Ib Hpos) as Hh.
  assert (K : Keeps (core (conn a)) LA (sent a) (wires (submitted a)) LB (fed a) hist (rcv_next (core (conn b)))).
  { split; try done; [by apply Aa|]. by rewrite Hdel, app_nil_r. }
  destruct (handle_net now ev _ _ _ _ _ _ _ _ K Hdel Hl (p_shape _ _ Ib) (q_small _ _ _ (p_seqs _ _ Ib)) Hs Hh)
    as [[E1 ->]|(c2 & new & E1 & Hle & K2)]; rewrite E1 in Eh; injection Eh as <-.
  - exists []. simpl. rewrite !app_nil_r.
    destruct (teardown_inv _ _ _ _ _ _ a LA LB Ia (Build_DirInv _ _ (ex_intro _ hist (conj Rc (conj Hpre Heq))) He) Ef)
      as (P & D & Hr & Hn).
    split_and!; [done|done|done|unfold AckInv; simpl; by rewrite Hr|unfold AckInv in *; simpl; by rewrite Hn].
  - exists new. destruct (flush_inv _ _ _ _ _ _ _ a _ LB _ _ _ _ K2 Hsub Ef Hpre Heq) as (P & D & Ha & Hn).
    split_and!; [done|done|by apply DirInv_log|by intros _|].
    intros Hrb. simpl. rewrite Hn. specialize (Ab Hrb). lia.
Qed.

(** * Reachable systems *)

Definition NetInv (s : Peer * Peer) : Prop :=
  ∃ LA LB, PeerInv s.1 LA ∧ PeerInv s.2 LB ∧ DirInv s.1 LB ∧ DirInv s.2 LA ∧ AckInv s.1 LA s.2 ∧ AckInv s.2 LB s.1.

Lemma Core_wf_new w rto : is_u16 w → Core_wf (ChannelCore_new w rto).
Proof.
  intros Hw. split; simpl; try done. apply Built_wf, Built_for_chunk_size.
Qed.

Lemma Peer_new_inv w rto : is_u16 w → PeerInv (Peer_new w rto) [] ∧ DirInv (Peer_new w rto) [].
Proof.
  intros Hw.
  assert (Hsh : ∀ st, Shape st []) by (intros st; exists [], [], []; by destruct st).
  assert (Q : Seqs (ChannelCore_new w rto) [] []) by (split; simpl; try done; constructor).
  split.
  - split; simpl; try done. intros _.
    split_and!; [split; try done; by constructor|by apply Core_wf_new|done].
  - split; [|done]. exists []. split; [|done]. split; try done. by exists [].
Qed.

Lemma NetInv_init wa ra wb rb :
  is_u16 wa → is_u16 wb → NetInv (Peer_new wa ra, Peer_new wb rb).
Proof.
  intros Ha Hb. destruct (Peer_new_inv wa ra Ha), (Peer_new_inv wb rb Hb). by exists [], [].
Qed.

Lemma net_step_inv s s' : NetInv s → net_step s s' → NetInv s'.
Proof.
  intros I Hst. destruct Hst as [a b a' Hs|a b b' Hs];
    destruct I as (LA & LB & Ia & Ib & Da & Db & Aa & Ab); simpl in *.
  - destruct (peer_step_inv a b a' LA LB) as (new & ? & ? & ? & ? & ?); try done.
    by exists (LA ++ new), LB.
  - destruct (peer_step_inv b a b' LB LA) as (new & ? & ? & ? & ? & ?); try done.
    by exists LA, (LB ++ new).
Qed.

Lemma net_reach_inv s s' : NetInv s → rtc net_step s s' → NetInv s'.
Proof. intros I R. induction R; eauto using net_step_inv. Qed.

Lemma take_prefix {A} n (l : list A) : take n l `prefix_of` l.
Proof. exists (drop n l). by rewrite take_drop. Qed.

Lemma chunks_of_prefix L L' : L `prefix_of` L' → chunks_of L `prefix_of` chunks_of L'.
Proof. intros [k ->]. rewrite chunks_of_app. by apply prefix_app_r. Qed.

(** What a side gave to its reassembler is a part of what the other submitted. *)
Lemma fed_prefix p q L : PeerInv p L → DirInv q L → (fed q).*2 `prefix_of` wires (submitted p).
Proof.
  intros I [(hist & Rc & _) _]. rewrite (v_fed _ _ _ _ Rc).
  etrans; [apply chunks_of_prefix, take_prefix|apply I].
Qed.

Lemma received_prefix p q L :
  PeerInv p L → DirInv q L → timely MAX_CHUNK_PAYLOAD DEFAULT_REASSEMBLY_TIMEOUT (submitted p) (fed q) →
  received q `prefix_of` (submitted p).*2.
Proof.
  intros I D Ht. pose proof (fed_prefix _ _ _ I D) as Hp. destruct D as [(hist & Rc & Hpre & _) _].
  destruct (v_feed _ _ _ _ Rc) as (os & Ef & Ho).
  destruct (feed_stream MAX_CHUNK_PAYLOAD eq_refl (submitted p) (fed q) (for_chunk_size MAX_CHUNK_PAYLOAD))
    as (r' & os' & Ef' & Hos & _); [apply I|apply Idle_new|done|done|].
  rewrite Ef in Ef'. simplify_eq. by etrans.
Qed.

(** * Progress *)

Lemma pump_data_outbox q limit c : outbox c `prefix_of` outbox (pump_data q limit c).
Proof.
  revert c. induction q as [|d q IH]; intros c; simpl; [done|]. case_match; [|done].
  etrans; [|apply IH]. simpl. by eexists.
Qed.

Lemma pump_outbox c : outbox c `prefix_of` outbox (pump c).
Proof.
  unfold pump. case_decide; [done|]. pose proof (pump_data_outbox (send_queue c) (Z.max (peer_window c) 1) c).
  case_match; [|done]. etrans; [done|]. simpl. by eexists.
Qed.

(** A side has an acknowledgement of everything it has received ready to be sent. *)
Definition acks_all (c : ChannelCore) : Prop :=
  ∃ sn, is_u64 sn ∧ frame_serialize (mkFrame FLAG_ACK (rcv_next c) (window c) sn []) ∈ outbox c.

Lemma acks_all_pump c : is_u64 (send_next c) → acks_all (pump (emit_pure_ack c)).
Proof.
  intros Hn. exists (send_next c). split; [done|].
  destruct (pump_frame (emit_pure_ack c)) as ([= -> P2 P3 P4 P5 -> P7 P8 P9 P10 P11] & _).
  destruct (pump_outbox (emit_pure_ack c)) as [l ->]. simpl. set_solver.
Qed.

(** A frame at or below the next expected number is received after it. *)
Lemma on_frame_progress now f c LP fd hist :
  Core_wf c → frame_wf f → dead c = false → open_state c → has_flag (f_flags f) FLAG_RST = false →
  consumes_seq f = true → matches LP (f_seq f) f → delivered c = [] → Receiver c LP fd hist →
  (f_seq f <= rcv_next c)%Z → (1 <= window c)%Z → (len LP < 2 ^ 63)%Z →
  ∃ c' fd' hist', on_frame now f c = Ret c' ∧ Core_wf c' ∧ dead c' = false ∧ open_state c'
    ∧ Receiver (set_delivered [] c') LP fd' hist' ∧ window c' = window c
    ∧ (f_seq f < rcv_next c')%Z ∧ (rcv_next c <= rcv_next c')%Z ∧ acks_all c'.
Proof.
  intros W Wf Hd Hst Hrst Hc Hm Hdel Rc Hle Hw HlP.
  destruct (on_frame_wf now f c W Wf Hd) as (c' & Eon & Hc'). rewrite Hrst in Hc'. destruct Hc' as [W' D'].
  pose proof Wf as (_ & _ & Hwf & _).
  destruct (ack_wf (f_ack_num f) c W) as [W1 S1].
  set (c2 := set_peer_window (f_window f) (ack (f_ack_num f) c)).
  assert (W2 : Core_wf c2) by by apply set_peer_window_wf.
  assert (Hfr : state c2 = state c ∧ rcv_next c2 = rcv_next c ∧ recv_buffer c2 = recv_buffer c
    ∧ reassembler c2 = reassembler c ∧ window c2 = window c ∧ delivered c2 = delivered c).
  { unfold c2, ack. case_decide; done. }
  destruct Hfr as (F1 & F2 & F3 & F4 & F5 & F6).
  assert (Rc2 : Receiver c2 LP fd hist) by (eapply Receiver_transfer; [exact Rc|done..|by rewrite F1]).
  assert (Hst2 : open_state c2) by (unfold open_state; by rewrite F1).
  pose proof Eon as Eon0. unfold on_frame in Eon. fold c2 in Eon. rewrite Hrst in Eon.
  assert (Eon' : (c1 ← deliver now f c2; Ret (pump c1)) = Ret c') by (destruct Hst2 as [E|E]; by rewrite E in Eon).
  clear Eon. rewrite <- F2, <- F5 in *. rewrite <- F6 in Hdel. clearbody c2.
  pose proof (v_next _ _ _ _ Rc2) as Hvn. pose proof (cw_window _ W2) as Hwin. unfold is_u16 in Hwin.
  destruct (deliver_cases now f c2 W2 Wf)
    as [(Hc' & _)|[(_ & E & Href)|(_ & H1 & H2 & Hb & c1 & frs & E & Wr & D)]]; [congruence| |].
  - rewrite E in Eon'. cbn [mbind outcome_bind] in Eon'. injection Eon' as <-.
    destruct (pump_frame (emit_pure_ack c2)) as ([= P1 P2 P3 P4 P5 P6 P7 P8 P9 P10 P11] & _ & P12).
    assert (Hst' : open_state (pump (emit_pure_ack c2))).
    { unfold open_state in *. destruct P12 as [->|[_ ->]]; [done|by right]. }
    exists (pump (emit_pure_ack c2)), fd, hist. split_and!; [exact Eon0|done|done|done| |done|..|lia|apply acks_all_pump, W2].
    + eapply Receiver_transfer; [exact Rc2|done..|]. intros [E1|E1]; destruct Hst' as [E2|E2]; simpl in *; congruence.
    + rewrite P1. destruct Href as [?|[[g Hg]|[?|?]]]; [lia| |lia|lia].
      destruct (cw_buffer _ W2 _ _ Hg) as (? & _). lia.
  - destruct (drained_wf _ _ _ _ _ W2 Hst2 H1 H2 Wr D) as (W3 & Hst3 & Hle3 & _).
    pose proof (drained_Receiver _ _ _ _ _ _ _ _ Rc2 Hm Hdel Hst3 D) as Rc3.
    rewrite E in Eon'. cbn [mbind outcome_bind] in Eon'. injection Eon' as <-.
    destruct (pump_frame (emit_pure_ack c1)) as ([= P1 P2 P3 P4 P5 P6 P7 P8 P9 P10 P11] & _ & P12).
    assert (Hst' : open_state (pump (emit_pure_ack c1))).
    { unfold open_state in *. destruct P12 as [->|[_ ->]]; [done|by right]. }
    pose proof (d_rest _ _ _ _ D) as [= R1 R2 R3 R4 R5 R6 R7 R8]. simpl in *.
    eexists _, _, _. split_and!; [exact Eon0|done|done|done| |congruence|..].
    + eapply Receiver_transfer; [exact Rc3|done..|]. intros [E1|E1]; destruct Hst' as [E2|E2]; simpl in *; congruence.
    + rewrite P1. destruct D as [_ Dn Db Ds _ _ _]. simpl in *.
      assert (f_seq f = rcv_next c2) as Heq by lia.
      destruct (decide (rcv_next c1 = rcv_next c2)) as [Hz|]; [|lia].
      rewrite Db, Hz, decide_False in Ds by lia. rewrite Heq, lookup_insert_eq in Ds. done.
    + rewrite P1. done.
    + apply acks_all_pump, W3.
Qed.

(** The payloads handed to a side, one after the other. *)
Fixpoint receive_all (now : Z) (ws : list bytes) (c : ChannelCore) : outcome ChannelCore :=
  match ws with
  | [] => Ret c
  | w :: ws' =>
      match frame_parse w with
      | Some f => c ← on_frame now f (set_delivered [] c); receive_all now ws' c
      | None => receive_all now ws' c
      end
  end.

(** The payload a side sends for a logged frame. *)
Definition frame_of (c : ChannelCore) (u : Unacked) : ChannelFrame :=
  mkFrame (u_flags u) (rcv_next c) (window c) (u_seq u) (u_data u).

Lemma foldl_emit_outbox us c :
  outbox (foldl (λ c u, emit (u_flags u) (u_seq u) (u_data u) c) c us)
  = outbox c ++ ((λ u, frame_serialize (frame_of c u)) <$> us).
Proof.
  revert c. induction us as [|u us IH]; intros c; simpl; [by rewrite app_nil_r|].
  rewrite IH. simpl. by rewrite <- app_assoc.
Qed.

Lemma log_consumes st L k f : Shape st L → matches L k f → consumes_seq f = true.
Proof.
  intros (Sy & D & F & -> & HS & HD & HF & _) (_ & u & Hu & E1 & E2). unfold consumes_seq. rewrite E1, E2.
  apply lookup_app_Some in Hu as [Hu|[_ Hu]].
  { destruct (proj1 (Forall_lookup _ _) HS _ _ Hu) as [[->| ->] _]; done. }
  apply lookup_app_Some in Hu as [Hu|[_ Hu]].
  - destruct (proj1 (Forall_lookup _ _) HD _ _ Hu) as [_ Hd]. rewrite bool_decide_true by done. apply orb_true_r.
  - by destruct (proj1 (Forall_lookup _ _) HF _ _ Hu) as [-> _].
Qed.

(** The log from [k] on, received in order by a side that has everything below. *)
Lemma receive_log now sc us k c LP fd hist :
  Shape FinSent LP → (len LP < 2 ^ 63)%Z → is_u64 (rcv_next sc) → is_u16 (window sc) →
  (∀ i u, us !! i = Some u → LP !! (k + i) = Some u ∧ u_seq u = Z.of_nat (k + i) ∧ (0 <= u_flags u < 16)%Z) →
  Core_wf c → dead c = false → open_state c → Receiver (set_delivered [] c) LP fd hist → (1 <= window c)%Z →
  (Z.of_nat k <= rcv_next c)%Z →
  ∃ c', receive_all now ((λ u, frame_serialize (frame_of sc u)) <$> us) c = Ret c'
    ∧ (Z.of_nat (k + length us) <= rcv_next c' <= len LP)%Z ∧ Core_wf c' ∧ (us ≠ [] → acks_all c').
Proof.
  intros Hsh HlP Hr Hw. revert k c fd hist. induction us as [|u us IH]; intros k c fd hist Hus W Hd Hst Rc Hwin Hk.
  { exists c. split; [done|]. pose proof (v_next _ _ _ _ Rc) as Hv. simpl in *. split_and!; [lia..|done|done]. }
  destruct (Hus 0 u eq_refl) as (Hu & Hs & Hfl). rewrite Nat.add_0_r in *.
  pose proof (lookup_lt_Some _ _ _ Hu) as Hlt.
  assert (Hm : matches LP (f_seq (frame_of sc u)) (frame_of sc u)).
  { simpl. rewrite Hs. split; [lia|]. exists u. by rewrite Nat2Z.id. }
  assert (Wf : frame_wf (frame_of sc u)).
  { unfold len in HlP. unfold frame_wf, is_u64 in *. simpl. rewrite Hs. split_and!; try done; lia. }
  simpl. rewrite frame_parse_serialize by done.
  destruct (on_frame_progress now (frame_of sc u) (set_delivered [] c) LP fd hist)
    as (c1 & fd1 & hist1 & -> & W1 & Hd1 & Hst1 & Rc1 & Hw1 & Hlt1 & Hle1 & Hack1); try done.
  { by destruct W. }
  { by eapply Shape_no_rst. }
  { by eapply log_consumes. }
  { simpl. rewrite Hs. done. }
  cbn [mbind outcome_bind]. simpl in Hlt1, Hle1, Hw1. rewrite Hs in Hlt1.
  destruct (IH (S k) c1 fd1 hist1) as (c' & E & Hc' & W' & Hack'); try done.
  { intros i v Hi. replace (S k + i) with (k + S i) by lia. by apply Hus. }
  { lia. }
  { lia. }
  exists c'. split; [done|]. simpl length. split_and!; [lia..|done|]. intros _.
  destruct us as [|u' us']; [|by apply Hack']. simpl in E. by injection E as <-.
Qed.

Lemma pump_idle c : send_queue c = [] → closing c = false → unacked (pump c) = unacked c.
Proof. intros E1 E2. unfold pump. case_decide; [done|]. rewrite E1. simpl. by rewrite E2. Qed.

Lemma on_timeout_queue c :
  (retries c < MAX_RETRIES)%Z → send_queue (on_timeout c) = send_queue c ∧ closing (on_timeout c) = closing c.
Proof.
  intros Hr. unfold on_timeout. case_decide; [done|]. rewrite (proj2 (Z.leb_gt _ _)) by done.
  assert (G : ∀ us c0, let c1 := foldl (λ c u, emit (u_flags u) (u_seq u) (u_data u) c) c0 us in
    send_queue c1 = send_queue c0 ∧ closing c1 = closing c0).
  { induction us as [|u us IH]; intros c0; [done|]. simpl. by destruct (IH (emit (u_flags u) (u_seq u) (u_data u) c0)) as [-> ->]. }
  destruct (G (unacked c) (set_retries (retries c + 1) c)). by split.
Qed.

(** A bare acknowledgement of everything sent: what is left to be acknowledged was sent
    in answer to it. *)
Lemma on_frame_ack now sn a win c L H Q :
  Sender c L H Q → (len L < 2 ^ 63)%Z → (len L <= a)%Z → is_u16 win →
  ∃ c', on_frame now (mkFrame FLAG_ACK a win sn []) c = Ret c'
    ∧ Forall (λ u, len L <= u_seq u)%Z (unacked c')
    ∧ (send_queue c = [] → closing c = false → unacked c' = []).
Proof.
  intros Sd HL Ha Hw. destruct (ack_Sender a c L H Q Sd) as [Sd1 Ha1]; [pose proof (len_nonneg L); lia|].
  set (c2 := set_peer_window win (ack a c)).
  assert (Sd2 : Sender c2 L H Q) by (destruct Sd1 as [[] ????]; by split).
  assert (Ha2 : acked c2 L = length L).
  { change (acked c2 L) with (acked (ack a c) L). rewrite Ha1, Z.min_r by lia. unfold len, acked. lia. }
  assert (Hf : send_queue c2 = send_queue c ∧ closing c2 = closing c) by (unfold c2, ack; by case_decide).
  assert (Hu2 : unacked c2 = []).
  { rewrite (q_unacked _ _ _ (s_seqs _ _ _ _ Sd2)). fold (acked c2 L). rewrite Ha2. apply drop_ge. lia. }
  destruct (pump_Sender c2 L H Q Sd2) as (new & Sd3 & Ha3); [lia|].
  assert (Hp : Forall (λ u, len L <= u_seq u)%Z (unacked (pump c2))).
  { rewrite (q_unacked _ _ _ (s_seqs _ _ _ _ Sd3)). fold (acked (pump c2) (L ++ new)). rewrite Ha3, Ha2.
    apply Forall_lookup. intros i u Hi. rewrite lookup_drop in Hi.
    destruct (q_seqs _ _ _ (s_seqs _ _ _ _ Sd3) _ _ Hi) as [-> _]. unfold len. lia. }
  exists (match state c2 with Closed | SynSent => c2 | _ => pump c2 end).
  unfold on_frame. cbn [f_ack_num f_window f_flags]. fold c2. change (has_flag FLAG_ACK FLAG_RST) with false. cbv iota.
  destruct Hf as [<- <-].
  destruct (state c2); cbn [mbind outcome_bind]; (split; [done|]); rewrite ?Hu2; split; try done.
  all: intros; by rewrite pump_idle.
Qed.

(** ** Properties *)

(** The chunks of [a]'s frames below [b]'s next expected number, one list (empty for
    SYN and FIN) per number: [log]. [b]'s reassembler is what feeding these to a new one,
    in order and once each, leads to, and the messages it gave are those delivered. *)
Definition in_order (a b : Peer) : Prop :=
  let cb := core (conn b) in
  ∃ log os,
    len log = rcv_next cb
    ∧ (∀ w f, w ∈ sent a → frame_parse w = Some f → consumes_seq f = true → (f_seq f < rcv_next cb)%Z →
         log !! Z.to_nat (f_seq f) = Some (frame_chunk f))
    ∧ (fed b).*2 = concat log
    ∧ feed_all (for_chunk_size MAX_CHUNK_PAYLOAD) (fed b) = Ret (reassembler cb, os)
    ∧ received b `prefix_of` omap id os ∧ (deliver_tx (conn b) = true → received b = omap id os)
    ∧ concat log `prefix_of` wires (submitted a).

Lemma in_order_inv a b L : PeerInv a L → DirInv b L → in_order a b.
Proof.
  intros I D. pose proof (fed_prefix _ _ _ I D) as Hp. destruct D as [(hist & Rc & Hpre & Htx) _].
  pose proof (v_fed _ _ _ _ Rc) as Hf. pose proof (v_next _ _ _ _ Rc) as Hn.
  destruct (v_feed _ _ _ _ Rc) as (os & Ef & Ho). simpl in *. set (cb := core (conn b)) in *.
  assert (Ec : concat (u_chunk <$> take (Z.to_nat (rcv_next cb)) L) = (fed b).*2).
  { rewrite Hf. generalize (take (Z.to_nat (rcv_next cb)) L). intros l. induction l as [|u l IH]; [done|]. cbn. cbn in IH. by rewrite IH. }
  exists (u_chunk <$> take (Z.to_nat (rcv_next cb)) L), os. split_and!; try done.
  - unfold len in *. rewrite length_fmap, length_take. fold cb. lia.
  - intros w f Hw Hpf Hc Hlt. pose proof (q_sent _ _ _ (p_seqs _ _ I)) as Hs. apply Forall_app in Hs as [Hs _].
    rewrite Forall_forall in Hs. destruct (Hs w Hw) as (f' & -> & Wf & _ & _ & Hm).
    rewrite frame_parse_serialize in Hpf by done. injection Hpf as <-.
    destruct Hm as [[Hfl Hd]|Hm]; [unfold consumes_seq in Hc; by rewrite Hfl, Hd in Hc|].
    pose proof Hm as (Hk & u & Hu & _). rewrite list_lookup_fmap, lookup_take_lt by (fold cb in Hlt; lia). rewrite Hu. simpl.
    by rewrite (matches_chunk _ _ _ _ Hm Hu).
  - by rewrite Ho.
  - intros Ht. by rewrite Ho, (Htx Ht).
  - by rewrite Ec.
Qed.

(** C1: the Channel is ordered, without loss, duplication or reordering, over a
    network that does all three. In every reachable state the reassembler of a
    side is what [feed] makes of the payloads of the other side's frames with the
    numbers below [rcv_next], each given once and in the order of the numbers; the
    messages its application received are those this gives, and these payloads are
    an initial part of the chunks of the messages the other side submitted. *)
Theorem channel_in_order wa ra wb rb a b :
  is_u16 wa → is_u16 wb → rtc net_step (Peer_new wa ra, Peer_new wb rb) (a, b) → in_order a b ∧ in_order b a.
Proof.
  intros Ha Hb R. destruct (net_reach_inv _ _ (NetInv_init wa ra wb rb Ha Hb) R)
    as (LA & LB & Ia & Ib & Da & Db & _). simpl in *. eauto using in_order_inv.
Qed.

(** C11: the messages an endpoint has received are an initial part of the
    messages the other endpoint submitted, in order, as long as the chunks of
    each message reached the reassembler within its timeout of the first. *)
Theorem channel_exactly_once wa ra wb rb a b :
  is_u16 wa → is_u16 wb → rtc net_step (Peer_new wa ra, Peer_new wb rb) (a, b) →
  timely MAX_CHUNK_PAYLOAD DEFAULT_REASSEMBLY_TIMEOUT (submitted a) (fed b) →
  received b `prefix_of` (submitted a).*2.
Proof.
  intros Ha Hb R. destruct (net_reach_inv _ _ (NetInv_init wa ra wb rb Ha Hb) R)
    as (LA & LB & Ia & Ib & Da & Db & _). simpl in *. eauto using received_prefix.
Qed.

(** C24: no silent loss: a sequenced frame leaves the retransmission queue only
    when the peer has received everything up to it, and the unacknowledged
    frames are numbered consecutively up to [send_next]. *)
Theorem channel_no_silent_loss wa ra wb rb a b :
  is_u16 wa → is_u16 wb → rtc net_step (Peer_new wa ra, Peer_new wb rb) (a, b) →
  running (conn a) = true →
  let c := core (conn a) in
  (send_next c - len (unacked c) <= rcv_next (core (conn b)) <= send_next c)%Z
  ∧ ∀ i u, unacked c !! i = Some u → u_seq u = (send_next c - len (unacked c) + Z.of_nat i)%Z.
Proof.
  intros Ha Hb R Hrun c. destruct (net_reach_inv _ _ (NetInv_init wa ra wb rb Ha Hb) R)
    as (LA & LB & Ia & Ib & Da & Db & Aa & _). simpl in *.
  destruct Ia as [Q _ _ _ _ _]. fold c in Q. specialize (Aa Hrun). fold c in Aa.
  destruct Db as [(hist & Rc & _) _]. pose proof (v_next _ _ _ _ Rc) as Hv. simpl in Hv.
  pose proof (q_unacked_le _ _ _ Q). rewrite (q_next _ _ _ Q). unfold acked, len in *. split; [lia|].
  intros i u Hi. rewrite (q_unacked _ _ _ Q), lookup_drop in Hi. destruct (q_seqs _ _ _ Q _ _ Hi). lia.
Qed.

(** C25: retransmission makes progress. In any reachable state with both sides
    open, let the timer of one side fire before its retries are spent and the
    payloads it sends arrive in order. Then the other side has received everything
    sent so far and among the payloads it sends in turn is an acknowledgement
    of it. When that payload arrives, none of the frames that were to be
    acknowledged is left in the retransmission queue: what is there was sent in
    answer to it, and nothing is if nothing waited to be sent. *)
Theorem channel_retransmission_progress wa ra wb rb a b now now' :
  is_u16 wa → is_u16 wb → rtc net_step (Peer_new wa ra, Peer_new wb rb) (a, b) →
  running (conn a) = true → running (conn b) = true → open_state (core (conn b)) →
  (1 <= window (core (conn b)))%Z → (send_next (core (conn a)) < 2 ^ 63)%Z →
  unacked (core (conn a)) ≠ [] → (retries (core (conn a)) < MAX_RETRIES)%Z →
  let ca := on_timeout (core (conn a)) in
  ∃ cb, receive_all now (outbox ca) (core (conn b)) = Ret cb
    ∧ rcv_next cb = send_next (core (conn a))
    ∧ ∃ w f ca', w ∈ outbox cb ∧ frame_parse w = Some f ∧ on_frame now' f ca = Ret ca'
        ∧ Forall (λ u, send_next (core (conn a)) <= u_seq u)%Z (unacked ca')
        ∧ (send_queue (core (conn a)) = [] → closing (core (conn a)) = false → unacked ca' = []).
Proof.
  intros Ha Hb R Hra Hrb Hst Hwin Hsn Hun Hret cat.
  destruct (net_reach_inv _ _ (NetInv_init wa ra wb rb Ha Hb) R)
    as (LA & LB & Ia & Ib & Da & Db & Aa & _). simpl in *.
  destruct (p_run _ _ Ia Hra) as (Sd & Wa & _). destruct (p_run _ _ Ib Hrb) as (_ & Wb & Hdb).
  pose proof (s_seqs _ _ _ _ Sd) as Q. destruct (p_clean _ _ Ia) as [Hout _]. specialize (Aa Hra).
  destruct Db as [(hist & Rc & _) _]. set (ca := core (conn a)) in *. set (cb := core (conn b)) in *.
  assert (E : outbox cat = (λ u, frame_serialize (frame_of ca u)) <$> unacked ca).
  { unfold cat, on_timeout. rewrite decide_False by done. rewrite (proj2 (Z.leb_gt _ _)) by done.
    rewrite foldl_emit_outbox. simpl. by rewrite Hout. }
  assert (Sdt : Sender cat LA (sent a) (wires (submitted a)) ∧ send_queue cat = send_queue ca ∧ closing cat = closing ca).
  { split; [|by apply on_timeout_queue]. destruct (on_timeout_Sender _ _ _ _ Sd) as [Et|[? _]]; [|done].
    exfalso. change (outbox cat = (λ u, frame_serialize (frame_of ca u)) <$> unacked ca) in E. unfold cat in E.
    rewrite Et in E. simpl in E. rewrite Hout in E. by destruct (unacked ca). }
  destruct Sdt as (Sdt & <- & <-).
  pose proof (q_unacked_le _ _ _ Q). rewrite (q_next _ _ _ Q) in *.
  destruct (receive_log now ca (unacked ca) (acked ca LA) cb LA (fed b) hist) as (cb' & Er & Hr & Wb' & Hack).
  - apply Ia.
  - done.
  - apply Q.
  - apply Q.
  - intros i u Hi. rewrite (q_unacked _ _ _ Q), lookup_drop in Hi. split; [exact Hi|]. apply (q_seqs _ _ _ Q _ _ Hi).
  - done.
  - done.
  - done.
  - eapply Receiver_transfer; [exact Rc|done..|]. intros [Es|Es]; destruct Hst; simpl in *; congruence.
  - lia.
  - done.
  - exists cb'. assert (Hn : rcv_next cb' = len LA) by (unfold acked, len in *; lia).
    rewrite E, Er. split; [done|]. split; [done|]. destruct (Hack Hun) as (sn & Hs & Hin).
    destruct (on_frame_ack now' sn (rcv_next cb') (window cb') cat LA _ _ Sdt Hsn) as (ca' & E' & ?); [lia|apply Wb'|].
    do 3 eexists. split; [exact Hin|]. split; [|split; [exact E'|done]].
    apply frame_parse_serialize. unfold frame_wf. simpl. split_and!; try done; apply Wb'.
Qed.

(** ** Witnesses *)

(** A scripted execution: a side handles an event, or receives the [n]-th
    payload the other side sent. *)
Inductive script_step := Left (now : Z) (ev : ConnEvent) | Right (now : Z) (ev : ConnEvent)
| LeftGets (now : Z) (n : nat) | RightGets (now : Z) (n : nat).

Definition msg_okb (ev : ConnEvent) : bool :=
  match ev with
  | CmdSend fid d => bool_decide (Msg_ok MAX_CHUNK_PAYLOAD (fid, d))
  | FrameIn _ => false
  | _ => true
  end.

Definition exec_one (s : script_step) (ab : Peer * Peer) : option (Peer * Peer) :=
  let go (now : Z) (ev : ConnEvent) (p : Peer) :=
    if running (conn p) && (send_next (core (conn p)) <? 2 ^ 63)%Z then
      match peer_round now true ev p with Ret p' => Some p' | Panic => None end
    else None in
  let got (n : nat) (other : Peer) := f ← (sent other !! n) ≫= frame_parse; Some (FrameIn f) in
  match s with
  | Left now ev => if msg_okb ev then a ← go now ev ab.1; Some (a, ab.2) else None
  | Right now ev => if msg_okb ev then b ← go now ev ab.2; Some (ab.1, b) else None
  | LeftGets now n => ev ← got n ab.2; a ← go now ev ab.1; Some (a, ab.2)
  | RightGets now n => ev ← got n ab.1; b ← go now ev ab.2; Some (ab.1, b)
  end.

Fixpoint exec (ss : list script_step) (ab : Peer * Peer) : option (Peer * Peer) :=
  match ss with
  | [] => Some ab
  | s :: ss' => ab' ← exec_one s ab; exec ss' ab'
  end.

Lemma msg_okb_possible other ev : msg_okb ev = true → possible other ev.
Proof. destruct ev; simpl; try done. intros H. by bool_to_Prop. Qed.

Lemma exec_one_sound s ab ab' : exec_one s ab = Some ab' → net_step ab ab'.
Proof.
  destruct ab as [a b].
  assert (G : ∀ now ev other p p', possible other ev →
    (if running (conn p) && (send_next (core (conn p)) <? 2 ^ 63)%Z
     then match peer_round now true ev p with Ret p' => Some p' | Panic => None end
     else None) = Some p' → peer_step other p p').
  { intros now ev other p p' Hp E. destruct (_ && _) eqn:Hg; [|done]. bool_to_Prop.
    destruct (peer_round now true ev p) as [|p1] eqn:Er; [done|]. injection E as <-. by econstructor. }
  assert (R : ∀ n other ev, (f ← (sent other !! n) ≫= frame_parse; Some (FrameIn f)) = Some ev → possible other ev).
  { intros n other ev E. apply bind_Some in E as (f & (w & Hw & Hf)%bind_Some & [= <-]).
    exists w. split; [by eapply list_elem_of_lookup_2|done]. }
  unfold exec_one. destruct s as [now ev|now ev|now n|now n]; cbn [fst snd].
  - destruct (msg_okb ev) eqn:Hm; [|done]. intros (a' & Ea & [= <-])%bind_Some.
    constructor. eapply G; [|exact Ea]. by apply msg_okb_possible.
  - destruct (msg_okb ev) eqn:Hm; [|done]. intros (b' & Eb & [= <-])%bind_Some.
    constructor. eapply G; [|exact Eb]. by apply msg_okb_possible.
  - intros (ev & Eev%R & (a' & Ea & [= <-])%bind_Some)%bind_Some. constructor. by eapply G.
  - intros (ev & Eev%R & (b' & Eb & [= <-])%bind_Some)%bind_Some. constructor. by eapply G.
Qed.

Lemma exec_sound ss ab ab' : exec ss ab = Some ab' → rtc net_step ab ab'.
Proof.
  revert ab. induction ss as [|s ss IH]; intros ab; simpl.
  - intros [= <-]. apply rtc_refl.
  - intros (ab1 & E1%exec_one_sound & E2)%bind_Some. eapply rtc_l; eauto.
Qed.

Lemma u16_32 : is_u16 32.
Proof. by vm_compute. Qed.

Definition sample_start : Peer * Peer := (Peer_new 32 500, Peer_new 32 500).

(** The handshake, then two messages whose payloads arrive reordered, twice and
    once not at all. *)
Definition sample_script : list script_step :=
  [Left 0 CmdConnect; RightGets 10 0; LeftGets 20 0;
   Left 30 (CmdSend sample_fid sample_payload); Left 31 (CmdSend sample_fid [Byte.x42]);
   RightGets 40 3; RightGets 41 2; RightGets 42 2; RightGets 43 3].

Definition sample_lossy : list script_step :=
  [Left 0 CmdConnect; RightGets 10 0; LeftGets 20 0; Left 30 (CmdSend sample_fid sample_payload)].

Lemma channel_in_order_witness :
  ∃ a b, exec sample_script sample_start = Some (a, b) ∧ rcv_next (core (conn b)) = 3%Z ∧ length (fed b) = 2 ∧ in_order a b.
Proof.
  destruct (exec sample_script sample_start) as [[a b]|] eqn:E; [|by vm_compute in E].
  exists a, b. split; [done|].
  assert (T : rcv_next (core (conn b)) = 3%Z ∧ length (fed b) = 2) by (vm_compute in E; injection E as _ <-; by split).
  split; [apply T|]. split; [apply T|].
  apply exec_sound in E. exact (proj1 (channel_in_order 32 500 32 500 a b u16_32 u16_32 E)).
Defined.

Lemma channel_exactly_once_witness :
  ∃ a b, exec sample_script sample_start = Some (a, b) ∧ received b = [sample_payload; [Byte.x42]]
    ∧ received b `prefix_of` (submitted a).*2.
Proof.
  destruct (exec sample_script sample_start) as [[a b]|] eqn:E; [|by vm_compute in E].
  exists a, b. split; [done|].
  assert (T : received b = [sample_payload; [Byte.x42]]
    ∧ timely MAX_CHUNK_PAYLOAD DEFAULT_REASSEMBLY_TIMEOUT (submitted a) (fed b)).
  { vm_compute in E. injection E as <- <-. split; [reflexivity|]. vm_compute.
    repeat split; repeat constructor; done. }
  split; [apply T|]. apply exec_sound in E.
  exact (channel_exactly_once 32 500 32 500 a b u16_32 u16_32 E (proj2 T)).
Defined.

Lemma channel_no_silent_loss_witness :
  ∃ a b, exec sample_lossy sample_start = Some (a, b)
    ∧ len (unacked (core (conn a))) = 1%Z
    ∧ (send_next (core (conn a)) - 1 <= rcv_next (core (conn b)))%Z.
Proof.
  destruct (exec sample_lossy sample_start) as [[a b]|] eqn:E; [|by vm_compute in E].
  exists a, b. split; [done|].
  assert (T : len (unacked (core (conn a))) = 1%Z ∧ running (conn a) = true).
  { vm_compute in E. injection E as <- _. by split. }
  split; [apply T|]. apply exec_sound in E.
  destruct (channel_no_silent_loss 32 500 32 500 a b u16_32 u16_32 E (proj2 T)) as [H _].
  rewrite (proj1 T) in H. apply H.
Defined.

Lemma channel_retransmission_progress_witness :
  ∃ a b cb w f ca', exec sample_lossy sample_start = Some (a, b)
    ∧ receive_all 600 (outbox (on_timeout (core (conn a)))) (core (conn b)) = Ret cb
    ∧ w ∈ outbox cb ∧ frame_parse w = Some f ∧ on_frame 700 f (on_timeout (core (conn a))) = Ret ca' ∧ unacked ca' = [].
Proof.
  destruct (exec sample_lossy sample_start) as [[a b]|] eqn:E; [|by vm_compute in E].
  assert (T : running (conn a) = true ∧ running (conn b) = true ∧ open_state (core (conn b))
    ∧ (1 <= window (core (conn b)))%Z ∧ (send_next (core (conn a)) < 2 ^ 63)%Z
    ∧ unacked (core (conn a)) ≠ [] ∧ (retries (core (conn a)) < MAX_RETRIES)%Z
    ∧ send_queue (core (conn a)) = [] ∧ closing (core (conn a)) = false).
  { vm_compute in E. injection E as <- <-. split_and!; try done. by left. }
  destruct T as (T1 & T2 & T3 & T4 & T5 & T6 & T7 & T8 & T9). pose proof (exec_sound _ _ _ E) as R.
  pose proof (channel_retransmission_progress 32 500 32 500 a b 600 700 u16_32 u16_32 R T1 T2 T3 T4 T5 T6 T7) as P.
  destruct P as (cb & H1 & _ & w & f & ca' & H2 & H3 & H4 & _ & H5). exists a, b, cb, w, f, ca'.
  split_and!; [reflexivity|exact H1|exact H2|exact H3|exact H4|exact (H5 T8 T9)].
Defined.
