(* ===== verification/Board.v ===== *)
(** The Board: a replicated last-writer-wins map with digest-driven
    anti-entropy ([rust/telesthete/src/board.rs]). JSON values and their
    encoding belong to serde_json, which the class [Serde] stands for. *)

From S2P Require Import Prelude Crypto Fragment.

Definition TYPE_SET : Z := 0x01.
Definition TYPE_DIGEST : Z := 0x02.
Definition TYPE_SYNC_REQ : Z := 0x03.
Definition TYPE_SNAPSHOT : Z := 0x04.

(** * Timestamps *)

(** [(lamport, actor)], ordered as Rust orders tuples of [u64] and [&str]. *)
Abbreviation stamp := (Z * string)%type.

Definition stamp_le (a b : stamp) : Prop :=
  (a.1 < b.1)%Z ∨ a.1 = b.1 ∧ String.le a.2 b.2.

#[export] Instance stamp_le_dec : RelDecision stamp_le.
Proof. intros a b. unfold stamp_le. apply _. Defined.

#[export] Instance stamp_le_po : PartialOrder stamp_le.
Proof.
  split; [split|].
  - intros a. right. done.
  - intros a b c [H1|[E1 H1]] [H2|[E2 H2]]; [left; lia|left; lia|left; lia|].
    right. split; [congruence|]. by etrans.
  - intros [a1 a2] [b1 b2] [H1|[E1 H1]] [H2|[E2 H2]]; simpl in *; try lia. subst.
    f_equal. by apply (anti_symm String.le).
Qed.

#[export] Instance stamp_le_total : Total stamp_le.
Proof.
  intros a b. unfold stamp_le. destruct (Z.lt_trichotomy a.1 b.1) as [?|[E|?]]; auto.
  destruct (base.total String.le a.2 b.2); auto.
Qed.

(** * The core *)

Section Core.
Context {V : Type}.

Record SetPayload := mkSet {
  sp_key : string;
  sp_value : V;
  sp_ts : stamp;
  sp_deleted : bool;
}.

Record BoardEntry := mkEntry {
  e_value : V;
  e_lamport : Z;
  e_actor : string;
  e_deleted : bool;
}.

Definition entry_ts (e : BoardEntry) : stamp := (e_lamport e, e_actor e).

Definition to_payload (key : string) (e : BoardEntry) : SetPayload :=
  mkSet key (e_value e) (e_lamport e, e_actor e) (e_deleted e).

Record BoardCore := mkBoard {
  b_actor : string;
  b_entries : gmap string BoardEntry;
  b_lamport : Z;
}.

Definition BoardCore_new (actor : string) : BoardCore := mkBoard actor ∅ 0.

Definition board_entry (key : string) (b : BoardCore) : option BoardEntry := b_entries b !! key.

(** [lamport += 1] on a [u64] of a release build. *)
Definition board_set (key : string) (value : V) (b : BoardCore) : BoardCore * SetPayload :=
  let lamport := wrap 64 (b_lamport b + 1) in
  let entry := mkEntry value lamport (b_actor b) false in
  (mkBoard (b_actor b) (<[key := entry]> (b_entries b)) lamport, to_payload key entry).

Definition board_delete (null : V) (key : string) (b : BoardCore) : BoardCore * SetPayload :=
  let lamport := wrap 64 (b_lamport b + 1) in
  let entry := mkEntry null lamport (b_actor b) true in
  (mkBoard (b_actor b) (<[key := entry]> (b_entries b)) lamport, to_payload key entry).

Definition board_get (key : string) (b : BoardCore) : option V :=
  match b_entries b !! key with
  | Some e => if e_deleted e then None else Some (e_value e)
  | None => None
  end.

Definition board_items (b : BoardCore) : gmap string V :=
  omap (λ e, if e_deleted e then None else Some (e_value e)) (b_entries b).

Definition merge_entry (p : SetPayload) (b : BoardCore) : BoardCore * bool :=
  let b := mkBoard (b_actor b) (b_entries b) (Z.max (b_lamport b) (sp_ts p).1) in
  let stale := match b_entries b !! sp_key p with
               | Some cur => bool_decide (stamp_le (sp_ts p) (entry_ts cur))
               | None => false
               end in
  if stale then (b, false) else
  (mkBoard (b_actor b)
     (<[sp_key p := mkEntry (sp_value p) (sp_ts p).1 (sp_ts p).2 (sp_deleted p)]> (b_entries b))
     (b_lamport b), true).

(** A [BTreeMap] iterates in key order. *)
Definition key_le (x y : string * BoardEntry) : Prop := String.le x.1 y.1.

#[export] Instance key_le_dec : RelDecision key_le.
Proof. intros x y. unfold key_le. apply _. Defined.

Definition sorted_entries (b : BoardCore) : list (string * BoardEntry) :=
  merge_sort key_le (map_to_list (b_entries b)).

Definition snapshot (b : BoardCore) : list SetPayload :=
  (λ x, to_payload x.1 x.2) <$> sorted_entries b.

(** The bytes the digest hashes, and the digest. *)
Definition digest_bytes (b : BoardCore) : bytes :=
  sorted_entries b ≫= λ x,
    str_bytes x.1 ++ to_be_bytes 8 (e_lamport x.2) ++ str_bytes (e_actor x.2)
    ++ [if e_deleted x.2 then Byte.x01 else Byte.x00].

Definition digest {crates : Crates} (b : BoardCore) : Z * bytes :=
  (Z.of_nat (size (b_entries b)), to_hex (sha256 (digest_bytes b))).

(** The loop of the SNAPSHOT arm: the entries merged, in order, and those that
    changed something. *)
Fixpoint merge_all (ps : list SetPayload) (b : BoardCore) : BoardCore * list SetPayload :=
  match ps with
  | [] => (b, [])
  | p :: ps' =>
      let '(b, changed) := merge_entry p b in
      let '(b, cs) := merge_all ps' b in
      (b, if (changed : bool) then p :: cs else cs)
  end.
End Core.

Arguments SetPayload : clear implicits.
Arguments BoardEntry : clear implicits.
Arguments BoardCore : clear implicits.

(** * The endpoint and its task *)

(** What the code uses of serde_json: the envelope and the three payloads, to
    and from bytes and JSON values. Serializing these types does not fail. *)
Class Serde := {
  json : Type;
  json_null : json;
  json_empty : json;
  env_to_vec : Z → json → bytes;
  env_from_slice : bytes → option (Z * json);
  set_to_value : SetPayload json → json;
  set_from_value : json → option (SetPayload json);
  digest_to_value : option Z * option bytes → json;
  digest_from_value : json → option (option Z * option bytes);
  entries_to_value : list (SetPayload json) → json;
  entries_from_value : json → option (list (SetPayload json));
}.

(** A payload whose clock is a [u64]. *)
Definition payload_u64 {V} (p : SetPayload V) : Prop := is_u64 (sp_ts p).1.

(** Decoding what was encoded. [exact] holds of the values whose printed text
    reads back as the same value: serde_json prints every other value so, and a
    floating-point number to within one unit in the last place. An envelope is
    printed as a JSON object. *)
Class SerdeSpec {serde : Serde} := {
  exact : json → Prop;
  env_roundtrip t v : is_u8 t → exact v → env_from_slice (env_to_vec t v) = Some (t, v);
  env_object t v : head (env_to_vec t v) = Some Byte.x7b;
  set_roundtrip p : payload_u64 p → set_from_value (set_to_value p) = Some p;
  digest_roundtrip n h : is_u64 n → digest_from_value (digest_to_value (Some n, Some h)) = Some (Some n, Some h);
  entries_roundtrip l : Forall payload_u64 l → entries_from_value (entries_to_value l) = Some l;
}.
Arguments SerdeSpec serde : clear implicits.

Section Endpoint.
Context {crates : Crates} {serde : Serde}.

Record BoardChange := mkChange { ch_key : string; ch_value : json; ch_deleted : bool }.

Record BoardShared := mkShared { sh_core : BoardCore json; destinations : list string }.

Definition add_destination (peer : string) (s : BoardShared) : BoardShared :=
  if decide (peer ∈ destinations s) then s else mkShared (sh_core s) (destinations s ++ [peer]).

Definition remove_destination (peer : string) (s : BoardShared) : BoardShared :=
  mkShared (sh_core s) (filter (λ d, d ≠ peer) (destinations s)).

(** The payloads handed to the transport, each with its destination; [send_ok]
    tells whether a send succeeds, and the first failure ends the loop. *)
Fixpoint send_each (send_ok : string → bool) (dests : list string) (body : bytes)
    : list (string * bytes) * bool :=
  match dests with
  | [] => ([], true)
  | d :: dests' =>
      if send_ok d then let '(out, ok) := send_each send_ok dests' body in ((d, body) :: out, ok)
      else ([], false)
  end.

Definition broadcast_set (send_ok : string → bool) (p : SetPayload json) (dests : list string) :=
  send_each send_ok dests (env_to_vec TYPE_SET (set_to_value p)).

Definition endpoint_set (send_ok : string → bool) (key : string) (value : json) (s : BoardShared)
    : BoardShared * BoardChange * (list (string * bytes) * bool) :=
  let '(core, p) := board_set key value (sh_core s) in
  (mkShared core (destinations s), mkChange (sp_key p) (sp_value p) false,
   broadcast_set send_ok p (destinations s)).

Definition endpoint_delete (send_ok : string → bool) (key : string) (s : BoardShared)
    : BoardShared * BoardChange * (list (string * bytes) * bool) :=
  let '(core, p) := board_delete json_null key (sh_core s) in
  (mkShared core (destinations s), mkChange (sp_key p) json_null true,
   broadcast_set send_ok p (destinations s)).

Definition send_digest (send_ok : string → bool) (dest : option string) (s : BoardShared)
    : list (string * bytes) * bool :=
  let '(count, hash) := digest (sh_core s) in
  let body := env_to_vec TYPE_DIGEST (digest_to_value (Some count, Some hash)) in
  send_each send_ok (match dest with Some d => [d] | None => destinations s end) body.

(** The chunks of a SNAPSHOT; [fid] is the random id. *)
Definition snapshot_chunks (fid : bytes) (entries : list (SetPayload json)) : outcome (list bytes) :=
  fragment (env_to_vec TYPE_SNAPSHOT (entries_to_value entries)) MAX_CHUNK_PAYLOAD fid.

Record BoardTask := mkTask {
  t_shared : BoardShared;
  t_watermark : gmap string Z;
  t_reassemblers : gmap string Reassembler;
}.

Definition task_rebase (addr : string) (t : BoardTask) : BoardTask :=
  mkTask (t_shared t) (delete addr (t_watermark t)) (delete addr (t_reassemblers t)).

Definition set_core (core : BoardCore json) (t : BoardTask) : BoardTask :=
  mkTask (mkShared core (destinations (t_shared t))) (t_watermark t) (t_reassemblers t).

Definition change_of (p : SetPayload json) : BoardChange := mkChange (sp_key p) (sp_value p) (sp_deleted p).

(** The dispatch on a whole envelope: the new state, the payloads sent back to
    the peer, and the change events. *)
Definition board_dispatch (fid payload : bytes) (t : BoardTask)
    : outcome (BoardTask * list bytes * list BoardChange) :=
  let core := sh_core (t_shared t) in
  match env_from_slice payload with
  | None => Ret (t, [], [])
  | Some (ty, v) =>
      if (ty =? TYPE_SET)%Z then
        match set_from_value v with
        | None => Ret (t, [], [])
        | Some p =>
            let '(core, changed) := merge_entry p core in
            Ret (set_core core t, [], if (changed : bool) then [change_of p] else [])
        end
      else if (ty =? TYPE_DIGEST)%Z then
        match digest_from_value v with
        | None => Ret (t, [], [])
        | Some (count, hash) =>
            let '(n, h) := digest core in
            if decide (count ≠ Some n ∨ hash ≠ Some h)
            then Ret (t, [env_to_vec TYPE_SYNC_REQ json_empty], [])
            else Ret (t, [], [])
        end
      else if (ty =? TYPE_SYNC_REQ)%Z then
        chunks ← snapshot_chunks fid (snapshot core);
        Ret (t, chunks, [])
      else if (ty =? TYPE_SNAPSHOT)%Z then
        match entries_from_value v with
        | None => Ret (t, [], [])
        | Some entries =>
            let '(core, changed) := merge_all entries core in
            Ret (set_core core t, [], change_of <$> changed)
        end
      else Ret (t, [], [])
  end.

(** One inbound packet. *)
Definition board_packet (now : Z) (fid : bytes) (from : string) (sequence : Z) (payload : bytes)
    (t : BoardTask) : outcome (BoardTask * list bytes * list BoardChange) :=
  let stale := match t_watermark t !! from with Some wm => (sequence <=? wm)%Z | None => false end in
  if stale then Ret (t, [], []) else
  let t := mkTask (t_shared t) (<[from := sequence]> (t_watermark t)) (t_reassemblers t) in
  if decide (head payload = Some Byte.x01) then
    let r := default (for_chunk_size MAX_CHUNK_PAYLOAD) (t_reassemblers t !! from) in
    '(r, full) ← feed now payload r;
    let t := mkTask (t_shared t) (t_watermark t) (<[from := r]> (t_reassemblers t)) in
    match full with
    | Some full => board_dispatch fid full t
    | None => Ret (t, [], [])
    end
  else board_dispatch fid payload t.

(** Several packets of one peer, each with its arrival time and sequence. *)
Fixpoint board_packets (fid : bytes) (from : string) (evs : list (Z * Z * bytes)) (t : BoardTask)
    : outcome (BoardTask * list bytes * list BoardChange) :=
  match evs with
  | [] => Ret (t, [], [])
  | (now, sequence, payload) :: evs' =>
      '(t, out, ch) ← board_packet now fid from sequence payload t;
      '(t, out', ch') ← board_packets fid from evs' t;
      Ret (t, out ++ out', ch ++ ch')
  end.

(** The demultiplexer: boards opened on this side, by id. *)
Definition board_open (board_id : Z) (senders : gset Z) : gset Z := {[board_id]} ∪ senders.

Definition board_route (channel_id : Z) (senders : gset Z) : bool := bool_decide (channel_id ∈ senders).
End Endpoint.

(** ** Merge lemmas *)

Section Merge.
Context {V : Type}.
Implicit Types (b : BoardCore V) (p q : SetPayload V) (m : gmap string (BoardEntry V)).

Definition entry_of (p : SetPayload V) : BoardEntry V :=
  mkEntry (sp_value p) (sp_ts p).1 (sp_ts p).2 (sp_deleted p).

Lemma entry_of_ts p : entry_ts (entry_of p) = sp_ts p.
Proof. by destruct p as [? ? [? ?] ?]. Qed.

Lemma to_payload_entry k e : entry_of (to_payload k e) = e.
Proof. by destruct e. Qed.

(** [m] holds, for every key, the newest of the payloads [seen]. *)
Definition newest (m : gmap string (BoardEntry V)) (seen : list (SetPayload V)) : Prop :=
  ∀ k, match m !! k with
       | None => ∀ p, p ∈ seen → sp_key p ≠ k
       | Some e => ∃ p, p ∈ seen ∧ sp_key p = k ∧ e = entry_of p
                   ∧ ∀ q, q ∈ seen → sp_key q = k → stamp_le (sp_ts q) (sp_ts p)
       end.

(** A timestamp names one write of a key. *)
Definition consistent (ps : list (SetPayload V)) : Prop :=
  ∀ p q, p ∈ ps → q ∈ ps → sp_key p = sp_key q → sp_ts p = sp_ts q → p = q.

Lemma newest_unique m1 m2 s1 s2 :
  consistent s1 → (∀ p, p ∈ s1 ↔ p ∈ s2) → newest m1 s1 → newest m2 s2 → m1 = m2.
Proof.
  intros U Hs H1 H2. apply map_eq. intros k. specialize (H1 k). specialize (H2 k).
  destruct (m1 !! k) as [e1|], (m2 !! k) as [e2|]; [| | |done].
  - destruct H1 as (p1 & P1 & K1 & -> & M1), H2 as (p2 & P2 & K2 & -> & M2).
    do 2 f_equal. apply U; [done|by apply Hs|congruence|].
    apply (anti_symm stamp_le); [apply M2; [by apply Hs|done]|apply M1; [by apply Hs|done]].
  - destruct H1 as (p1 & P1 & K1 & _). exfalso. eapply H2; [apply Hs|]; eauto.
  - destruct H2 as (p2 & P2 & K2 & _). exfalso. eapply H1; [apply Hs|]; eauto.
Qed.

Lemma merge_entry_lamport p b : b_lamport (merge_entry p b).1 = Z.max (b_lamport b) (sp_ts p).1.
Proof. unfold merge_entry. simpl. by case_match. Qed.

Lemma merge_entry_actor p b : b_actor (merge_entry p b).1 = b_actor b.
Proof. unfold merge_entry. simpl. by case_match. Qed.

Lemma elem_of_snoc {A} (x y : A) l : x ∈ l ++ [y] ↔ x ∈ l ∨ x = y.
Proof. by rewrite elem_of_app, list_elem_of_singleton. Qed.

(** Recording a payload that is the newest for its key, or one that is not. *)
Lemma newest_insert p m seen :
  newest m seen → (∀ q, q ∈ seen → sp_key q = sp_key p → stamp_le (sp_ts q) (sp_ts p)) →
  newest (<[sp_key p := entry_of p]> m) (seen ++ [p]).
Proof.
  intros N Hp k. specialize (N k). destruct (decide (sp_key p = k)) as [<-|Hne].
  - rewrite lookup_insert_eq. exists p. split_and!; [set_solver|done..|].
    intros q [Hq| ->]%elem_of_snoc Kq; [auto|done].
  - rewrite lookup_insert_ne by done. destruct (m !! k) as [e|].
    + destruct N as (q & Hq & Kq & -> & Mq). exists q. split_and!; [set_solver|done..|].
      intros q' [Hq'| ->]%elem_of_snoc Kq'; [auto|congruence].
    + intros q [Hq| ->]%elem_of_snoc; auto.
Qed.

Lemma newest_stale p m seen cur :
  newest m seen → m !! sp_key p = Some cur → stamp_le (sp_ts p) (entry_ts cur) → newest m (seen ++ [p]).
Proof.
  intros N Ec Hle k. specialize (N k). destruct (m !! k) as [e|] eqn:Ek.
  - destruct N as (q & Hq & Kq & -> & Mq). exists q. split_and!; [set_solver|done..|].
    intros q' [Hq'| ->]%elem_of_snoc Kq'; [auto|]. rewrite Kq', Ek in Ec. simplify_eq.
    by rewrite entry_of_ts in Hle.
  - intros q [Hq| ->]%elem_of_snoc; [auto|congruence].
Qed.

Lemma newest_bound p m seen :
  newest m seen →
  match m !! sp_key p with Some cur => stamp_le (entry_ts cur) (sp_ts p) | None => True end →
  ∀ q, q ∈ seen → sp_key q = sp_key p → stamp_le (sp_ts q) (sp_ts p).
Proof.
  intros N Hc q Hq Kq. specialize (N (sp_key p)). destruct (m !! sp_key p) as [cur|].
  - destruct N as (q' & _ & _ & -> & Mq). rewrite entry_of_ts in Hc. etrans; [by apply Mq|done].
  - by apply N in Hq.
Qed.

Lemma merge_entry_cases p b :
  (∃ cur, b_entries b !! sp_key p = Some cur ∧ stamp_le (sp_ts p) (entry_ts cur)
     ∧ b_entries (merge_entry p b).1 = b_entries b ∧ (merge_entry p b).2 = false)
  ∨ (match b_entries b !! sp_key p with Some cur => ¬ stamp_le (sp_ts p) (entry_ts cur) | None => True end
     ∧ b_entries (merge_entry p b).1 = <[sp_key p := entry_of p]> (b_entries b)
     ∧ (merge_entry p b).2 = true).
Proof.
  unfold merge_entry. simpl. destruct (b_entries b !! sp_key p) as [cur|]; [|by right].
  case_bool_decide; [left; by exists cur|by right].
Qed.

Lemma stamp_not_le (a b : stamp) : ¬ stamp_le a b → stamp_le b a.
Proof. intros H. by destruct (base.total stamp_le a b). Qed.

Lemma merge_entry_newest p b seen :
  newest (b_entries b) seen → newest (b_entries (merge_entry p b).1) (seen ++ [p]).
Proof.
  intros N. destruct (merge_entry_cases p b) as [(cur & Ec & Hle & -> & _)|(Hc & -> & _)].
  - by eapply newest_stale.
  - apply newest_insert; [done|]. apply (newest_bound p _ _ N).
    destruct (b_entries b !! sp_key p); [|done]. by apply stamp_not_le.
Qed.

Lemma merge_all_newest ps b seen :
  newest (b_entries b) seen → newest (b_entries (merge_all ps b).1) (seen ++ ps).
Proof.
  revert b seen. induction ps as [|p ps IH]; intros b seen N; simpl; [by rewrite app_nil_r|].
  pose proof (merge_entry_newest p b seen N) as N1. destruct (merge_entry p b) as [b1 ch].
  specialize (IH b1 _ N1). rewrite <- app_assoc in IH. by destruct (merge_all ps b1) as [b2 cs].
Qed.

Lemma elem_of_snapshot b p : p ∈ snapshot b ↔ ∃ k e, b_entries b !! k = Some e ∧ p = to_payload k e.
Proof.
  unfold snapshot, sorted_entries. rewrite list_elem_of_fmap. setoid_rewrite merge_sort_Permutation. split.
  - intros ([k e] & -> & Hin%elem_of_map_to_list). eauto.
  - intros (k & e & Hk & ->). exists (k, e). by rewrite elem_of_map_to_list.
Qed.

(** A board holds the newest of its own snapshot. *)
Lemma newest_snapshot b : newest (b_entries b) (snapshot b).
Proof.
  intros k. destruct (b_entries b !! k) as [e|] eqn:Ek.
  - exists (to_payload k e). split_and!; [apply elem_of_snapshot; eauto|done|by rewrite to_payload_entry|].
    intros q (k' & e' & Hk' & ->)%elem_of_snapshot. simpl. intros ->. by simplify_eq.
  - intros q (k' & e' & Hk' & ->)%elem_of_snapshot. simpl. congruence.
Qed.

Lemma merge_entry_seen p b :
  (∃ e, b_entries b !! sp_key p = Some e ∧ stamp_le (sp_ts p) (entry_ts e)) → (merge_entry p b).2 = false.
Proof.
  intros (e & He & Hle). destruct (merge_entry_cases p b) as [(? & _ & _ & _ & ->)|(Hc & _)]; [done|].
  by rewrite He in Hc.
Qed.

(** Merging never moves an entry back. *)
Lemma merge_entry_mono p b k e :
  b_entries b !! k = Some e → ∃ e', b_entries (merge_entry p b).1 !! k = Some e' ∧ stamp_le (entry_ts e) (entry_ts e').
Proof.
  intros Hk. destruct (merge_entry_cases p b) as [(cur & Ec & Hle & -> & _)|(Hc & -> & _)]; [by exists e|].
  destruct (decide (sp_key p = k)) as [<-|Hne].
  - rewrite Hk in Hc. exists (entry_of p). rewrite lookup_insert_eq, entry_of_ts. split; [done|].
    by apply stamp_not_le.
  - exists e. by rewrite lookup_insert_ne.
Qed.

Lemma merge_entry_has p b :
  ∃ e, b_entries (merge_entry p b).1 !! sp_key p = Some e ∧ stamp_le (sp_ts p) (entry_ts e).
Proof.
  destruct (merge_entry_cases p b) as [(cur & Ec & Hle & -> & _)|(Hc & -> & _)]; [eauto|].
  exists (entry_of p). by rewrite lookup_insert_eq, entry_of_ts.
Qed.

Lemma merge_all_mono ps b k e :
  b_entries b !! k = Some e → ∃ e', b_entries (merge_all ps b).1 !! k = Some e' ∧ stamp_le (entry_ts e) (entry_ts e').
Proof.
  revert b e. induction ps as [|p ps IH]; intros b e Hk; simpl; [by exists e|].
  destruct (merge_entry_mono p b k e Hk) as (e1 & Hk1 & Hle1). destruct (merge_entry p b) as [b1 ch].
  destruct (IH b1 e1 Hk1) as (e2 & Hk2 & Hle2). destruct (merge_all ps b1) as [b2 cs].
  exists e2. split; [done|]. by etrans.
Qed.

Lemma merge_all_has ps b p :
  p ∈ ps → ∃ e, b_entries (merge_all ps b).1 !! sp_key p = Some e ∧ stamp_le (sp_ts p) (entry_ts e).
Proof.
  revert b. induction ps as [|p' ps IH]; intros b Hp; [by apply not_elem_of_nil in Hp|].
  simpl. pose proof (merge_entry_has p' b) as (e0 & H0 & Hle0). destruct (merge_entry p' b) as [b1 ch] eqn:E1.
  apply elem_of_cons in Hp as [->|Hp].
  - destruct (merge_all_mono ps b1 _ _ H0) as (e2 & H2 & Hle2). destruct (merge_all ps b1) as [b2 cs].
    exists e2. split; [done|]. by etrans.
  - specialize (IH b1 Hp). by destruct (merge_all ps b1) as [b2 cs].
Qed.

Lemma merge_all_quiet ps b :
  (∀ p, p ∈ ps → ∃ e, b_entries b !! sp_key p = Some e ∧ stamp_le (sp_ts p) (entry_ts e)) →
  b_entries (merge_all ps b).1 = b_entries b ∧ (merge_all ps b).2 = [].
Proof.
  revert b. induction ps as [|p ps IH]; intros b Hps; simpl; [done|].
  pose proof (Hps p ltac:(set_solver)) as (e & He & Hle).
  assert (H1 : b_entries (merge_entry p b).1 = b_entries b ∧ (merge_entry p b).2 = false).
  { destruct (merge_entry_cases p b) as [(? & _ & _ & ? & ?)|(Hc & _)]; [done|]. by rewrite He in Hc. }
  destruct (merge_entry p b) as [b1 ch]. simpl in H1. destruct H1 as [E1 ->].
  destruct (IH b1) as [E2 E3]; [intros q Hq; rewrite E1; apply Hps; set_solver|].
  destruct (merge_all ps b1) as [b2 cs]. simpl in *. by rewrite E2, E1.
Qed.
End Merge.

(** * Replicas *)

(** The replicas of a band, each with the payloads it has seen (its own writes
    and what it merged), and every payload written so far. A replica writes
    while its clock is below the largest [u64]. *)
Record Replica (V : Type) := mkReplica { r_core : BoardCore V; r_seen : list (SetPayload V) }.
Arguments mkReplica {V}.
Arguments r_core {V}.
Arguments r_seen {V}.

Record Replicas (V : Type) := mkReplicas {
  replicas : gmap string (Replica V);
  history : list (SetPayload V);
}.
Arguments mkReplicas {V}.
Arguments replicas {V}.
Arguments history {V}.

Section System.
Context {V : Type} (null : V).

Inductive board_step : Replicas V → Replicas V → Prop :=
| step_set a r s key value :
    replicas s !! a = Some r → (b_lamport (r_core r) < u64_max)%Z →
    board_step s
      (let '(core, p) := board_set key value (r_core r) in
       mkReplicas (<[a := mkReplica core (r_seen r ++ [p])]> (replicas s)) (history s ++ [p]))
| step_delete a r s key :
    replicas s !! a = Some r → (b_lamport (r_core r) < u64_max)%Z →
    board_step s
      (let '(core, p) := board_delete null key (r_core r) in
       mkReplicas (<[a := mkReplica core (r_seen r ++ [p])]> (replicas s)) (history s ++ [p]))
| step_merge a r s p :
    replicas s !! a = Some r → p ∈ history s →
    board_step s
      (mkReplicas (<[a := mkReplica (merge_entry p (r_core r)).1 (r_seen r ++ [p])]> (replicas s)) (history s)).

Definition replicas_new (actors : gset string) : Replicas V :=
  mkReplicas (set_to_map (λ a, (a, mkReplica (BoardCore_new a) [])) actors) [].

Record ReplicasInv (s : Replicas V) : Prop := {
  ri_actor : ∀ a r, replicas s !! a = Some r → b_actor (r_core r) = a;
  ri_clock : ∀ a r, replicas s !! a = Some r → (0 <= b_lamport (r_core r) <= u64_max)%Z;
  ri_seen : ∀ a r p, replicas s !! a = Some r → p ∈ r_seen r → p ∈ history s ∧ ((sp_ts p).1 <= b_lamport (r_core r))%Z;
  ri_newest : ∀ a r, replicas s !! a = Some r → newest (b_entries (r_core r)) (r_seen r);
  ri_origin : ∀ p, p ∈ history s → ∃ r, replicas s !! (sp_ts p).2 = Some r ∧ ((sp_ts p).1 <= b_lamport (r_core r))%Z
                ∧ (0 <= (sp_ts p).1)%Z;
  ri_unique : ∀ p q, p ∈ history s → q ∈ history s → sp_ts p = sp_ts q → p = q;
}.

(** A write of replica [a] stamped one past its clock. *)
Lemma write_inv a r s p core :
  ReplicasInv s → replicas s !! a = Some r → (b_lamport (r_core r) < u64_max)%Z →
  sp_ts p = (b_lamport (r_core r) + 1, a)%Z → b_actor core = a → b_lamport core = (b_lamport (r_core r) + 1)%Z →
  b_entries core = <[sp_key p := entry_of p]> (b_entries (r_core r)) →
  ReplicasInv (mkReplicas (<[a := mkReplica core (r_seen r ++ [p])]> (replicas s)) (history s ++ [p])).
Proof.
  intros [I1 I2 I3 I4 I5 I6] Ha Hlt Hts Hact Hl He. pose proof (I2 _ _ Ha) as Hc.
  split; simpl.
  - intros a' r' [[<- <-]|[_ H']]%lookup_insert_Some; [done|eauto].
  - intros a' r' [[<- <-]|[_ H']]%lookup_insert_Some; [simpl; lia|eauto].
  - intros a' r' q [[<- <-]|[_ H']]%lookup_insert_Some Hq; simpl in *.
    + apply elem_of_snoc in Hq as [Hq| ->]; [destruct (I3 _ _ _ Ha Hq); split; [set_solver|lia]|].
      split; [set_solver|]. rewrite Hts. simpl. lia.
    + destruct (I3 _ _ _ H' Hq). split; [set_solver|done].
  - intros a' r' [[<- <-]|[_ H']]%lookup_insert_Some; [|eauto]. simpl. rewrite He.
    apply newest_insert; [eauto|]. intros q Hq _. left. destruct (I3 _ _ _ Ha Hq). rewrite Hts. simpl. lia.
  - intros q [Hq| ->]%elem_of_snoc.
    + destruct (I5 _ Hq) as (r' & Hr' & Hle & H0). destruct (decide ((sp_ts q).2 = a)) as [E|Hne].
      * rewrite E in *. simplify_eq. eexists. rewrite lookup_insert_eq. split_and!; [done| |done]. simpl. lia.
      * exists r'. by rewrite lookup_insert_ne.
    + rewrite Hts. simpl. eexists. rewrite lookup_insert_eq. split_and!; [done|simpl; lia|lia].
  - assert (Hfresh : ∀ q, q ∈ history s → sp_ts q ≠ sp_ts p).
    { intros q Hq E. destruct (I5 _ Hq) as (r' & Hr' & Hle & _). rewrite E, Hts in *. simpl in *.
      simplify_eq. lia. }
    intros q1 q2 [H1| ->]%elem_of_snoc [H2| ->]%elem_of_snoc E; auto.
    + by apply Hfresh in H1.
    + symmetry in E. by apply Hfresh in H2.
Qed.

Lemma board_step_inv s s' : ReplicasInv s → board_step s s' → ReplicasInv s'.
Proof.
  intros I Hs. destruct Hs as [a r s key value Ha Hlt|a r s key Ha Hlt|a r s p Ha Hp].
  - pose proof (ri_clock _ I _ _ Ha). pose proof (ri_actor _ I _ _ Ha).
    assert (Hw : wrap 64 (b_lamport (r_core r) + 1) = (b_lamport (r_core r) + 1)%Z)
      by (unfold wrap, u64_max in *; rewrite Z.mod_small; lia).
    unfold board_set. cbv zeta. rewrite Hw. apply write_inv; try done. simpl. by f_equal.
  - pose proof (ri_clock _ I _ _ Ha). pose proof (ri_actor _ I _ _ Ha).
    assert (Hw : wrap 64 (b_lamport (r_core r) + 1) = (b_lamport (r_core r) + 1)%Z)
      by (unfold wrap, u64_max in *; rewrite Z.mod_small; lia).
    unfold board_delete. cbv zeta. rewrite Hw. apply write_inv; try done. simpl. by f_equal.
  - destruct I as [I1 I2 I3 I4 I5 I6]. destruct (I5 _ Hp) as (rp & Hrp & Hlp & H0p). pose proof (I2 _ _ Hrp).
    split; simpl.
    + intros a' r' [[<- <-]|[_ H']]%lookup_insert_Some; [simpl; rewrite merge_entry_actor|]; eauto.
    + intros a' r' [[<- <-]|[_ H']]%lookup_insert_Some; [|eauto]. simpl. rewrite merge_entry_lamport.
      specialize (I2 _ _ Ha). lia.
    + intros a' r' q [[<- <-]|[_ H']]%lookup_insert_Some Hq; [|eauto]. simpl in *. rewrite merge_entry_lamport.
      apply elem_of_snoc in Hq as [Hq| ->]; [destruct (I3 _ _ _ Ha Hq)|]; split; try done; lia.
    + intros a' r' [[<- <-]|[_ H']]%lookup_insert_Some; [|eauto]. simpl. apply merge_entry_newest. eauto.
    + intros q Hq. destruct (I5 _ Hq) as (r' & Hr' & Hle & H0). destruct (decide ((sp_ts q).2 = a)) as [E|Hne].
      * rewrite E in *. simplify_eq. eexists. rewrite lookup_insert_eq. split_and!; [done| |done].
        simpl. rewrite merge_entry_lamport. lia.
      * exists r'. by rewrite lookup_insert_ne.
    + done.
Qed.

Lemma replicas_new_inv actors : ReplicasInv (replicas_new actors).
Proof.
  assert (Hl : ∀ a r, replicas (replicas_new actors) !! a = Some r → r = mkReplica (BoardCore_new a) []).
  { intros a r. simpl. intros (x & _ & [= -> <-])%lookup_set_to_map; [done|]. by intros ?? _ _ [=]. }
  split.
  - by intros a r ->%Hl.
  - by intros a r ->%Hl.
  - by intros a r p ->%Hl ?%not_elem_of_nil.
  - intros a r ->%Hl k. simpl. rewrite lookup_empty. by intros p ?%not_elem_of_nil.
  - by intros p ?%not_elem_of_nil.
  - by intros p q ?%not_elem_of_nil.
Qed.

Lemma replicas_reach_inv actors s : rtc board_step (replicas_new actors) s → ReplicasInv s.
Proof.
  intros R. pose proof (replicas_new_inv actors) as I. induction R; eauto using board_step_inv.
Qed.
End System.

(** * Anti-entropy through the task *)

Section Sync.
Context {crates : Crates} {serde : Serde} {spec : SerdeSpec serde}.

Lemma wires_head cs payload fid ws w :
  (0 < cs)%Z → fragment payload cs fid = Ret ws → w ∈ ws → head w = Some Byte.x01.
Proof.
  intros Hcs E Hw. rewrite fragment_eq in E by done. case_match; [done|]. injection E as <-.
  unfold wires_of in Hw. by apply elem_of_lookup_imap in Hw as (i & d & -> & _).
Qed.

(** Sequences are accepted from [wm] on when they increase strictly. *)
Fixpoint increasing (wm : option Z) (evs : list (Z * Z * bytes)) : Prop :=
  match evs with
  | [] => True
  | e :: evs' => match wm with Some w => (w < e.1.2)%Z | None => True end ∧ increasing (Some e.1.2) evs'
  end.

(** Chunks that complete nothing leave the core alone, and the last one has its
    envelope dispatched. *)
Lemma board_packets_feed fid from evs t n full r' :
  let r := default (for_chunk_size MAX_CHUNK_PAYLOAD) (t_reassemblers t !! from) in
  Forall (λ e, head e.2 = Some Byte.x01) evs → increasing (t_watermark t !! from) evs →
  feed_all r ((λ e, (e.1.1, e.2)) <$> evs) = Ret (r', replicate n None ++ [Some full]) →
  ∃ t', t_shared t' = t_shared t ∧ board_packets fid from evs t =
        ('(t, out, ch) ← board_dispatch fid full t'; Ret (t, out, ch)).
Proof.
  revert t n. induction evs as [|[[now sq] w] evs IH]; intros t n; cbn zeta.
  { intros _ _ [= _ E]. by destruct n. }
  intros [Hh Hhs]%Forall_cons [Hw Hinc] E. cbn [fmap list_fmap fst snd feed_all board_packets] in *.
  destruct (feed now w _) as [|[r1 o]] eqn:Ef; simpl in E; [discriminate E|].
  destruct (feed_all r1 _) as [|[r2 os]] eqn:Ea; simpl in E; [discriminate E|]. injection E as -> E.
  unfold board_packet. simpl fst in *. simpl snd in *.
  replace (match t_watermark t !! from with Some wm => (sq <=? wm)%Z | None => false end) with false
    by (destruct (t_watermark t !! from); [symmetry; apply Z.leb_gt; lia|done]).
  rewrite (decide_True _ _ Hh). cbn [t_reassemblers t_watermark t_shared]. rewrite Ef. simpl.
  destruct n as [|n]; simpl in E; injection E as -> Eos.
  - assert (evs = []) as ->.
    { destruct evs as [|[[]] evs]; [done|]. simpl in Ea. destruct (feed _ _ r1) as [|[? ?]]; [done|].
      simpl in Ea. destruct (feed_all _ _) as [|[? ?]]; [done|]. simpl in Ea. by simplify_eq. }
    set (t1 := mkTask _ _ _). exists t1. split; [done|]. simpl.
    destruct (board_dispatch fid full t1) as [|[[t2 out] ch]]; [done|]. simpl. by rewrite !app_nil_r.
  - edestruct (IH (mkTask (t_shared t) (<[from:=sq]> (t_watermark t)) (<[from:=r1]> (t_reassemblers t))) n)
      as (t' & Hsh & Ht'); [done|simpl; by rewrite lookup_insert_eq|
      simpl; rewrite lookup_insert_eq; simpl; rewrite Ea; by rewrite <- Eos|].
    exists t'. split; [done|]. cbn [mbind outcome_bind]. rewrite Ht'.
    by destruct (board_dispatch fid full t') as [|[[t2 out] ch]].
Qed.

Lemma board_packets_snapshot (entries : list (SetPayload json)) fid ws evs from t before os t0 :
  let msg := env_to_vec TYPE_SNAPSHOT (entries_to_value entries) in
  let r := default (for_chunk_size MAX_CHUNK_PAYLOAD) (t_reassemblers t !! from) in
  let core := sh_core (t_shared t) in
  Forall payload_u64 entries → exact (entries_to_value entries) → (len msg <= u64_max)%Z →
  length fid = FRAGMENT_ID_LEN → snapshot_chunks fid entries = Ret ws →
  feed_all (for_chunk_size MAX_CHUNK_PAYLOAD) before = Ret (r, os) →
  buffers r !! fid = None → evicted r !! fid = None →
  evs.*2 ≡ₚ ws → increasing (t_watermark t !! from) evs →
  head ((λ e, e.1.1) <$> evs) = Some t0 →
  Forall (λ e, (e.1.1 - t0 <= DEFAULT_REASSEMBLY_TIMEOUT)%Z) evs →
  ∃ t', board_packets fid from evs t = Ret (t', [], change_of <$> (merge_all entries core).2)
      ∧ sh_core (t_shared t') = (merge_all entries core).1
      ∧ destinations (t_shared t') = destinations (t_shared t).
Proof.
  cbn zeta. intros Hu Hex Hlen Hfid Hws Hbef Hb He Hperm Hinc Hhd Hage.
  edestruct (reassemble_emitted MAX_CHUNK_PAYLOAD _ fid ws before _ os
    ((λ e, (e.1.1, e.2)) <$> evs) t0 ltac:(done) Hlen Hfid Hws Hbef Hb He) as (r' & Hall).
  - by rewrite <- list_fmap_compose.
  - by rewrite <- list_fmap_compose.
  - by apply Forall_fmap.
  - eapply board_packets_feed in Hall as (t' & Hsh & ->); [|..|done].
    + unfold board_dispatch. rewrite env_roundtrip by done.
      change (TYPE_SNAPSHOT =? TYPE_SET)%Z with false. change (TYPE_SNAPSHOT =? TYPE_DIGEST)%Z with false.
      change (TYPE_SNAPSHOT =? TYPE_SYNC_REQ)%Z with false. change (TYPE_SNAPSHOT =? TYPE_SNAPSHOT)%Z with true.
      cbv iota. rewrite entries_roundtrip by done. rewrite Hsh.
      destruct (merge_all entries _) as [core' cs]. eexists. split_and!; [done|done|]. simpl. by rewrite Hsh.
    + apply Forall_forall. intros e He'. eapply (wires_head MAX_CHUNK_PAYLOAD); [done|exact Hws|].
      rewrite <- Hperm. by apply list_elem_of_fmap_2.
Qed.
End Sync.

(** ** Properties *)

(** C3: strong eventual consistency. However writes, deletes and merges of the
    replicas interleave, every board holds for each key the newest write it
    has seen, and two boards that have seen the same writes hold the same
    entries, answer every read alike and have the same digest. *)
Theorem board_convergence {V} (null : V) actors s a1 r1 a2 r2 :
  rtc (board_step null) (replicas_new actors) s →
  replicas s !! a1 = Some r1 → replicas s !! a2 = Some r2 →
  newest (b_entries (r_core r1)) (r_seen r1) ∧
  ((∀ p, p ∈ r_seen r1 ↔ p ∈ r_seen r2) →
   b_entries (r_core r1) = b_entries (r_core r2)
   ∧ (∀ key, board_get key (r_core r1) = board_get key (r_core r2))
   ∧ (∀ crates : Crates, digest (r_core r1) = digest (r_core r2))).
Proof.
  intros R H1 H2. apply replicas_reach_inv in R. split; [by eapply ri_newest|]. intros Hs.
  assert (E : b_entries (r_core r1) = b_entries (r_core r2)).
  { refine (newest_unique _ _ _ _ _ Hs (ri_newest _ R _ _ H1) (ri_newest _ R _ _ H2)).
    intros p q Hp Hq _ Ets. apply (ri_unique _ R); [by apply (ri_seen _ R _ _ _ H1)..|done]. }
  split_and!; [done|intros key; unfold board_get; by rewrite E|].
  intros crates. unfold digest, digest_bytes, sorted_entries. by rewrite E.
Qed.

(** C26: anti-entropy terminates. When two boards whose timestamps name single
    writes merge each other's snapshots they hold the same entries, no entry
    has moved back, and merging again changes nothing. *)
Theorem snapshot_exchange_converges {V} (a b : BoardCore V) :
  consistent (snapshot a ++ snapshot b) →
  let a' := (merge_all (snapshot b) a).1 in
  let b' := (merge_all (snapshot a) b).1 in
  b_entries a' = b_entries b'
  ∧ (∀ k e, b_entries a !! k = Some e →
       ∃ e', b_entries a' !! k = Some e' ∧ stamp_le (entry_ts e) (entry_ts e'))
  ∧ (merge_all (snapshot b') a').2 = [].
Proof.
  intros C a' b'. assert (E : b_entries a' = b_entries b').
  { apply (newest_unique _ _ _ (snapshot b ++ snapshot a) C);
      [intros p; rewrite !elem_of_app; tauto|apply merge_all_newest, newest_snapshot..]. }
  split_and!; [done|intros k e; apply merge_all_mono|].
  apply merge_all_quiet. intros p (k & e & He & ->)%elem_of_snapshot. exists e. by rewrite E.
Qed.

(** A snapshot answer transfers the board. The chunks [send_snapshot_to]
    emits, arriving in any order under increasing sequences within the
    reassembly timeout, leave the receiving board with exactly the merge of the
    sent entries, report exactly the changes of that merge, and send nothing
    back. *)
Theorem snapshot_transfer {crates : Crates} {serde : Serde} {spec : SerdeSpec serde}
    (entries : list (SetPayload json)) fid ws evs from t before os t0 :
  let msg := env_to_vec TYPE_SNAPSHOT (entries_to_value entries) in
  let r := default (for_chunk_size MAX_CHUNK_PAYLOAD) (t_reassemblers t !! from) in
  let core := sh_core (t_shared t) in
  Forall payload_u64 entries → exact (entries_to_value entries) → (len msg <= u64_max)%Z →
  length fid = FRAGMENT_ID_LEN → snapshot_chunks fid entries = Ret ws →
  feed_all (for_chunk_size MAX_CHUNK_PAYLOAD) before = Ret (r, os) →
  buffers r !! fid = None → evicted r !! fid = None →
  evs.*2 ≡ₚ ws → increasing (t_watermark t !! from) evs →
  head ((λ e, e.1.1) <$> evs) = Some t0 →
  Forall (λ e, (e.1.1 - t0 <= DEFAULT_REASSEMBLY_TIMEOUT)%Z) evs →
  ∃ t', board_packets fid from evs t = Ret (t', [], change_of <$> (merge_all entries core).2)
      ∧ sh_core (t_shared t') = (merge_all entries core).1
      ∧ destinations (t_shared t') = destinations (t_shared t).
Proof. apply board_packets_snapshot. Qed.

(** The anti-entropy probe. A DIGEST is answered with a SYNC_REQ exactly
    when the digests differ, so boards with equal entries stay silent. *)
Theorem digest_probe {crates : Crates} {serde : Serde} {spec : SerdeSpec serde} fid (t : BoardTask) (b : BoardCore json) :
  let core := sh_core (t_shared t) in
  is_u64 (digest b).1 → exact (digest_to_value (Some (digest b).1, Some (digest b).2)) →
  board_dispatch fid (env_to_vec TYPE_DIGEST (digest_to_value (Some (digest b).1, Some (digest b).2))) t
  = Ret (t, (if decide (digest core = digest b) then [] else [env_to_vec TYPE_SYNC_REQ json_empty]), []).
Proof.
  cbn zeta. intros Hu Hex. unfold board_dispatch. rewrite env_roundtrip by done.
  change (TYPE_DIGEST =? TYPE_SET)%Z with false. change (TYPE_DIGEST =? TYPE_DIGEST)%Z with true.
  cbv iota. rewrite digest_roundtrip by done.
  destruct (digest (sh_core (t_shared t))) as [n h], (digest b) as [n' h']. simpl in *.
  destruct (decide ((n, h) = (n', h'))) as [[= -> ->]|Hne].
  - rewrite decide_False; [done|]. by intros [?|?].
  - rewrite decide_True; [done|]. destruct (decide (n = n')) as [->|?]; [right|left]; congruence.
Qed.

(** A payload stamped with the largest [u64] clock disables a key. A board
    that merges it stamps its next write of the key 0, and every board that
    holds the payload's stamp or a later one refuses that write. *)
Theorem largest_clock_blocks_writes {V} (p : SetPayload V) (b c : BoardCore V) (value : V) :
  (sp_ts p).1 = u64_max → (b_lamport b <= u64_max)%Z →
  let '(b', w) := board_set (sp_key p) value (merge_entry p b).1 in
  sp_ts w = (0%Z, b_actor b) ∧ board_get (sp_key p) b' = Some value
  ∧ (merge_entry w (merge_entry p c).1).2 = false.
Proof.
  intros Hp Hb. unfold board_set. rewrite merge_entry_lamport, merge_entry_actor, Hp, Z.max_r by done.
  change (wrap 64 (u64_max + 1)) with 0%Z. simpl. split_and!; [done| |].
  - unfold board_get. simpl. by rewrite lookup_insert_eq.
  - apply merge_entry_seen. simpl. destruct (merge_entry_has p c) as (e & He & Hle). exists e.
    split; [done|]. etrans; [|exact Hle]. left. simpl. rewrite Hp. done.
Qed.

(** The digest does not determine the versions it covers. Its fields are
    concatenated without lengths, so two boards with different entries can
    have the same digest whatever the hash, and neither asks the other for a
    snapshot. *)
Theorem digest_ambiguous :
  ∃ a b : BoardCore Z, b_entries a ≠ b_entries b ∧ ∀ crates : Crates, digest a = digest b.
Proof.
  exists (mkBoard "bb" {["a" := mkEntry 1%Z 0x6262626262626262 "bb" false]} 0x6262626262626262),
    (mkBoard "b" {["ab" := mkEntry 2%Z 0x6262626262626262 "b" false]} 0x6262626262626262).
  split; [by vm_compute|]. intros crates. unfold digest. do 2 f_equal; by vm_compute.
Qed.

(** ** A concrete encoding

    The laws of [SerdeSpec] can hold: values as positive numbers, and an
    envelope as the bits of one between a brace and the end. *)

#[local] Instance set_payload_eq_dec {V} `{EqDecision V} : EqDecision (SetPayload V).
Proof. solve_decision. Defined.

#[local] Instance sample_set_countable {V} `{Countable V} : Countable (SetPayload V).
Proof.
  refine (inj_countable' (λ p, (sp_key p, sp_value p, sp_ts p, sp_deleted p))
            (λ x, mkSet x.1.1.1 x.1.1.2 x.1.2 x.2) _).
  by intros [].
Defined.

Definition sample_serde : Serde := {|
  json := positive;
  json_null := 1%positive;
  json_empty := 2%positive;
  env_to_vec t v := Byte.x7b :: bits_of (encode (t, v));
  env_from_slice l := decode (of_bits (tail l));
  set_to_value := encode;
  set_from_value := decode;
  digest_to_value := encode;
  digest_from_value := decode;
  entries_to_value := encode;
  entries_from_value := decode;
|}.

#[local] Instance sample_serde_spec : SerdeSpec sample_serde.
Proof.
  refine {| exact := λ _ : json, True |}; intros; simpl; try done; try apply decode_encode.
  rewrite of_bits_bits. apply decode_encode.
Defined.

(** Two replicas: [a] writes, [b] merges and overwrites, [a] merges. *)
Definition sample_p1 : SetPayload Z := mkSet "topic" 7%Z (1%Z, "a"%string) false.
Definition sample_p2 : SetPayload Z := mkSet "topic" 9%Z (2%Z, "b"%string) false.

Definition sample_reach (s : Replicas Z) : Prop := rtc (board_step 0%Z) (replicas_new {["a"%string; "b"%string]}) s.

Lemma board_convergence_witness :
  ∃ s r1 r2, sample_reach s
    ∧ replicas s !! "a"%string = Some r1 ∧ replicas s !! "b"%string = Some r2
    ∧ board_get "topic" (r_core r1) = Some 9%Z
    ∧ b_entries (r_core r1) = b_entries (r_core r2).
Proof.
  assert (R : ∃ s, sample_reach s
     ∧ replicas s !! "a"%string = Some (mkReplica (mkBoard "a" {["topic" := mkEntry 9%Z 2 "b" false]} 2) [sample_p1; sample_p2])
     ∧ replicas s !! "b"%string = Some (mkReplica (mkBoard "b" {["topic" := mkEntry 9%Z 2 "b" false]} 2) [sample_p1; sample_p2])).
  { eexists. split.
    - eapply rtc_l; [eapply (step_set _ "a" _ _ "topic" 7%Z); [reflexivity|done]|].
      eapply rtc_l; [eapply (step_merge _ "b" _ _ sample_p1); [reflexivity|apply list_elem_of_singleton; done]|].
      eapply rtc_l; [eapply (step_set _ "b" _ _ "topic" 9%Z); [reflexivity|done]|].
      eapply rtc_l; [eapply (step_merge _ "a" _ _ sample_p2); [reflexivity|set_solver]|].
      apply rtc_refl.
    - by vm_compute. }
  destruct R as (s & R & Ha & Hb). eexists s, _, _. split_and!; [exact R|exact Ha|exact Hb|done|].
  apply (board_convergence 0%Z {["a"%string; "b"%string]} s "a" _ "b" _ R Ha Hb). done.
Defined.

Lemma snapshot_exchange_converges_witness :
  let a := (board_set "x" 1%Z (BoardCore_new "a")).1 in
  let b := (board_set "y" 2%Z (BoardCore_new "b")).1 in
  b_entries (merge_all (snapshot b) a).1 = b_entries (merge_all (snapshot a) b).1
  ∧ board_get "x" (merge_all (snapshot a) b).1 = Some 1%Z.
Proof.
  intros a b. split; [|by vm_compute].
  apply (snapshot_exchange_converges a b). intros p q Hp Hq.
  replace (snapshot a ++ snapshot b) with [mkSet "x" 1%Z (1%Z, "a"%string) false; mkSet "y" 2%Z (1%Z, "b"%string) false]
    in Hp, Hq by done.
  repeat match goal with H : _ ∈ _ :: _ |- _ => apply elem_of_cons in H as [->|H]
                       | H : _ ∈ [] |- _ => by apply not_elem_of_nil in H end; done.
Defined.

Lemma largest_clock_blocks_writes_witness :
  let p := mkSet "k" 1%Z (u64_max, "z"%string) false in
  (merge_entry (board_set "k" 5%Z (merge_entry p (BoardCore_new "a")).1).2
     (merge_entry p (BoardCore_new "b")).1).2 = false.
Proof.
  intros p. pose proof (largest_clock_blocks_writes p (BoardCore_new "a") (BoardCore_new "b") 5%Z eq_refl) as H.
  apply H. done.
Defined.

Definition sample_board : BoardCore (@json sample_serde) := (board_set "topic" 3%positive (BoardCore_new "a")).1.
Definition sample_task : BoardTask (serde := sample_serde) := mkTask (mkShared (BoardCore_new "b") []) ∅ ∅.
Definition sample_snapshot_wires : list bytes :=
  wires_of MAX_CHUNK_PAYLOAD
    (env_to_vec (Serde := sample_serde) TYPE_SNAPSHOT (entries_to_value (snapshot sample_board))) sample_fid.
Definition sample_board_events : list (Z * Z * bytes) :=
  imap (λ i w, (5, Z.of_nat i, w)%Z) (reverse sample_snapshot_wires).

Lemma snapshot_transfer_witness :
  ∃ t', board_packets (crates := sample_crates) (serde := sample_serde) sample_fid "peer" sample_board_events sample_task
        = Ret (t', [], [mkChange (serde := sample_serde) "topic" 3%positive false])
      ∧ b_entries (sh_core (t_shared t')) = b_entries sample_board.
Proof.
  destruct (snapshot_transfer (crates := sample_crates) (snapshot sample_board) sample_fid sample_snapshot_wires
    sample_board_events "peer" sample_task [] [] 5) as (t' & E & Ec & _).
  - by repeat constructor.
  - done.
  - by vm_compute.
  - done.
  - by vm_compute.
  - done.
  - done.
  - done.
  - replace (sample_board_events.*2) with (reverse sample_snapshot_wires) by (by vm_compute).
    apply reverse_Permutation.
  - by vm_compute.
  - by vm_compute.
  - repeat constructor; vm_compute; done.
  - exists t'. rewrite E, Ec. split; reflexivity.
Defined.

Lemma digest_probe_witness :
  board_dispatch (crates := sample_crates) (serde := sample_serde) sample_fid
    (env_to_vec (Serde := sample_serde) TYPE_DIGEST (digest_to_value (Serde := sample_serde)
      (Some (digest (crates := sample_crates) sample_board).1, Some (digest (crates := sample_crates) sample_board).2)))
    sample_task
  = Ret (sample_task, [env_to_vec (Serde := sample_serde) TYPE_SYNC_REQ json_empty], []).
Proof.
  rewrite (digest_probe (crates := sample_crates) sample_fid sample_task sample_board); [|by vm_compute|done].
  rewrite decide_False; [done|]. by vm_compute.
Defined.
