(* ===== verification/Drop.v ===== *)
(** The Drop channel: chunked, resumable file distribution
    ([rust/telesthete/src/drop_channel.rs]). JSON bodies belong to serde_json,
    which the class [DropJson] stands for. *)

From S2P Require Import Prelude Crypto.

Local Open Scope Z_scope.

Definition CHUNK_SIZE : Z := 1024.
Definition MAX_RANGE_CHUNKS : Z := 64.
Definition REREQUEST_TIMEOUT : Z := from_secs 1.

Definition TYPE_OFFER : byte := Byte.x01.
Definition TYPE_REQUEST : byte := Byte.x02.
Definition TYPE_CHUNK : byte := Byte.x03.
Definition TYPE_DONE : byte := Byte.x04.

Record OfferPayload := mkOffer {
  o_name : string;
  o_size : Z;
  o_chunk_size : Z;
  o_total_chunks : Z;
  o_sha256 : bytes;
}.

(** The three JSON bodies; ranges are pairs of [i64]. *)
Class DropJson := {
  offer_to_vec : OfferPayload → bytes;
  offer_from_slice : bytes → option OfferPayload;
  request_to_vec : list (Z * Z) → bytes;
  request_from_slice : bytes → option (list (Z * Z));
  done_to_vec : bytes → bytes;
  done_from_slice : bytes → option bytes;
}.

Definition is_i64 (z : Z) : Prop := - 2 ^ 63 <= z < 2 ^ 63.

Class DropJsonSpec {dj : DropJson} := {
  offer_roundtrip o : is_u64 (o_size o) → is_u64 (o_chunk_size o) → is_u64 (o_total_chunks o) →
    offer_from_slice (offer_to_vec o) = Some o;
  request_roundtrip rs : Forall (λ r, is_i64 r.1 ∧ is_i64 r.2) rs →
    request_from_slice (request_to_vec rs) = Some rs;
  done_roundtrip h : done_from_slice (done_to_vec h) = Some h;
}.
Arguments DropJsonSpec dj : clear implicits.

Section Drop.
Context {crates : Crates} {dj : DropJson}.

Definition sha256_hex (data : bytes) : bytes := to_hex (sha256 data).

(** ** The sender *)

Record DropSenderCore := mkSender {
  s_name : string;
  s_data : bytes;
  s_total_chunks : Z;
  s_sha256 : bytes;
  s_completed : gmap string bool;
}.

Definition DropSenderCore_new (name : string) (data : bytes) : DropSenderCore :=
  mkSender name data (wrap 32 (Z.max 1 ((len data + CHUNK_SIZE - 1) / CHUNK_SIZE))) (sha256_hex data) ∅.

Definition offer_frame (s : DropSenderCore) : bytes :=
  TYPE_OFFER :: offer_to_vec (mkOffer (s_name s) (len (s_data s)) CHUNK_SIZE (s_total_chunks s) (s_sha256 s)).

(** The bytes of chunk [index]. *)
Definition chunk_of (data : bytes) (index : Z) : bytes :=
  let lo := index * CHUNK_SIZE in
  let hi := Z.min (lo + CHUNK_SIZE) (len data) in
  if len data <=? lo then [] else slice (Z.to_nat lo) (Z.to_nat hi) data.

Definition serve_range (start end_ : Z) (s : DropSenderCore) : list bytes :=
  let start := Z.max start 0 in
  let end_ := Z.min (Z.min (Z.max end_ 0) (s_total_chunks s)) (start + MAX_RANGE_CHUNKS) in
  (λ index, TYPE_CHUNK :: to_be_bytes 4 index ++ chunk_of (s_data s) index) <$> seqZ start (end_ - start).

Definition sender_handle_frame (from : string) (frame : bytes) (s : DropSenderCore)
    : DropSenderCore * list bytes * option bool :=
  match frame with
  | [] => (s, [], None)
  | type_ :: body =>
      if decide (type_ = TYPE_REQUEST) then
        match request_from_slice body with
        | None => (s, [], None)
        | Some ranges => (s, ranges ≫= λ r, serve_range r.1 r.2 s, None)
        end
      else if decide (type_ = TYPE_DONE) then
        match done_from_slice body with
        | None => (s, [], None)
        | Some h =>
            let ok := bool_decide (h = s_sha256 s) in
            (mkSender (s_name s) (s_data s) (s_total_chunks s) (s_sha256 s) (<[from := ok]> (s_completed s)),
             [], Some ok)
        end
      else (s, [], None)
  end.

(** ** The receiver *)

Record DropReceiverCore := mkReceiver {
  r_offer : option OfferPayload;
  r_have : gmap Z bytes;
  r_sender_addr : option string;
  r_verified : option bool;
  r_outstanding : option (Z * Z);
  r_last_progress : option Z;
  r_rerequest_timeout : Z;
  r_completion : option (bytes * bool);
}.

Definition DropReceiverCore_new (have : gmap Z bytes) : DropReceiverCore :=
  mkReceiver None have None None None None REREQUEST_TIMEOUT None.

Definition with_offer o r := mkReceiver o (r_have r) (r_sender_addr r) (r_verified r) (r_outstanding r)
  (r_last_progress r) (r_rerequest_timeout r) (r_completion r).
Definition with_have h r := mkReceiver (r_offer r) h (r_sender_addr r) (r_verified r) (r_outstanding r)
  (r_last_progress r) (r_rerequest_timeout r) (r_completion r).
Definition with_sender_addr a r := mkReceiver (r_offer r) (r_have r) a (r_verified r) (r_outstanding r)
  (r_last_progress r) (r_rerequest_timeout r) (r_completion r).
Definition with_verified v r := mkReceiver (r_offer r) (r_have r) (r_sender_addr r) v (r_outstanding r)
  (r_last_progress r) (r_rerequest_timeout r) (r_completion r).
Definition with_outstanding x r := mkReceiver (r_offer r) (r_have r) (r_sender_addr r) (r_verified r) x
  (r_last_progress r) (r_rerequest_timeout r) (r_completion r).
Definition with_last_progress t r := mkReceiver (r_offer r) (r_have r) (r_sender_addr r) (r_verified r)
  (r_outstanding r) t (r_rerequest_timeout r) (r_completion r).
Definition with_completion c r := mkReceiver (r_offer r) (r_have r) (r_sender_addr r) (r_verified r)
  (r_outstanding r) (r_last_progress r) (r_rerequest_timeout r) c.

(** The windows of the run [s, i): [u32] arithmetic, which wraps around. A loop
    that has not ended within the fuel has no result. *)
Fixpoint split_run (fuel : nat) (s i : Z) : outcome (list (Z * Z)) :=
  if negb (s <? i) then Ret [] else
  match fuel with
  | O => Panic
  | S fuel' =>
      let next := wrap 32 (s + MAX_RANGE_CHUNKS) in
      rest ← split_run fuel' next i;
      Ret ((s, Z.min next i) :: rest)
  end.

Fixpoint missing_loop (have : gmap Z bytes) (total : Z) (is_ : list Z) (run_start : option Z)
    : outcome (list (Z * Z)) :=
  match is_ with
  | [] => Ret []
  | i :: is' =>
      let lacking := (i <? total) && bool_decide (have !! i = None) in
      match run_start, lacking with
      | None, true => missing_loop have total is' (Some i)
      | Some rs, false =>
          ws ← split_run (Z.to_nat (i - rs)) rs i;
          rest ← missing_loop have total is' None;
          Ret (ws ++ rest)
      | _, _ => missing_loop have total is' run_start
      end
  end.

Definition total_of (r : DropReceiverCore) : Z :=
  match r_offer r with Some o => wrap 32 (o_total_chunks o) | None => 0 end.

Definition missing_ranges (r : DropReceiverCore) : outcome (list (Z * Z)) :=
  missing_loop (r_have r) (total_of r) (seqZ 0 (total_of r + 1)) None.

Definition request_missing (r : DropReceiverCore) : outcome (DropReceiverCore * list bytes) :=
  if decide (r_offer r = None ∨ r_sender_addr r = None ∨ r_verified r ≠ None) then Ret (r, []) else
  ranges ← missing_ranges r;
  match head ranges with
  | Some range => Ret (with_outstanding (Some range) r, [TYPE_REQUEST :: request_to_vec [range]])
  | None => Ret (r, [])
  end.

Definition tick (now : Z) (r : DropReceiverCore) : outcome (DropReceiverCore * list bytes) :=
  let due := match r_last_progress r with
             | None => true
             | Some t => r_rerequest_timeout r <? duration_since now t
             end in
  if decide (r_offer r ≠ None ∧ r_verified r = None ∧ due = true)
  then request_missing (with_last_progress (Some now) r)
  else Ret (r, []).

(** [self.have[&i]] for every [i]: a missing index panics. *)
Fixpoint collect (have : gmap Z bytes) (is_ : list Z) : outcome bytes :=
  match is_ with
  | [] => Ret []
  | i :: is' => c ← unwrap (have !! i); rest ← collect have is'; Ret (c ++ rest)
  end.

(** [Vec::with_capacity] panics above [isize::MAX] bytes. That the allocator has fewer is
    not considered. *)
Definition isize_max : Z := 9223372036854775807.

Definition finish (r : DropReceiverCore) : outcome (DropReceiverCore * list bytes) :=
  offer ← unwrap (r_offer r);
  let total := wrap 32 (o_total_chunks offer) in
  if isize_max <? o_size offer then Panic else
  data ← collect (r_have r) (seqZ 0 total);
  let data := take (Z.to_nat (o_size offer)) data in
  let hex := sha256_hex data in
  let ok := bool_decide (hex = o_sha256 offer) in
  Ret (with_completion (Some (data, ok)) (with_verified (Some ok) r), [TYPE_DONE :: done_to_vec hex]).

Definition receiver_handle_frame (from : string) (frame : bytes) (now : Z) (r : DropReceiverCore)
    : outcome (DropReceiverCore * list bytes) :=
  match frame with
  | [] => Ret (r, [])
  | type_ :: body =>
      if decide (type_ = TYPE_OFFER) then
        match offer_from_slice body with
        | None => Ret (r, [])
        | Some offer =>
            let r := match r_offer r with
                     | Some prev =>
                         if decide (o_sha256 offer ≠ o_sha256 prev ∨ o_size offer ≠ o_size prev)
                         then with_verified None (with_have ∅ r) else r
                     | None => r
                     end in
            request_missing (with_last_progress (Some now) (with_sender_addr (Some from) (with_offer (Some offer) r)))
        end
      else if decide (type_ = TYPE_CHUNK) then
        match r_offer r with
        | None => Ret (r, [])
        | Some offer =>
            if (length body <? 4)%nat then Ret (r, []) else
            let index := from_be_bytes (slice 0 4 body) in
            let total := wrap 32 (o_total_chunks offer) in
            if total <=? index then Ret (r, []) else
            let r := match r_have r !! index with
                     | None => with_last_progress (Some now) (with_have (<[index := drop 4 body]> (r_have r)) r)
                     | Some _ => r
                     end in
            if wrap 32 (Z.of_nat (size (r_have r))) =? total then finish r
            else if match r_outstanding r with
                    | Some (s, e) => forallb (λ i, bool_decide (r_have r !! i ≠ None)) (seqZ s (e - s))
                    | None => false
                    end
            then request_missing r
            else Ret (r, [])
        end
      else Ret (r, [])
  end.

(** [take_completion]. *)
Definition take_completion (r : DropReceiverCore) : DropReceiverCore * option (bytes * bool) :=
  (with_completion None r, r_completion r).

(** ** The tasks *)

Definition replay_stale (watermark : gmap string Z) (from : string) (seq : Z) : gmap string Z * bool :=
  match watermark !! from with
  | Some wm => if seq <=? wm then (watermark, true) else (<[from := seq]> watermark, false)
  | None => (<[from := seq]> watermark, false)
  end.

Record DropSender := mkDropSender { ds_core : DropSenderCore; ds_watermark : gmap string Z }.

(** One packet of the sender task: the frames sent back and the verdict reported. *)
Definition sender_packet (from : string) (seq : Z) (payload : bytes) (d : DropSender)
    : DropSender * list bytes * option bool :=
  let '(wm, stale) := replay_stale (ds_watermark d) from seq in
  if (stale : bool) then (mkDropSender (ds_core d) wm, [], None) else
  let '(core, frames, verdict) := sender_handle_frame from payload (ds_core d) in
  (mkDropSender core wm, frames, verdict).

Definition sender_rebase (addr : string) (d : DropSender) : DropSender :=
  mkDropSender (ds_core d) (delete addr (ds_watermark d)).

Record DropReceiver := mkDropReceiver { dr_core : DropReceiverCore; dr_watermark : gmap string Z }.

(** What follows every round of the receiver task: the frames go to the sender,
    if one is known, and a completion is reported. *)
Definition receiver_flush (wm : gmap string Z) (out : DropReceiverCore * list bytes)
    : DropReceiver * list bytes * option (bytes * bool) :=
  let '(core, completion) := take_completion out.1 in
  (mkDropReceiver core wm, match r_sender_addr core with Some _ => out.2 | None => [] end, completion).

Definition receiver_packet (now : Z) (from : string) (seq : Z) (payload : bytes) (d : DropReceiver)
    : outcome (DropReceiver * list bytes * option (bytes * bool)) :=
  let '(wm, stale) := replay_stale (dr_watermark d) from seq in
  if (stale : bool) then Ret (mkDropReceiver (dr_core d) wm, [], None) else
  out ← receiver_handle_frame from payload now (dr_core d);
  Ret (receiver_flush wm out).

Definition receiver_tick (now : Z) (d : DropReceiver)
    : outcome (DropReceiver * list bytes * option (bytes * bool)) :=
  out ← tick now (dr_core d);
  Ret (receiver_flush (dr_watermark d) out).

Definition receiver_rebase (addr : string) (d : DropReceiver) : DropReceiver :=
  mkDropReceiver (dr_core d) (delete addr (dr_watermark d)).

(** The hub: endpoints opened by [drop_id]; a later one replaces an earlier. *)
Definition drop_open (drop_id : Z) (senders : gset Z) : gset Z := {[drop_id]} ∪ senders.
Definition drop_route (channel_id : Z) (senders : gset Z) : bool := bool_decide (channel_id ∈ senders).
End Drop.

(** ** The missing ranges *)

(** The indexes of a range, and the indexes below [total] not held. *)
Definition span (r : Z * Z) : list Z := seqZ r.1 (r.2 - r.1).
Definition lacks (have : gmap Z bytes) (i : Z) : Prop := have !! i = None.
#[export] Instance lacks_dec have : ∀ i, Decision (lacks have i).
Proof. intros i. unfold lacks. apply _. Defined.

(** A request the sender serves in full. *)
Definition window_ok (total : Z) (r : Z * Z) : Prop := 0 <= r.1 < r.2 ∧ r.2 <= total ∧ r.2 <= r.1 + MAX_RANGE_CHUNKS.

Definition max_total : Z := 2 ^ 32 - MAX_RANGE_CHUNKS.

Lemma seqZ_split a b c : a <= b <= c → seqZ a (c - a) = seqZ a (b - a) ++ seqZ b (c - b).
Proof.
  intros. replace (c - a) with ((b - a) + (c - b)) by lia. rewrite seqZ_app by lia. do 2 f_equal; lia.
Qed.

Lemma seqZ_head a n : 0 < n → seqZ a n = a :: seqZ (a + 1) (n - 1).
Proof. intros. rewrite seqZ_cons by done. done. Qed.

Lemma split_run_spec fuel s i :
  0 <= s → s <= i <= max_total → (Z.to_nat (i - s) <= fuel)%nat →
  ∃ ws, split_run fuel s i = Ret ws ∧ ws ≫= span = seqZ s (i - s) ∧ Forall (window_ok i) ws.
Proof.
  unfold max_total, MAX_RANGE_CHUNKS. revert s.
  induction fuel as [|fuel IH]; intros s Hs Hi Hf; simpl; destruct (Z.ltb_spec s i) as [Hlt|Hge]; simpl.
  - lia.
  - exists []. split_and!; [done| |done]. by rewrite seqZ_nil by lia.
  - unfold wrap, MAX_RANGE_CHUNKS. rewrite Z.mod_small by lia.
    destruct (Z.le_gt_cases i (s + 64)) as [Hl|Hl].
    + assert (E : split_run fuel (s + 64) i = Ret []) by (destruct fuel; simpl; by rewrite (proj2 (Z.ltb_ge _ _)) by lia).
      rewrite E. exists [(s, i)]. simpl. rewrite Z.min_r by lia. split_and!; [done|by rewrite app_nil_r|].
      repeat constructor; simpl; unfold MAX_RANGE_CHUNKS; lia.
    + destruct (IH (s + 64)) as (ws & -> & Hsp & Hok); [lia..|]. simpl. rewrite Z.min_l by lia.
      exists ((s, s + 64) :: ws). split_and!; [done| |].
      * rewrite bind_cons, Hsp. unfold span. cbn [fst snd]. by rewrite <- seqZ_split by lia.
      * constructor; [|done]. unfold window_ok, MAX_RANGE_CHUNKS. simpl. lia.
  - exists []. split_and!; [done| |done]. by rewrite seqZ_nil by lia.
Qed.

Lemma missing_loop_spec have total j run :
  0 <= j <= total + 1 → total <= max_total →
  match run with Some rs => 0 <= rs < j ∧ j <= total | None => True end →
  ∃ rs, missing_loop have total (seqZ j (total + 1 - j)) run = Ret rs
    ∧ rs ≫= span = match run with Some r => seqZ r (j - r) | None => [] end
                   ++ filter (lacks have) (seqZ j (total - j))
    ∧ Forall (window_ok total) rs.
Proof.
  remember (Z.to_nat (total + 1 - j)) as n eqn:En. revert j run En.
  induction n as [|n IH]; intros j run En Hj Hm Hrun.
  { assert (run = None) as -> by (destruct run; [lia|done]).
    exists []. rewrite !seqZ_nil by lia. by split_and!. }
  rewrite (seqZ_head j) by lia. replace (total + 1 - j - 1) with (total + 1 - (j + 1)) by lia. simpl.
  destruct (Z.ltb_spec j total) as [Hlt|Hge]; simpl.
  - rewrite (seqZ_head j (total - j)) by lia. replace (total - j - 1) with (total - (j + 1)) by lia.
    case_bool_decide as Hl.
    + rewrite filter_cons_True by done. destruct run as [r|].
      * destruct (IH (j + 1) (Some r)) as (rs & -> & E & Hok); [lia..|]. exists rs. split_and!; [done| |done].
        rewrite E, (seqZ_split r j (j + 1)), (seqZ_head j) by lia. rewrite (seqZ_nil _ (j + 1 - j - 1)) by lia.
        by rewrite <- app_assoc.
      * destruct (IH (j + 1) (Some j)) as (rs & -> & E & Hok); [lia..|]. exists rs. split_and!; [done| |done].
        rewrite E, (seqZ_head j) by lia. by rewrite (seqZ_nil _ (j + 1 - j - 1)) by lia.
    + rewrite filter_cons_False by done. destruct (IH (j + 1) None) as (rs & E1 & E & Hok); [lia..|done|].
      destruct run as [r|]; [|by exists rs].
      destruct (split_run_spec (Z.to_nat (j - r)) r j) as (ws & -> & Ew & Hws); [unfold max_total in *; lia..|].
      simpl. rewrite E1. exists (ws ++ rs). split_and!; [done|by rewrite bind_app, E, Ew|].
      apply Forall_app_2; [|done]. eapply Forall_impl; [done|]. unfold window_ok. simpl. lia.
  - rewrite (seqZ_nil j (total - j)) by lia. rewrite (seqZ_nil (j + 1)) by lia. simpl.
    destruct run as [r|]; [|by exists []].
    destruct (split_run_spec (Z.to_nat (j - r)) r j) as (ws & -> & Ew & Hws); [unfold max_total in *; lia..|].
    simpl. exists (ws ++ []). rewrite app_nil_r. split_and!; [done|by rewrite app_nil_r|].
    eapply Forall_impl; [done|]. unfold window_ok. simpl. lia.
Qed.

(** ** A transfer *)

(** Sender and receiver tasks over a network that loses, repeats and reorders:
    a frame ever sent may be delivered any number of times, under any packet
    sequence. *)
Section Net.
Context {crates : Crates} {dj : DropJson}.
Context (sender_addr receiver_addr : string).

Record DropNet := mkDropNet {
  dn_sender : DropSender;
  dn_receiver : DropReceiver;
  dn_down : list bytes;
  dn_up : list bytes;
  dn_results : list (bytes * bool);
  dn_verdicts : list bool;
}.

Inductive drop_event :=
| EvOffer
| EvTick (now : Z)
| EvToReceiver (n : nat) (seq now : Z)
| EvToSender (n : nat) (seq : Z)
| EvRebaseReceiver
| EvRebaseSender.

Definition after_receiver (n : DropNet) (x : DropReceiver * list bytes * option (bytes * bool)) : DropNet :=
  mkDropNet (dn_sender n) x.1.1 (dn_down n) (dn_up n ++ x.1.2)
    (dn_results n ++ option_list x.2) (dn_verdicts n).

Definition drop_step (e : drop_event) (n : DropNet) : outcome DropNet :=
  match e with
  | EvOffer => Ret (mkDropNet (dn_sender n) (dn_receiver n) (dn_down n ++ [offer_frame (ds_core (dn_sender n))])
                      (dn_up n) (dn_results n) (dn_verdicts n))
  | EvTick now => x ← receiver_tick now (dn_receiver n); Ret (after_receiver n x)
  | EvToReceiver k seq now =>
      match dn_down n !! k with
      | Some frame => x ← receiver_packet now sender_addr seq frame (dn_receiver n); Ret (after_receiver n x)
      | None => Ret n
      end
  | EvToSender k seq =>
      match dn_up n !! k with
      | Some frame =>
          let '(s, frames, verdict) := sender_packet receiver_addr seq frame (dn_sender n) in
          Ret (mkDropNet s (dn_receiver n) (dn_down n ++ frames) (dn_up n) (dn_results n)
                 (dn_verdicts n ++ option_list verdict))
      | None => Ret n
      end
  | EvRebaseReceiver => Ret (mkDropNet (dn_sender n) (receiver_rebase sender_addr (dn_receiver n)) (dn_down n)
                               (dn_up n) (dn_results n) (dn_verdicts n))
  | EvRebaseSender => Ret (mkDropNet (sender_rebase receiver_addr (dn_sender n)) (dn_receiver n) (dn_down n)
                             (dn_up n) (dn_results n) (dn_verdicts n))
  end.

Fixpoint drop_run (es : list drop_event) (n : DropNet) : outcome DropNet :=
  match es with
  | [] => Ret n
  | e :: es' => n ← drop_step e n; drop_run es' n
  end.

Definition drop_start (name : string) (data : bytes) (have : gmap Z bytes) : DropNet :=
  mkDropNet (mkDropSender (DropSenderCore_new name data) ∅)
    (mkDropReceiver (DropReceiverCore_new have) ∅) [] [] [] [].
End Net.

(** ** Chunks of a file *)

Definition chunks_total (data : bytes) : Z := Z.max 1 ((len data + CHUNK_SIZE - 1) / CHUNK_SIZE).

Lemma chunk_of_eq data i : 0 <= i → chunk_of data i = take 1024 (drop (Z.to_nat i * 1024) data).
Proof.
  intros Hi. unfold chunk_of, CHUNK_SIZE, slice, len. destruct (Z.leb_spec (Z.of_nat (length data)) (i * 1024)).
  - by rewrite drop_ge, take_nil by lia.
  - replace (Z.to_nat (i * 1024)) with (Z.to_nat i * 1024)%nat by lia.
    destruct (Z.le_gt_cases (i * 1024 + 1024) (Z.of_nat (length data))).
    + f_equal. lia.
    + rewrite !take_ge; [done|rewrite length_drop; lia..].
Qed.

Lemma concat_chunk_of data j n :
  concat (chunk_of data <$> seqZ (Z.of_nat j) (Z.of_nat n)) = take (n * 1024) (drop (j * 1024) data).
Proof.
  revert j. induction n as [|n IH]; intros j; [done|].
  rewrite seqZ_head by lia. replace (Z.of_nat (S n) - 1) with (Z.of_nat n) by lia.
  replace (Z.of_nat j + 1) with (Z.of_nat (S j)) by lia. cbn [fmap list_fmap concat].
  rewrite IH, chunk_of_eq, Nat2Z.id by lia.
  replace (S n * 1024)%nat with (1024 + n * 1024)%nat by lia.
  rewrite <- take_take_drop, drop_drop. do 3 f_equal. lia.
Qed.

Lemma concat_file data : concat (chunk_of data <$> seqZ 0 (chunks_total data)) = data.
Proof.
  assert (len data <= chunks_total data * 1024).
  { unfold chunks_total, CHUNK_SIZE. pose proof (Z.div_mod (len data + 1024 - 1) 1024).
    pose proof (Z.mod_pos_bound (len data + 1024 - 1) 1024). lia. }
  replace (chunks_total data) with (Z.of_nat (Z.to_nat (chunks_total data))) by (unfold chunks_total; lia).
  rewrite (concat_chunk_of data 0), drop_0, take_ge; [done|]. unfold len in *. lia.
Qed.

(** A receiver that holds only indexes below [total] holds all of them when it holds that
    many. *)
Definition within (total : Z) (have : gmap Z bytes) : Prop := ∀ i c, have !! i = Some c → 0 <= i < total.

Lemma within_size total have :
  0 <= total → within total have →
  Z.of_nat (size have) <= total ∧ (Z.of_nat (size have) = total ↔ ∀ i, 0 <= i < total → ¬ lacks have i).
Proof.
  intros Ht H. set (all := list_to_set (seqZ 0 total) : gset Z).
  assert (Hall : Z.of_nat (size all) = total).
  { unfold all. rewrite size_list_to_set by apply NoDup_seqZ. rewrite length_seqZ. lia. }
  assert (Hsub : dom have ⊆ all).
  { intros i [c Hc]%elem_of_dom. apply H in Hc. unfold all. rewrite elem_of_list_to_set, elem_of_seqZ. lia. }
  rewrite <- (size_dom have). pose proof (subseteq_size _ _ Hsub). split; [lia|]. split.
  - intros E i Hi Hl. assert (Heq : dom have = all) by (apply set_subseteq_size_eq; [done|lia]).
    assert (Hin : i ∈ all) by (unfold all; rewrite elem_of_list_to_set, elem_of_seqZ; lia).
    rewrite <- Heq in Hin. by apply elem_of_dom in Hin as [? Hin]; rewrite Hl in Hin.
  - intros Hm. assert (Heq : all ⊆ dom have).
    { intros i. unfold all. rewrite elem_of_list_to_set, elem_of_seqZ. intros Hi. apply elem_of_dom.
      apply not_eq_None_Some. apply Hm. lia. }
    apply subseteq_size in Heq. lia.
Qed.

(** ** The receiver of one file *)

Section Transfer.
Context {crates : Crates} {dj : DropJson} {spec : DropJsonSpec dj}.
Context (name : string) (data : bytes).
Hypothesis Hfit : chunks_total data <= max_total.
#[local] Abbreviation tot := (chunks_total data).

Definition the_offer : OfferPayload := mkOffer name (len data) CHUNK_SIZE tot (sha256_hex data).
Definition chunk_frame (i : Z) : bytes := TYPE_CHUNK :: to_be_bytes 4 i ++ chunk_of data i.

Definition holds (have : gmap Z bytes) : Prop :=
  ∀ i c, have !! i = Some c → 0 <= i < tot ∧ c = chunk_of data i.

(** What a receiver of this file may send. *)
Definition up_frame (f : bytes) : Prop :=
  (∃ w, window_ok tot w ∧ f = TYPE_REQUEST :: request_to_vec [w]) ∨ f = TYPE_DONE :: done_to_vec (sha256_hex data).

(** What its sender sends. *)
Definition down_frame (f : bytes) : Prop :=
  f = TYPE_OFFER :: offer_to_vec the_offer ∨ ∃ i, 0 <= i < tot ∧ f = chunk_frame i.

Record ReceiverInv (r : DropReceiverCore) : Prop := {
  rv_have : holds (r_have r);
  rv_offer : r_offer r = None ∨ r_offer r = Some the_offer;
  rv_verified : r_verified r = None ∨ r_verified r = Some true;
  rv_completion : r_completion r = None ∨ r_completion r = Some (data, true);
}.

Lemma tot_bounds : 1 <= tot < 2 ^ 32.
Proof. unfold max_total, MAX_RANGE_CHUNKS in *. unfold chunks_total in *. lia. Qed.

Lemma file_allocates : len data <= isize_max.
Proof.
  pose proof tot_bounds. unfold isize_max. unfold chunks_total, CHUNK_SIZE in *.
  pose proof (Z.div_mod (len data + 1024 - 1) 1024). pose proof (Z.mod_pos_bound (len data + 1024 - 1) 1024). lia.
Qed.

Lemma wrap_tot : wrap 32 tot = tot.
Proof. unfold wrap. apply Z.mod_small. pose proof tot_bounds. lia. Qed.

Lemma have_size have :
  holds have → Z.of_nat (size have) <= tot ∧ (Z.of_nat (size have) = tot ↔ ∀ i, 0 <= i < tot → ¬ lacks have i).
Proof. intros H. pose proof tot_bounds. apply within_size; [lia|]. intros i c Hc. by apply H in Hc as [? _]. Qed.

Lemma collect_chunks have is_ :
  (∀ i, i ∈ is_ → have !! i = Some (chunk_of data i)) → collect have is_ = Ret (concat (chunk_of data <$> is_)).
Proof.
  induction is_ as [|i is_ IH]; intros H; [done|]. simpl. rewrite (H i) by set_solver. simpl.
  rewrite IH by set_solver. done.
Qed.

Lemma finish_ok r :
  ReceiverInv r → r_offer r = Some the_offer → Z.of_nat (size (r_have r)) = tot →
  finish r = Ret (with_completion (Some (data, true)) (with_verified (Some true) r),
                  [TYPE_DONE :: done_to_vec (sha256_hex data)]).
Proof.
  intros [I1 I2 I3 I4] Ho Hsz. unfold finish. rewrite Ho. simpl. rewrite wrap_tot, (proj2 (Z.ltb_ge _ _)) by apply file_allocates.
  rewrite collect_chunks; [simpl; rewrite concat_file|].
  - rewrite take_ge by (unfold len; lia). by rewrite bool_decide_true.
  - intros i Hi%elem_of_seqZ. pose proof (proj1 (proj2 (have_size _ I1)) Hsz) as Hfull.
    destruct (r_have r !! i) as [c|] eqn:Ec; [by apply I1 in Ec as [_ ->]|]. by destruct (Hfull i).
Qed.

Lemma missing_ranges_ok r :
  r_offer r = Some the_offer →
  ∃ rs, missing_ranges r = Ret rs ∧ rs ≫= span = filter (lacks (r_have r)) (seqZ 0 tot) ∧ Forall (window_ok tot) rs.
Proof.
  intros Ho. unfold missing_ranges, total_of. rewrite Ho. simpl. rewrite wrap_tot. pose proof tot_bounds.
  destruct (missing_loop_spec (r_have r) tot 0 None) as (rs & E & Hs & Hok); [lia|done..|].
  rewrite !Z.sub_0_r in *. eauto.
Qed.

(** [request_missing] asks for the first window it lacks, if any. *)
Lemma request_missing_ok r :
  ReceiverInv r → ∃ x fs, request_missing r = Ret (with_outstanding x r, fs) ∧ Forall up_frame fs
    ∧ (r_offer r = Some the_offer → r_sender_addr r ≠ None → r_verified r = None →
       Z.of_nat (size (r_have r)) ≠ tot →
       ∃ w, window_ok tot w ∧ fs = [TYPE_REQUEST :: request_to_vec [w]] ∧ ∀ i, w.1 <= i < w.2 → lacks (r_have r) i).
Proof.
  intros I. unfold request_missing. case_decide as Hc.
  { exists (r_outstanding r), []. split_and!; [by destruct r|done|]. naive_solver. }
  assert (Ho : r_offer r = Some the_offer) by (destruct (rv_offer _ I); naive_solver).
  destruct (missing_ranges_ok r Ho) as (rs & -> & Hs & Hok). simpl. destruct rs as [|w rs]; simpl.
  - exists (r_outstanding r), []. split_and!; [by destruct r|done|]. intros _ _ _ Hne. exfalso. apply Hne.
    apply (have_size _ (rv_have _ I)). intros i Hi Hl.
    assert (Hin : i ∈ filter (lacks (r_have r)) (seqZ 0 tot))
      by (apply list_elem_of_filter; split; [done|apply elem_of_seqZ; lia]).
    rewrite <- Hs in Hin. by apply not_elem_of_nil in Hin.
  - apply Forall_cons in Hok as [Hw Hok]. eexists _, _. split_and!; [done| |].
    + constructor; [left; eauto|done].
    + intros _ _ _ _. exists w. split_and!; [done..|]. intros i Hi.
      assert (Hin : i ∈ filter (lacks (r_have r)) (seqZ 0 tot)).
      { rewrite <- Hs, bind_cons. apply elem_of_app. left. unfold span. apply elem_of_seqZ. lia. }
      by apply list_elem_of_filter in Hin as [? _].
Qed.

Lemma ReceiverInv_outstanding x r : ReceiverInv r → ReceiverInv (with_outstanding x r).
Proof. by intros []. Qed.

Lemma ReceiverInv_progress t r : ReceiverInv r → ReceiverInv (with_last_progress t r).
Proof. by intros []. Qed.

Lemma offer_fields_u64 : is_u64 (len data) ∧ is_u64 CHUNK_SIZE ∧ is_u64 tot.
Proof.
  unfold is_u64, CHUNK_SIZE. pose proof tot_bounds. pose proof (len_nonneg data). split_and!; try lia.
  unfold chunks_total, CHUNK_SIZE in *. pose proof (Z.div_mod (len data + 1024 - 1) 1024).
  pose proof (Z.mod_pos_bound (len data + 1024 - 1) 1024). lia.
Qed.

Lemma handle_offer from now r :
  ReceiverInv r →
  ∃ x fs, receiver_handle_frame from (TYPE_OFFER :: offer_to_vec the_offer) now r
    = Ret (with_outstanding x (with_last_progress (Some now)
             (with_sender_addr (Some from) (with_offer (Some the_offer) r))), fs)
    ∧ Forall up_frame fs.
Proof.
  intros I. pose proof offer_fields_u64 as (? & ? & ?). simpl.
  change (bool_decide (TYPE_OFFER = TYPE_OFFER)) with true. rewrite offer_roundtrip by done.
  assert (E : match r_offer r with
              | Some prev => if decide (o_sha256 the_offer ≠ o_sha256 prev ∨ o_size the_offer ≠ o_size prev)
                             then with_verified None (with_have ∅ r) else r
              | None => r end = r).
  { destruct (rv_offer _ I) as [-> | ->]; [done|]. rewrite decide_False by naive_solver. done. }
  rewrite E. destruct (request_missing_ok (with_last_progress (Some now)
             (with_sender_addr (Some from) (with_offer (Some the_offer) r)))) as (x & fs & -> & Hfs & _).
  { destruct I. split; simpl; auto. }
  eauto.
Qed.

Lemma holds_insert have i : holds have → 0 <= i < tot → holds (<[i := chunk_of data i]> have).
Proof. intros H Hi j c [[<- <-]|[_ Hj]]%lookup_insert_Some; [done|by apply H]. Qed.

Lemma handle_chunk from now r i :
  ReceiverInv r → r_offer r = Some the_offer → 0 <= i < tot →
  ∃ r' fs, receiver_handle_frame from (chunk_frame i) now r = Ret (r', fs)
    ∧ ReceiverInv r' ∧ Forall up_frame fs ∧ r_have r' = <[i := chunk_of data i]> (r_have r)
    ∧ r_offer r' = r_offer r ∧ r_sender_addr r' = r_sender_addr r ∧ r_rerequest_timeout r' = r_rerequest_timeout r
    ∧ (r_last_progress r' = r_last_progress r ∨ r_last_progress r' = Some now)
    ∧ (if decide (Z.of_nat (size (r_have r')) = tot) then r_verified r' = Some true ∧ r_completion r' = Some (data, true)
       else r_verified r' = r_verified r).
Proof.
  intros I Ho Hi. pose proof tot_bounds. unfold chunk_frame, receiver_handle_frame.
  rewrite decide_False by done. rewrite decide_True by done. rewrite Ho. cbv zeta.
  rewrite (proj2 (Nat.ltb_ge _ _)) by (rewrite length_app, length_to_be_bytes; lia).
  rewrite slice_head, from_to_be_u32 by (rewrite ?length_to_be_bytes; unfold is_u32; lia || done).
  rewrite drop_app_length' by (by rewrite length_to_be_bytes).
  change (wrap 32 (o_total_chunks the_offer)) with (wrap 32 tot). rewrite wrap_tot.
  rewrite (proj2 (Z.leb_gt _ _)) by lia.
  set (r1 := match r_have r !! i with
             | Some _ => r
             | None => with_last_progress (Some now) (with_have (<[i:=chunk_of data i]> (r_have r)) r)
             end).
  assert (H1 : ReceiverInv r1 ∧ r_have r1 = <[i := chunk_of data i]> (r_have r)
    ∧ r_offer r1 = Some the_offer ∧ r_sender_addr r1 = r_sender_addr r ∧ r_rerequest_timeout r1 = r_rerequest_timeout r
    ∧ (r_last_progress r1 = r_last_progress r ∨ r_last_progress r1 = Some now) ∧ r_verified r1 = r_verified r).
  { unfold r1. destruct (r_have r !! i) as [c|] eqn:Ec.
    - destruct (rv_have _ I _ _ Ec) as [_ ->]. rewrite insert_id by done. by split_and!; auto.
    - split_and!; auto. destruct I. split; simpl; auto. by apply holds_insert. }
  clearbody r1. destruct H1 as (I1 & Eh & Eo & Ea & Et & El & Ev).
  pose proof (have_size _ (rv_have _ I1)) as [Hle _].
  assert (Ew : wrap 32 (Z.of_nat (size (r_have r1))) = Z.of_nat (size (r_have r1))) by (unfold wrap; rewrite Z.mod_small; lia).
  rewrite Ew. destruct (Z.eqb_spec (Z.of_nat (size (r_have r1))) tot) as [Hsz|Hsz].
  - rewrite finish_ok by done. eexists _, _. split_and!; [done|..]; simpl; try congruence.
    + destruct I1. split; simpl; auto.
    + constructor; [by right|done].
    + by rewrite decide_True.
  - match goal with |- context [if ?b then request_missing r1 else _] => set (drained := b) end.
    assert (Hrest : ∃ x fs, (if drained then request_missing r1 else Ret (r1, [])) = Ret (with_outstanding x r1, fs)
         ∧ Forall up_frame fs).
    { destruct drained.
      - destruct (request_missing_ok r1 I1) as (x & fs & -> & Hfs & _). eauto.
      - exists (r_outstanding r1), []. split; [by destruct r1|done]. }
    destruct Hrest as (x & fs & -> & Hfs). eexists _, _. split_and!; [done|..]; simpl; try congruence.
    + by apply ReceiverInv_outstanding.
    + by rewrite decide_False.
Qed.

Lemma handle_down from now r f :
  ReceiverInv r → down_frame f →
  ∃ r' fs, receiver_handle_frame from f now r = Ret (r', fs) ∧ ReceiverInv r' ∧ Forall up_frame fs.
Proof.
  intros I [-> |(i & Hi & ->)].
  - destruct (handle_offer from now r I) as (x & fs & -> & Hfs). eexists _, _. split_and!; [done| |done].
    destruct I. split; simpl; auto.
  - destruct (rv_offer _ I) as [Ho|Ho].
    + exists r, []. unfold chunk_frame, receiver_handle_frame. rewrite decide_False by done.
      rewrite decide_True by done. rewrite Ho. by split_and!.
    + destruct (handle_chunk from now r i I Ho Hi) as (r' & fs & -> & I' & Hfs & _). eauto.
Qed.

Lemma tick_ok now r :
  ReceiverInv r → ∃ r' fs, tick now r = Ret (r', fs) ∧ ReceiverInv r' ∧ Forall up_frame fs.
Proof.
  intros I. unfold tick. case_decide; [|by exists r, []].
  destruct (request_missing_ok (with_last_progress (Some now) r)) as (x & fs & -> & Hfs & _);
    [by apply ReceiverInv_progress|].
  eexists _, _. split_and!; [done|by apply ReceiverInv_outstanding, ReceiverInv_progress|done].
Qed.

(** *** The sender *)

Definition SenderInv (s : DropSenderCore) : Prop :=
  s_name s = name ∧ s_data s = data ∧ s_total_chunks s = tot ∧ s_sha256 s = sha256_hex data
  ∧ map_Forall (λ _ ok, ok = true) (s_completed s).

Lemma SenderInv_new : SenderInv (DropSenderCore_new name data).
Proof.
  unfold DropSenderCore_new. split_and!; simpl; [done|done|apply wrap_tot|done|]. apply map_Forall_empty.
Qed.

Lemma offer_frame_eq s : SenderInv s → offer_frame s = TYPE_OFFER :: offer_to_vec the_offer.
Proof. intros (E1 & E2 & E3 & E4 & _). unfold offer_frame. by rewrite E1, E2, E3, E4. Qed.

Lemma serve_window s w : SenderInv s → window_ok tot w → serve_range w.1 w.2 s = chunk_frame <$> span w.
Proof.
  intros (E1 & E2 & E3 & E4 & _) (H1 & H2 & H3). unfold serve_range, span. rewrite E3, E2.
  rewrite !Z.max_l by lia. rewrite (Z.min_l w.2 tot) by lia. rewrite Z.min_l by lia. done.
Qed.

Lemma sender_request from s w :
  SenderInv s → window_ok tot w →
  sender_handle_frame from (TYPE_REQUEST :: request_to_vec [w]) s = (s, chunk_frame <$> span w, None).
Proof.
  intros I Hw. unfold sender_handle_frame. rewrite decide_True by done. pose proof tot_bounds.
  rewrite request_roundtrip.
  - rewrite bind_cons, serve_window by done. by rewrite app_nil_r.
  - repeat constructor; destruct Hw as (? & ? & ?); unfold is_i64; lia.
Qed.

Lemma window_down w : window_ok tot w → Forall down_frame (chunk_frame <$> span w).
Proof.
  intros (? & ? & ?). apply Forall_fmap, Forall_forall. intros i Hi%elem_of_seqZ. right. exists i. split; [lia|done].
Qed.

Lemma sender_up from s f :
  SenderInv s → up_frame f →
  ∃ s' fs v, sender_handle_frame from f s = (s', fs, v) ∧ SenderInv s' ∧ Forall down_frame fs ∧ v ≠ Some false.
Proof.
  intros I [(w & Hw & ->)| ->].
  - rewrite sender_request by done. eexists _, _, _. split_and!; [done|done|by apply window_down|done].
  - unfold sender_handle_frame. rewrite decide_False by done. rewrite decide_True by done.
    rewrite done_roundtrip. destruct I as (E1 & E2 & E3 & E4 & E5).
    rewrite bool_decide_true by done. eexists _, _, _. split_and!; [done| |done|done].
    split_and!; simpl; [done..|]. by apply map_Forall_insert_2.
Qed.

(** *** The two tasks together *)

Record TransferInv (n : DropNet) : Prop := {
  ti_sender : SenderInv (ds_core (dn_sender n));
  ti_receiver : ReceiverInv (dr_core (dn_receiver n));
  ti_down : Forall down_frame (dn_down n);
  ti_up : Forall up_frame (dn_up n);
  ti_results : Forall (λ x, x = (data, true)) (dn_results n);
  ti_verdicts : Forall (λ v, v = true) (dn_verdicts n);
}.

Lemma receiver_flush_inv n wm r fs :
  TransferInv n → ReceiverInv r → Forall up_frame fs → TransferInv (after_receiver n (receiver_flush wm (r, fs))).
Proof.
  intros [] I Hfs. unfold receiver_flush, after_receiver. simpl. split; simpl; try done.
  - destruct I. split; simpl; auto.
  - apply Forall_app_2; [done|]. by destruct (r_sender_addr r).
  - apply Forall_app_2; [done|]. destruct (rv_completion _ I) as [-> | ->]; simpl; by repeat constructor.
Qed.

Lemma drop_step_inv sa ra e n : TransferInv n → ∃ n', drop_step sa ra e n = Ret n' ∧ TransferInv n'.
Proof.
  intros I. destruct e as [|now|k seq now|k seq| |]; simpl.
  - eexists. split; [done|]. destruct I. split; simpl; try done.
    apply Forall_app_2; [done|]. constructor; [left; by apply offer_frame_eq|done].
  - unfold receiver_tick. destruct (tick_ok now _ (ti_receiver _ I)) as (r' & fs & -> & I' & Hfs). simpl.
    eexists. split; [done|]. by apply receiver_flush_inv.
  - destruct (dn_down n !! k) as [f|] eqn:Ef; [|eauto].
    pose proof (proj1 (Forall_lookup _ _) (ti_down _ I) _ _ Ef) as Hf. unfold receiver_packet.
    destruct (replay_stale _ sa seq) as [wm [|]]; simpl.
    + eexists. split; [done|]. destruct I. split; simpl; rewrite ?app_nil_r; done.
    + destruct (handle_down sa now _ f (ti_receiver _ I) Hf) as (r' & fs & -> & I' & Hfs). simpl.
      eexists. split; [done|]. by apply receiver_flush_inv.
  - destruct (dn_up n !! k) as [f|] eqn:Ef; [|eauto].
    pose proof (proj1 (Forall_lookup _ _) (ti_up _ I) _ _ Ef) as Hf. unfold sender_packet.
    destruct (replay_stale _ ra seq) as [wm [|]]; simpl.
    + eexists. split; [done|]. destruct I. split; simpl; rewrite ?app_nil_r; done.
    + destruct (sender_up ra _ f (ti_sender _ I) Hf) as (s' & fs & v & -> & I' & Hfs & Hv). simpl.
      eexists. split; [done|]. destruct I. split; simpl; try done.
      * by apply Forall_app_2.
      * apply Forall_app_2; [done|]. destruct v as [[]|]; simpl; by repeat constructor.
  - eexists. split; [done|]. by destruct I.
  - eexists. split; [done|]. by destruct I.
Qed.

Lemma drop_run_inv sa ra es n : TransferInv n → ∃ n', drop_run sa ra es n = Ret n' ∧ TransferInv n'.
Proof.
  revert n. induction es as [|e es IH]; intros n I; simpl; [by exists n|].
  destruct (drop_step_inv sa ra e n I) as (n1 & -> & I1). simpl. by apply IH.
Qed.

Lemma drop_start_inv have : holds have → TransferInv (drop_start name data have).
Proof. intros H. split; simpl; try done; [apply SenderInv_new|]. by split; simpl; auto. Qed.

(** *** Progress *)

(** Frames that all arrive at [now], the receiver's answers lost. *)
Fixpoint deliver_all (from : string) (now : Z) (fs : list bytes) (r : DropReceiverCore) : outcome DropReceiverCore :=
  match fs with
  | [] => Ret r
  | f :: fs' => x ← receiver_handle_frame from f now r; deliver_all from now fs' x.1
  end.

(** One timer round: the receiver's requests reach the sender and the chunks
    it serves reach the receiver; whatever the chunks make the receiver send
    on top is lost. *)
Definition pull_round (from : string) (s : DropSenderCore) (now : Z) (r : DropReceiverCore) : outcome DropReceiverCore :=
  x ← tick now r;
  deliver_all from now (x.2 ≫= λ f, (sender_handle_frame "" f s).1.2) x.1.

Fixpoint pull_rounds (from : string) (s : DropSenderCore) (ts : list Z) (r : DropReceiverCore) : outcome DropReceiverCore :=
  match ts with
  | [] => Ret r
  | now :: ts' => r ← pull_round from s now r; pull_rounds from s ts' r
  end.

(** Times more than [d] apart, from [prev] on. *)
Fixpoint spaced (d : Z) (prev : option Z) (ts : list Z) : Prop :=
  match ts with
  | [] => True
  | t :: ts' => match prev with Some p => p + d < t | None => True end ∧ spaced d (Some t) ts'
  end.

(** The receiver is done, or still pulls the file. *)
Definition complete (r : DropReceiverCore) : Prop := r_verified r = Some true ∧ r_completion r = Some (data, true).
Definition pulling (r : DropReceiverCore) : Prop :=
  ReceiverInv r ∧ r_offer r = Some the_offer ∧ r_sender_addr r ≠ None ∧ r_verified r = None
  ∧ Z.of_nat (size (r_have r)) ≠ tot.

Lemma deliver_chunks from now is_ r :
  ReceiverInv r → r_offer r = Some the_offer → (∀ i, i ∈ is_ → 0 <= i < tot) →
  ∃ r', deliver_all from now (chunk_frame <$> is_) r = Ret r'
    ∧ ReceiverInv r' ∧ r_offer r' = Some the_offer ∧ r_sender_addr r' = r_sender_addr r
    ∧ r_rerequest_timeout r' = r_rerequest_timeout r
    ∧ (r_last_progress r' = r_last_progress r ∨ r_last_progress r' = Some now)
    ∧ dom (r_have r') = list_to_set is_ ∪ dom (r_have r)
    ∧ (if decide (Z.of_nat (size (r_have r')) = tot) then (complete r ∨ is_ ≠ []) → complete r' else r_verified r' = r_verified r).
Proof.
  revert r. induction is_ as [|i is_ IH]; intros r I Ho Hin; cbn [deliver_all fmap list_fmap].
  { exists r. split_and!; auto; [set_solver|]. case_decide; [|done]. by intros [?|?]. }
  destruct (handle_chunk from now r i I Ho) as (r1 & fs & -> & I1 & _ & Eh & Eo & Ea & Et & El & Ev); [set_solver|].
  cbn [mbind outcome_bind fst]. destruct (IH r1 I1) as (r' & -> & I' & Eo' & Ea' & Et' & El' & Ed & Ev'); [congruence|set_solver|].
  exists r'. split_and!; auto; try congruence.
  - destruct El' as [->|?]; auto.
  - rewrite Ed, Eh, dom_insert_L. set_solver.
  - assert (Hsz : (size (r_have r1) <= size (r_have r'))%nat).
    { rewrite <- (size_dom (r_have r1)), <- (size_dom (r_have r')). apply subseteq_size. rewrite Ed.
      apply union_subseteq_r. }
    pose proof (have_size _ (rv_have _ I')) as [Hle _].
    destruct (decide (Z.of_nat (size (r_have r1)) = tot)) as [E1|E1].
    + rewrite decide_True in Ev' by lia. rewrite decide_True by lia. intros _. apply Ev'. by left.
    + case_decide as E2; [|congruence]. intros _. apply Ev'. right. intros ->. apply E1. rewrite <- E2.
      f_equal. rewrite <- (size_dom (r_have r1)), <- (size_dom (r_have r')). f_equal. rewrite Ed. simpl.
      by rewrite (left_id_L ∅ (∪)).
Qed.

Lemma pull_round_progress from s now r :
  SenderInv s → pulling r →
  match r_last_progress r with Some p => p + r_rerequest_timeout r < now | None => True end →
  0 <= r_rerequest_timeout r →
  ∃ r', pull_round from s now r = Ret r' ∧ (size (r_have r) < size (r_have r'))%nat
    ∧ r_last_progress r' = Some now ∧ r_rerequest_timeout r' = r_rerequest_timeout r ∧ (complete r' ∨ pulling r').
Proof.
  intros Is (I & Ho & Ha & Hv & Hsz) Hdue Hto. unfold pull_round, tick. rewrite decide_True.
  2:{ split_and!; [congruence|done|]. destruct (r_last_progress r) as [p|]; [|done].
      apply Z.ltb_lt. unfold duration_since. lia. }
  destruct (request_missing_ok (with_last_progress (Some now) r)) as (x & fs & -> & _ & Hreq);
    [by apply ReceiverInv_progress|].
  destruct Hreq as (w & Hw & -> & Hl); [done..|]. cbn [mbind outcome_bind fst snd]. rewrite bind_cons.
  rewrite sender_request by done. cbn [mbind list_bind fst snd]. rewrite app_nil_r.
  destruct (deliver_chunks from now (span w) (with_outstanding x (with_last_progress (Some now) r)))
    as (r' & -> & I' & Eo & Ea & Et & El & Ed & Ev).
  - by apply ReceiverInv_outstanding, ReceiverInv_progress.
  - done.
  - intros i Hi%elem_of_seqZ. destruct Hw as (? & ? & ?). lia.
  - simpl in *. exists r'. split_and!; [done| |by destruct El|done|].
    + rewrite <- (size_dom (r_have r)), <- (size_dom (r_have r')). apply subset_size. rewrite Ed. split; [set_solver|].
      intros Hsub. assert (Hin : w.1 ∈ dom (r_have r)).
      { apply Hsub, elem_of_union_l, elem_of_list_to_set, elem_of_seqZ. destruct Hw. lia. }
      apply elem_of_dom in Hin as [c Hc]. rewrite (Hl w.1) in Hc; [done|]. destruct Hw. lia.
    + case_decide as E2.
      * left. apply Ev. right. intros E. unfold span in E. apply (f_equal length) in E. rewrite length_seqZ in E.
        destruct Hw. simpl in E. lia.
      * right. split_and!; [done..|congruence|congruence|done].
Qed.

Lemma pull_rounds_done from s ts r : r_verified r = Some true → pull_rounds from s ts r = Ret r.
Proof.
  intros Hv. induction ts as [|t ts IH]; [done|]. cbn [pull_rounds]. unfold pull_round, tick.
  rewrite decide_False by naive_solver. done.
Qed.

Lemma pull_rounds_complete from s ts r :
  SenderInv s → pulling r → spaced (r_rerequest_timeout r) (r_last_progress r) ts → 0 <= r_rerequest_timeout r →
  tot - Z.of_nat (size (r_have r)) <= len ts →
  ∃ r', pull_rounds from s ts r = Ret r' ∧ complete r'.
Proof.
  intros Is. revert r. induction ts as [|t ts IH]; intros r P Hs Hto Hlen.
  { exfalso. destruct P as (I & _ & _ & _ & Hne). pose proof (have_size _ (rv_have _ I)) as [? _].
    unfold len in Hlen. simpl in Hlen. lia. }
  destruct Hs as [Ht Hs]. destruct (pull_round_progress from s t r Is P Ht Hto) as (r1 & E & Hsz & El & Et & Hr).
  cbn [pull_rounds]. rewrite E. cbn [mbind outcome_bind]. destruct Hr as [Hc|Hp].
  - exists r1. split; [|done]. apply pull_rounds_done, Hc.
  - apply IH; [done|by rewrite Et, El|lia|]. rewrite len_cons in Hlen. lia.
Qed.
End Transfer.

(** ** Properties *)

(** C10: a transfer delivers the file. Whatever the network loses, repeats or
    reorders, and with any part of the file already held, neither task panics,
    every completed file is exactly the sender's with a matching digest, and
    every verdict the sender records is positive. *)
Theorem drop_transfer_sound {crates : Crates} {dj : DropJson} {spec : DropJsonSpec dj} sa ra name data have es :
  chunks_total data <= max_total → holds data have →
  ∃ n, drop_run sa ra es (drop_start name data have) = Ret n
    ∧ Forall (λ x, x = (data, true)) (dn_results n)
    ∧ Forall (λ v, v = true) (dn_verdicts n)
    ∧ map_Forall (λ _ ok, ok = true) (s_completed (ds_core (dn_sender n)))
    ∧ holds data (r_have (dr_core (dn_receiver n))).
Proof.
  intros Hfit Hh. destruct (drop_run_inv name data Hfit sa ra es _ (drop_start_inv name data Hfit have Hh))
    as (n & -> & I).
  exists n. split_and!; [done|apply I..].
Qed.

(** C17: a transfer completes. Once the offer has arrived at a receiver that
    lacks some chunk, timer rounds more than the re-request timeout apart whose
    requests and chunks get through finish the file, after no more rounds than
    chunks were missing. *)
Theorem drop_completes {crates : Crates} {dj : DropJson} {spec : DropJsonSpec dj} from name data have t0 ts :
  let s := DropSenderCore_new name data in
  chunks_total data <= max_total → holds data have → Z.of_nat (size have) < chunks_total data →
  spaced REREQUEST_TIMEOUT (Some t0) ts → chunks_total data - Z.of_nat (size have) <= len ts →
  ∃ r, (x ← receiver_handle_frame from (offer_frame s) t0 (DropReceiverCore_new have);
        pull_rounds from s ts x.1) = Ret r
    ∧ r_verified r = Some true ∧ r_completion r = Some (data, true).
Proof.
  intros s Hfit Hh Hsz Hsp Hlen. pose proof (SenderInv_new name data Hfit) as Is.
  rewrite (offer_frame_eq name data s Is).
  assert (I : ReceiverInv name data (DropReceiverCore_new have)) by (split; simpl; auto).
  destruct (handle_offer name data Hfit from t0 _ I) as (x & fs & -> & _). cbn [mbind outcome_bind fst].
  apply (pull_rounds_complete name data Hfit); [done| |done|done|done].
  split_and!; [by destruct I; split; simpl; auto|done..|]. simpl. lia.
Qed.

Lemma missing_ranges_any r o :
  r_offer r = Some o → 0 <= o_total_chunks o <= max_total →
  ∃ rs, missing_ranges r = Ret rs
    ∧ rs ≫= span = filter (lacks (r_have r)) (seqZ 0 (o_total_chunks o))
    ∧ Forall (window_ok (o_total_chunks o)) rs.
Proof.
  intros Ho Ht. unfold missing_ranges, total_of. rewrite Ho.
  assert (E : wrap 32 (o_total_chunks o) = o_total_chunks o)
    by (unfold wrap; apply Z.mod_small; unfold max_total, MAX_RANGE_CHUNKS in *; lia).
  rewrite E. destruct (missing_loop_spec (r_have r) (o_total_chunks o) 0 None) as (rs & Er & Es & Hok); [lia..|done|].
  rewrite !Z.sub_0_r in *. eauto.
Qed.

(** The requests of a receiver. For files of up to [max_total] chunks the
    ranges cover exactly the chunks not held, in order, each non-empty and at
    most 64 long; the loop ends. *)
Theorem missing_ranges_spec r o :
  r_offer r = Some o → 0 <= o_total_chunks o <= max_total →
  ∃ rs, missing_ranges r = Ret rs
    ∧ rs ≫= span = filter (lacks (r_have r)) (seqZ 0 (o_total_chunks o))
    ∧ Forall (window_ok (o_total_chunks o)) rs.
Proof. apply missing_ranges_any. Qed.

Lemma split_run_diverges fuel s : 0 <= s < 2 ^ 32 → s mod 64 = 0 → split_run fuel s (2 ^ 32 - 1) = Panic.
Proof.
  revert s. induction fuel as [|fuel IH]; intros s Hs H64; simpl.
  - rewrite (proj2 (Z.ltb_lt _ _)); [done|]. pose proof (Z.div_mod s 64). lia.
  - assert (Hlt : s < 2 ^ 32 - 1) by (pose proof (Z.div_mod s 64); lia).
    rewrite (proj2 (Z.ltb_lt _ _)) by done. simpl. rewrite IH; [done|..]; unfold wrap, MAX_RANGE_CHUNKS.
    + by apply Z.mod_pos_bound.
    + pose proof (Z.div_mod s 64). pose proof (Z.div_mod (s + 64) (2 ^ 32)). pose proof (Z.mod_pos_bound (s + 64) (2 ^ 32)).
      assert (Hd : (s + 64) mod 2 ^ 32 = (s / 64 + 1 - (2 ^ 26) * ((s + 64) / 2 ^ 32)) * 64) by lia.
      rewrite Hd. apply Z.mod_mul. lia.
Qed.

(** An offer of [u32::MAX] chunks with none held never gets its request: the
    window start wraps around and the loop that splits the run does not end,
    whatever the number of iterations allowed. *)
Theorem missing_ranges_diverges fuel : split_run fuel 0 (2 ^ 32 - 1) = Panic.
Proof. by apply split_run_diverges. Qed.

(** A receiver that holds every chunk and has verified nothing. *)
Definition full_idle (crates : Crates) name data (r : DropReceiverCore) : Prop :=
  ReceiverInv name data r ∧ r_offer r = Some (the_offer name data) ∧ Z.of_nat (size (r_have r)) = chunks_total data
  ∧ r_verified r = None ∧ r_completion r = None.

Lemma request_missing_full {crates : Crates} {dj : DropJson} name data r :
  chunks_total data <= max_total → full_idle crates name data r → request_missing r = Ret (r, []).
Proof.
  intros Hfit (I & Ho & Hsz & Hv & Hc). unfold request_missing. case_decide; [done|].
  destruct (missing_ranges_ok name data Hfit r Ho) as (rs & -> & Hs & Hok). simpl. destruct rs as [|w rs]; [done|].
  exfalso. apply Forall_cons in Hok as [(? & ? & ?) _].
  assert (Hin : w.1 ∈ filter (lacks (r_have r)) (seqZ 0 (chunks_total data))).
  { rewrite <- Hs, bind_cons. apply elem_of_app. left. apply elem_of_seqZ. lia. }
  apply list_elem_of_filter in Hin as [Hl Hr%elem_of_seqZ].
  apply (proj1 (proj2 (have_size data Hfit _ (rv_have _ _ _ I))) Hsz w.1); [lia|done].
Qed.

Lemma pull_rounds_full {crates : Crates} {dj : DropJson} name data from s ts r :
  chunks_total data <= max_total → full_idle crates name data r →
  ∃ r', pull_rounds from s ts r = Ret r' ∧ r_verified r' = None ∧ r_completion r' = None.
Proof.
  intros Hfit. revert r. induction ts as [|t ts IH]; intros r F; cbn [pull_rounds].
  { exists r. split_and!; [done|apply F..]. }
  unfold pull_round, tick. case_decide as Hd; [|by apply IH].
  assert (F' : full_idle crates name data (with_last_progress (Some t) r)).
  { destruct F as (I & ?). split; [by apply ReceiverInv_progress|done]. }
  rewrite (request_missing_full name data) by done. by apply IH.
Qed.

(** A receiver resumed with every chunk of the file never finishes: the
    offer and the timer ask for nothing, so no chunk arrives to complete it and
    neither a verdict nor the file is ever reported. *)
Theorem complete_seed_stalls {crates : Crates} {dj : DropJson} {spec : DropJsonSpec dj} from name data have t0 ts :
  let s := DropSenderCore_new name data in
  chunks_total data <= max_total → holds data have → Z.of_nat (size have) = chunks_total data →
  ∃ r, (x ← receiver_handle_frame from (offer_frame s) t0 (DropReceiverCore_new have);
        pull_rounds from s ts x.1) = Ret r
    ∧ r_verified r = None ∧ r_completion r = None.
Proof.
  intros s Hfit Hh Hsz. rewrite (offer_frame_eq name data s (SenderInv_new name data Hfit)).
  assert (I : ReceiverInv name data (DropReceiverCore_new have)) by (split; simpl; auto).
  destruct (handle_offer name data Hfit from t0 _ I) as (x & fs & -> & _). cbn [mbind outcome_bind fst].
  apply (pull_rounds_full name data); [done|]. split_and!; [by destruct I; split; simpl; auto|done..].
Qed.

Lemma request_missing_any {dj : DropJson} r o :
  r_offer r = Some o → 0 <= o_total_chunks o <= max_total →
  ∃ x fs, request_missing r = Ret (with_outstanding x r, fs).
Proof.
  intros Ho Ht. unfold request_missing. case_decide; [exists (r_outstanding r), []; by destruct r|].
  destruct (missing_ranges_any r o Ho Ht) as (rs & -> & _). simpl. destruct (head rs); [by eauto|].
  exists (r_outstanding r), []. by destruct r.
Qed.

(** An offer of a file already offered keeps what is held. *)
Lemma handle_offer_again {crates : Crates} {dj : DropJson} {spec : DropJsonSpec dj} from now o r :
  is_u64 (o_size o) → is_u64 (o_chunk_size o) → 0 <= o_total_chunks o <= max_total →
  match r_offer r with Some p => o_sha256 p = o_sha256 o ∧ o_size p = o_size o | None => True end →
  ∃ x fs, receiver_handle_frame from (TYPE_OFFER :: offer_to_vec o) now r
    = Ret (with_outstanding x (with_last_progress (Some now) (with_sender_addr (Some from) (with_offer (Some o) r))), fs).
Proof.
  intros H1 H2 H3 Hp. unfold receiver_handle_frame. rewrite decide_True by done.
  rewrite offer_roundtrip by (try done; unfold is_u64, max_total, MAX_RANGE_CHUNKS in *; lia). cbv zeta.
  replace (match r_offer r with
           | Some prev => if decide (o_sha256 o ≠ o_sha256 prev ∨ o_size o ≠ o_size prev)
                          then with_verified None (with_have ∅ r) else r
           | None => r end) with r
    by (destruct (r_offer r) as [p|]; [destruct Hp; rewrite decide_False by naive_solver|]; done).
  edestruct request_missing_any as (x & fs & ->); [done|done|]. eauto.
Qed.

(** A missing chunk stops [finish], whatever the size. *)
Lemma finish_hole {crates : Crates} {dj : DropJson} r o :
  r_offer r = Some o → collect (r_have r) (seqZ 0 (wrap 32 (o_total_chunks o))) = Panic → finish r = Panic.
Proof. intros Ho E. unfold finish. rewrite Ho. simpl. rewrite E. by destruct (_ <? _). Qed.

(** A sender can make the receiver task panic. Offering the same file again
    with fewer chunks keeps the chunks already held, and once as many chunks
    are held as the new offer counts, assembling the file indexes one that is
    missing. *)
Theorem reoffer_panics {crates : Crates} {dj : DropJson} {spec : DropJsonSpec dj} from now name size sha c0 c2 :
  is_u64 size →
  let offer n := TYPE_OFFER :: offer_to_vec (mkOffer name size CHUNK_SIZE n sha) in
  let chunk i c := TYPE_CHUNK :: to_be_bytes 4 i ++ c in
  deliver_all from now [offer 3; chunk 2 c2; offer 2; chunk 0 c0] (DropReceiverCore_new ∅) = Panic.
Proof.
  intros Hs offer chunk. cbn [deliver_all]. subst offer. cbv beta.
  destruct (handle_offer_again from now (mkOffer name size CHUNK_SIZE 3 sha) (DropReceiverCore_new ∅)) as (x & fs & ->);
    [done..|]. cbn [mbind outcome_bind fst].
  set (r1 := with_outstanding x _).
  assert (E2 : ∃ y fs2, receiver_handle_frame from (chunk 2 c2) now r1
    = Ret (with_outstanding y (with_have {[2 := c2]} r1), fs2)).
  { change (chunk 2 c2) with (TYPE_CHUNK :: [Byte.x00; Byte.x00; Byte.x00; Byte.x02] ++ c2).
    unfold receiver_handle_frame. rewrite decide_False by done. rewrite decide_True by done. simpl.
    change (drop 0 c2) with c2.
    destruct (match x with Some _ => _ | None => _ end).
    - edestruct (request_missing_any (with_last_progress (Some now) (with_have (<[2:=c2]> ∅) r1)))
        as (y & fs2 & E); [done|done|]. eexists _, _. exact E.
    - exists x, []. done. }
  destruct E2 as (y & fs2 & ->). cbn [mbind outcome_bind fst].
  set (r2 := with_outstanding y (with_have {[2 := c2]} r1)).
  destruct (handle_offer_again from now (mkOffer name size CHUNK_SIZE 2 sha) r2) as (z & fs3 & ->); [done..|]. cbn [mbind outcome_bind fst].
  set (r3 := with_outstanding z _). change (chunk 0 c0) with (TYPE_CHUNK :: [Byte.x00; Byte.x00; Byte.x00; Byte.x00] ++ c0).
  assert (E3 : receiver_handle_frame from (TYPE_CHUNK :: [Byte.x00; Byte.x00; Byte.x00; Byte.x00] ++ c0) now r3
    = finish (with_last_progress (Some now) (with_have {[0 := c0; 2 := c2]} r3))).
  { unfold receiver_handle_frame. rewrite decide_False by done. by rewrite decide_True by done. }
  rewrite E3, (finish_hole _ (mkOffer name size CHUNK_SIZE 2 sha)) by done. done.
Qed.

(** ** What stops a receiver task *)

(** An offer of more chunks than the request loop can count, or of a size that cannot be
    allocated. *)
Definition offer_hazard (o : OfferPayload) : Prop := max_total < wrap 32 (o_total_chunks o) ∨ isize_max < o_size o.

(** Such an offer is there or arrives, or a chunk is held that the offer has no room for:
    one of an earlier offer of the same file, or of the chunks the task was resumed with. *)
Definition drop_hazard {dj : DropJson} (frame : option bytes) (r : DropReceiverCore) : Prop :=
  (∃ o, (r_offer r = Some o ∨ ∃ body, frame = Some (TYPE_OFFER :: body) ∧ offer_from_slice body = Some o) ∧ offer_hazard o)
  ∨ ¬ within (total_of r) (r_have r).

Lemma wrap32_bounds z : 0 <= wrap 32 z < 2 ^ 32.
Proof. unfold wrap. apply Z.mod_pos_bound. lia. Qed.

Lemma request_missing_fails {dj : DropJson} r :
  request_missing r = Panic → ∃ o, r_offer r = Some o ∧ offer_hazard o.
Proof.
  unfold request_missing. case_decide as Hd; [done|]. destruct (r_offer r) as [o|] eqn:Ho; [|naive_solver]. intros E.
  exists o. split; [done|]. left. apply Z.nle_gt. intros Hle. unfold missing_ranges, total_of in E. rewrite Ho in E.
  pose proof (wrap32_bounds (o_total_chunks o)).
  destruct (missing_loop_spec (r_have r) (wrap 32 (o_total_chunks o)) 0 None) as (rs & Er & _); [lia..|done|].
  rewrite Z.sub_0_r in Er. rewrite Er in E. simpl in E. by destruct (head rs).
Qed.

Lemma collect_total have is_ : (∀ i, i ∈ is_ → ¬ lacks have i) → ∃ data, collect have is_ = Ret data.
Proof.
  induction is_ as [|i is_ IH]; intros H; [by eexists|]. simpl. destruct (have !! i) as [c|] eqn:E; [|destruct (H i); [by left|done]].
  destruct IH as [data ->]; [set_solver|]. by eexists.
Qed.

Lemma finish_fails {crates : Crates} {dj : DropJson} r o :
  r_offer r = Some o → wrap 32 (Z.of_nat (size (r_have r))) = wrap 32 (o_total_chunks o) → finish r = Panic →
  offer_hazard o ∨ ¬ within (total_of r) (r_have r).
Proof.
  intros Ho Hsz. unfold finish. rewrite Ho. simpl. destruct (Z.ltb_spec isize_max (o_size o)); [by left; right|]. intros E. right. intros Hw.
  unfold total_of in Hw. rewrite Ho in Hw. pose proof (wrap32_bounds (o_total_chunks o)).
  destruct (within_size (wrap 32 (o_total_chunks o)) (r_have r)) as [Hle Hfull]; [lia|done|].
  assert (Ew : wrap 32 (Z.of_nat (size (r_have r))) = Z.of_nat (size (r_have r))) by (unfold wrap in *; rewrite Z.mod_small; lia).
  destruct (collect_total (r_have r) (seqZ 0 (wrap 32 (o_total_chunks o)))) as [data Ed]; [|by rewrite Ed in E].
  intros i Hi%elem_of_seqZ. apply Hfull; lia.
Qed.

(** A receiver fails on a frame, or on its timer, only in these cases. *)
Lemma receiver_handle_frame_fails {crates : Crates} {dj : DropJson} from frame now r :
  receiver_handle_frame from frame now r = Panic → drop_hazard (Some frame) r.
Proof.
  destruct frame as [|ty body]; [done|]. unfold receiver_handle_frame. case_decide as Ho; [subst ty|].
  - destruct (offer_from_slice body) as [o|] eqn:Eo; [|done]. intros (o' & E & Hz)%request_missing_fails. simpl in E. injection E as <-.
    left. exists o. split; [right; by exists body|done].
  - case_decide; [subst ty|done]. destruct (r_offer r) as [o|] eqn:Er; [|done]. destruct (_ <? 4)%nat; [done|]. cbv zeta.
    set (i := from_be_bytes _). set (total := wrap 32 (o_total_chunks o)). destruct (Z.leb_spec total i) as [|Hi]; [done|].
    set (r1 := match r_have r !! i with Some _ => r | None => _ end).
    assert (H1 : r_offer r1 = Some o ∧ (¬ within (total_of r1) (r_have r1) → ¬ within (total_of r) (r_have r))).
    { unfold r1. destruct (r_have r !! i) eqn:Ei; [done|]. split; [done|]. unfold total_of. simpl. rewrite Er. intros Hn Hw. apply Hn.
      intros j c [[<- <-]|[_ Hj]]%lookup_insert_Some; [|by eapply Hw]. split; [apply from_be_bytes_range|done]. }
    clearbody r1. destruct H1 as [Ho1 Hw1]. destruct (Z.eqb_spec (wrap 32 (Z.of_nat (size (r_have r1)))) total) as [Hs|_].
    + intros [Hz|Hw]%(finish_fails r1 o Ho1 Hs); [left; exists o; by split; [left|]|right; auto].
    + destruct (match r_outstanding r1 with Some _ => _ | None => _ end); [|done].
      intros (o' & E & Hz)%request_missing_fails. rewrite Ho1 in E. injection E as <-. left. exists o. by split; [left|].
Qed.

Lemma receiver_packet_fails {crates : Crates} {dj : DropJson} now from seq payload d :
  receiver_packet now from seq payload d = Panic → drop_hazard (Some payload) (dr_core d).
Proof.
  unfold receiver_packet. destruct (replay_stale _ _ _) as [wm []]; [done|].
  destruct (receiver_handle_frame _ _ _ _) eqn:E; [|done]. intros _. by eapply receiver_handle_frame_fails.
Qed.

Lemma receiver_tick_fails {dj : DropJson} now d : receiver_tick now d = Panic → drop_hazard None (dr_core d).
Proof.
  unfold receiver_tick, tick. case_decide; [|done]. destruct (request_missing _) as [|] eqn:E; [|done]. intros _.
  apply request_missing_fails in E as (o & Ho & Hz). left. exists o. split; [by left|done].
Qed.

(** A sender can make the receiver task panic with the size of its offer alone: one chunk,
    of more bytes than a vector can hold. *)
Lemma huge_offer_panics {crates : Crates} {dj : DropJson} {spec : DropJsonSpec dj} from now name sha c :
  deliver_all from now [TYPE_OFFER :: offer_to_vec (mkOffer name u64_max CHUNK_SIZE 1 sha); TYPE_CHUNK :: to_be_bytes 4 0 ++ c]
    (DropReceiverCore_new ∅) = Panic.
Proof.
  cbn [deliver_all]. destruct (handle_offer_again from now (mkOffer name u64_max CHUNK_SIZE 1 sha) (DropReceiverCore_new ∅)) as (x & fs & ->);
    [done..|]. cbn [mbind outcome_bind fst].
  change (TYPE_CHUNK :: to_be_bytes 4 0 ++ c) with (TYPE_CHUNK :: [Byte.x00; Byte.x00; Byte.x00; Byte.x00] ++ c).
  unfold receiver_handle_frame. rewrite decide_False by done. by rewrite decide_True by done.
Qed.

(** ** Witnesses *)

#[local] Instance offer_eq_dec : EqDecision OfferPayload.
Proof. solve_decision. Defined.

#[local] Instance offer_countable : Countable OfferPayload.
Proof.
  refine (inj_countable' (λ o, (o_name o, o_size o, o_chunk_size o, o_total_chunks o, o_sha256 o))
            (λ x, mkOffer x.1.1.1.1 x.1.1.1.2 x.1.1.2 x.1.2 x.2) _).
  by intros [].
Defined.

(** Bodies as the bits of a number: the laws of [DropJsonSpec] can hold. *)
Definition sample_json : DropJson := {|
  offer_to_vec o := bits_of (encode o);
  offer_from_slice l := decode (of_bits l);
  request_to_vec rs := bits_of (encode rs);
  request_from_slice l := decode (of_bits l);
  done_to_vec h := bits_of (encode h);
  done_from_slice l := decode (of_bits l);
|}.

#[local] Instance sample_json_spec : DropJsonSpec sample_json.
Proof. split; intros; simpl; rewrite of_bits_bits; apply decode_encode. Qed.

#[local] Existing Instance sample_crates.
#[local] Existing Instance sample_json.

(** A file of three chunks, the second of which is already held. *)
Definition sample_file : bytes := replicate 1024 Byte.x61 ++ replicate 1024 Byte.x62 ++ [Byte.x63].
Definition sample_have : gmap Z bytes := {[1 := replicate 1024 Byte.x62]}.

Lemma sample_have_holds : holds sample_file sample_have.
Proof. unfold sample_have. intros i c [<- <-]%lookup_singleton_Some. split; by vm_compute. Qed.

(** A file of one chunk. *)
Definition small_file : bytes := [Byte.x61; Byte.x62].

Lemma drop_transfer_sound_witness :
  ∃ n, drop_run "s" "r" [EvOffer; EvToReceiver 0 1 0; EvToSender 0 1; EvToReceiver 1 2 10; EvToSender 1 2]
         (drop_start "f" small_file ∅) = Ret n
    ∧ length (dn_results n) = 1%nat ∧ dn_verdicts n = [true] ∧ Forall (λ x, x = (small_file, true)) (dn_results n).
Proof.
  set (es := [EvOffer; EvToReceiver 0 1 0; EvToSender 0 1; EvToReceiver 1 2 10; EvToSender 1 2]).
  destruct (drop_transfer_sound "s" "r" "f" small_file ∅ es) as (n & E & H & _).
  - by vm_compute.
  - intros i c Hc. by rewrite lookup_empty in Hc.
  - exists n. split; [exact E|]. assert (Hn : length (dn_results n) = 1%nat ∧ dn_verdicts n = [true]).
    { replace n with (match drop_run "s" "r" es (drop_start "f" small_file ∅) with Ret n => n | Panic => n end) by (by rewrite E).
      clear. vm_compute. split; reflexivity. }
    destruct Hn as [H1 H2]. exact (conj H1 (conj H2 H)).
Defined.

Lemma drop_completes_witness :
  ∃ r, (x ← receiver_handle_frame "s" (offer_frame (DropSenderCore_new "f" sample_file)) 0 (DropReceiverCore_new sample_have);
        pull_rounds "s" (DropSenderCore_new "f" sample_file) [1001; 2002] x.1) = Ret r
    ∧ r_verified r = Some true ∧ r_completion r = Some (sample_file, true).
Proof.
  apply (drop_completes "s" "f" sample_file sample_have 0 [1001; 2002]).
  - by vm_compute.
  - apply sample_have_holds.
  - by vm_compute.
  - by vm_compute.
  - by vm_compute.
Defined.

Lemma missing_ranges_spec_witness :
  ∃ rs, missing_ranges (with_offer (Some (mkOffer "f" 2049 1024 3 [])) (DropReceiverCore_new sample_have)) = Ret rs
    ∧ rs ≫= span = [0; 2].
Proof.
  destruct (missing_ranges_spec (with_offer (Some (mkOffer "f" 2049 1024 3 [])) (DropReceiverCore_new sample_have))
    (mkOffer "f" 2049 1024 3 [])) as (rs & E & Hs & _).
  - done.
  - by vm_compute.
  - exists rs. split; [done|]. rewrite Hs. by vm_compute.
Defined.

Lemma complete_seed_stalls_witness :
  ∃ r, (x ← receiver_handle_frame "s" (offer_frame (DropSenderCore_new "f" [Byte.x61])) 0
              (DropReceiverCore_new {[0 := [Byte.x61]]});
        pull_rounds "s" (DropSenderCore_new "f" [Byte.x61]) [5000; 10000] x.1) = Ret r
    ∧ r_verified r = None ∧ r_completion r = None.
Proof.
  apply (complete_seed_stalls "s" "f" [Byte.x61] {[0 := [Byte.x61]]} 0 [5000; 10000]).
  - by vm_compute.
  - intros i c [<- <-]%lookup_singleton_Some. split; by vm_compute.
  - by vm_compute.
Defined.

Lemma reoffer_panics_witness :
  deliver_all "s" 0 [TYPE_OFFER :: offer_to_vec (mkOffer "f" 9 CHUNK_SIZE 3 []); TYPE_CHUNK :: to_be_bytes 4 2 ++ [];
    TYPE_OFFER :: offer_to_vec (mkOffer "f" 9 CHUNK_SIZE 2 []); TYPE_CHUNK :: to_be_bytes 4 0 ++ []]
    (DropReceiverCore_new ∅) = Panic.
Proof. apply (reoffer_panics "s" 0 "f" 9 [] [] []). by vm_compute. Defined.
