(* ===== verification/WireTests.v ===== *)
(** The unit tests of the wire formats ([mod tests] of [rust/telesthete/src/wire/stream.rs],
    [wire/dmabuf.rs] and [wire/fragment.rs], and those of [ChannelFrame] in [channel.rs]),
    replayed against the model, with the vectors of [tests/vectors.json] they read. A
    failed assertion is a panic. Three tests of the reassembler are left out for their size:
    the interleaved 30 MB messages, the 16394 chunks of one byte and the one that overflows
    the memory of evictions. *)

From S2P Require Import Prelude Text HubFrame StreamWire Fragment Channel.

Definition assert (b : bool) : outcome () := if b then Ret () else Panic.
Definition assert_eq {A} `{EqDecision A} (x y : A) : outcome () := assert (bool_decide (x = y)).
Definition passes (t : outcome ()) : bool := match t with Ret _ => true | Panic => false end.

(** [unwrap] of a result. *)
Definition ok {A E} (r : result A E) : outcome A := match r with Ok a => Ret a | Err _ => Panic end.

#[local] Instance StreamHeader_eq_dec : EqDecision StreamHeader.
Proof. solve_decision. Defined.
#[local] Instance DmabufPlane_eq_dec : EqDecision DmabufPlane.
Proof. solve_decision. Defined.
#[local] Instance DmabufDescriptor_eq_dec : EqDecision DmabufDescriptor.
Proof. solve_decision. Defined.
#[local] Instance ChannelFrame_eq_dec : EqDecision ChannelFrame.
Proof. solve_decision. Defined.

(** * Stream header *)

Definition stream_round_trip : bool := passes (
  let h := mkStreamHeader (Z.lor FLAG_KEYFRAME FLAG_END_FRAME) 0xDEADBEEF in
  '(buf, off) ← ok (StreamHeader_write h (replicate (STREAM_HEADER_LEN + 3) Byte.x00));
  assert_eq off STREAM_HEADER_LEN;;
  '(parsed, rest) ← ok (StreamHeader_parse (put_at off (str_bytes "abc") buf));
  assert_eq parsed h;; assert_eq rest (str_bytes "abc")).

Definition parses_v1_1_flag_bits : bool := passes (
  let h := mkStreamHeader (Z.lor FLAG_DMABUF (Z.lor FLAG_WITH_FENCE FLAG_END_FRAME)) 7 in
  '(buf, _) ← ok (StreamHeader_write h (replicate STREAM_HEADER_LEN Byte.x00));
  '(parsed, _) ← ok (StreamHeader_parse buf);
  assert_eq parsed h;;
  assert (flags_contains (sh_flags parsed) FLAG_DMABUF);;
  assert (flags_contains (sh_flags parsed) FLAG_WITH_FENCE);;
  assert (negb (flags_contains (sh_flags parsed) FLAG_REUSE))).

Definition rejects_reserved_nonzero : bool := passes (
  let buf := put_at 2 [Byte.x01] (replicate STREAM_HEADER_LEN Byte.x00) in
  assert (match StreamHeader_parse buf with Err ReservedNonzero => true | _ => false end)).

(** * dmabuf descriptor *)

Definition fourcc (s : string) : Z := from_le_bytes (str_bytes s).
Definition XR24 : Z := fourcc "XR24".
Definition one_plane (stride : Z) : list DmabufPlane := [mkPlane 0 stride 0].
Definition tiny (planes : list DmabufPlane) (fd_count : Z) : DmabufDescriptor := mkDmabuf 1 1 XR24 0 planes fd_count.
Definition written (d : DmabufDescriptor) : outcome (bytes * nat) :=
  ok (Dmabuf_write d (replicate (encoded_len (length (db_planes d))) Byte.x00)).

Definition xr24_single_plane_round_trip : bool := passes (
  let desc := mkDmabuf 1920 1080 XR24 0 (one_plane (1920 * 4)) 1 in
  '(buf, n) ← written desc;
  assert_eq n (length buf);; assert_eq n 31;;
  parsed ← ok (Dmabuf_parse buf);
  assert_eq parsed desc).

Definition nv12_two_plane_round_trip : bool := passes (
  let desc := mkDmabuf 3840 2160 (fourcc "NV12") 0xFFFF000102030405 [mkPlane 0 3840 0; mkPlane (3840 * 2160) 3840 0] 1 in
  '(buf, _) ← written desc;
  parsed ← ok (Dmabuf_parse buf);
  assert_eq parsed desc;; assert_eq (length buf) 40).

Definition fourcc_endianness_matches_drm_ascii : bool := passes (
  let desc := tiny (one_plane 4) 1 in
  '(buf, _) ← written desc;
  assert_eq (slice 8 12 buf) (str_bytes "XR24");;
  assert_eq (fourcc_to_str (db_fourcc desc)) (str_bytes "XR24")).

Definition check_flags_with_fence_offsets_plane_fd_budget : bool := passes (
  _ ← ok (Dmabuf_check_flags (tiny (one_plane 4) 2) (Z.lor FLAG_DMABUF FLAG_WITH_FENCE)); Ret ()).

Definition check_flags_reuse_requires_zero_fds : bool := passes (
  _ ← ok (Dmabuf_check_flags (tiny (one_plane 4) 0) (Z.lor FLAG_DMABUF FLAG_REUSE));
  assert (match Dmabuf_check_flags (tiny (one_plane 4) 1) (Z.lor FLAG_DMABUF FLAG_REUSE) with Err (ReuseFdMismatch 1) => true | _ => false end);;
  _ ← ok (Dmabuf_check_flags (tiny (one_plane 4) 1) (Z.lor FLAG_DMABUF (Z.lor FLAG_REUSE FLAG_WITH_FENCE))); Ret ()).

Definition rejects_zero_planes : bool := passes (
  let buf := replicate DMABUF_HEADER_BYTES Byte.x00 in
  assert (match Dmabuf_parse buf with Err (PlaneCountOutOfRange 0) => true | _ => false end);;
  assert (match Dmabuf_parse (put_at 20 [z2b (MAX_PLANES + 1)] buf) with Err (PlaneCountOutOfRange _) => true | _ => false end)).

Definition write_rejects_260_planes_instead_of_truncating : bool := passes (
  let desc := tiny (replicate 260 (mkPlane 0 4 0)) 1 in
  assert (match Dmabuf_write desc (replicate (encoded_len 260) Byte.x00) with Err (PlaneCountOutOfRange _) => true | _ => false end)).

Definition write_rejects_fd_count_above_packet_max : bool := passes (
  assert (match Dmabuf_write (tiny (one_plane 4) 200) (replicate (encoded_len 1) Byte.x00) with Err (FdCountOutOfRange 200) => true | _ => false end)).

Definition parse_rejects_fd_count_above_packet_max : bool := passes (
  '(buf, _) ← written (tiny (one_plane 4) 1);
  assert (match Dmabuf_parse (put_at 21 [z2b 200] buf) with Err (FdCountOutOfRange 200) => true | _ => false end)).

Definition rejects_truncated_plane_table : bool := passes (
  '(buf, _) ← written (tiny (one_plane 4) 1);
  assert (match Dmabuf_parse (take (length buf - 1) buf) with Err (DmaTooShort _ _) => true | _ => false end)).

(** [for_all] over the vectors. *)
Fixpoint for_all {A} (xs : list A) (f : A → outcome ()) : outcome () := match xs with [] => Ret () | x :: xs' => f x;; for_all xs' f end.

Definition stream_header_vectors : list (Z * Z * string) := [(1, 0, "0100000000000000"%string); (6, 3735928559, "06000000deadbeef"%string); (48, 7, "3000000000000007"%string); (8, 16909060, "0800000001020304"%string)]%Z.
Definition dmabuf_vectors : list (DmabufDescriptor * string) :=
  [(mkDmabuf 1920 1080 (fourcc "XR24") 0x0000000000000000 [mkPlane 0 7680 0] 1, "000007800000043858523234000000000000000001010000000000001e0000"%string);
   (mkDmabuf 3840 2160 (fourcc "NV12") 0xffff000102030405 [mkPlane 0 3840 0; mkPlane 8294400 3840 0] 2, "00000f00000008704e563132ffff00010203040502020000000000000f0000007e900000000f0000"%string)]%Z.

Definition dmabuf_conformance_vectors_match_python : bool := passes (
  for_all stream_header_vectors (λ '(flags, id, packed),
    f ← unwrap (StreamFlags_from_bits flags);
    '(buf, _) ← ok (StreamHeader_write (mkStreamHeader f id) (replicate STREAM_HEADER_LEN Byte.x00));
    assert_eq (to_hex buf) (str_bytes packed));;
  for_all dmabuf_vectors (λ '(desc, packed),
    '(buf, _) ← written desc;
    assert_eq (to_hex buf) (str_bytes packed);;
    parsed ← ok (Dmabuf_parse buf);
    assert_eq parsed desc)).

Definition layout_tests : list bool :=
  [stream_round_trip; parses_v1_1_flag_bits; rejects_reserved_nonzero; xr24_single_plane_round_trip; nv12_two_plane_round_trip;
   fourcc_endianness_matches_drm_ascii; check_flags_with_fence_offsets_plane_fd_budget; check_flags_reuse_requires_zero_fds;
   rejects_zero_planes; write_rejects_260_planes_instead_of_truncating; write_rejects_fd_count_above_packet_max;
   parse_rejects_fd_count_above_packet_max; rejects_truncated_plane_table; dmabuf_conformance_vectors_match_python].

Lemma layout_tests_pass : Forall (eq true) layout_tests.
Proof. vm_compute. repeat constructor. Qed.

(** * Fragments *)

Definition FID : bytes := replicate 16 Byte.x07.

(** A reassembler fed at one moment. *)
Definition feeds (c : bytes) (r : Reassembler) : outcome (Reassembler * option bytes) := feed 0 c r.
Definition none (x : option bytes) : outcome () := assert (negb (bool_decide (is_Some x))).
Definition some (x : option bytes) (want : bytes) : outcome () := assert_eq x (Some want).
Definition chunk (cs : list bytes) (i : nat) : bytes := default [] (cs !! i).
(** The bytes [i % m] for [i] below [n]. *)
Definition cycle (m n : nat) : bytes := take n (concat (replicate (S (n / m)) (z2b <$> seqZ 0 (Z.of_nat m)))).
Definition counting : nat → bytes := cycle 256.
Definition held (r : Reassembler) : nat * Z := (pending r, buffered_bytes r).

Definition single_chunk_round_trip : bool := passes (
  cs ← fragment (str_bytes "hello") MAX_CHUNK_PAYLOAD FID;
  assert_eq (length cs) 1;;
  '(_, o) ← feeds (chunk cs 0) Reassembler_new; some o (str_bytes "hello")).

Definition empty_message_uses_envelope : bool := passes (
  cs ← fragment [] MAX_CHUNK_PAYLOAD FID;
  assert_eq (length cs) 1;; assert_eq (length (chunk cs 0)) FRAG_HEADER_LEN;;
  '(_, o) ← feeds (chunk cs 0) Reassembler_new; some o []).

Definition multi_chunk_round_trip_any_order : bool := passes (
  let payload := counting (Z.to_nat MAX_CHUNK_PAYLOAD * 2 + 5) in
  cs ← fragment payload MAX_CHUNK_PAYLOAD FID;
  assert_eq (length cs) 3;;
  '(r, o) ← feeds (chunk cs 2) Reassembler_new; none o;;
  '(r, o) ← feeds (chunk cs 0) r; none o;;
  '(_, o) ← feeds (chunk cs 1) r; some o payload).

Definition rejects_garbage_and_duplicates : bool := passes (
  '(r, o) ← feeds (str_bytes "short") Reassembler_new; none o;;
  cs ← fragment [Byte.x01; Byte.x02; Byte.x03; Byte.x04] 2 FID;
  '(r, o) ← feeds (chunk cs 0) r; none o;;
  '(r, o) ← feeds (chunk cs 0) r; none o;;
  '(_, o) ← feeds (chunk cs 1) r; some o [Byte.x01; Byte.x02; Byte.x03; Byte.x04]).

Definition ck (fid : byte) (sq tot : Z) (d : bytes) : bytes := pack_chunk (replicate 16 fid) sq tot d.

Fixpoint feed_each (r : Reassembler) (cs : list bytes) (out : option bytes) : outcome (Reassembler * option bytes) :=
  match cs with
  | [] => Ret (r, out)
  | c :: cs' => '(r, m) ← feeds c r; feed_each r cs' (match m with Some _ => m | None => out end)
  end.

Definition rejects_oversize_chunk_but_not_single_chunk_messages : bool := passes (
  '(r, o) ← feeds (ck Byte.x02 0 2 (replicate (Z.to_nat MAX_CHUNK_PAYLOAD + 1) Byte.x78)) Reassembler_new; none o;;
  assert_eq (held r) (0, 0%Z);;
  let y := replicate (Z.to_nat MAX_CHUNK_PAYLOAD) Byte.x79 in
  '(r, o) ← feeds (ck Byte.x02 0 2 y) r; none o;;
  '(_, o) ← feeds (ck Byte.x02 1 2 (str_bytes "z")) r; some o (y ++ str_bytes "z");;
  let big := replicate 1400 Byte.x71 in
  '(r, o) ← feeds (ck Byte.x03 0 1 big) (with_max_buffered_bytes (Some 10%Z) Reassembler_new); some o big;;
  assert_eq (held r) (0, 0%Z)).

Definition rejects_declared_total_above_max_fragments : bool := passes (
  '(r, o) ← feeds (ck Byte.x05 0 (DEFAULT_MAX_FRAGMENTS + 1) (str_bytes "a")) Reassembler_new; none o;;
  assert_eq (pending r) 0;;
  '(r, o) ← feeds (ck Byte.x06 0 4 (str_bytes "a")) (with_max_fragments 3 Reassembler_new); none o;;
  cs ← fragment (str_bytes "abc") 1 (replicate 16 Byte.x06);
  '(_, o) ← feed_each r cs None; some o (str_bytes "abc")).

Definition byte_budget_evicts_oldest_and_remembers_it : bool := passes (
  '(r, o) ← feeds (ck Byte.x0a 0 2 (str_bytes "aaaa")) (with_max_buffered_bytes (Some 10%Z) Reassembler_new); none o;;
  '(r, o) ← feeds (ck Byte.x0b 0 2 (str_bytes "bbbb")) r; none o;;
  assert_eq (buffered_bytes r) 8%Z;;
  '(r, o) ← feeds (ck Byte.x0c 0 2 (str_bytes "cccc")) r; none o;;
  assert_eq (held r) (2, 8%Z);;
  '(r, o) ← feeds (ck Byte.x0a 1 2 (str_bytes "A")) r; none o;;
  assert_eq (pending r) 2;;
  '(r, o) ← feeds (ck Byte.x0b 1 2 (str_bytes "B")) r; some o (str_bytes "bbbbB");;
  '(r, o) ← feeds (ck Byte.x0c 1 2 (str_bytes "C")) r; some o (str_bytes "ccccC");;
  assert_eq (held r) (0, 0%Z)).

Definition message_that_cannot_fit_is_dropped_and_remembered : bool := passes (
  '(r, o) ← feeds (ck Byte.x0d 0 3 (str_bytes "1234")) (with_max_buffered_bytes (Some 6%Z) Reassembler_new); none o;;
  '(r, o) ← feeds (ck Byte.x0d 1 3 (str_bytes "5678")) r; none o;;
  '(r, o) ← feeds (ck Byte.x0d 2 3 (str_bytes "9")) r; none o;;
  assert_eq (held r) (0, 0%Z);;
  '(r, o) ← feeds (ck Byte.x0e 0 2 (str_bytes "kk")) r; none o;;
  '(r, o) ← feeds (ck Byte.x0f 0 2 (replicate 7 Byte.x78)) r; none o;;
  assert_eq (held r) (1, 2%Z)).

Definition buffer_limit_eviction_is_remembered : bool := passes (
  '(r, o) ← feeds (ck Byte.x22 0 2 (str_bytes "a")) (with_buffer_limit 1 Reassembler_new); none o;;
  '(r, o) ← feeds (ck Byte.x23 0 2 (str_bytes "b")) r; none o;;
  '(r, o) ← feeds (ck Byte.x22 1 2 (str_bytes "A")) r; none o;;
  '(_, o) ← feeds (ck Byte.x23 1 2 (str_bytes "B")) r; some o (str_bytes "bB")).

Definition timeout_discards_partials_and_forgets_evictions : bool := passes (
  '(r, o) ← feed 0 (ck Byte.x24 0 2 (str_bytes "a")) (with_timeout 30 (with_buffer_limit 1 Reassembler_new)); none o;;
  '(r, o) ← feed 0 (ck Byte.x25 0 2 (str_bytes "b")) r; none o;;
  '(r, o) ← feed 50 (ck Byte.x24 0 2 (str_bytes "x")) r; none o;;
  assert_eq (pending r) 1;;
  '(r, o) ← feed 50 (ck Byte.x24 1 2 (str_bytes "y")) r; some o (str_bytes "xy");;
  assert_eq (buffered_bytes r) 0%Z).

Definition total_change_resets_accounting : bool := passes (
  '(r, o) ← feeds (ck Byte.x10 0 3 (str_bytes "abc")) (with_max_buffered_bytes (Some 100%Z) Reassembler_new); none o;;
  '(r, o) ← feeds (ck Byte.x10 0 2 (str_bytes "de")) r; none o;;
  assert_eq (held r) (1, 2%Z);;
  '(r, o) ← feeds (ck Byte.x10 1 2 (str_bytes "f")) r; some o (str_bytes "def");;
  assert_eq (buffered_bytes r) 0%Z).

(** The bytes of a hexadecimal string. *)
Fixpoint from_hex (s : bytes) : bytes :=
  match s with
  | a :: b :: s' => match hex_val a, hex_val b with Some x, Some y => z2b (16 * x + y) :: from_hex s' | _, _ => [] end
  | _ => []
  end.

Definition fragment_vectors : list (bytes * bytes * Z * list bytes) :=
  [(str_bytes "07070707070707070707070707070707", to_hex (counting 2011), 1003%Z,
    [str_bytes "010707070707070707070707070707070700000003" ++ to_hex (slice 0 1003 (counting 2011));
     str_bytes "010707070707070707070707070707070700010003" ++ to_hex (slice 1003 2006 (counting 2011));
     str_bytes "010707070707070707070707070707070700020003" ++ to_hex (slice 2006 2011 (counting 2011))]);
   (str_bytes "07070707070707070707070707070707", str_bytes "", 1003%Z, [str_bytes "010707070707070707070707070707070700000001"]);
   (str_bytes "abababababababababababababababab", str_bytes "01020304", 2%Z, [str_bytes "01abababababababababababababababab000000020102"; str_bytes "01abababababababababababababababab000100020304"])].

Definition fragment_conformance_vectors_match_python : bool := passes (
  for_all fragment_vectors (λ '(fid, payload, chunk_size, want),
    got ← fragment (from_hex payload) chunk_size (from_hex fid);
    assert_eq (to_hex <$> got) want;;
    '(_, out) ← feed_each Reassembler_new got None;
    some out (from_hex payload))).

Definition fragment_tests : list bool :=
  [single_chunk_round_trip; empty_message_uses_envelope; multi_chunk_round_trip_any_order; rejects_garbage_and_duplicates;
   rejects_oversize_chunk_but_not_single_chunk_messages; rejects_declared_total_above_max_fragments;
   byte_budget_evicts_oldest_and_remembers_it; message_that_cannot_fit_is_dropped_and_remembered; buffer_limit_eviction_is_remembered;
   timeout_discards_partials_and_forgets_evictions; total_change_resets_accounting;
   fragment_conformance_vectors_match_python].

Lemma fragment_tests_pass : Forall (eq true) fragment_tests.
Proof. vm_compute. repeat constructor. Qed.

(** * Channel frames *)

Definition frame_round_trip : bool := passes (
  let f := mkFrame FLAG_ACK 42 32 7 (str_bytes "payload") in
  assert_eq (length (frame_serialize f)) (CHANNEL_HEADER_LEN + 7);;
  assert_eq (frame_parse (frame_serialize f)) (Some f)).

Definition parse_rejects_reserved_bits_and_short : bool := passes (
  assert_eq (frame_parse (frame_serialize (mkFrame (Z.lor FLAG_ACK 0x10) 1 32 0 []))) None;;
  assert_eq (frame_parse (frame_serialize (mkFrame 0x80 1 32 0 []))) None;;
  assert_eq (frame_parse (replicate 5 Byte.x00)) None).

Definition hardcoded_vector : bool := passes (
  let f := mkFrame 4 1 32 5 (str_bytes "hello") in
  let expect := str_bytes "04000000000000000100200000000000000005" ++ to_hex (str_bytes "hello") in
  assert_eq (to_hex (frame_serialize f)) expect;;
  assert_eq (frame_parse (from_hex expect)) (Some f)).

Definition channel_frame_vectors : list (ChannelFrame * string) := [(mkFrame 1 0 32 0 (from_hex (str_bytes "")), "01000000000000000000200000000000000000"%string); (mkFrame 4 1 32 5 (from_hex (str_bytes "68656c6c6f")), "0400000000000000010020000000000000000568656c6c6f"%string)]%Z.

Definition channel_conformance_vectors_match_python : bool := passes (
  for_all channel_frame_vectors (λ '(f, want),
    assert_eq (to_hex (frame_serialize f)) (str_bytes want);;
    assert_eq (frame_parse (from_hex (str_bytes want))) (Some f))).

Definition frame_tests : list bool :=
  [frame_round_trip; parse_rejects_reserved_bits_and_short; hardcoded_vector; channel_conformance_vectors_match_python].

Lemma frame_tests_pass : Forall (eq true) frame_tests.
Proof. vm_compute. repeat constructor. Qed.
