(* ===== verification/EndpointTests.v ===== *)
(** The unit tests of the protocol cores ([mod tests] of [rust/telesthete/src/channel.rs],
    [board.rs] and [drop_channel.rs]), replayed against the model. A failed assertion is a
    panic. Hashes and JSON bodies are stand-ins of the libraries'; the tests that pin
    their values are not here, nor is the Drop test of two windows, for its size. *)

From S2P Require Import Prelude Crypto Fragment Channel Board Drop WireTests.

(** * Channel *)

Definition core : ChannelCore := ChannelCore_new DEFAULT_WINDOW DEFAULT_RTO.

Fixpoint take_in (frames : list bytes) (dst : ChannelCore) : outcome ChannelCore :=
  match frames with
  | [] => Ret dst
  | b :: frames' => f ← unwrap (frame_parse b); dst ← on_frame 0 f dst; take_in frames' dst
  end.

(** [shuttle(&mut src, &mut dst)]. *)
Definition shuttle (src dst : ChannelCore) : outcome (ChannelCore * ChannelCore) :=
  dst ← take_in (outbox src) dst; Ret (set_outbox [] src, dst).

Definition in_state (s : ConnState) (c : ChannelCore) : outcome () := assert_eq (state c) s.
Definition first_frame (c : ChannelCore) : outcome ChannelFrame := unwrap (head (outbox c) ≫= frame_parse).

Definition handshake : outcome (ChannelCore * ChannelCore) :=
  '(init, resp) ← shuttle (connect core) core;
  '(resp, init) ← shuttle resp init;
  '(init, resp) ← shuttle init resp;
  in_state Established init;; in_state Established resp;;
  Ret (init, resp).

Definition three_way_handshake_seq_and_ack : bool := passes (
  let init := connect core in
  in_state SynSent init;;
  syn ← first_frame init;
  assert_eq (f_flags syn, f_seq syn, f_ack_num syn) (FLAG_SYN, 0, 0)%Z;;
  '(init, resp) ← shuttle init core;
  in_state Established resp;;
  synack ← first_frame resp;
  assert_eq (f_flags synack, f_seq synack, f_ack_num synack) (Z.lor FLAG_SYN FLAG_ACK, 0, 1)%Z;;
  '(resp, init) ← shuttle resp init;
  in_state Established init;; assert (just_established init);;
  a ← first_frame init;
  assert_eq (f_flags a, f_ack_num a) (FLAG_ACK, 1)%Z;;
  '(_, resp) ← shuttle init resp;
  assert (negb (has_unacked resp))).

(** The random fragment id of each message. *)
Definition fid_of (i : Z) : bytes := replicate 12 Byte.x09 ++ to_be_bytes 4 i.

Fixpoint send_all_messages (i : Z) (ms : list bytes) (c : ChannelCore) : outcome ChannelCore :=
  match ms with [] => Ret c | m :: ms' => c ← send_message (fid_of i) m c; send_all_messages (i + 1) ms' c end.

Fixpoint back_and_forth (n : nat) (init resp : ChannelCore) : outcome (ChannelCore * ChannelCore) :=
  match n with
  | 0 => Ret (init, resp)
  | S n' => '(init, resp) ← shuttle init resp; '(resp, init) ← shuttle resp init; back_and_forth n' init resp
  end.

Definition reliable_in_order_delivery : bool := passes (
  '(init, resp) ← handshake;
  let ms := (λ i, replicate 3 (z2b i)) <$> seqZ 0 5 in
  init ← send_all_messages 0 ms init;
  '(_, resp) ← back_and_forth 4 init resp;
  assert_eq (delivered resp) ms).

Definition large_message_fragments_and_reassembles : bool := passes (
  '(init, resp) ← handshake;
  let msg := cycle 251 6000 in
  init ← send_message (fid_of 0) msg init;
  assert (bool_decide (1 < length (unacked init)));;
  '(_, resp) ← back_and_forth 4 init resp;
  assert_eq (delivered resp) [msg]).

Definition retransmission_recovers_lost_frame : bool := passes (
  '(init, resp) ← handshake;
  init ← send_message (fid_of 0) (str_bytes "needs-retransmit") init;
  let init := set_outbox [] init in
  assert (has_unacked init);;
  '(_, resp) ← shuttle (on_timeout init) resp;
  assert_eq (delivered resp) [str_bytes "needs-retransmit"]).

Definition rst_tears_down_and_stops_retransmitting : bool := passes (
  '(init, resp) ← handshake;
  init ← send_message (fid_of 0) (str_bytes "inflight") init;
  assert (has_unacked init);;
  '(_, init) ← shuttle (emit FLAG_RST 0 [] resp) init;
  in_state Closed init;; assert (dead init);; assert (negb (has_unacked init));;
  assert_eq (outbox (on_timeout (set_outbox [] init))) []).

Fixpoint timeouts (n : nat) (c : ChannelCore) : outcome ChannelCore :=
  match n with 0 => Ret c | S n' => assert (negb (dead c));; timeouts n' (on_timeout (set_outbox [] c)) end.

Definition dead_peer_retransmit_cap_tears_down : bool := passes (
  '(init, _) ← handshake;
  init ← send_message (fid_of 0) (str_bytes "into-the-void") init;
  init ← timeouts (Z.to_nat MAX_RETRIES) init;
  let init := on_timeout (set_outbox [] init) in
  assert (dead init);; assert_eq (outbox init) [];; assert (negb (has_unacked init))).

Definition ack_num_clamped_to_send_next : bool := passes (
  '(init, _) ← handshake;
  init ← send_all_messages 0 [str_bytes "a"; str_bytes "b"] init;
  let inflight := length (unacked init) in
  assert (bool_decide (1 ≤ inflight));;
  let init := ack u64_max init in
  assert (negb (has_unacked init) || bool_decide (length (unacked init) ≤ inflight));;
  assert (send_next init <? 100)%Z).

Definition reorder_buffer_bounded_by_window : bool := passes (
  resp ← on_frame 0 (mkFrame FLAG_SYN 0 32 0 []) (ChannelCore_new 4 DEFAULT_RTO);
  in_state Established resp;;
  cs ← fragment (str_bytes "x") MAX_CHUNK_PAYLOAD (replicate 16 Byte.x09);
  resp ← on_frame 0 (mkFrame FLAG_ACK 0 32 1000 (chunk cs 0)) resp;
  assert (bool_decide (map_to_list (recv_buffer resp) = []))).

Definition duplicate_frame_delivered_once : bool := passes (
  '(init, resp) ← handshake;
  init ← send_message (fid_of 0) (str_bytes "dup") init;
  f ← first_frame init;
  resp ← on_frame 0 f resp; resp ← on_frame 0 f resp;
  assert_eq (delivered resp) [str_bytes "dup"]).

Definition cumulative_ack_clears_send_buffer : bool := passes (
  '(init, resp) ← handshake;
  init ← send_all_messages 0 [[Byte.x00]; [Byte.x01]; [Byte.x02]] init;
  assert_eq (length (unacked init)) 3;;
  '(init, resp) ← shuttle init resp;
  '(_, init) ← shuttle resp init;
  assert (negb (has_unacked init))).

Definition out_of_order_frames_reordered : bool := passes (
  '(init, resp) ← handshake;
  init ← send_all_messages 0 [[Byte.x0a]; [Byte.x14]] init;
  f0 ← unwrap (outbox init !! 0 ≫= frame_parse);
  f1 ← unwrap (outbox init !! 1 ≫= frame_parse);
  resp ← on_frame 0 f1 resp;
  assert_eq (delivered resp) [];;
  resp ← on_frame 0 f0 resp;
  assert_eq (delivered resp) [[Byte.x0a]; [Byte.x14]]).

Definition close_sends_fin_and_marks_peer_closed : bool := passes (
  '(init, resp) ← handshake;
  let init := close init in
  in_state FinSent init;;
  '(_, resp) ← shuttle init resp;
  assert (peer_closed resp)).

Definition channel_tests : list bool :=
  [three_way_handshake_seq_and_ack; reliable_in_order_delivery; large_message_fragments_and_reassembles; retransmission_recovers_lost_frame;
   rst_tears_down_and_stops_retransmitting; dead_peer_retransmit_cap_tears_down; ack_num_clamped_to_send_next;
   reorder_buffer_bounded_by_window; duplicate_frame_delivered_once; cumulative_ack_clears_send_buffer; out_of_order_frames_reordered;
   close_sends_fin_and_marks_peer_closed].

Lemma channel_tests_pass : Forall (eq true) channel_tests.
Proof. vm_compute. repeat constructor. Qed.

(** * Board *)

(** The values are strings; JSON null is one of them. *)
Definition null : string := "null".

Fixpoint merges (ps : list (SetPayload string)) (b : BoardCore string) : BoardCore string :=
  match ps with [] => b | p :: ps' => merges ps' (merge_entry p b).1 end.

Definition set_replicates_and_get : bool := passes (
  let '(a, p) := board_set "cursor" "{x:4,y:2}"%string (BoardCore_new "alice") in
  let b := merges [p] (BoardCore_new "bob") in
  assert_eq (board_get "cursor" b) (Some "{x:4,y:2}"%string);;
  assert_eq (size (board_items b)) 1).

Definition lww_merge_higher_lamport_wins : bool := passes (
  let '(a, p1) := board_set "k" "from-alice"%string (BoardCore_new "alice") in
  let b := merges [p1] (BoardCore_new "bob") in
  let '(b, p2) := board_set "k" "from-bob"%string b in
  let a := merges [p2] a in
  assert_eq (board_get "k" a) (Some "from-bob"%string);;
  assert_eq (board_get "k" b) (Some "from-bob"%string)).

Definition equal_lamport_actor_tiebreak : bool := passes (
  let '(a, pa) := board_set "k" "alice-val"%string (BoardCore_new "alice") in
  let '(b, pb) := board_set "k" "bob-val"%string (BoardCore_new "bob") in
  let b := merges [pa] b in
  let a := merges [pb] a in
  assert_eq (board_get "k" a) (Some "bob-val"%string);;
  assert_eq (board_get "k" b) (Some "bob-val"%string)).

Definition delete_tombstone_propagates : bool := passes (
  let '(a, p1) := board_set "k" "1"%string (BoardCore_new "alice") in
  let '(a, p2) := board_delete null "k" a in
  let b := merges [p1; p2] (BoardCore_new "bob") in
  assert_eq (board_get "k" b) None;; assert_eq (size (board_items b)) 0;;
  e ← unwrap (board_entry "k" b); assert (e_deleted e)).

Definition stale_merge_is_ignored : bool := passes (
  let '(a, _) := board_set "k" "new"%string (BoardCore_new "alice") in
  let '(a, _) := board_set "k" "newer"%string a in
  let '(a, changed) := merge_entry (mkSet "k" "old"%string (1%Z, "zzz"%string) false) a in
  assert (negb changed);; assert_eq (board_get "k" a) (Some "newer"%string)).

(** A stand-in of the hash, over all of its input. *)
Definition test_crates : Crates := {|
  chacha_encrypt := sample_seal;
  chacha_decrypt := sample_open;
  aes_new_from_slice k := Nat.eqb (length k) 32;
  aes_encrypt := sample_seal;
  aes_decrypt := sample_open;
  sha256 m := to_be_bytes 32 (foldl (λ h b, Z.land (h * 33 + b2z b + 1) (2 ^ 32 - 1))%Z 0%Z m);
  hkdf_sha256 salt ikm info n := to_be_bytes n (from_be_bytes (salt ++ ikm ++ info));
|}.
#[local] Existing Instance test_crates.

Definition digest_equal_iff_converged : bool := passes (
  let '(a, p1) := board_set "x" "1"%string (BoardCore_new "alice") in
  let '(a, p2) := board_set "y" "2"%string a in
  let b := BoardCore_new "bob" in
  assert (bool_decide (digest a ≠ digest b));;
  let b := merges [p1; p2] b in
  assert_eq (digest a) (digest b);;
  let '(b, p3) := board_set "z" "3"%string b in
  assert (bool_decide (digest a ≠ digest b));;
  let a := merges [p3] a in
  assert_eq (digest a) (digest b)).

Fixpoint spin (n : nat) (a : BoardCore string) : BoardCore string * list (SetPayload string) :=
  match n with
  | 0 => (a, [])
  | S n' => let '(a, p) := board_set "k" "spin"%string a in let '(a, ps) := spin n' a in (a, p :: ps)
  end.

Definition lamport_advances_past_merged_clock : bool := passes (
  let '(a, ps) := spin 5 (BoardCore_new "alice") in
  let b := merges ps (BoardCore_new "bob") in
  let '(b, p) := board_set "k" "bob-wins"%string b in
  e ← unwrap (board_entry "k" b); assert_eq (e_lamport e) 6%Z;;
  assert_eq (board_get "k" (merges [p] a)) (Some "bob-wins"%string)).

Definition board_tests : list bool :=
  [set_replicates_and_get; lww_merge_higher_lamport_wins; equal_lamport_actor_tiebreak; delete_tombstone_propagates; stale_merge_is_ignored;
   digest_equal_iff_converged; lamport_advances_past_merged_clock].

Lemma board_tests_pass : Forall (eq true) board_tests.
Proof. vm_compute. repeat constructor. Qed.

(** * Drop *)

#[local] Existing Instance sample_json.

Definition saddr : string := "127.0.0.1:1".
Definition raddr : string := "127.0.0.2:1".

(** The generator of the test data. *)
Fixpoint lcg (n : nat) (state : Z) : bytes :=
  match n with
  | 0 => []
  | S n' => let state := Z.land (state * 1664525 + 1013904223) (2 ^ 32 - 1) in z2b (Z.shiftr state 24) :: lcg n' state
  end.
Definition test_bytes (n : nat) (seed : Z) : bytes := lcg n (Z.land (seed * 2654435761 + 1) (2 ^ 32 - 1)).

Fixpoint receive_all (fs : list bytes) (r : DropReceiverCore) : outcome (DropReceiverCore * list bytes) :=
  match fs with
  | [] => Ret (r, [])
  | f :: fs' => '(r, out) ← receiver_handle_frame saddr f 0 r; '(r, rest) ← receive_all fs' r; Ret (r, out ++ rest)
  end.
Fixpoint serve_all (fs : list bytes) (s : DropSenderCore) : DropSenderCore * list bytes * list bool :=
  match fs with
  | [] => (s, [], [])
  | f :: fs' =>
      let '(s, out, v) := sender_handle_frame raddr f s in
      let '(s, rest, vs) := serve_all fs' s in
      (s, out ++ rest, match v with Some ok => ok :: vs | None => vs end)
  end.

(** [pump]: up to 300 rounds, until both queues are drained. *)
Fixpoint pump_rounds (n : nat) (s : DropSenderCore) (r : DropReceiverCore) (to_receiver : list bytes)
    : outcome (DropSenderCore * DropReceiverCore * list bool) :=
  match n, to_receiver with
  | 0, _ | _, [] => Ret (s, r, [])
  | S n', _ =>
      '(r, to_sender) ← receive_all to_receiver r;
      let '(s, to_receiver, vs) := serve_all to_sender s in
      '(s, r, vs') ← pump_rounds n' s r to_receiver;
      Ret (s, r, vs ++ vs')
  end.
Definition pump_drop := pump_rounds 300.

Definition small_file_transfers_and_verifies : bool := passes (
  let data := str_bytes "hello drop" in
  let s := DropSenderCore_new "blob.bin" data in
  '(s, r, verdicts) ← pump_drop s (DropReceiverCore_new ∅) [offer_frame s];
  assert_eq (r_verified r) (Some true);;
  assert_eq (take_completion r).2 (Some (data, true));;
  assert_eq (s_completed s !! raddr) (Some true);; assert_eq verdicts [true]).

Definition resume_requests_only_missing_chunks : bool := passes (
  let data := test_bytes 10240 2 in
  let have := list_to_map ((λ i, (i, chunk_of data i)) <$> [0; 1; 2; 5; 9]%Z) in
  let s := DropSenderCore_new "blob.bin" data in
  '(s, r, _) ← pump_drop s (DropReceiverCore_new have) [offer_frame s];
  assert_eq (r_verified r) (Some true);;
  missing ← missing_ranges r; assert_eq missing []).

Definition lost_chunks_rerequested_on_tick : bool := passes (
  let s := DropSenderCore_new "blob.bin" (test_bytes 4096 3) in
  '(r, request) ← receiver_handle_frame saddr (offer_frame s) 0 (DropReceiverCore_new ∅);
  let '(s, _, _) := serve_all request s in
  assert_eq (r_verified r) None;;
  '(r, rerequest) ← tick 2000 r;
  assert (bool_decide (rerequest ≠ []));;
  let '(s, to_receiver, _) := serve_all rerequest s in
  '(s, r, _) ← pump_drop s r to_receiver;
  assert_eq (r_verified r) (Some true)).

Definition corrupted_transfer_reports_mismatch : bool := passes (
  let data := test_bytes 2048 4 in
  let s := DropSenderCore_new "blob.bin" data in
  '(r, request) ← receiver_handle_frame saddr (offer_frame s) 0 (DropReceiverCore_new ∅);
  let s := mkSender (s_name s) (test_bytes (length data) 999) (s_total_chunks s) (s_sha256 s) (s_completed s) in
  let '(s, to_receiver, _) := serve_all request s in
  '(s, r, verdicts) ← pump_drop s r to_receiver;
  assert_eq (r_verified r) (Some false);;
  assert_eq verdicts [false];; assert_eq (s_completed s !! raddr) (Some false)).

Definition hostile_request_is_clamped : bool := passes (
  let s := DropSenderCore_new "blob.bin" (test_bytes 3072 5) in
  let '(s, frames, _) := sender_handle_frame raddr (TYPE_REQUEST :: request_to_vec [(0, 10000000)%Z]) s in
  assert (len frames <=? s_total_chunks s)%Z;;
  let '(s, frames, _) := sender_handle_frame raddr (TYPE_REQUEST :: request_to_vec [(-5, 2)%Z]) s in
  assert_eq (length frames) 2).

Definition empty_file : bool := passes (
  let s := DropSenderCore_new "empty.bin" [] in
  assert_eq (s_total_chunks s) 1%Z;;
  '(s, r, _) ← pump_drop s (DropReceiverCore_new ∅) [offer_frame s];
  assert_eq (r_verified r) (Some true);;
  assert_eq (take_completion r).2 (Some ([], true))).

Definition drop_tests : list bool :=
  [small_file_transfers_and_verifies; resume_requests_only_missing_chunks; lost_chunks_rerequested_on_tick; corrupted_transfer_reports_mismatch;
   hostile_request_is_clamped; empty_file].

Lemma drop_tests_pass : Forall (eq true) drop_tests.
Proof. vm_compute. repeat constructor. Qed.
