(* ===== verification/Transport.v ===== *)
(** The UDP transport ([rust/telesthete/src/transport.rs]) and the Stream
    channel on top of it ([rust/telesthete/src/stream.rs]). Sockets and task
    queues are the arguments and results of the operations. *)

From S2P Require Import Prelude Crypto Framing.

(** * Transport *)

Record Inbound := mkInbound {
  in_from : string;
  in_header : Header;
  in_payload : bytes;
}.

#[global] Instance Inbound_eq_dec : EqDecision Inbound.
Proof. solve_decision. Defined.

Record Outbound := mkOutbound {
  out_to : string;
  out_channel_type : ChannelType;
  out_channel_id : Z;
  out_plaintext : bytes;
  out_priority : Z;
  out_use_base_key : bool;
}.

Inductive TransportError := Io | FramingErr (e : FramingError) | Closed.

(** [u64::from_be_bytes(b) >> 1], [b] the CSPRNG's eight bytes, and
    [fetch_add(1)], which wraps around. *)
Definition SequenceCounter_random (b : bytes) : Z := Z.shiftr (from_be_bytes b) 1.
Definition SequenceCounter_next (seq : Z) : Z * Z := (wrap 64 (seq + 1), seq).

Record Transport := mkTransport {
  base_key : bytes;
  session_key : bytes;
  send_keys : gmap string (bytes * Suite);
  peer_keys : gmap string (bytes * Suite);
  last_seen : gmap string Z;
  t_band_id : bytes;
  t_seq : Z;
  routes : gset ChannelType;
}.

Definition Transport_bind (key band random : bytes) : Transport :=
  mkTransport key key ∅ ∅ ∅ band (SequenceCounter_random random) ∅.

Definition set_session_key (key : bytes) (t : Transport) : Transport :=
  mkTransport (base_key t) key (send_keys t) (peer_keys t) (last_seen t) (t_band_id t) (t_seq t) (routes t).

Definition register_peer_key (addr : string) (key : bytes) (suite : Suite) (t : Transport) : Transport :=
  mkTransport (base_key t) (session_key t) (send_keys t) (<[addr := (key, suite)]> (peer_keys t)) (last_seen t)
    (t_band_id t) (t_seq t) (routes t).

Definition register_send_key (addr : string) (key : bytes) (suite : Suite) (t : Transport) : Transport :=
  mkTransport (base_key t) (session_key t) (<[addr := (key, suite)]> (send_keys t)) (peer_keys t) (last_seen t)
    (t_band_id t) (t_seq t) (routes t).

Definition forget_peer (addr : string) (t : Transport) : Transport :=
  mkTransport (base_key t) (session_key t) (delete addr (send_keys t)) (delete addr (peer_keys t))
    (delete addr (last_seen t)) (t_band_id t) (t_seq t) (routes t).

Definition transport_route (ty : ChannelType) (t : Transport) : Transport :=
  mkTransport (base_key t) (session_key t) (send_keys t) (peer_keys t) (last_seen t) (t_band_id t) (t_seq t)
    ({[ty]} ∪ routes t).

Definition set_seq (seq : Z) (t : Transport) : Transport :=
  mkTransport (base_key t) (session_key t) (send_keys t) (peer_keys t) (last_seen t) (t_band_id t) seq (routes t).

Definition see (from : string) (now : Z) (t : Transport) : Transport :=
  mkTransport (base_key t) (session_key t) (send_keys t) (peer_keys t) (<[from := now]> (last_seen t))
    (t_band_id t) (t_seq t) (routes t).

(** The key and suite a packet is sent under. *)
Definition send_key (out : Outbound) (t : Transport) : bytes * Suite :=
  if out_use_base_key out then (base_key t, ChaCha20Poly1305)
  else default (session_key t, ChaCha20Poly1305) (send_keys t !! out_to out).

Section Transport.
Context {crates : Crates}.

(** [Transport::send]; [send_to] is the socket's answer. The result is the
    datagram sent. *)
Definition transport_send (send_to : bytes → string → bool) (out : Outbound) (t : Transport)
    : outcome (Transport * result bytes TransportError) :=
  let '(next, seq) := SequenceCounter_next (t_seq t) in
  let t := set_seq next t in
  let '(key, suite) := send_key out t in
  pkt ← encode_packet_suite suite key (t_band_id t) (out_channel_type out) (out_channel_id out) seq (out_plaintext out);
  match pkt with
  | Err e => Ret (t, Err (FramingErr e))
  | Ok pkt => Ret (t, if send_to pkt (out_to out) then Ok pkt else Err Io)
  end.

(** The keys tried on a datagram of [from], the first that opens it. *)
Definition open_datagram (from : string) (datagram : bytes) (t : Transport) : option (Header * bytes) :=
  match peer_keys t !! from ≫= λ ks, result_ok (decode_packet_suite ks.2 ks.1 datagram) with
  | Some v => Some v
  | None => result_ok (decode_packet_suite ChaCha20Poly1305 (base_key t) datagram)
  end.

(** One round of the receive loop: what is handed to the route of the channel
    type, if one is registered. *)
Definition transport_recv (now : Z) (from : string) (datagram : bytes) (t : Transport)
    : Transport * option Inbound :=
  match open_datagram from datagram t with
  | None => (t, None)
  | Some (header, payload) =>
      if decide (band_id header ≠ t_band_id t) then (t, None) else
      let t := see from now t in
      (t, if decide (channel_type header ∈ routes t) then Some (mkInbound from header payload) else None)
  end.

(** Several sends, with the sequence each used. *)
Fixpoint sends (send_to : bytes → string → bool) (outs : list Outbound) (t : Transport)
    : outcome (Transport * list (Z * result bytes TransportError)) :=
  match outs with
  | [] => Ret (t, [])
  | o :: outs' =>
      let seq := (SequenceCounter_next (t_seq t)).2 in
      '(t, r) ← transport_send send_to o t;
      '(t, rs) ← sends send_to outs' t;
      Ret (t, (seq, r) :: rs)
  end.
End Transport.

(** * Stream *)

Record StreamMessage := mkMessage {
  sm_from : string;
  sm_stream_id : Z;
  sm_priority : Z;
  sm_data : bytes;
}.

Definition stream_payload (priority : Z) (data : bytes) : bytes := z2b priority :: data.

(** [StreamEndpoint::send]. *)
Definition stream_out (peer : string) (stream_id priority : Z) (data : bytes) : Outbound :=
  mkOutbound peer Stream stream_id (stream_payload priority data) priority false.

Abbreviation watermarks := (gmap (string * Z) Z).

Definition handle_stream_inbound (pkt : Inbound) (wm : watermarks) : watermarks * option StreamMessage :=
  match in_payload pkt with
  | [] => (wm, None)
  | priority :: data =>
      let key := (in_from pkt, channel_id (in_header pkt)) in
      let stale := match wm !! key with Some prev => (sequence (in_header pkt) <=? prev)%Z | None => false end in
      if stale then (wm, None) else
      (<[key := sequence (in_header pkt)]> wm,
       Some (mkMessage (in_from pkt) (channel_id (in_header pkt)) (b2z priority) data))
  end.

Record StreamHub := mkStreamHub { sh_senders : gset Z; sh_watermarks : watermarks }.

Definition stream_open (stream_id : Z) (h : StreamHub) : StreamHub :=
  mkStreamHub ({[stream_id]} ∪ sh_senders h) (sh_watermarks h).

(** One packet of the demultiplexer, and the message handed to its endpoint. *)
Definition stream_packet (pkt : Inbound) (h : StreamHub) : StreamHub * option StreamMessage :=
  let '(wm, msg) := handle_stream_inbound pkt (sh_watermarks h) in
  (mkStreamHub (sh_senders h) wm,
   msg ≫= λ m, if decide (channel_id (in_header pkt) ∈ sh_senders h) then Some m else None).

Definition stream_rebase (addr : string) (h : StreamHub) : StreamHub :=
  mkStreamHub (sh_senders h) (filter (λ kv, kv.1.1 ≠ addr) (sh_watermarks h)).

(** The messages of a run of packets, each with the sequence it came under. *)
Fixpoint stream_run (pkts : list Inbound) (h : StreamHub) : StreamHub * list (Z * StreamMessage) :=
  match pkts with
  | [] => (h, [])
  | p :: pkts' =>
      let '(h, m) := stream_packet p h in
      let '(h, ms) := stream_run pkts' h in
      (h, match m with Some m => (sequence (in_header p), m) :: ms | None => ms end)
  end.

(** ** Lemmas *)

Section TransportLemmas.
Context {crates : Crates}.

(** A key the receiver accepts packets of [from] under. *)
Definition accepts (from : string) (key : bytes) (suite : Suite) (t : Transport) : Prop :=
  peer_keys t !! from = Some (key, suite) ∨ key = base_key t ∧ suite = ChaCha20Poly1305.

Lemma result_ok_Some {A E} (m : result A E) a : result_ok m = Some a ↔ m = Ok a.
Proof. destruct m; simpl; naive_solver. Qed.

Lemma open_datagram_Some from d t h pt :
  open_datagram from d t = Some (h, pt) →
  ∃ key suite, accepts from key suite t ∧ decode_packet_suite suite key d = Ok (h, pt).
Proof.
  unfold open_datagram, accepts. destruct (peer_keys t !! from ≫= _) as [v|] eqn:E.
  - intros [= ->]. apply bind_Some in E as ([key suite] & Hk & Hd%result_ok_Some). eauto 10.
  - intros Hd%result_ok_Some. eauto 10.
Qed.

Lemma transport_send_eq send_to out t :
  length (t_band_id t) = BAND_ID_LEN →
  ∃ r, transport_send send_to out t = Ret (set_seq (wrap 64 (t_seq t + 1)) t, r)
    ∧ ∀ d, r = Ok d → ∃ sealed,
        d = header_bytes (mkHeader (t_band_id t) (out_channel_type out) (out_channel_id out) (t_seq t)) ++ sealed
        ∧ encrypt_suite (send_key out t).2 (send_key out t).1 (t_seq t)
            (build_aad (ChannelType_to_u8 (out_channel_type out)) (out_channel_id out)) (out_plaintext out) = Ok sealed.
Proof.
  intros Hb. unfold transport_send, SequenceCounter_next.
  replace (send_key out (set_seq (wrap 64 (t_seq t + 1)) t)) with (send_key out t) by done.
  destruct (send_key out t) as [key suite]. simpl. rewrite encode_packet_suite_eq by done. simpl.
  destruct (encrypt_suite _ _ _ _ _) as [sealed|e]; eexists; (split; [done|]); intros d; [|done].
  case_match; [|done]. intros [= <-]. eauto.
Qed.

(** A socket that takes everything. *)
Definition accepting (send_to : bytes → string → bool) : Prop := ∀ d to, send_to d to = true.

(** A send under a whole key on such a socket goes out. *)
Lemma transport_send_ok {tot : AeadTotal} {atot : AesTotal} send_to out t :
  length (t_band_id t) = BAND_ID_LEN → length (send_key out t).1 = KEY_LEN → (len (out_plaintext out) <= u32_max + 8)%Z → accepting send_to →
  ∃ d, transport_send send_to out t = Ret (set_seq (wrap 64 (t_seq t + 1)) t, Ok d).
Proof.
  intros Hb Hk Hl Ha. unfold transport_send, SequenceCounter_next.
  replace (send_key out (set_seq (wrap 64 (t_seq t + 1)) t)) with (send_key out t) by done.
  destruct (send_key out t) as [key suite]. simpl in *. rewrite encode_packet_suite_eq by done. simpl.
  destruct (encrypt_suite_total suite key (t_seq t) (build_aad (ChannelType_to_u8 (out_channel_type out)) (out_channel_id out)) (out_plaintext out) Hk Hl)
    as [ct ->]. rewrite Ha. by eexists.
Qed.

Lemma sends_seqs send_to outs t :
  length (t_band_id t) = BAND_ID_LEN → is_u64 (t_seq t) →
  ∃ t' rs, sends send_to outs t = Ret (t', rs)
    ∧ rs.*1 = (λ i, wrap 64 (t_seq t + i)) <$> seqZ 0 (len outs).
Proof.
  revert t. induction outs as [|o outs IH]; intros t Hb Hs; [by exists t, []|].
  cbn [sends]. destruct (transport_send_eq send_to o t Hb) as (r & -> & _). cbn [mbind outcome_bind].
  set (t1 := set_seq (wrap 64 (t_seq t + 1)) t).
  assert (H1 : is_u64 (t_seq t1)) by (simpl; unfold wrap, is_u64; apply Z.mod_pos_bound; lia).
  destruct (IH t1 Hb H1) as (t' & rs & -> & E). eexists t', _. split; [done|].
  cbn [fmap list_fmap snd SequenceCounter_next]. rewrite E, len_cons, (seqZ_cons 0 (1 + len outs)) by (pose proof (len_nonneg outs); lia).
  replace (Z.pred (1 + len outs)) with (len outs) by lia. simpl. f_equal.
  - rewrite Z.add_0_r. unfold wrap, is_u64 in *. by rewrite Z.mod_small.
  - rewrite <- (fmap_add_seqZ 1 0), <- list_fmap_compose. apply list_fmap_ext. intros _ i _. simpl.
    unfold wrap. rewrite Zplus_mod_idemp_l. f_equal. lia.
Qed.
End TransportLemmas.

Lemma wrap_seqZ s n :
  (0 <= s)%Z → (s + n <= 2 ^ 64)%Z → (λ i, wrap 64 (s + i)) <$> seqZ 0 n = seqZ s n.
Proof.
  intros H0 Hn. replace (seqZ s n) with (Z.add s <$> seqZ 0 n) by (rewrite fmap_add_seqZ; f_equal; lia).
  apply list_fmap_ext. intros _ i Hi%list_elem_of_lookup_2%elem_of_seqZ. unfold wrap. apply Z.mod_small. lia.
Qed.

Lemma SequenceCounter_random_range b : length b = 8 → (0 <= SequenceCounter_random b < 2 ^ 63)%Z.
Proof.
  intros H. unfold SequenceCounter_random. rewrite Z.shiftr_div_pow2 by lia.
  pose proof (from_be_u64 b H) as [? ?]. change (2 ^ 1)%Z with 2%Z. split; [apply Z.div_pos; lia|].
  apply Z.div_lt_upper_bound; lia.
Qed.

(** Delivered messages of one sender and stream, by sequence. *)
Definition delivered (from : string) (stream_id : Z) (ms : list (Z * StreamMessage)) : list Z :=
  (filter (λ x, sm_from x.2 = from ∧ sm_stream_id x.2 = stream_id) ms).*1.

Lemma stream_packet_cases p h :
  let k := (in_from p, channel_id (in_header p)) in
  let s := sequence (in_header p) in
  (stream_packet p h = (h, None))
  ∨ (match sh_watermarks h !! k with Some prev => (prev < s)%Z | None => True end
     ∧ ∃ m, stream_packet p h = (mkStreamHub (sh_senders h) (<[k := s]> (sh_watermarks h)), m)
       ∧ ∀ m', m = Some m' → sm_from m' = in_from p ∧ sm_stream_id m' = channel_id (in_header p)).
Proof.
  cbn zeta. unfold stream_packet, handle_stream_inbound. destruct h as [senders wm]. simpl.
  destruct (in_payload p) as [|pr data]; [by left|].
  destruct (wm !! _) as [prev|] eqn:Ep; [destruct (Z.leb_spec (sequence (in_header p)) prev); [by left|]|]; right;
    (split; [done|]); eexists; (split; [done|]); simpl; intros m'; case_decide; intros [= <-]; done.
Qed.

Lemma stream_run_sorted from id pkts h :
  let wm := sh_watermarks h !! (from, id) in
  Sorted Z.lt (option_list wm ++ delivered from id (stream_run pkts h).2).
Proof.
  cbn zeta. revert h. induction pkts as [|p pkts IH]; intros h; [destruct (sh_watermarks h !! (from, id)); simpl; auto|].
  cbn [stream_run]. destruct (stream_packet_cases p h) as [->|(Hfresh & m & -> & Hm)].
  - specialize (IH h). by destruct (stream_run pkts h).
  - set (h1 := mkStreamHub _ _). specialize (IH h1). destruct (stream_run pkts h1) as [h' ms]. simpl in *.
    destruct (decide ((from, id) = (in_from p, channel_id (in_header p)))) as [[= -> ->]|Hne].
    + rewrite lookup_insert_eq in IH. simpl in IH.
      assert (Hs : Sorted Z.lt (option_list (sh_watermarks h !! (in_from p, channel_id (in_header p))) ++
                       sequence (in_header p) :: delivered (in_from p) (channel_id (in_header p)) ms)).
      { destruct (sh_watermarks h !! (in_from p, channel_id (in_header p))); simpl; [|done]. constructor; [done|]. by constructor. }
      destruct m as [m'|].
      * destruct (Hm m' eq_refl) as [F1 F2]. unfold delivered. rewrite filter_cons_True by (simpl; naive_solver). done.
      * destruct (sh_watermarks h !! (in_from p, channel_id (in_header p))) as [w|]; simpl in *; [|by apply Sorted_inv in IH as [IH _]].
        apply Sorted_inv in Hs as [Hs Hw]. apply Sorted_inv in Hs as [Hs Hhd]. constructor; [done|].
        destruct (delivered (in_from p) (channel_id (in_header p)) ms); constructor. inv Hhd. inv Hw. lia.
    + rewrite lookup_insert_ne in IH by done. destruct m as [m'|]; [|done].
      unfold delivered. rewrite filter_cons_False; [done|].
      destruct (Hm m' eq_refl) as [F1 F2]. simpl. intros [G1 G2]. apply Hne. congruence.
Qed.

(** The key a packet of [from] has to be under: the registered one, or the base
    key while none is registered. *)
Definition opens (from : string) (ks : bytes * Suite) (t : Transport) : Prop :=
  peer_keys t !! from = Some ks ∨ peer_keys t !! from = None ∧ ks = (base_key t, ChaCha20Poly1305).

Lemma link_recv {crates : Crates} {spec : CratesSpec} send_to out ta ta' tb d now from :
  length (t_band_id ta) = BAND_ID_LEN → t_band_id tb = t_band_id ta →
  is_u64 (t_seq ta) → is_u16 (out_channel_id out) →
  opens from (send_key out ta) tb → out_channel_type out ∈ routes tb →
  transport_send send_to out ta = Ret (ta', Ok d) →
  transport_recv now from d tb
  = (see from now tb, Some (mkInbound from
       (mkHeader (t_band_id ta) (out_channel_type out) (out_channel_id out) (t_seq ta)) (out_plaintext out))).
Proof.
  intros Hb Eb Hs Hc Hk Hr Hsend. destruct (transport_send_eq send_to out ta Hb) as (r & E & Hd).
  rewrite E in Hsend. injection Hsend as _ ->. destruct (Hd d eq_refl) as (sealed & -> & Es).
  assert (Eo : open_datagram from (header_bytes (mkHeader (t_band_id ta) (out_channel_type out) (out_channel_id out) (t_seq ta)) ++ sealed) tb
    = Some (mkHeader (t_band_id ta) (out_channel_type out) (out_channel_id out) (t_seq ta), out_plaintext out)).
  { unfold open_datagram. destruct Hk as [-> |[-> Ek]]; simpl.
    - by rewrite (decode_packet_suite_layout _ _ _ sealed (out_plaintext out)) by (try split_and!; done).
    - rewrite Ek in Es. simpl in Es.
      by rewrite (decode_packet_suite_layout _ _ _ sealed (out_plaintext out)) by (try split_and!; done). }
  unfold transport_recv. rewrite Eo. rewrite decide_False by (simpl; congruence). by rewrite decide_True.
Qed.

(** ** Properties *)

(** C21: the receive loop dispatches only authentic packets. It either ignores
    a datagram, leaving every key, liveness entry and counter alone, or the
    datagram is exactly the encoding, under the sender's registered key or the
    base key and this band's id, of the header and payload handed on. *)
Theorem recv_authentic {crates : Crates} {spec : CratesSpec} now from d t :
  transport_recv now from d t = (t, None)
  ∨ ∃ key suite h pt,
      accepts from key suite t
      ∧ encode_packet_suite suite key (t_band_id t) (channel_type h) (channel_id h) (sequence h) pt = Ret (Ok d)
      ∧ transport_recv now from d t
        = (see from now t, if decide (channel_type h ∈ routes t) then Some (mkInbound from h pt) else None).
Proof.
  unfold transport_recv. destruct (open_datagram from d t) as [[h pt]|] eqn:E; [|by left].
  case_decide as Hb; [by left|]. right.
  apply open_datagram_Some in E as (key & suite & Ha & Hd). exists key, suite, h, pt.
  apply decode_packet_suite_inv in Hd as (W & _ & sealed & -> & Es).
  split_and!; [done| |done]. rewrite <- Hb, encode_packet_suite_eq by apply W. rewrite Es. by destruct h.
Qed.

(** A packet crosses the link. When the receiver has registered for the
    sender's address the key and suite the sender sends under (or none, and the
    packet is under the base key), the datagram of
    a successful send is dispatched with the header and plaintext that were
    sent. *)
Theorem send_recv {crates : Crates} {spec : CratesSpec} send_to out ta ta' tb d now from :
  length (t_band_id ta) = BAND_ID_LEN → t_band_id tb = t_band_id ta →
  is_u64 (t_seq ta) → is_u16 (out_channel_id out) →
  opens from (send_key out ta) tb → out_channel_type out ∈ routes tb →
  transport_send send_to out ta = Ret (ta', Ok d) →
  transport_recv now from d tb
  = (see from now tb, Some (mkInbound from
       (mkHeader (t_band_id ta) (out_channel_type out) (out_channel_id out) (t_seq ta)) (out_plaintext out))).
Proof. apply link_recv. Qed.

(** Sequences are not reused. A transport whose counter starts from eight
    random bytes sends its first 2^63 packets under strictly increasing [u64]
    sequences, so no nonce repeats, and it never panics. *)
Theorem sequences_increase {crates : Crates} send_to key band random outs :
  length band = BAND_ID_LEN → length random = 8 → (len outs <= 2 ^ 63)%Z →
  ∃ t rs, sends send_to outs (Transport_bind key band random) = Ret (t, rs)
    ∧ StronglySorted Z.lt rs.*1 ∧ Forall is_u64 rs.*1 ∧ NoDup (nonce_bytes <$> rs.*1).
Proof.
  intros Hb Hr Hn. pose proof (SequenceCounter_random_range random Hr) as Hs.
  destruct (sends_seqs send_to outs (Transport_bind key band random) Hb) as (t & rs & E & Es);
    [unfold is_u64; simpl; lia|].
  simpl t_seq in Es. rewrite wrap_seqZ in Es by lia. exists t, rs. rewrite Es.
  assert (Hu : Forall is_u64 (seqZ (SequenceCounter_random random) (len outs))).
  { apply Forall_forall. intros x Hx%elem_of_seqZ. unfold is_u64. lia. }
  split_and!; [done| |done|].
  - clear. generalize (SequenceCounter_random random). unfold len. induction (length outs) as [|n IH]; intros s; [constructor|].
    rewrite seqZ_cons by lia. replace (Z.pred (Z.of_nat (S n))) with (Z.of_nat n) by lia. constructor; [apply IH|].
    apply Forall_forall. intros x Hx%elem_of_seqZ. lia.
  - apply NoDup_fmap_2_strong; [|apply NoDup_seqZ]. intros x y Hx Hy. rewrite Forall_forall in Hu.
    apply nonce_bytes_inj; by apply Hu.
Qed.

(** Freshest data only. Between restarts of a peer, the messages delivered
    for one sender and stream come in strictly increasing sequence order, above
    the watermark the run started with. *)
Theorem stream_freshest from id pkts h :
  StronglySorted Z.lt (option_list (sh_watermarks h !! (from, id)) ++ delivered from id (stream_run pkts h).2).
Proof. apply Sorted_StronglySorted; [intros x y z; lia|]. apply stream_run_sorted. Qed.

(** ** Witnesses *)

Section Witnesses.
#[local] Existing Instance sample_crates.
Definition sample_out : Outbound := stream_out "b" 7 2 (str_bytes "hi").
Definition sample_ta : Transport := Transport_bind sample_key (replicate 16 Byte.x07) (replicate 8 Byte.x01).
Definition sample_tb : Transport :=
  transport_route Stream (register_peer_key "a" sample_key ChaCha20Poly1305 sample_ta).
Definition sample_datagram : bytes :=
  match transport_send (λ _ _, true) sample_out sample_ta with Ret (_, Ok d) => d | _ => [] end.

Lemma send_recv_witness :
  (transport_recv 3 "a" sample_datagram sample_tb).2
  = Some (mkInbound "a" (mkHeader (replicate 16 Byte.x07) Stream 7 (t_seq sample_ta)) (stream_payload 2 (str_bytes "hi"))).
Proof.
  rewrite (send_recv (λ _ _, true) sample_out sample_ta (set_seq (t_seq sample_ta + 1)%Z sample_ta) sample_tb sample_datagram);
    [reflexivity|..].
  - reflexivity.
  - reflexivity.
  - by vm_compute.
  - by vm_compute.
  - left. by vm_compute.
  - by vm_compute.
  - vm_compute. reflexivity.
Defined.

Lemma recv_authentic_witness :
  ∃ key suite h pt, accepts "a" key suite sample_tb
    ∧ encode_packet_suite suite key (t_band_id sample_tb) (channel_type h) (channel_id h) (sequence h) pt
      = Ret (Ok sample_datagram).
Proof.
  destruct (recv_authentic 3 "a" sample_datagram sample_tb) as [E|(key & suite & h & pt & Ha & E & _)].
  - exfalso. apply (f_equal (λ x, bool_decide (x.2 = None))) in E. revert E. by vm_compute.
  - exists key, suite, h, pt. exact (conj Ha E).
Defined.

Lemma sequences_increase_witness :
  ∃ t rs, sends (λ _ _, true) [sample_out; sample_out] sample_ta = Ret (t, rs) ∧ StronglySorted Z.lt rs.*1.
Proof.
  destruct (sequences_increase (λ _ _, true) sample_key (replicate 16 Byte.x07) (replicate 8 Byte.x01)
    [sample_out; sample_out]) as (t & rs & E & H & _).
  - reflexivity.
  - reflexivity.
  - by vm_compute.
  - exists t, rs. exact (conj E H).
Defined.
End Witnesses.
