(* ===== verification/UnixTransport.v ===== *)
(** The AF_UNIX transports ([rust/telesthete/src/unix_transport.rs]): the datagram
    transport and the seqpacket client, with the file descriptors that ride along.
    The kernel's answers are inputs; a descriptor the process owns is handed to a
    subscriber or closed. *)

From S2P Require Import Prelude Crypto Framing StreamWire Transport.

(** * Data *)

Abbreviation fd := Z.

Record UnixInbound := mkUnixInbound { ui_from : bytes; ui_header : Header; ui_payload : bytes; ui_fds : list fd }.

Record UnixOutbound := mkUnixOutbound {
  uo_to : bytes;
  uo_channel_type : ChannelType;
  uo_channel_id : Z;
  uo_plaintext : bytes;
  uo_priority : Z;
  uo_fds : list fd;
}.

Inductive UnixTransportError := UIo | UNix | UFraming (e : FramingError) | TooManyFds (n : Z).

(** A route is the identity of its subscriber. *)
Record UnixTransport := mkUnixTransport {
  u_bind_path : bytes;
  u_key : bytes;
  u_band_id : bytes;
  u_seq : Z;
  u_routes : gmap ChannelType nat;
  u_next_sub : nat;
}.

Definition set_useq (seq : Z) (t : UnixTransport) : UnixTransport :=
  mkUnixTransport (u_bind_path t) (u_key t) (u_band_id t) seq (u_routes t) (u_next_sub t).

(** ** The kernel's side *)

Inductive RemoveResult := Removed | NotFound | RemoveFailed.

Inductive ConnectResult := Connected | InProgress | ConnectFailed.

(** Control messages of a [recvmsg]. *)
Inductive Cmsg := ScmRights (fds : list fd) | OtherCmsg.

(** What [recvmsg] filled in. When the control buffer was too small, [cmsgs()]
    is an error though the descriptors that fit are installed. *)
Record RecvMsg := mkRecvMsg { rm_bytes : bytes; rm_address : option (option bytes); rm_cmsgs : list Cmsg; rm_truncated : bool }.

Inductive RecvEvent := ReadableError | RecvError | Received (m : RecvMsg).

(** * Operations *)

Definition parse_addr (addr : option (option bytes)) : bytes := default [] (addr ≫= id).

Fixpoint collect_fds (cmsgs : list Cmsg) : list fd :=
  match cmsgs with
  | [] => []
  | ScmRights fds :: rest => fds ++ collect_fds rest
  | OtherCmsg :: rest => collect_fds rest
  end.

(** [bind], with the outcome of removing a stale socket and of the system calls. *)
Definition unix_bind (path key band random : bytes) (remove : RemoveResult) (bind_ok : bool) : result UnixTransport UnixTransportError :=
  match remove with
  | RemoveFailed => Err UIo
  | _ => if bind_ok then Ok (mkUnixTransport path key band (SequenceCounter_random random) ∅ 0) else Err UIo
  end.

(** The socket files of a directory: the socket bound at each path. *)
Definition socket_files : Type := gmap bytes nat.

(** The effect of a successful [bind] on them: a leftover is removed first. *)
Definition bind_file (path : bytes) (sock : nat) (dir : socket_files) : socket_files := <[path := sock]> (delete path (dir : gmap bytes nat)).

(** [drop] removes whatever is at the path. *)
Definition UnixTransport_drop (t : UnixTransport) (dir : socket_files) : socket_files := delete (u_bind_path t) (dir : gmap bytes nat).

Definition unix_route (ty : ChannelType) (t : UnixTransport) : UnixTransport * nat :=
  (mkUnixTransport (u_bind_path t) (u_key t) (u_band_id t) (u_seq t) (<[ty := u_next_sub t]> (u_routes t)) (S (u_next_sub t)), u_next_sub t).

Section Unix.
Context {crates : Crates}.
(** [UnixAddr::new] takes a path that fits a socket address. *)
Context (unix_addr_ok : bytes → bool).

(** [send] on the datagram socket: what is handed to [sendmsg]. The loop repeats
    while the socket would block. *)
Definition unix_send (sendmsg : bytes → bytes → list fd → bool) (out : UnixOutbound) (t : UnixTransport)
    : outcome (UnixTransport * result (bytes * list fd) UnixTransportError) :=
  if decide (MAX_FDS_PER_PACKET < len (uo_fds out))%Z then Ret (t, Err (TooManyFds (len (uo_fds out)))) else
  let '(next, seq) := SequenceCounter_next (u_seq t) in
  let t := set_useq next t in
  pkt ← encode_packet (u_key t) (u_band_id t) (uo_channel_type out) (uo_channel_id out) seq (uo_plaintext out);
  match pkt with
  | Err e => Ret (t, Err (UFraming e))
  | Ok pkt =>
      if negb (unix_addr_ok (uo_to out)) then Ret (t, Err UNix) else
      Ret (t, if sendmsg (uo_to out) pkt (uo_fds out) then Ok (pkt, uo_fds out) else Err UIo)
  end.

(** What an event leads to: whether the loop goes on, what is handed to which
    subscriber, and which descriptors are closed. *)
Record RecvOut := mkRecvOut { ro_running : bool; ro_delivered : option (nat * UnixInbound); ro_closed : list fd }.

(** Handing an inbound to its subscriber, whose receiver may be gone; what is
    dropped closes its descriptors. *)
Definition dispatch (live : nat → bool) (inbound : UnixInbound) (t : UnixTransport) : RecvOut :=
  match u_routes t !! channel_type (ui_header inbound) with
  | Some sub => if live sub then mkRecvOut true (Some (sub, inbound)) [] else mkRecvOut true None (ui_fds inbound)
  | None => mkRecvOut true None (ui_fds inbound)
  end.

Definition fds_of (m : RecvMsg) : list fd := if rm_truncated m then [] else collect_fds (rm_cmsgs m).

(** One round of [spawn_recv_loop]. *)
Definition unix_recv (live : nat → bool) (e : RecvEvent) (t : UnixTransport) : RecvOut :=
  match e with
  | ReadableError => mkRecvOut false None []
  | RecvError => mkRecvOut true None []
  | Received m =>
      let from := parse_addr (rm_address m) in
      let fds := fds_of m in
      match decode_packet (u_key t) (rm_bytes m) with
      | Err _ => mkRecvOut true None fds
      | Ok (header, payload) =>
          if decide (band_id header ≠ u_band_id t) then mkRecvOut true None fds
          else dispatch live (mkUnixInbound from header payload fds) t
      end
  end.

(** ** Seqpacket client *)

(** [connect]; the connection is to [path]. *)
Definition seq_connect (path key band random : bytes) (socket_ok : bool) (connect : ConnectResult) : result UnixTransport UnixTransportError :=
  if negb socket_ok then Err UNix else
  if negb (unix_addr_ok path) then Err UNix else
  match connect with
  | ConnectFailed => Err UNix
  | _ => Ok (mkUnixTransport path key band (SequenceCounter_random random) ∅ 0)
  end.

Definition seq_send (sendmsg : bytes → list fd → bool) (out : UnixOutbound) (t : UnixTransport)
    : outcome (UnixTransport * result (bytes * list fd) UnixTransportError) :=
  if decide (MAX_FDS_PER_PACKET < len (uo_fds out))%Z then Ret (t, Err (TooManyFds (len (uo_fds out)))) else
  let '(next, seq) := SequenceCounter_next (u_seq t) in
  let t := set_useq next t in
  pkt ← encode_packet (u_key t) (u_band_id t) (uo_channel_type out) (uo_channel_id out) seq (uo_plaintext out);
  match pkt with
  | Err e => Ret (t, Err (UFraming e))
  | Ok pkt => Ret (t, if sendmsg pkt (uo_fds out) then Ok (pkt, uo_fds out) else Err UIo)
  end.

(** One round of the client's loop, which an error or an empty read ends. *)
Definition seq_recv (live : nat → bool) (e : RecvEvent) (t : UnixTransport) : RecvOut :=
  match e with
  | ReadableError | RecvError => mkRecvOut false None []
  | Received m =>
      let fds := fds_of m in
      if decide (rm_bytes m = []) then mkRecvOut false None fds else
      match decode_packet (u_key t) (rm_bytes m) with
      | Err _ => mkRecvOut true None fds
      | Ok (header, payload) =>
          if decide (band_id header ≠ u_band_id t) then mkRecvOut true None fds
          else dispatch live (mkUnixInbound (u_bind_path t) header payload fds) t
      end
  end.

(** Either loop over a run of events, each with the subscribers that are live
    then. *)
Fixpoint run_recv (round : (nat → bool) → RecvEvent → UnixTransport → RecvOut) (es : list ((nat → bool) * RecvEvent)) (t : UnixTransport)
    : list (nat * UnixInbound) * list fd :=
  match es with
  | [] => ([], [])
  | (live, e) :: rest =>
      let o := round live e t in
      let '(ds, cl) := if ro_running o then run_recv round rest t else ([], []) in
      (option_list (ro_delivered o) ++ ds, ro_closed o ++ cl)
  end.

(** The messages of the rounds that ran, each with the subscribers that were live. *)
Fixpoint taken (round : (nat → bool) → RecvEvent → UnixTransport → RecvOut) (es : list ((nat → bool) * RecvEvent)) (t : UnixTransport)
    : list ((nat → bool) * RecvMsg) :=
  match es with
  | [] => []
  | (live, e) :: rest =>
      match e with Received m => [(live, m)] | _ => [] end ++ (if ro_running (round live e t) then taken round rest t else [])
  end.
End Unix.

Section Delivery.
Context {crates : Crates} {spec : CratesSpec}.

(** What either loop hands on was sealed under the transport's key for its band
    and goes to the live subscriber of its channel type. *)
Lemma unix_recv_authentic live e t sub i :
  ro_delivered (unix_recv live e t) = Some (sub, i) ∨ ro_delivered (seq_recv live e t) = Some (sub, i) →
  ∃ m, e = Received m ∧ ui_fds i = fds_of m ∧ live sub = true ∧ u_routes t !! channel_type (ui_header i) = Some sub
    ∧ band_id (ui_header i) = u_band_id t ∧ Header_wf (ui_header i)
    ∧ encode_packet (u_key t) (u_band_id t) (channel_type (ui_header i)) (channel_id (ui_header i)) (sequence (ui_header i)) (ui_payload i)
      = Ret (Ok (rm_bytes m)).
Proof.
  assert (Hgen : ∀ m from, ro_delivered
      (match decode_packet (u_key t) (rm_bytes m) with
       | Err _ => mkRecvOut true None (fds_of m)
       | Ok (header, payload) => if decide (band_id header ≠ u_band_id t) then mkRecvOut true None (fds_of m)
           else dispatch live (mkUnixInbound from header payload (fds_of m)) t
       end) = Some (sub, i) →
    ui_fds i = fds_of m ∧ live sub = true ∧ u_routes t !! channel_type (ui_header i) = Some sub ∧ band_id (ui_header i) = u_band_id t ∧ Header_wf (ui_header i)
    ∧ encode_packet (u_key t) (u_band_id t) (channel_type (ui_header i)) (channel_id (ui_header i)) (sequence (ui_header i)) (ui_payload i)
      = Ret (Ok (rm_bytes m))).
  { intros m from. destruct (decode_packet _ _) as [[h p]|] eqn:E; [|done]. case_decide as Hb; [done|].
    unfold dispatch. cbn [ui_header]. destruct (u_routes t !! channel_type h) as [s|] eqn:Er; [|done]. destruct (live s) eqn:El; [|done].
    cbn [ro_delivered]. intros [= <- <-]. cbn [ui_header ui_payload ui_fds].
    apply decode_packet_suite_inv in E as (W & L & sealed & -> & E). split_and!; try done. unfold encode_packet.
    rewrite encode_packet_suite_eq, E by (rewrite <- Hb; apply W). rewrite <- Hb. by destruct h. }
  intros [H|H]; destruct e as [| |m]; try done; exists m; (split; [done|]); cbn [unix_recv seq_recv] in H; [by eapply Hgen|].
  cbv zeta in H. case_decide; [done|]. by eapply Hgen.
Qed.

Lemma unix_recv_sealed live m t sub ct cid seq pt :
  Header_wf (mkHeader (u_band_id t) ct cid seq) → encode_packet (u_key t) (u_band_id t) ct cid seq pt = Ret (Ok (rm_bytes m)) →
  u_routes t !! ct = Some sub → live sub = true →
  unix_recv live (Received m) t
    = mkRecvOut true (Some (sub, mkUnixInbound (parse_addr (rm_address m)) (mkHeader (u_band_id t) ct cid seq) pt (fds_of m))) []
  ∧ seq_recv live (Received m) t
    = mkRecvOut true (Some (sub, mkUnixInbound (u_bind_path t) (mkHeader (u_band_id t) ct cid seq) pt (fds_of m))) [].
Proof.
  intros W E Hr Hl. unfold encode_packet in E. rewrite encode_packet_suite_eq in E by apply W.
  destruct (encrypt_suite _ _ _ _ _) as [sealed|] eqn:Es; [|done]. injection E as E.
  assert (Hd : decode_packet (u_key t) (rm_bytes m) = Ok (mkHeader (u_band_id t) ct cid seq, pt)) by (rewrite <- E; by apply decode_packet_suite_layout).
  assert (Hne : rm_bytes m ≠ []).
  { intros En. unfold decode_packet, decode_packet_suite in Hd. rewrite En in Hd. by rewrite decide_True in Hd by (unfold MIN_PACKET_LEN; simpl; lia). }
  cbn [unix_recv seq_recv]. cbv zeta. rewrite Hd. rewrite (decide_False (P := rm_bytes m = [])) by done. cbn [band_id].
  rewrite !decide_False by (by intros []). unfold dispatch. cbn [ui_header channel_type]. by rewrite Hr, Hl.
Qed.

(** A packet sent over an AF_UNIX transport arrives: more than five descriptors
    are refused before a sequence number is used, and otherwise what was handed to
    the kernel, received by a transport of the same band and key, is delivered
    once, with the plaintext, the next sequence number and the descriptors the
    kernel passed on, to the subscriber of its channel type. *)
Theorem unix_send_recv unix_addr_ok sendmsg out t t' pkt fds live m t2 sub :
  length (u_band_id t) = BAND_ID_LEN → is_u16 (uo_channel_id out) → is_u64 (u_seq t) →
  unix_send unix_addr_ok sendmsg out t = Ret (t', Ok (pkt, fds)) →
  u_key t2 = u_key t → u_band_id t2 = u_band_id t → u_routes t2 !! uo_channel_type out = Some sub → live sub = true →
  rm_bytes m = pkt → rm_truncated m = false →
  fds = uo_fds out ∧ (len fds <= MAX_FDS_PER_PACKET)%Z ∧ u_seq t' = wrap 64 (u_seq t + 1)
  ∧ unix_recv live (Received m) t2
    = mkRecvOut true (Some (sub, mkUnixInbound (parse_addr (rm_address m))
        (mkHeader (u_band_id t) (uo_channel_type out) (uo_channel_id out) (u_seq t)) (uo_plaintext out) (collect_fds (rm_cmsgs m)))) [].
Proof.
  intros Hb Hc Hq Hs Hk Hb2 Hr Hl Hm Ht. unfold unix_send in Hs. case_decide as Hf; [done|]. cbn [SequenceCounter_next] in Hs.
  cbn [u_key u_band_id set_useq] in Hs.
  destruct (encode_packet _ _ _ _ _ _) as [|[p|e]] eqn:E; [done| |done]. cbn [mbind outcome_bind] in Hs.
  destruct (unix_addr_ok _); [|done]. cbn [negb] in Hs. destruct (sendmsg _ _ _); [|done]. injection Hs as <- <- <-.
  split_and!; [done|lia|done|].
  destruct (unix_recv_sealed live m t2 sub (uo_channel_type out) (uo_channel_id out) (u_seq t) (uo_plaintext out)) as [H _]; try done.
  - by rewrite Hb2.
  - by rewrite Hk, Hb2, E, Hm.
  - rewrite H, Hb2. unfold fds_of. by rewrite Ht.
Qed.

(** ** Where the descriptors go *)

(** A message is for a subscriber: its packet is sealed under the transport's key for its
    band and names a channel type whose receiver is there. *)
Definition meant_for (t : UnixTransport) (live : nat → bool) (m : RecvMsg) (sub : nat) (i : UnixInbound) : Prop :=
  let h := ui_header i in
  Header_wf h ∧ band_id h = u_band_id t ∧ u_routes t !! channel_type h = Some sub ∧ live sub = true
  ∧ encode_packet (u_key t) (u_band_id t) (channel_type h) (channel_id h) (sequence h) (ui_payload i) = Ret (Ok (rm_bytes m)).

(** A message goes to the subscriber it is for with the descriptors of [got], in their
    order, or is for none. *)
Definition settled (got : RecvMsg → list fd) (t : UnixTransport) (lm : (nat → bool) * RecvMsg) (o : option (nat * UnixInbound)) : Prop :=
  match o with
  | Some (sub, i) => meant_for t lm.1 lm.2 sub i ∧ ui_fds i = got lm.2
  | None => ∀ sub i, ¬ meant_for t lm.1 lm.2 sub i
  end.

(** A round settles its message, and what it closes is the rest of what it took. *)
Definition settles (round : (nat → bool) → RecvEvent → UnixTransport → RecvOut) : Prop :=
  ∀ live e t,
    match e with
    | Received m =>
        settled fds_of t (live, m) (ro_delivered (round live e t))
        ∧ fds_of m = (option_list (ro_delivered (round live e t)) ≫= λ d, ui_fds d.2) ++ ro_closed (round live e t)
    | _ => ro_delivered (round live e t) = None ∧ ro_closed (round live e t) = []
    end.

Lemma dispatch_fds live i t : (option_list (ro_delivered (dispatch live i t)) ≫= λ d, ui_fds d.2) ++ ro_closed (dispatch live i t) = ui_fds i.
Proof. unfold dispatch. destruct (_ !! _) as [sub|]; [destruct (live sub)|]; cbn; by rewrite ?app_nil_r. Qed.

Lemma meant_delivered live m t sub i :
  meant_for t live m sub i → is_Some (ro_delivered (unix_recv live (Received m) t)) ∧ is_Some (ro_delivered (seq_recv live (Received m) t)).
Proof.
  intros (W & Hb & Hr & Hl & E). destruct i as [from [b ct cid seq] pt fds]. cbn [ui_header band_id channel_type channel_id sequence ui_payload] in *. subst b.
  destruct (unix_recv_sealed live m t sub ct cid seq pt W E Hr Hl) as [-> ->]. by split.
Qed.

Lemma delivered_settled live m t round :
  round = unix_recv ∨ round = seq_recv → settled fds_of t (live, m) (ro_delivered (round live (Received m) t)).
Proof.
  intros Hround. destruct (ro_delivered _) as [[sub i]|] eqn:E; cbn [settled fst snd].
  - assert (H : ro_delivered (unix_recv live (Received m) t) = Some (sub, i) ∨ ro_delivered (seq_recv live (Received m) t) = Some (sub, i))
      by (destruct Hround as [->| ->]; auto).
    apply unix_recv_authentic in H as (m' & [= <-] & Hf & Hl & Hr & Hb & W & Ee). by split; [split_and!|].
  - intros sub i H%meant_delivered. destruct Hround as [->| ->]; rewrite E in H; by destruct H as [[] []].
Qed.

Lemma unix_recv_settles : settles unix_recv.
Proof.
  intros live [| |m] t; [done..|]. split; [apply delivered_settled; auto|]. cbn [unix_recv]. cbv zeta.
  destruct (decode_packet _ _) as [[h p]|]; [|done]. case_decide; [done|]. by rewrite dispatch_fds.
Qed.

Lemma seq_recv_settles : settles seq_recv.
Proof.
  intros live [| |m] t; [done..|]. split; [apply delivered_settled; auto|]. cbn [seq_recv]. cbv zeta. case_decide; [done|].
  destruct (decode_packet _ _) as [[h p]|]; [|done]. case_decide; [done|]. by rewrite dispatch_fds.
Qed.

(** What the kernel installed in the process with a message: the descriptors of every
    control message of it, whether or not the buffer held all that was sent. *)
Definition installed (m : RecvMsg) : list fd := rm_cmsgs m ≫= λ c, match c with ScmRights fds => fds | OtherCmsg => [] end.

Lemma collect_installed cmsgs : collect_fds cmsgs = cmsgs ≫= λ c, match c with ScmRights fds => fds | OtherCmsg => [] end.
Proof. induction cmsgs as [|[fds|] cmsgs IH]; cbn; [done|by rewrite IH|exact IH]. Qed.

Definition kept (m : RecvMsg) : list fd := if rm_truncated m then [] else installed m.
Definition leaked (m : RecvMsg) : list fd := if rm_truncated m then installed m else [].

Lemma fds_of_kept m : fds_of m = kept m.
Proof. unfold fds_of, kept, installed. by rewrite collect_installed. Qed.

Lemma installed_split m : installed m = kept m ++ leaked m.
Proof. unfold kept, leaked. destruct (rm_truncated m); by rewrite ?app_nil_r. Qed.

Lemma settled_kept t lm o : settled fds_of t lm o → settled kept t lm o.
Proof. destruct o as [[sub i]|]; [|done]. cbn. by rewrite fds_of_kept. Qed.

Lemma run_recv_settles round es t :
  settles round →
  ∃ outs, fst (run_recv round es t) = omap id outs ∧ Forall2 (settled kept t) (taken round es t) outs
    ∧ (taken round es t ≫= λ lm, installed lm.2)
      ≡ₚ (fst (run_recv round es t) ≫= λ d, ui_fds d.2) ++ snd (run_recv round es t) ++ (taken round es t ≫= λ lm, leaked lm.2).
Proof.
  intros Hr. induction es as [|[live e] es (outs & E & HF & HP)]; [by exists []|]. cbn [run_recv taken]. specialize (Hr live e t).
  set (o := round live e t) in *. set (run := if ro_running o then run_recv round es t else ([], [])).
  set (tk := if ro_running o then taken round es t else []).
  assert (Hrest : ∃ outs, run.1 = omap id outs ∧ Forall2 (settled kept t) tk outs
    ∧ (tk ≫= λ lm, installed lm.2) ≡ₚ (run.1 ≫= λ d, ui_fds d.2) ++ run.2 ++ (tk ≫= λ lm, leaked lm.2)).
  { subst run tk. destruct (ro_running o); [by exists outs|by exists []]. }
  clearbody run tk. clear outs E HF HP. destruct Hrest as (outs & E & HF & HP). destruct run as [ds cl]. cbn [fst snd] in *.
  destruct e as [| |m].
  1, 2: destruct Hr as [-> ->]; exists outs; by cbn.
  destruct Hr as [Hs Hf]. exists (ro_delivered o :: outs). split_and!.
  - rewrite E. by destruct (ro_delivered o).
  - constructor; [by apply settled_kept|exact HF].
  - cbn [app mbind list_bind]. cbn [snd]. rewrite installed_split, <- fds_of_kept, Hf, HP, bind_app. solve_Permutation.
Qed.
End Delivery.

(** C38: over any run of either receive loop, a message whose packet is sealed under the
    key for the band, with a live receiver of its channel type, reaches that receiver, with
    exactly the descriptors the kernel installed for it, in order; any other message reaches
    nobody; and every descriptor the kernel installed is handed on once or closed once,
    except those of messages whose control data was truncated: these are all leaked (a
    message delivered then comes without descriptors). *)
Theorem unix_fds_conserved {crates : Crates} {spec : CratesSpec} (es : list ((nat → bool) * RecvEvent)) (t : UnixTransport) :
  (∃ outs, fst (run_recv unix_recv es t) = omap id outs ∧ Forall2 (settled kept t) (taken unix_recv es t) outs
    ∧ (taken unix_recv es t ≫= λ lm, installed lm.2)
      ≡ₚ (fst (run_recv unix_recv es t) ≫= λ d, ui_fds d.2) ++ snd (run_recv unix_recv es t) ++ (taken unix_recv es t ≫= λ lm, leaked lm.2))
  ∧ (∃ outs, fst (run_recv seq_recv es t) = omap id outs ∧ Forall2 (settled kept t) (taken seq_recv es t) outs
    ∧ (taken seq_recv es t ≫= λ lm, installed lm.2)
      ≡ₚ (fst (run_recv seq_recv es t) ≫= λ d, ui_fds d.2) ++ snd (run_recv seq_recv es t) ++ (taken seq_recv es t ≫= λ lm, leaked lm.2)).
Proof. split; apply run_recv_settles; [apply unix_recv_settles|apply seq_recv_settles]. Qed.

(** When the control messages were truncated, the descriptors that were installed
    are neither delivered nor closed. *)
Lemma truncated_fds_leak {crates : Crates} live m t :
  rm_truncated m = true →
  ro_closed (unix_recv live (Received m) t) = []
  ∧ match ro_delivered (unix_recv live (Received m) t) with Some (_, i) => ui_fds i = [] | None => True end.
Proof.
  intros Ht. cbn [unix_recv]. unfold fds_of. rewrite Ht. cbv zeta. destruct (decode_packet _ _) as [[h p]|]; [|done].
  case_decide; [done|]. unfold dispatch. cbn [ui_fds ui_header]. destruct (_ !! _) as [s|]; [destruct (live s)|]; done.
Qed.

(** ** Witnesses *)

Definition sample_unix : UnixTransport :=
  fst (unix_route Stream (mkUnixTransport (str_bytes "/run/a.sock") sample_key (replicate 16 Byte.x07) 41 ∅ 0)).

Definition sample_out : UnixOutbound := mkUnixOutbound (str_bytes "/run/b.sock") Stream 7 [Byte.x68; Byte.x69] 0 [5; 6]%Z.

Lemma unix_send_recv_witness :
  ∃ t' pkt, @unix_send sample_crates (λ _, true) (λ _ _ _, true) sample_out sample_unix = Ret (t', Ok (pkt, [5; 6]%Z))
    ∧ @unix_recv sample_crates (λ _, true) (Received (mkRecvMsg pkt (Some (Some (str_bytes "/run/a.sock"))) [ScmRights [11; 12]%Z] false)) sample_unix
      = mkRecvOut true (Some (0, mkUnixInbound (str_bytes "/run/a.sock") (mkHeader (replicate 16 Byte.x07) Stream 7 41) [Byte.x68; Byte.x69] [11; 12]%Z)) [].
Proof.
  destruct (@unix_send sample_crates (λ _, true) (λ _ _ _, true) sample_out sample_unix) as [|[t' [[pkt fds]|e]]] eqn:E.
  1, 3: by vm_compute in E.
  exists t', pkt.
  destruct (@unix_send_recv sample_crates sample_crates_spec (λ _, true) (λ _ _ _, true) sample_out sample_unix t' pkt fds (λ _, true)
    (mkRecvMsg pkt (Some (Some (str_bytes "/run/a.sock"))) [ScmRights [11; 12]%Z] false) sample_unix 0) as (-> & _ & _ & H);
    [reflexivity|unfold is_u16; cbn; lia|unfold is_u64; cbn; lia|exact E|reflexivity..|].
  split; [reflexivity|exact H].
Defined.

(** A message with two control messages of descriptors and no packet: all are closed; with
    truncated control data none is. *)
Lemma unix_fds_sample :
  let m tr := mkRecvMsg [] None [ScmRights [3]%Z; OtherCmsg; ScmRights [4]%Z] tr in
  run_recv (@unix_recv sample_crates) [(λ _, true, Received (m false))] sample_unix = ([], [3; 4]%Z)
  ∧ run_recv (@unix_recv sample_crates) [(λ _, true, Received (m true))] sample_unix = ([], []) ∧ leaked (m true) = [3; 4]%Z.
Proof. by split_and!. Qed.

(** The packet of [sample_out] with two descriptors, then bytes that are no packet with a
    third, then a message with truncated control data. *)
Definition sample_events : list ((nat → bool) * RecvEvent) :=
  match @unix_send sample_crates (λ _, true) (λ _ _ _, true) sample_out sample_unix with
  | Ret (_, Ok (pkt, _)) =>
      [(λ _, true, Received (mkRecvMsg pkt None [ScmRights [11]%Z; OtherCmsg; ScmRights [12]%Z] false));
       (λ _, true, Received (mkRecvMsg [Byte.x00] None [ScmRights [13]%Z] false));
       (λ _, true, Received (mkRecvMsg [Byte.x00] None [ScmRights [14]%Z] true))]
  | _ => []
  end.

Lemma unix_fds_conserved_witness :
  let ms := taken (@unix_recv sample_crates) sample_events sample_unix in
  (ms ≫= λ lm, installed lm.2) = [11; 12; 13; 14]%Z
  ∧ (ms ≫= λ lm, installed lm.2)
    ≡ₚ (fst (run_recv (@unix_recv sample_crates) sample_events sample_unix) ≫= λ d, ui_fds d.2)
      ++ snd (run_recv (@unix_recv sample_crates) sample_events sample_unix) ++ (ms ≫= λ lm, leaked lm.2)
  ∧ (fst (run_recv (@unix_recv sample_crates) sample_events sample_unix) ≫= λ d, ui_fds d.2) = [11; 12]%Z
  ∧ snd (run_recv (@unix_recv sample_crates) sample_events sample_unix) = [13]%Z ∧ (ms ≫= λ lm, leaked lm.2) = [14]%Z.
Proof.
  destruct (@unix_fds_conserved sample_crates sample_crates_spec sample_events sample_unix) as [(outs & _ & _ & HP) _].
  split_and!; [reflexivity|exact HP|reflexivity..].
Defined.
