(* ===== verification/Control.v ===== *)
(** The Control channel ([rust/telesthete/src/control.rs]) and the Band that
    assembles the endpoints ([rust/telesthete/src/band.rs]): the HELLO
    handshake with cipher negotiation, session epochs and replay protection,
    keepalives and eviction of dead peers. *)

From S2P Require Import Prelude Crypto Framing Transport.

Definition TYPE_HELLO : Z := 0x01.
Definition TYPE_HELLO_ACK : Z := 0x02.
Definition TYPE_KEEPALIVE : Z := 0x03.
Definition TYPE_FOCUS_CHANGE : Z := 0x04.
Definition TYPE_METACONTROL : Z := 0x05.
Definition TYPE_GOODBYE : Z := 0x06.
Definition TYPE_KEYFRAME_REQ : Z := 0x07.
Definition TYPE_RATE_HINT : Z := 0x08.

Definition PEER_MAP_SOFT_CAP : nat := 1024.

Record PeerState := mkPeer {
  ps_hostname : string;
  ps_capabilities : list string;
  ps_cipher : string;
  ps_session_epoch : Z;
}.

Record ControlConfig := mkConfig {
  c_psk : bytes;
  c_session : Z;
  c_hostname : string;
  c_capabilities : list string;
  c_ciphers : list string;
}.

Record Hello := mkHello {
  h_hostname : string;
  h_capabilities : list string;
  h_ciphers : list string;
  h_session : Z;
}.

Record HelloAck := mkHelloAck {
  a_hostname : string;
  a_capabilities : list string;
  a_ciphers : list string;
  a_cipher : string;
  a_session : Z;
}.

(** What the code uses of serde_json, and its [f32]. *)
Class ControlJson := {
  json : Type;
  json_empty : json;
  f32 : Type;
  env_to_vec : Z → json → bytes;
  env_from_slice : bytes → option (Z * json);
  hello_to_value : Hello → json;
  hello_from_value : json → option Hello;
  ack_to_value : HelloAck → json;
  ack_from_value : json → option HelloAck;
  keyframe_to_value : Z → json;
  keyframe_from_value : json → option Z;
  rate_to_value : Z * Z * f32 → json;
  rate_from_value : json → option (Z * Z * f32);
}.

(** Decoding what was encoded. HELLO bodies hold strings and one [u64]. *)
Class ControlJsonSpec {cj : ControlJson} := {
  hello_roundtrip h : is_u64 (h_session h) →
    ∀ t, is_u8 t → env_from_slice (env_to_vec t (hello_to_value h)) = Some (t, hello_to_value h)
                   ∧ hello_from_value (hello_to_value h) = Some h;
  ack_roundtrip a : is_u64 (a_session a) →
    ∀ t, is_u8 t → env_from_slice (env_to_vec t (ack_to_value a)) = Some (t, ack_to_value a)
                   ∧ ack_from_value (ack_to_value a) = Some a;
  empty_roundtrip t : is_u8 t → env_from_slice (env_to_vec t json_empty) = Some (t, json_empty);
}.
Arguments ControlJsonSpec cj : clear implicits.

(** The iteration order of a [HashMap], some order of its entries. *)
Class HashOrder := hash_iter : gmap string PeerState → list (string * PeerState).
Class HashOrderSpec {ho : HashOrder} := hash_iter_perm m : hash_iter m ≡ₚ map_to_list m.
Arguments HashOrderSpec ho : clear implicits.

Section Control.
Context {crates : Crates} {cj : ControlJson} {ho : HashOrder}.

Inductive ControlEvent :=
| EHello (from hostname : string) (capabilities ciphers : list string)
| EHelloAck (from hostname : string) (capabilities ciphers : list string) (cipher : string)
| EKeepalive (from : string)
| EGoodbye (from : string)
| EKeyframeReq (from : string) (stream_id : Z)
| ERateHint (from : string) (stream_id target_bps : Z) (loss : f32)
| EOther (from : string) (type_ : Z) (payload : json).

(** The transport and the peer registry shared by the tasks of a band, and the
    two maps of the control task. *)
Record Node := mkNode {
  n_config : ControlConfig;
  n_transport : Transport;
  n_peers : gmap string PeerState;
  n_watermark : gmap string Z;
  n_sessions : gmap string Z;
}.

Definition set_transport (t : Transport) (n : Node) : Node :=
  mkNode (n_config n) t (n_peers n) (n_watermark n) (n_sessions n).

(** The preference list with the mandatory baseline. *)
Definition with_baseline (ciphers : list string) : list string :=
  if decide (BASELINE_CIPHER ∈ ciphers) then ciphers else ciphers ++ [BASELINE_CIPHER].

(** [send_control_json]; a failed send changes only the sequence counter. *)
Definition send_control_json (send_to : bytes → string → bool) (peer : string) (type_ : Z) (payload : json)
    (use_base_key : bool) (t : Transport) : outcome (Transport * result bytes TransportError) :=
  transport_send send_to (mkOutbound peer Control 0 (env_to_vec type_ payload) 0 use_base_key) t.

(** The typed body of a HELLO or HELLO_ACK: the event, the epoch, the peer's
    hostname and capabilities, and the committed suite. *)
Definition hello_body (cfg : ControlConfig) (from : string) (is_hello : bool) (v : json)
    : option (ControlEvent * Z * string * list string * string) :=
  if is_hello then
    h ← hello_from_value v;
    let init := match h_ciphers h with [] => [BASELINE_CIPHER] | cs => cs end in
    Some (EHello from (h_hostname h) (h_capabilities h) (h_ciphers h), h_session h, h_hostname h,
          h_capabilities h, select_cipher init (c_ciphers cfg))
  else
    a ← ack_from_value v;
    let committed := match Suite_from_id (a_cipher a) with Some _ => a_cipher a | None => BASELINE_CIPHER end in
    Some (EHelloAck from (a_hostname a) (a_capabilities a) (a_ciphers a) (a_cipher a), a_session a, a_hostname a,
          a_capabilities a, committed).

(** [min_by_key]: the first of the entries with the least epoch. *)
Fixpoint min_epoch (l : list (string * PeerState)) : option (string * PeerState) :=
  match l with
  | [] => None
  | x :: l' =>
      match min_epoch l' with
      | Some y => if (ps_session_epoch y.2 <? ps_session_epoch x.2)%Z then Some y else Some x
      | None => Some x
      end
  end.

Definition insert_peer (from : string) (st : PeerState) (peers : gmap string PeerState) : gmap string PeerState :=
  let peers :=
    if decide (peers !! from = None ∧ PEER_MAP_SOFT_CAP ≤ size peers) then
      match min_epoch (hash_iter peers) with
      | Some (victim, _) => delete victim peers
      | None => peers
      end
    else peers in
  <[from := st]> peers.

(** The pruning at the top of the loop. *)
Definition prune (n : Node) : Node :=
  if decide (PEER_MAP_SOFT_CAP < size (n_watermark n)) then
    mkNode (n_config n) (n_transport n) (n_peers n)
      (filter (λ kv, is_Some (n_peers n !! kv.1)) (n_watermark n))
      (filter (λ kv, is_Some (n_peers n !! kv.1)) (n_sessions n))
  else n.

(** What a packet makes the node do: the datagrams sent, the events reported
    and the peers whose watermarks the other hubs clear. *)
Record Effects := mkEffects {
  e_sent : list (string * bytes);
  e_events : list ControlEvent;
  e_rebase : list string;
}.
Definition no_effects : Effects := mkEffects [] [] [].

Definition sent_to (to : string) (r : result bytes TransportError) : list (string * bytes) :=
  match r with Ok d => [(to, d)] | Err _ => [] end.

(** The HELLO and HELLO_ACK branch. *)
Definition handle_hello (send_to : bytes → string → bool) (from : string) (seq : Z) (is_hello : bool) (v : json)
    (n : Node) : outcome (Node * Effects) :=
  let cfg := n_config n in
  match hello_body cfg from is_hello v with
  | None => Ret (n, no_effects)
  | Some (event, ep, hostname, caps, committed) =>
      if match n_sessions n !! from with Some prev => (ep <? prev)%Z | None => false end
      then Ret (n, no_effects) else
      let newer := match n_sessions n !! from with Some prev => (prev <? ep)%Z | None => true end in
      let n := if newer then mkNode cfg (n_transport n) (n_peers n) (delete from (n_watermark n))
                               (<[from := ep]> (n_sessions n)) else n in
      let rebase := if newer then [from] else [] in
      if match n_watermark n !! from with Some wm => (seq <=? wm)%Z | None => false end
      then Ret (n, mkEffects [] [] rebase) else
      let suite := default ChaCha20Poly1305 (Suite_from_id committed) in
      let t := register_peer_key from (derive_session_key (c_psk cfg) committed ep) suite (n_transport n) in
      let t := register_send_key from (derive_session_key (c_psk cfg) committed (c_session cfg)) suite t in
      let peers := insert_peer from (mkPeer hostname caps committed ep) (n_peers n) in
      let n := mkNode cfg t peers (<[from := seq]> (n_watermark n)) (n_sessions n) in
      if is_hello then
        let ack := mkHelloAck (c_hostname cfg) (c_capabilities cfg) (c_ciphers cfg) committed (c_session cfg) in
        '(t, r) ← send_control_json send_to from TYPE_HELLO_ACK (ack_to_value ack) true (n_transport n);
        Ret (set_transport t n, mkEffects (sent_to from r) [event] rebase)
      else Ret (n, mkEffects [] [event] rebase)
  end.

(** Every other type. *)
Definition handle_other (from : string) (seq type_ : Z) (v : json) (n : Node) : Node * Effects :=
  if match n_watermark n !! from with Some wm => (seq <=? wm)%Z | None => false end then (n, no_effects) else
  let n := mkNode (n_config n) (n_transport n) (n_peers n) (<[from := seq]> (n_watermark n)) (n_sessions n) in
  if (type_ =? TYPE_KEEPALIVE)%Z then (n, mkEffects [] [EKeepalive from] [])
  else if (type_ =? TYPE_GOODBYE)%Z then
    (mkNode (n_config n) (forget_peer from (n_transport n)) (delete from (n_peers n))
       (delete from (n_watermark n)) (delete from (n_sessions n)), mkEffects [] [EGoodbye from] [])
  else if (type_ =? TYPE_KEYFRAME_REQ)%Z then
    match keyframe_from_value v with
    | Some id => (n, mkEffects [] [EKeyframeReq from id] [])
    | None => (n, no_effects)
    end
  else if (type_ =? TYPE_RATE_HINT)%Z then
    match rate_from_value v with
    | Some (id, bps, loss) => (n, mkEffects [] [ERateHint from id bps loss] [])
    | None => (n, no_effects)
    end
  else (n, mkEffects [] [EOther from type_ v] []).

(** One round of the control task. *)
Definition control_packet (send_to : bytes → string → bool) (pkt : Inbound) (n : Node) : outcome (Node * Effects) :=
  let n := prune n in
  match env_from_slice (in_payload pkt) with
  | None => Ret (n, no_effects)
  | Some (type_, v) =>
      if (type_ =? TYPE_HELLO)%Z || (type_ =? TYPE_HELLO_ACK)%Z
      then handle_hello send_to (in_from pkt) (sequence (in_header pkt)) (type_ =? TYPE_HELLO)%Z v n
      else Ret (handle_other (in_from pkt) (sequence (in_header pkt)) type_ v n)
  end.

(** ** The band *)

Record BandOptions := mkOptions {
  bo_session : option Z;
  bo_ciphers : list string;
  bo_capabilities : list string;
  bo_keepalive_interval : Z;
  bo_dead_after : Z;
  bo_auto_keepalive : bool;
}.

Definition BandOptions_default : BandOptions :=
  mkOptions None [BASELINE_CIPHER] [] (from_secs 5) (from_secs 15) true.

(** [bind_with_options]; [now_ms] is the wall clock and [random] the CSPRNG's
    bytes for the sequence counter. *)
Definition band_bind (psk : bytes) (hostname : string) (opts : BandOptions) (now_ms : Z) (random : bytes) : Node :=
  let session := default now_ms (bo_session opts) in
  let ciphers := with_baseline (bo_ciphers opts) in
  let t := set_session_key (derive_session_key psk BASELINE_CIPHER session)
             (Transport_bind (derive_key psk) (derive_band_id psk) random) in
  let t := foldr transport_route t [Control; Drop; Board; Channel; Stream] in
  mkNode (mkConfig psk session hostname (bo_capabilities opts) ciphers) t ∅ ∅ ∅.

Definition connect_peer (send_to : bytes → string → bool) (peer : string) (n : Node)
    : outcome (Node * result bytes TransportError) :=
  let cfg := n_config n in
  let hello := mkHello (c_hostname cfg) (c_capabilities cfg) (c_ciphers cfg) (c_session cfg) in
  '(t, r) ← send_control_json send_to peer TYPE_HELLO (hello_to_value hello) true (n_transport n);
  Ret (set_transport t n, r).

Fixpoint send_keepalives (send_to : bytes → string → bool) (addrs : list string) (t : Transport)
    : outcome (Transport * list (string * bytes)) :=
  match addrs with
  | [] => Ret (t, [])
  | a :: addrs' =>
      '(t, r) ← send_control_json send_to a TYPE_KEEPALIVE json_empty false t;
      '(t, rest) ← send_keepalives send_to addrs' t;
      Ret (t, sent_to a r ++ rest)
  end.

Definition alive (now dead_after : Z) (seen : gmap string Z) (addr : string) : bool :=
  match seen !! addr with
  | Some t => (duration_since now t <? dead_after)%Z
  | None => false
  end.

(** One tick of the keepalive loop. *)
Definition keepalive_tick (send_to : bytes → string → bool) (now dead_after : Z) (n : Node)
    : outcome (Node * list (string * bytes)) :=
  '(t, sent) ← send_keepalives send_to (hash_iter (n_peers n)).*1 (n_transport n);
  let dead := filter (λ a, alive now dead_after (last_seen t) a = false) (hash_iter (n_peers n)).*1 in
  let peers := filter (λ kv, alive now dead_after (last_seen t) kv.1 = true) (n_peers n) in
  Ret (mkNode (n_config n) (foldl (λ t a, forget_peer a t) t dead) peers (n_watermark n) (n_sessions n), sent).

(** A datagram of the socket: Control packets go to the control task, the rest
    to the hub of their channel type. *)
Definition node_recv (send_to : bytes → string → bool) (now : Z) (from : string) (d : bytes) (n : Node)
    : outcome (Node * Effects * option Inbound) :=
  let '(t, inbound) := transport_recv now from d (n_transport n) in
  let n := set_transport t n in
  match inbound with
  | None => Ret (n, no_effects, None)
  | Some pkt =>
      if decide (channel_type (in_header pkt) = Control)
      then '(n, e) ← control_packet send_to pkt n; Ret (n, e, None)
      else Ret (n, no_effects, Some pkt)
  end.
End Control.

(** ** The handshake *)

Section Handshake.
Context {crates : Crates} {cspec : CratesSpec} {cj : ControlJson} {jspec : ControlJsonSpec cj} {ho : HashOrder}.
Implicit Types (n : Node) (t : Transport).

(** A node that has exchanged nothing with [peer]. *)
Definition unknown (peer : string) (n : Node) : Prop :=
  n_sessions n !! peer = None ∧ n_watermark n !! peer = None ∧ peer_keys (n_transport n) !! peer = None.

(** A node ready to talk: a band id, a counter in range, a Control route, and
    the base key of its PSK. *)
Definition node_ok (n : Node) : Prop :=
  length (t_band_id (n_transport n)) = BAND_ID_LEN ∧ is_u64 (t_seq (n_transport n))
  ∧ Control ∈ routes (n_transport n) ∧ is_u64 (c_session (n_config n)) ∧ c_ciphers (n_config n) ≠ [].

(** Both ends of a band share the PSK. *)
Definition same_band (n m : Node) : Prop :=
  c_psk (n_config n) = c_psk (n_config m) ∧ t_band_id (n_transport n) = t_band_id (n_transport m)
  ∧ base_key (n_transport n) = base_key (n_transport m).

(** The keys of a session with [peer] at epoch [ep] under suite id [c]. *)
Definition keyed (peer c : string) (ep : Z) (n : Node) : Prop :=
  let suite := default ChaCha20Poly1305 (Suite_from_id c) in
  peer_keys (n_transport n) !! peer = Some (derive_session_key (c_psk (n_config n)) c ep, suite)
  ∧ send_keys (n_transport n) !! peer
    = Some (derive_session_key (c_psk (n_config n)) c (c_session (n_config n)), suite)
  ∧ n_sessions n !! peer = Some ep
  ∧ (ps_cipher <$> n_peers n !! peer = Some c) ∧ (ps_session_epoch <$> n_peers n !! peer = Some ep).

(** Pruning leaves the configuration, the transport and an unknown peer alone. *)
Lemma prune_unknown peer n :
  unknown peer n → unknown peer (prune n) ∧ n_config (prune n) = n_config n ∧ n_transport (prune n) = n_transport n.
Proof.
  intros (H1 & H2 & H3). unfold prune. case_decide; [|done]. split_and!; [|done..].
  split_and!; simpl; [| |done]; apply map_lookup_filter_None; by left.
Qed.

Lemma insert_peer_eq from st peers : insert_peer from st peers !! from = Some st.
Proof. unfold insert_peer. by rewrite lookup_insert_eq. Qed.

(** The part of a node a send can change. *)
Lemma send_control_json_eq send_to peer type_ v base t :
  length (t_band_id t) = BAND_ID_LEN →
  ∃ r, send_control_json send_to peer type_ v base t = Ret (set_seq (wrap 64 (t_seq t + 1)) t, r).
Proof.
  intros Hb. unfold send_control_json.
  destruct (transport_send_eq send_to (mkOutbound peer Control 0 (env_to_vec type_ v) 0 base) t Hb) as (r & -> & _). eauto.
Qed.

(** A first HELLO or HELLO_ACK is adopted. *)
Lemma handle_hello_first send_to from seq is_hello v n event ep hostname caps committed :
  hello_body (n_config n) from is_hello v = Some (event, ep, hostname, caps, committed) →
  unknown from n → length (t_band_id (n_transport n)) = BAND_ID_LEN →
  ∃ n' e, handle_hello send_to from seq is_hello v n = Ret (n', e)
    ∧ keyed from committed ep n' ∧ n_config n' = n_config n
    ∧ e_events e = [event] ∧ e_rebase e = [from]
    ∧ t_band_id (n_transport n') = t_band_id (n_transport n) ∧ base_key (n_transport n') = base_key (n_transport n)
    ∧ routes (n_transport n') = routes (n_transport n)
    ∧ peer_keys (n_transport n') = <[from := (derive_session_key (c_psk (n_config n)) committed ep,
        default ChaCha20Poly1305 (Suite_from_id committed))]> (peer_keys (n_transport n))
    ∧ n_sessions n' = <[from := ep]> (n_sessions n) ∧ n_watermark n' = <[from := seq]> (n_watermark n)
    ∧ (∀ to d, (to, d) ∈ e_sent e → is_hello = true ∧ to = from ∧ ∃ t t',
         base_key t = base_key (n_transport n) ∧ t_band_id t = t_band_id (n_transport n) ∧ t_seq t = t_seq (n_transport n)
         ∧ send_control_json send_to from TYPE_HELLO_ACK
             (ack_to_value (mkHelloAck (c_hostname (n_config n)) (c_capabilities (n_config n)) (c_ciphers (n_config n))
                committed (c_session (n_config n)))) true t = Ret (t', Ok d))
    ∧ (is_hello = true → ∃ t t' r, base_key t = base_key (n_transport n) ∧ t_band_id t = t_band_id (n_transport n)
         ∧ e_sent e = sent_to from r
         ∧ send_control_json send_to from TYPE_HELLO_ACK
             (ack_to_value (mkHelloAck (c_hostname (n_config n)) (c_capabilities (n_config n)) (c_ciphers (n_config n))
                committed (c_session (n_config n)))) true t = Ret (t', r)).
Proof.
  intros Hbody (Hs & Hw & Hk) Hb. unfold handle_hello. rewrite Hbody, Hs. cbn [n_watermark].
  rewrite lookup_delete_eq. destruct is_hello.
  - match goal with |- context [send_control_json send_to from TYPE_HELLO_ACK _ true ?t] =>
      destruct (send_control_json_eq send_to from TYPE_HELLO_ACK (ack_to_value (mkHelloAck (c_hostname (n_config n))
        (c_capabilities (n_config n)) (c_ciphers (n_config n)) committed (c_session (n_config n)))) true t Hb) as (r & Er)
    end.
    rewrite Er. eexists _, _. split; [done|]. unfold keyed. simpl. rewrite !lookup_insert_eq, insert_peer_eq.
    split_and!; try done; [by rewrite delete_id| |intros _; eexists _, _, r; split_and!; [| | |exact Er]; done]. intros to d Hin. destruct r as [d'|]; simpl in Hin; [|by apply not_elem_of_nil in Hin].
    apply list_elem_of_singleton in Hin as [= -> ->]. split_and!; [done|done|]. eexists _, _. split_and!; [| | |exact Er]; done.
  - eexists _, _. split; [done|]. unfold keyed. simpl. rewrite !lookup_insert_eq, insert_peer_eq.
    split_and!; try done; [by rewrite delete_id|]. by intros to d Hin%not_elem_of_nil.
Qed.

(** A Control packet under the base key reaches the control task of a node that
    does not know its sender yet. *)
Lemma node_recv_base send_to send_to' now from peer type_ v ta ta' d n :
  send_control_json send_to peer type_ v true ta = Ret (ta', Ok d) →
  length (t_band_id ta) = BAND_ID_LEN → is_u64 (t_seq ta) →
  t_band_id (n_transport n) = t_band_id ta → base_key (n_transport n) = base_key ta →
  peer_keys (n_transport n) !! from = None → Control ∈ routes (n_transport n) →
  node_recv send_to' now from d n =
    ('(n', e) ← control_packet send_to'
       (mkInbound from (mkHeader (t_band_id ta) Control 0 (t_seq ta)) (env_to_vec type_ v))
       (set_transport (see from now (n_transport n)) n);
     Ret (n', e, None)).
Proof.
  intros Hsend Hb Hs Eb Ek Hp Hr. unfold node_recv.
  erewrite (link_recv send_to (mkOutbound peer Control 0 (env_to_vec type_ v) 0 true) ta ta' (n_transport n) d now from);
    [|done|done|done|done| |done|done].
  - simpl. done.
  - right. split; [done|]. unfold send_key. simpl. by rewrite Ek.
Qed.

Lemma unknown_see from now n : unknown from n → unknown from (set_transport (see from now (n_transport n)) n).
Proof. done. Qed.

(** The event that tells the application a peer has greeted. *)
Definition greets (from : string) (e : ControlEvent) : Prop :=
  match e with EHello f _ _ _ | EHelloAck f _ _ _ _ => f = from | _ => False end.

(** A first HELLO, from the datagram to the adopted session. *)
Lemma recv_first_hello send_to send_to' now a b na na1 nb d1 :
  node_ok na → node_ok nb → same_band na nb → unknown a nb →
  connect_peer send_to b na = Ret (na1, Ok d1) →
  let c := select_cipher (c_ciphers (n_config na)) (c_ciphers (n_config nb)) in
  ∃ nb1 e, node_recv send_to' now a d1 nb = Ret (nb1, e, None)
    ∧ keyed a c (c_session (n_config na)) nb1 ∧ n_config nb1 = n_config nb
    ∧ base_key (n_transport nb1) = base_key (n_transport nb) ∧ t_band_id (n_transport nb1) = t_band_id (n_transport nb)
    ∧ (∀ to d, (to, d) ∈ e_sent e → to = a ∧ ∃ t t',
         base_key t = base_key (n_transport nb) ∧ t_band_id t = t_band_id (n_transport nb) ∧ is_u64 (t_seq t)
         ∧ send_control_json send_to' a TYPE_HELLO_ACK
             (ack_to_value (mkHelloAck (c_hostname (n_config nb)) (c_capabilities (n_config nb)) (c_ciphers (n_config nb))
                c (c_session (n_config nb)))) true t = Ret (t', Ok d))
    ∧ (∃ t t' r, base_key t = base_key (n_transport nb) ∧ t_band_id t = t_band_id (n_transport nb) ∧ e_sent e = sent_to a r
         ∧ send_control_json send_to' a TYPE_HELLO_ACK
             (ack_to_value (mkHelloAck (c_hostname (n_config nb)) (c_capabilities (n_config nb)) (c_ciphers (n_config nb))
                c (c_session (n_config nb)))) true t = Ret (t', r))
    ∧ ∃ ev, e_events e = [ev] ∧ greets a ev.
Proof.
  intros (Lb & Lq & Lr & Ls & Lc) (Mb & Mq & Mr & Ms & Mc) (Epsk & Eband & Ebase) Hun Hconn c. unfold connect_peer in Hconn.
  set (hello := mkHello _ _ _ _) in Hconn. assert (Hu8 : is_u8 TYPE_HELLO) by (by vm_compute).
  destruct (send_control_json_eq send_to b TYPE_HELLO (hello_to_value hello) true (n_transport na) Lb) as (r & Er).
  rewrite Er in Hconn. simpl in Hconn. injection Hconn as _ ->.
  rewrite (node_recv_base send_to send_to' now a b TYPE_HELLO (hello_to_value hello) (n_transport na) _ d1 nb Er);
    [|done..|by destruct Hun as (_ & _ & ?)|done].
  unfold control_packet. cbn [in_payload in_from in_header sequence].
  destruct (hello_roundtrip hello Ls TYPE_HELLO Hu8) as [-> Eh]. simpl.
  set (nb0 := prune (set_transport _ nb)).
  destruct (prune_unknown a _ (unknown_see a now nb Hun)) as (Hun' & Ec0 & Et0). fold nb0 in Hun', Ec0, Et0.
  assert (Hbody : hello_body (n_config nb0) a true (hello_to_value hello)
    = Some (EHello a (h_hostname hello) (h_capabilities hello) (h_ciphers hello), c_session (n_config na), h_hostname hello,
            h_capabilities hello, c)).
  { unfold hello_body. rewrite Ec0, Eh. simpl. unfold c. by destruct (c_ciphers (n_config na)). }
  destruct (handle_hello_first send_to' a (t_seq (n_transport na)) true (hello_to_value hello) nb0 _ _ _ _ _ Hbody
    Hun') as (nb1 & e & E & Hk & Ec & Hev & _ & Eb1 & Ek1 & _ & _ & _ & _ & Hsent & Hans); [by rewrite Et0|].
  rewrite Et0 in Eb1, Ek1. rewrite Ec0, Et0 in Hsent, Hans.
  rewrite E. exists nb1, e. split_and!; try done; [exact (eq_trans Ec Ec0)| |by apply Hans|by eexists].
  intros to d Hin. destruct (Hsent to d Hin) as (_ & -> & t & t' & F1 & F2 & F3 & F4).
  split; [done|]. exists t, t'. split_and!; try done. by rewrite F3.
Qed.

(** A first HELLO_ACK. *)
Lemma recv_first_ack send_to send_to' now a b na cfg c d2 t t' :
  node_ok na → is_u64 (c_session cfg) → unknown b na →
  base_key t = base_key (n_transport na) → t_band_id t = t_band_id (n_transport na) → is_u64 (t_seq t) →
  send_control_json send_to' a TYPE_HELLO_ACK
    (ack_to_value (mkHelloAck (c_hostname cfg) (c_capabilities cfg) (c_ciphers cfg) c (c_session cfg))) true t
    = Ret (t', Ok d2) →
  ∃ na2 e, node_recv send_to now b d2 na = Ret (na2, e, None)
    ∧ keyed b (match Suite_from_id c with Some _ => c | None => BASELINE_CIPHER end) (c_session cfg) na2
    ∧ n_config na2 = n_config na ∧ e_sent e = [].
Proof.
  intros (Lb & Lq & Lr & Ls & Lc) Hs Hun Ebase Eband Hq Hsend. assert (Hu8 : is_u8 TYPE_HELLO_ACK) by (by vm_compute).
  rewrite (node_recv_base send_to' send_to now b a TYPE_HELLO_ACK _ t t' d2 na Hsend);
    [|by rewrite Eband|done..|by destruct Hun as (_ & _ & ?)|done].
  unfold control_packet. cbn [in_payload in_from in_header sequence].
  set (ack := mkHelloAck _ _ _ _ _). destruct (ack_roundtrip ack Hs TYPE_HELLO_ACK Hu8) as [-> Ea]. simpl.
  set (na0 := prune (set_transport _ na)).
  destruct (prune_unknown b _ (unknown_see b now na Hun)) as (Hun' & Ec0 & Et0). fold na0 in Hun', Ec0, Et0.
  destruct (handle_hello_first send_to b (t_seq t) false (ack_to_value ack) na0
    (EHelloAck b (a_hostname ack) (a_capabilities ack) (a_ciphers ack) (a_cipher ack)) (c_session cfg) (a_hostname ack)
    (a_capabilities ack) (match Suite_from_id c with Some _ => c | None => BASELINE_CIPHER end))
    as (na2 & e & E & Hk & Ec & _ & _ & _ & _ & _ & _ & _ & _ & Hsent & _).
  - unfold hello_body. by rewrite Ea.
  - done.
  - by rewrite Et0.
  - rewrite E. exists na2, e. split_and!; try done; [exact (eq_trans Ec Ec0)|]. destruct (e_sent e) as [|[to d] l] eqn:El; [done|].
    destruct (Hsent to d) as [? _]; [set_solver|done].
Qed.

Lemma band_bind_ok psk hostname opts now_ms random :
  length random = 8 → is_u64 (default now_ms (bo_session opts)) → node_ok (band_bind psk hostname opts now_ms random).
Proof.
  intros Hr Hs. unfold node_ok. cbn. split_and!; [apply length_derive_band_id| |set_solver|done|].
  - pose proof (SequenceCounter_random_range random Hr). unfold is_u64. lia.
  - unfold with_baseline. case_decide as H; [by intros E; rewrite E in H; apply not_elem_of_nil in H|]. by destruct (bo_ciphers opts).
Qed.
End Handshake.

(** ** The invariant of a node *)

Section Invariant.
Context {crates : Crates} {cj : ControlJson} {ho : HashOrder} {hspec : HashOrderSpec ho}.

Record NodeInv (n : Node) : Prop := {
  ni_band : length (t_band_id (n_transport n)) = BAND_ID_LEN;
  ni_peers : size (n_peers n) ≤ PEER_MAP_SOFT_CAP;
  ni_watermark : size (n_watermark n) ≤ S PEER_MAP_SOFT_CAP;
  ni_sessions : dom (n_sessions n) ⊆ dom (n_watermark n);
  ni_keys : ∀ a k s ep, peer_keys (n_transport n) !! a = Some (k, s) → n_sessions n !! a = Some ep →
    ∃ c, k = derive_session_key (c_psk (n_config n)) c ep ∧ s = default ChaCha20Poly1305 (Suite_from_id c);
}.

Lemma min_epoch_elem l x : min_epoch l = Some x → x ∈ l.
Proof.
  revert x. induction l as [|y l IH]; intros x; [done|]. simpl. destruct (min_epoch l) as [z|].
  - case_match; intros [= <-]; [|set_solver]. specialize (IH z eq_refl). set_solver.
  - intros [= <-]. set_solver.
Qed.

Lemma min_epoch_None l : min_epoch l = None → l = [].
Proof. destruct l as [|y l]; [done|]. simpl. destruct (min_epoch l); [case_match|]; done. Qed.

Lemma size_insert_peer from st peers :
  size peers ≤ PEER_MAP_SOFT_CAP → size (insert_peer from st peers) ≤ PEER_MAP_SOFT_CAP.
Proof.
  intros H. unfold insert_peer. case_decide as Hd.
  - destruct Hd as [Hn Hc]. destruct (min_epoch (hash_iter peers)) as [[v sv]|] eqn:Em.
    + apply min_epoch_elem in Em. rewrite hash_iter_perm in Em. apply elem_of_map_to_list in Em.
      rewrite map_size_insert_None, map_size_delete_Some by (try done; by rewrite lookup_delete_None; right).
      unfold PEER_MAP_SOFT_CAP in *. lia.
    + apply min_epoch_None in Em. pose proof (hash_iter_perm peers) as P. rewrite Em in P.
      apply Permutation_nil_l in P. symmetry in P. apply (f_equal length) in P. rewrite length_map_to_list in P.
      unfold PEER_MAP_SOFT_CAP in *. simpl in P. lia.
  - destruct (peers !! from) eqn:Ef.
    + by rewrite map_size_insert_Some by eauto.
    + rewrite map_size_insert_None by done. assert (¬ (PEER_MAP_SOFT_CAP ≤ size peers)) by (intros ?; by apply Hd). lia.
Qed.

Lemma size_filter_keys {A B} (m : gmap string A) (k : gmap string B) :
  size (filter (λ kv, is_Some (k !! kv.1)) m) ≤ size k.
Proof.
  rewrite <- (size_dom (filter _ m)), <- (size_dom k). apply subseteq_size. intros i [x Hi]%elem_of_dom.
  apply map_lookup_filter_Some in Hi as [_ Hi]. by apply elem_of_dom.
Qed.

Lemma prune_inv n : NodeInv n → NodeInv (prune n) ∧ size (n_watermark (prune n)) ≤ PEER_MAP_SOFT_CAP.
Proof.
  intros I. unfold prune. case_decide; [|split; [done|lia]]. destruct I as [I1 I2 I3 I4 I5].
  pose proof (size_filter_keys (n_watermark n) (n_peers n)). split; [|simpl; lia]. split; simpl; try done; [lia| |].
  - intros i [x Hi]%elem_of_dom. apply map_lookup_filter_Some in Hi as [Hi Hp]. simpl in Hp.
    assert (Hw : i ∈ dom (n_watermark n)) by (by apply I4, elem_of_dom). apply elem_of_dom in Hw as [y Hw].
    apply elem_of_dom. exists y. by apply map_lookup_filter_Some.
  - intros a k s ep Hk Hs. apply map_lookup_filter_Some in Hs as [Hs _]. by eapply I5.
Qed.

(** The adoption of a session leaves a node in its invariant. *)
Lemma adopt_inv n t from ep c suite seq st wm ss ks :
  NodeInv n → size (n_watermark n) ≤ PEER_MAP_SOFT_CAP →
  wm = n_watermark n ∨ wm = delete from (n_watermark n) →
  ss = <[from := ep]> (n_sessions n) →
  suite = default ChaCha20Poly1305 (Suite_from_id c) →
  t_band_id t = t_band_id (n_transport n) →
  peer_keys t = <[from := (derive_session_key (c_psk (n_config n)) c ep, suite)]> ks →
  ks = peer_keys (n_transport n) →
  NodeInv (mkNode (n_config n) t (insert_peer from st (n_peers n)) (<[from := seq]> wm) ss).
Proof.
  intros [I1 I2 I3 I4 I5] Hsz Hwm -> -> Et Ek ->. split; simpl.
  - by rewrite Et.
  - by apply size_insert_peer.
  - pose proof (size_insert_le wm from seq).
    assert (size wm ≤ size (n_watermark n)) by (destruct Hwm as [-> | ->]; [done|apply size_delete_le]). lia.
  - rewrite !dom_insert_L. destruct Hwm as [-> | ->]; [set_solver|]. rewrite dom_delete_L. intros i.
    destruct (decide (i = from)); set_solver.
  - intros a k s ep'. rewrite Ek. destruct (decide (a = from)) as [->|Hne].
    + rewrite !lookup_insert_eq. intros [= <- <-] [= <-]. eauto.
    + rewrite !lookup_insert_ne by done. apply I5.
Qed.

Lemma handle_hello_inv send_to from seq is_hello v n :
  NodeInv n → size (n_watermark n) ≤ PEER_MAP_SOFT_CAP →
  ∃ n' e, handle_hello send_to from seq is_hello v n = Ret (n', e) ∧ NodeInv n' ∧ n_config n' = n_config n.
Proof.
  intros I Hsz. unfold handle_hello.
  destruct (hello_body _ _ _ _) as [[[[[event ep] hostname] caps] committed]|]; [|by eexists _, _].
  set (adopted wm ss := mkNode (n_config n)
    (register_send_key from (derive_session_key (c_psk (n_config n)) committed (c_session (n_config n)))
       (default ChaCha20Poly1305 (Suite_from_id committed))
       (register_peer_key from (derive_session_key (c_psk (n_config n)) committed ep)
          (default ChaCha20Poly1305 (Suite_from_id committed)) (n_transport n)))
    (insert_peer from (mkPeer hostname caps committed ep) (n_peers n)) (<[from := seq]> wm) ss).
  assert (Hfin : ∀ wm rebase, wm = n_watermark n ∨ wm = delete from (n_watermark n) →
    ∃ n' e, (if is_hello then
        '(t, r) ← send_control_json send_to from TYPE_HELLO_ACK (ack_to_value (mkHelloAck (c_hostname (n_config n))
           (c_capabilities (n_config n)) (c_ciphers (n_config n)) committed (c_session (n_config n)))) true
           (n_transport (adopted wm (<[from := ep]> (n_sessions n))));
        Ret (set_transport t (adopted wm (<[from := ep]> (n_sessions n))), mkEffects (sent_to from r) [event] rebase)
      else Ret (adopted wm (<[from := ep]> (n_sessions n)), mkEffects [] [event] rebase)) = Ret (n', e)
      ∧ NodeInv n' ∧ n_config n' = n_config n).
  { intros wm rebase Hwm. destruct is_hello.
    - destruct (send_control_json_eq send_to from TYPE_HELLO_ACK (ack_to_value (mkHelloAck (c_hostname (n_config n))
        (c_capabilities (n_config n)) (c_ciphers (n_config n)) committed (c_session (n_config n)))) true
        (n_transport (adopted wm (<[from := ep]> (n_sessions n)))) (ni_band _ I)) as (r & ->).
      eexists _, _. split_and!; [done| |done]. by eapply (adopt_inv n).
    - eexists _, _. split_and!; [done| |done]. by eapply (adopt_inv n). }
  destruct (n_sessions n !! from) as [prev|] eqn:Es; cbv beta iota zeta.
  - destruct (Z.ltb_spec ep prev) as [Hlt|Hge]; [by eexists _, _|].
    destruct (Z.ltb_spec prev ep) as [Hn|Hn]; cbn [n_watermark n_sessions n_peers n_transport].
    + rewrite lookup_delete_eq. apply (Hfin _ [from]). by right.
    + assert (prev = ep) as -> by lia. destruct (match n_watermark n !! from with Some wm => (seq <=? wm)%Z | None => false end);
        [by eexists _, _|].
      specialize (Hfin (n_watermark n) [] (or_introl eq_refl)). unfold adopted in Hfin. rewrite (insert_id (n_sessions n)) in Hfin by done. exact Hfin.
  - cbn [n_watermark n_sessions n_peers n_transport]. rewrite lookup_delete_eq. apply (Hfin _ [from]). by right.
Qed.

Lemma handle_other_inv from seq type_ v n :
  NodeInv n → size (n_watermark n) ≤ PEER_MAP_SOFT_CAP →
  NodeInv (handle_other from seq type_ v n).1 ∧ n_config (handle_other from seq type_ v n).1 = n_config n.
Proof.
  intros I Hsz. unfold handle_other.
  destruct (match n_watermark n !! from with Some wm => (seq <=? wm)%Z | None => false end); [done|].
  destruct I as [I1 I2 I3 I4 I5].
  assert (Hn : NodeInv (mkNode (n_config n) (n_transport n) (n_peers n) (<[from:=seq]> (n_watermark n)) (n_sessions n))).
  { split; simpl; try done; [pose proof (size_insert_le (n_watermark n) from seq); lia|]. rewrite dom_insert_L. set_solver. }
  cbn zeta. repeat case_match; try done. simpl. split; [|done]. rewrite delete_insert_eq. split; simpl; try done.
  - etrans; [apply size_delete_le|done].
  - etrans; [apply size_delete_le|lia].
  - rewrite !dom_delete_L. set_solver.
  - intros a k s ep [_ Hk]%lookup_delete_Some [_ Hs]%lookup_delete_Some. by eapply I5.
Qed.

Lemma control_packet_inv send_to pkt n :
  NodeInv n → ∃ n' e, control_packet send_to pkt n = Ret (n', e) ∧ NodeInv n' ∧ n_config n' = n_config n.
Proof.
  intros I. unfold control_packet. destruct (prune_inv n I) as [I' Hsz].
  assert (Ec : n_config (prune n) = n_config n) by (unfold prune; by case_decide). cbn zeta.
  destruct (env_from_slice _) as [[type_ v]|]; [|by eexists _, _]. case_match.
  - destruct (handle_hello_inv send_to (in_from pkt) (sequence (in_header pkt)) (type_ =? TYPE_HELLO)%Z v _ I' Hsz)
      as (n' & e & -> & Hn & Hc). eexists _, _. split_and!; [done|done|congruence].
  - destruct (handle_other_inv (in_from pkt) (sequence (in_header pkt)) type_ v _ I' Hsz) as [Hn Hc].
    destruct (handle_other _ _ _ _ _) as [n' e]. eexists _, _. split_and!; [done|done|]. simpl in Hc. congruence.
Qed.

Lemma send_keepalives_eq send_to addrs t :
  length (t_band_id t) = BAND_ID_LEN →
  ∃ s sent, send_keepalives send_to addrs t = Ret (set_seq s t, sent).
Proof.
  revert t. induction addrs as [|a addrs IH]; intros t Hb; simpl; [exists (t_seq t), []; by destruct t|].
  destruct (send_control_json_eq send_to a TYPE_KEEPALIVE json_empty false t Hb) as (r & ->). simpl.
  destruct (IH (set_seq (wrap 64 (t_seq t + 1)) t) Hb) as (s & sent & ->). simpl. eauto.
Qed.

(** Forgetting peers only removes keys. *)
Lemma forget_all_keys addrs t a :
  t_band_id (foldl (λ t a, forget_peer a t) t addrs) = t_band_id t
  ∧ (peer_keys (foldl (λ t a, forget_peer a t) t addrs) !! a
     = if decide (a ∈ addrs) then None else peer_keys t !! a).
Proof.
  revert t. induction addrs as [|x addrs IH]; intros t; simpl; [done|].
  destruct (IH (forget_peer x t)) as [E1 E2]. rewrite E1, E2. split; [done|]. simpl.
  destruct (decide (a ∈ addrs)) as [Ha|Ha]; [by rewrite decide_True by (by apply elem_of_cons; right)|].
  destruct (decide (a = x)) as [->|Hne].
  - rewrite decide_True by (apply elem_of_cons; by left). by rewrite lookup_delete_eq.
  - rewrite decide_False by (by intros [?|?]%elem_of_cons). by rewrite lookup_delete_ne.
Qed.

Lemma keepalive_tick_inv send_to now dead_after n :
  NodeInv n → ∃ n' sent, keepalive_tick send_to now dead_after n = Ret (n', sent) ∧ NodeInv n' ∧ n_config n' = n_config n.
Proof.
  intros I. unfold keepalive_tick.
  destruct (send_keepalives_eq send_to (hash_iter (n_peers n)).*1 (n_transport n) (ni_band _ I)) as (s & sent & ->).
  cbn [mbind outcome_bind]. eexists _, _. split_and!; [done| |done]. destruct I as [I1 I2 I3 I4 I5].
  set (dead := filter _ _). destruct (forget_all_keys dead (set_seq s (n_transport n)) "") as [E1 _].
  split; cbn [n_transport n_peers n_watermark n_sessions n_config]; try done.
  - by rewrite E1.
  - etrans; [apply map_size_filter|done].
  - intros a k sx ep. destruct (forget_all_keys dead (set_seq s (n_transport n)) a) as [_ ->]. case_decide; [done|].
    apply I5.
Qed.
End Invariant.

(** ** Runs and properties *)

Section Properties.
Context {crates : Crates} {cspec : CratesSpec} {cj : ControlJson} {ho : HashOrder}.

Inductive node_event :=
| NRecv (now : Z) (from : string) (d : bytes)
| NKeepalive (now dead_after : Z)
| NConnect (peer : string).

Definition node_step (send_to : bytes → string → bool) (e : node_event) (n : Node) : outcome Node :=
  match e with
  | NRecv now from d => x ← node_recv send_to now from d n; Ret x.1.1
  | NKeepalive now dead_after => x ← keepalive_tick send_to now dead_after n; Ret x.1
  | NConnect peer => x ← connect_peer send_to peer n; Ret x.1
  end.

Fixpoint node_run (send_to : bytes → string → bool) (es : list node_event) (n : Node) : outcome Node :=
  match es with
  | [] => Ret n
  | e :: es' => n ← node_step send_to e n; node_run send_to es' n
  end.

Lemma connect_peer_eq send_to peer n :
  length (t_band_id (n_transport n)) = BAND_ID_LEN →
  ∃ r, connect_peer send_to peer n
    = Ret (set_transport (set_seq (wrap 64 (t_seq (n_transport n) + 1)) (n_transport n)) n, r).
Proof.
  intros Hb. unfold connect_peer.
  edestruct (send_control_json_eq send_to peer TYPE_HELLO) as (r & ->); [done|]. simpl. eauto.
Qed.

Lemma node_step_inv {hspec : HashOrderSpec ho} send_to e n :
  NodeInv n → ∃ n', node_step send_to e n = Ret n' ∧ NodeInv n' ∧ n_config n' = n_config n.
Proof.
  intros I. destruct e as [now from d|now dead|peer]; simpl.
  - unfold node_recv. assert (Ht : ∀ t', t' = n_transport n ∨ t' = see from now (n_transport n) →
      NodeInv (set_transport t' n)) by (intros t' [-> | ->]; destruct I; by split).
    destruct (transport_recv now from d (n_transport n)) as [t' inb] eqn:Er.
    assert (Ht' : NodeInv (set_transport t' n)).
    { apply Ht. unfold transport_recv in Er. repeat case_match; simplify_eq; auto. }
    destruct inb as [pkt|]; [|by eexists]. case_decide; [|by eexists].
    destruct (control_packet_inv send_to pkt _ Ht') as (n' & ef & -> & I' & Hc). simpl. eauto.
  - destruct (keepalive_tick_inv send_to now dead n I) as (n' & sent & -> & I' & Hc). simpl. eauto.
  - destruct (connect_peer_eq send_to peer n (ni_band _ I)) as (r & ->). simpl. eexists. split_and!; [done| |done].
    destruct I. by split.
Qed.

Lemma band_bind_inv psk hostname opts now_ms random : NodeInv (band_bind psk hostname opts now_ms random).
Proof.
  split; [apply length_derive_band_id|apply Nat.le_0_l|apply Nat.le_0_l|done|done].
Qed.

(** C22: the state of the control task stays bounded and consistent. Whatever
    datagrams, timer ticks and connects a node sees, neither the control task
    nor the keepalive task panics, the registry of peers holds at most 1024 of
    them, the replay map at most 1025 and the map of session epochs no more
    than it (every epoch has its watermark), and a peer's decryption key is
    one derived from the PSK for the epoch recorded for it. The transport's
    maps of keys and of last-seen times have no such bound: see
    [hello_flood_leaks_keys]. *)
Theorem control_invariant {hspec : HashOrderSpec ho} send_to psk hostname opts now_ms random es :
  ∃ n, node_run send_to es (band_bind psk hostname opts now_ms random) = Ret n ∧ NodeInv n
    ∧ c_psk (n_config n) = psk.
Proof.
  assert (H : ∀ n, NodeInv n → ∃ n', node_run send_to es n = Ret n' ∧ NodeInv n' ∧ n_config n' = n_config n).
  { induction es as [|e es IH]; intros n I; simpl; [by exists n|].
    destruct (node_step_inv send_to e n I) as (n1 & -> & I1 & E1). simpl.
    destruct (IH n1 I1) as (n2 & -> & I2 & E2). exists n2. split_and!; [done|done|congruence]. }
  destruct (H _ (band_bind_inv psk hostname opts now_ms random)) as (n & E & I & Ec).
  exists n. split_and!; [done|done|by rewrite Ec].
Qed.

(** Two fresh nodes of one band, up to the adoption of the ACK. *)
Lemma handshake_run {jspec : ControlJsonSpec cj} psk ha hb oa ob ma mb ra rb a b send_a send_b now1 now2 na1 d1 :
  let na := band_bind psk ha oa ma ra in
  let nb := band_bind psk hb ob mb rb in
  let c := select_cipher (c_ciphers (n_config na)) (c_ciphers (n_config nb)) in
  length ra = 8 → length rb = 8 → is_u64 (c_session (n_config na)) → is_u64 (c_session (n_config nb)) →
  connect_peer send_a b na = Ret (na1, Ok d1) →
  ∃ nb1 e1, node_recv send_b now1 a d1 nb = Ret (nb1, e1, None)
    ∧ keyed a c (c_session (n_config na)) nb1 ∧ n_config nb1 = n_config nb ∧ (∃ ev, e_events e1 = [ev] ∧ greets a ev)
    ∧ ∀ to d2, (to, d2) ∈ e_sent e1 → to = a ∧ ∃ na2 e2, node_recv send_a now2 b d2 na1 = Ret (na2, e2, None)
        ∧ keyed b (match Suite_from_id c with Some _ => c | None => BASELINE_CIPHER end) (c_session (n_config nb)) na2
        ∧ n_config na2 = n_config na.
Proof.
  intros na nb c Hra Hrb Hsa Hsb Hc.
  pose proof (band_bind_ok psk ha oa ma ra Hra Hsa) as Oa. pose proof (band_bind_ok psk hb ob mb rb Hrb Hsb) as Ob.
  destruct (recv_first_hello send_a send_b now1 a b na na1 nb d1 Oa Ob) as (nb1 & e1 & E & Hk & Ec & Eb & Ed & Hsent & Hans & Hev);
    [done|done|done|].
  exists nb1, e1. split_and!; try done. intros to d2 Hin. destruct (Hsent to d2 Hin) as (-> & t & t' & F1 & F2 & F3 & F4).
  split; [done|]. destruct (connect_peer_eq send_a b na (proj1 Oa)) as (r & Er). rewrite Er in Hc. injection Hc as Hna1 _.
  assert (Oa1 : node_ok na1).
  { subst na1. destruct Oa as (? & ? & ? & ? & ?).
    split; [assumption|split; [|split; [assumption|split; assumption]]]. unfold is_u64, wrap. by apply Z.mod_pos_bound. }
  assert (Una1 : unknown b na1) by (subst na1; repeat split).
  assert (Eb1 : base_key t = base_key (n_transport na1)) by (subst na1; exact F1).
  assert (Ed1 : t_band_id t = t_band_id (n_transport na1)) by (subst na1; exact F2).
  assert (Ec1 : n_config na1 = n_config na) by (subst na1; reflexivity). clear Hna1.
  destruct (recv_first_ack send_a send_b now2 a b na1 (n_config nb) c d2 t t' Oa1 Hsb Una1 Eb1 Ed1 F3 F4)
    as (na2 & e2 & E2 & Hk2 & Ec2 & _).
  exists na2, e2. split; [exact E2|]. split; [exact Hk2|]. congruence.
Qed.

(** The answer to a first HELLO goes out when the socket takes it. *)
Lemma hello_answered {jspec : ControlJsonSpec cj} {tot : AeadTotal} {atot : AesTotal} psk ha hb oa ob ma mb ra rb a b send_a send_b now1 na1 d1 nb1 e1 :
  let na := band_bind psk ha oa ma ra in
  let nb := band_bind psk hb ob mb rb in
  let c := select_cipher (c_ciphers (n_config na)) (c_ciphers (n_config nb)) in
  let ack := mkHelloAck (c_hostname (n_config nb)) (c_capabilities (n_config nb)) (c_ciphers (n_config nb)) c (c_session (n_config nb)) in
  length ra = 8 → length rb = 8 → is_u64 (c_session (n_config na)) → is_u64 (c_session (n_config nb)) →
  (len (env_to_vec TYPE_HELLO_ACK (ack_to_value ack)) <= u32_max)%Z → accepting send_b →
  connect_peer send_a b na = Ret (na1, Ok d1) → node_recv send_b now1 a d1 nb = Ret (nb1, e1, None) →
  ∃ d2, e_sent e1 = [(a, d2)].
Proof.
  intros na nb c ack Hra Hrb Hsa Hsb Hlen Hacc Hc E.
  pose proof (band_bind_ok psk ha oa ma ra Hra Hsa) as Oa. pose proof (band_bind_ok psk hb ob mb rb Hrb Hsb) as Ob.
  destruct (recv_first_hello send_a send_b now1 a b na na1 nb d1 Oa Ob) as (nb2 & e2 & E2 & _ & _ & _ & _ & _ & Hans & _); [done|done|done|].
  rewrite E in E2. injection E2 as <- <-. destruct Hans as (t & t' & r & F1 & F2 & -> & F4).
  destruct (transport_send_ok send_b (mkOutbound a Control 0 (env_to_vec TYPE_HELLO_ACK (ack_to_value ack)) 0 true) t) as [d2 Ed].
  - rewrite F2. apply Ob.
  - cbn [send_key out_use_base_key fst]. rewrite F1. apply length_derive_key.
  - cbn [out_plaintext]. lia.
  - done.
  - pose proof (eq_trans (eq_sym Ed) F4) as [= _ <-]. by exists d2.
Qed.

(** C19: the handshake agrees on keys. When the negotiated suite is one both
    implementations know and the responder's socket takes its answer, the
    responder answers a HELLO that reaches it with one HELLO_ACK, to the
    initiator, and once that has arrived each end opens exactly what the other
    sends it and both record the same suite: the first of the initiator's
    preferences the responder accepts. *)
Theorem handshake_agrees {jspec : ControlJsonSpec cj} {tot : AeadTotal} {atot : AesTotal} psk ha hb oa ob ma mb ra rb a b send_a send_b now1 now2 na1 d1 suite :
  let na := band_bind psk ha oa ma ra in
  let nb := band_bind psk hb ob mb rb in
  let c := select_cipher (c_ciphers (n_config na)) (c_ciphers (n_config nb)) in
  let ack := mkHelloAck (c_hostname (n_config nb)) (c_capabilities (n_config nb)) (c_ciphers (n_config nb)) c (c_session (n_config nb)) in
  length ra = 8 → length rb = 8 → is_u64 (c_session (n_config na)) → is_u64 (c_session (n_config nb)) →
  Suite_from_id c = Some suite →
  (len (env_to_vec TYPE_HELLO_ACK (ack_to_value ack)) <= u32_max)%Z → accepting send_b →
  connect_peer send_a b na = Ret (na1, Ok d1) →
  ∃ nb1 e1 d2, node_recv send_b now1 a d1 nb = Ret (nb1, e1, None) ∧ e_sent e1 = [(a, d2)]
    ∧ ∃ na2 e2, node_recv send_a now2 b d2 na1 = Ret (na2, e2, None)
        ∧ ps_cipher <$> n_peers na2 !! b = Some c ∧ ps_cipher <$> n_peers nb1 !! a = Some c
        ∧ (∀ out, out_to out = b → out_use_base_key out = false → opens a (send_key out (n_transport na2)) (n_transport nb1))
        ∧ (∀ out, out_to out = a → out_use_base_key out = false → opens b (send_key out (n_transport nb1)) (n_transport na2)).
Proof.
  intros na nb c ack Hra Hrb Hsa Hsb Hsuite Hlen Hacc Hc. subst na nb c ack.
  destruct (handshake_run psk ha hb oa ob ma mb ra rb a b send_a send_b now1 now2 na1 d1 Hra Hrb Hsa Hsb Hc)
    as (nb1 & e1 & E & (K1 & K2 & _ & K4 & _) & Ecb & _ & Hsent).
  destruct (hello_answered psk ha hb oa ob ma mb ra rb a b send_a send_b now1 na1 d1 nb1 e1 Hra Hrb Hsa Hsb Hlen Hacc Hc E) as [d2 Ed].
  exists nb1, e1, d2. split_and!; [done|done|].
  destruct (Hsent a d2) as (_ & na2 & e2 & E2 & (L1 & L2 & _ & L4 & _) & Eca); [rewrite Ed; by left|].
  rewrite Hsuite in K1, K2, L1, L2, L4. simpl in Hsuite.
  exists na2, e2. split_and!; try done; intros out Ho Hb; left; unfold send_key; rewrite Hb, Ho.
  - rewrite L2, K1. simpl. rewrite Ecb, Eca. simpl. by rewrite Hsuite.
  - rewrite K2, L1. simpl. rewrite Ecb, ?Eca. simpl. by rewrite Hsuite.
Qed.

(** A suite id that both ends list but neither implements breaks the
    session. The responder derives its keys for that id, the initiator falls
    back to the baseline id on the answer, and each opens the other's data with
    a key derived for another id. *)
Theorem unknown_suite_diverges {jspec : ControlJsonSpec cj} psk ha hb oa ob ma mb ra rb a b send_a send_b now1 now2 na1 d1 :
  let na := band_bind psk ha oa ma ra in
  let nb := band_bind psk hb ob mb rb in
  let c := select_cipher (c_ciphers (n_config na)) (c_ciphers (n_config nb)) in
  length ra = 8 → length rb = 8 → is_u64 (c_session (n_config na)) → is_u64 (c_session (n_config nb)) →
  Suite_from_id c = None →
  connect_peer send_a b na = Ret (na1, Ok d1) →
  ∃ nb1 e1, node_recv send_b now1 a d1 nb = Ret (nb1, e1, None)
    ∧ ∀ to d2, (to, d2) ∈ e_sent e1 → ∃ na2 e2, node_recv send_a now2 b d2 na1 = Ret (na2, e2, None)
        ∧ send_keys (n_transport nb1) !! a
          = Some (derive_session_key psk c (c_session (n_config nb)), ChaCha20Poly1305)
        ∧ peer_keys (n_transport na2) !! b
          = Some (derive_session_key psk BASELINE_CIPHER (c_session (n_config nb)), ChaCha20Poly1305)
        ∧ c ≠ BASELINE_CIPHER.
Proof.
  intros na nb c Hra Hrb Hsa Hsb Hsuite Hc. subst na nb c.
  destruct (handshake_run psk ha hb oa ob ma mb ra rb a b send_a send_b now1 now2 na1 d1 Hra Hrb Hsa Hsb Hc)
    as (nb1 & e1 & E & (K1 & K2 & _ & K4 & _) & Ecb & _ & Hsent).
  exists nb1, e1. split; [done|]. intros to d2 Hin. destruct (Hsent to d2 Hin) as (-> & na2 & e2 & E2 & (L1 & L2 & _ & L4 & _) & Eca).
  rewrite Hsuite in K1, K2, L1, L2, L4. exists na2, e2. split_and!; try done.
  - by rewrite K2, Ecb.
  - by rewrite L1, Eca.
  - intros Ebase. by rewrite Ebase in Hsuite.
Qed.

Lemma handle_hello_sessions send_to from seq is_hello v n n' e :
  handle_hello send_to from seq is_hello v n = Ret (n', e) →
  n_sessions n' = n_sessions n
  ∨ ∃ ep, n_sessions n' = <[from := ep]> (n_sessions n) ∧ ∀ prev, n_sessions n !! from = Some prev → (prev <= ep)%Z.
Proof.
  unfold handle_hello. destruct (hello_body _ _ _ _) as [[[[[event ep] hostname] caps] committed]|]; [|intros [= <- _]; by left].
  cbv zeta. match goal with |- context [if ?b then mkNode ?c ?t ?p ?w ?s else n] => set (n1 := if b then mkNode c t p w s else n) end.
  assert (Hn1 : n_sessions n1 = n_sessions n
    ∨ ∃ ep, n_sessions n1 = <[from := ep]> (n_sessions n) ∧ ∀ prev, n_sessions n !! from = Some prev → (prev <= ep)%Z).
  { unfold n1. destruct (n_sessions n !! from) as [prev|]; [destruct (Z.ltb_spec prev ep)|]; simpl; [|by left|];
      right; exists ep; (split; [done|]); intros ? [=]; lia. }
  clearbody n1.
  match goal with |- (if ?b then _ else _) = _ → _ => destruct b; [intros [= <- _]; by left|] end.
  match goal with |- (if ?b then _ else _) = _ → _ => destruct b; [by intros [= <- _]|] end.
  destruct is_hello; [|by intros [= <- _]].
  destruct (send_control_json _ _ _ _ _ _) as [|[t r]]; [done|]. by intros [= <- _].
Qed.

Lemma handle_other_sessions from seq type_ v n :
  let x := handle_other from seq type_ v n in
  n_sessions x.1 = n_sessions n
  ∨ n_sessions x.1 = delete from (n_sessions n) ∧ e_events x.2 = [EGoodbye from].
Proof. cbv zeta. unfold handle_other. repeat case_match; simpl; auto. Qed.

(** Session epochs never go back. A control packet leaves the recorded
    epoch of a peer where it is or moves it forward, except when the peer says
    GOODBYE or has left the registry and the maps are pruned. *)
Theorem epoch_monotone send_to pkt n n' e a s :
  control_packet send_to pkt n = Ret (n', e) → n_sessions n !! a = Some s →
  (∃ s', n_sessions n' !! a = Some s' ∧ (s <= s')%Z)
  ∨ in_from pkt = a ∧ e_events e = [EGoodbye a]
  ∨ n_peers n !! a = None ∧ PEER_MAP_SOFT_CAP < size (n_watermark n).
Proof.
  intros Hc Hs. unfold control_packet in Hc.
  assert (Hp : n_sessions (prune n) !! a = Some s ∨ n_peers n !! a = None ∧ PEER_MAP_SOFT_CAP < size (n_watermark n)).
  { unfold prune. case_decide as Hd; [|by left]. simpl. destruct (n_peers n !! a) eqn:Ea; [left|by right].
    apply map_lookup_filter_Some. simpl. rewrite Ea. eauto. }
  destruct Hp as [Hp|Hp]; [|by right; right]. cbv zeta in Hc.
  destruct (env_from_slice (in_payload pkt)) as [[type_ v]|]; [|injection Hc as <- _; left; by exists s].
  destruct (_ || _)%bool.
  - apply handle_hello_sessions in Hc as [E|(ep & E & Hep)]; rewrite E; [left; by exists s|].
    destruct (decide (in_from pkt = a)) as [<-|Hne]; [rewrite lookup_insert_eq; eauto|].
    rewrite lookup_insert_ne by done. left. by exists s.
  - injection Hc as Hc. destruct (handle_other_sessions (in_from pkt) (sequence (in_header pkt)) type_ v (prune n)) as [E|[E Ev]];
      rewrite Hc in E; simpl in E; rewrite E; [left; by exists s|].
    destruct (decide (in_from pkt = a)) as [<-|Hne]; [by rewrite Hc in Ev; right; left|].
    rewrite lookup_delete_ne by done. left. by exists s.
Qed.

(** GOODBYE forgets the epoch. After it, a recorded HELLO of any earlier
    epoch and any sequence is adopted again: the peer's decryption key goes back
    to the old session's, and the replayed epoch is recorded. *)
Theorem goodbye_forgets_epoch send_to a n seq v seq' hv event ep hostname caps c :
  match n_watermark n !! a with Some wm => (wm < seq)%Z | None => True end →
  length (t_band_id (n_transport n)) = BAND_ID_LEN →
  hello_body (n_config n) a true hv = Some (event, ep, hostname, caps, c) →
  ∃ n2 e, handle_hello send_to a seq' true hv (handle_other a seq TYPE_GOODBYE v n).1 = Ret (n2, e)
    ∧ keyed a c ep n2 ∧ e_events e = [event].
Proof.
  intros Hw Hb Hbody. unfold handle_other.
  replace (match n_watermark n !! a with Some wm => (seq <=? wm)%Z | None => false end) with false
    by (destruct (n_watermark n !! a); [symmetry; by apply Z.leb_gt|done]).
  change (TYPE_GOODBYE =? TYPE_KEEPALIVE)%Z with false. change (TYPE_GOODBYE =? TYPE_GOODBYE)%Z with true. cbn [fst].
  destruct (handle_hello_first send_to a seq' true hv
    (mkNode (n_config n) (forget_peer a (n_transport n)) (delete a (n_peers n))
       (delete a (<[a:=seq]> (n_watermark n))) (delete a (n_sessions n))) event ep hostname caps c)
    as (n2 & e & E & Hk & _ & Hev & _); [done| |done|].
  - split_and!; simpl; apply lookup_delete_eq.
  - exists n2, e. by split_and!.
Qed.

(** A node that hears the base key of [na]'s band on its Control route. *)
Definition listens (na n : Node) : Prop :=
  t_band_id (n_transport n) = t_band_id (n_transport na) ∧ base_key (n_transport n) = base_key (n_transport na)
  ∧ Control ∈ routes (n_transport n).

(** A first HELLO from [from] adds a key for it and touches no other entry. *)
Lemma flood_step {jspec : ControlJsonSpec cj} send_to send_to' now b na na1 d from n :
  node_ok na → connect_peer send_to b na = Ret (na1, Ok d) → listens na n → unknown from n →
  ∃ n' e ks, node_recv send_to' now from d n = Ret (n', e, None)
    ∧ peer_keys (n_transport n') = <[from := ks]> (peer_keys (n_transport n))
    ∧ dom (n_sessions n') ⊆ {[from]} ∪ dom (n_sessions n) ∧ dom (n_watermark n') ⊆ {[from]} ∪ dom (n_watermark n)
    ∧ listens na n'.
Proof.
  intros (Lb & Lq & Lr & Ls & Lc) Hconn (Eband & Ebase & Mr) Hun. unfold connect_peer in Hconn.
  set (hello := mkHello _ _ _ _) in Hconn. assert (Hu8 : is_u8 TYPE_HELLO) by (by vm_compute).
  destruct (send_control_json_eq send_to b TYPE_HELLO (hello_to_value hello) true (n_transport na) Lb) as (r & Er).
  rewrite Er in Hconn. simpl in Hconn. injection Hconn as _ ->.
  rewrite (node_recv_base send_to send_to' now from b TYPE_HELLO (hello_to_value hello) (n_transport na) _ d n Er);
    [|done..|by destruct Hun as (_ & _ & ?)|done].
  unfold control_packet. cbn [in_payload in_from in_header sequence].
  destruct (hello_roundtrip hello Ls TYPE_HELLO Hu8) as [-> Eh]. simpl.
  set (n0 := prune (set_transport _ n)).
  destruct (prune_unknown from _ (unknown_see from now n Hun)) as (Hun' & Ec0 & Et0). fold n0 in Hun', Ec0, Et0.
  assert (Hd : dom (n_sessions n0) ⊆ dom (n_sessions n) ∧ dom (n_watermark n0) ⊆ dom (n_watermark n)).
  { unfold n0, prune. case_decide; [|done]. split; apply dom_filter_subseteq. }
  assert (Hbody : ∃ x, hello_body (n_config n0) from true (hello_to_value hello) = Some x)
    by (unfold hello_body; rewrite Eh; simpl; eauto).
  destruct Hbody as ([[[[event ep] hostname] caps] c] & Hbody).
  assert (Hb0 : length (t_band_id (n_transport n0)) = BAND_ID_LEN) by (rewrite Et0; simpl; by rewrite Eband).
  destruct (handle_hello_first send_to' from (t_seq (n_transport na)) true (hello_to_value hello) n0 _ _ _ _ _ Hbody Hun' Hb0)
    as (n' & e & E & Hk & Ec & _ & _ & Eb1 & Ek1 & Er1 & Ep & Es & Ew & _).
  rewrite E, Et0 in *. destruct Hd as [Hd1 Hd2]. eexists n', e, _. split_and!; [done|exact Ep|..].
  - rewrite Es, dom_insert_L. set_solver.
  - rewrite Ew, dom_insert_L. set_solver.
  - unfold listens. rewrite Eb1, Ek1, Er1. done.
Qed.

Lemma flood_keys {jspec : ControlJsonSpec cj} send_to send_to' now b na na1 d froms n :
  node_ok na → connect_peer send_to b na = Ret (na1, Ok d) → listens na n →
  NoDup froms → (∀ a, a ∈ froms → unknown a n) →
  ∃ n', node_run send_to' ((λ a, NRecv now a d) <$> froms) n = Ret n'
    ∧ size (peer_keys (n_transport n')) = length froms + size (peer_keys (n_transport n)).
Proof.
  intros Hna Hconn. revert n. induction froms as [|a froms IH]; intros n Hl Hnd Hun; [by exists n|].
  apply NoDup_cons in Hnd as [Ha Hnd].
  destruct (flood_step send_to send_to' now b na na1 d a n Hna Hconn Hl (Hun a ltac:(set_solver)))
    as (n1 & e & ks & E & Ek & Es & Ew & Hl1).
  rewrite fmap_cons. cbn [node_run node_step]. rewrite E. cbn [mbind outcome_bind fst].
  destruct (IH n1 Hl1 Hnd) as (n' & -> & Hsz).
  - intros x Hx. destruct (Hun x ltac:(set_solver)) as (H1 & H2 & H3). assert (x ≠ a) by set_solver.
    split_and!; [apply not_elem_of_dom; apply not_elem_of_dom in H1; set_solver
                |apply not_elem_of_dom; apply not_elem_of_dom in H2; set_solver|].
    by rewrite Ek, lookup_insert_ne.
  - exists n'. split; [done|]. rewrite Hsz, Ek, map_size_insert_None; [simpl; lia|]. by apply Hun; set_solver.
Qed.

(** Replayed HELLOs grow the key maps without bound. One recorded HELLO
    datagram, received from any number of distinct source addresses, leaves a
    decryption key for every one of them, while the registry that the keepalive
    loop clears holds at most 1024 of the addresses. *)
Theorem hello_flood_leaks_keys {jspec : ControlJsonSpec cj} {hspec : HashOrderSpec ho}
    send_to send_to' psk ha hb oa ob ma mb ra rb b na1 d now froms :
  let na := band_bind psk ha oa ma ra in
  length ra = 8 → is_u64 (c_session (n_config na)) →
  connect_peer send_to b na = Ret (na1, Ok d) → NoDup froms →
  ∃ n, node_run send_to' ((λ a, NRecv now a d) <$> froms) (band_bind psk hb ob mb rb) = Ret n
    ∧ size (peer_keys (n_transport n)) = length froms ∧ size (n_peers n) ≤ PEER_MAP_SOFT_CAP.
Proof.
  intros na Hra Hs Hconn Hnd. pose proof (band_bind_ok psk ha oa ma ra Hra Hs) as Hna.
  destruct (flood_keys send_to send_to' now b na na1 d froms (band_bind psk hb ob mb rb) Hna Hconn) as (n & E & Hsz);
    [split_and!; [done|done|cbn; set_solver]|done|done|].
  exists n. split_and!; [done|rewrite Hsz; simpl; rewrite map_size_empty; lia|].
  assert (H : ∀ es n0 n, NodeInv n0 → node_run send_to' es n0 = Ret n → NodeInv n).
  { clear E. induction es as [|e es IH]; intros n0 n' I; simpl; [intros [= <-]; done|].
    destruct (node_step_inv send_to' e n0 I) as (n1 & -> & I1 & _). simpl. by apply IH. }
  eapply ni_peers, H; [apply band_bind_inv|exact E].
Qed.
End Properties.

(** ** Witnesses *)

#[local] Instance hello_eq_dec : EqDecision Hello.
Proof. solve_decision. Defined.
#[local] Instance ack_eq_dec : EqDecision HelloAck.
Proof. solve_decision. Defined.

#[local] Instance hello_countable : Countable Hello.
Proof.
  refine (inj_countable' (λ h, (h_hostname h, h_capabilities h, h_ciphers h, h_session h))
            (λ x, mkHello x.1.1.1 x.1.1.2 x.1.2 x.2) _).
  by intros [].
Defined.

#[local] Instance ack_countable : Countable HelloAck.
Proof.
  refine (inj_countable' (λ a, (a_hostname a, a_capabilities a, a_ciphers a, a_cipher a, a_session a))
            (λ x, mkHelloAck x.1.1.1.1 x.1.1.1.2 x.1.1.2 x.1.2 x.2) _).
  by intros [].
Defined.

(** Values as numbers: the laws of [ControlJsonSpec] can hold. *)
Definition sample_control_json : ControlJson := {|
  json := positive;
  json_empty := 1%positive;
  f32 := Z;
  env_to_vec t v := bits_of (encode (t, v));
  env_from_slice l := decode (of_bits l);
  hello_to_value := encode;
  hello_from_value := decode;
  ack_to_value := encode;
  ack_from_value := decode;
  keyframe_to_value := encode;
  keyframe_from_value := decode;
  rate_to_value := encode;
  rate_from_value := decode;
|}.

#[local] Instance sample_control_json_spec : ControlJsonSpec sample_control_json.
Proof. split; intros; simpl; rewrite of_bits_bits, !countable.decode_encode; done. Qed.

#[local] Instance sample_hash_order : HashOrder := map_to_list.
#[local] Instance sample_hash_order_spec : HashOrderSpec sample_hash_order.
Proof. by intros m. Qed.

#[local] Existing Instance sample_crates.
#[local] Existing Instance sample_control_json.

Definition sample_psk : bytes := str_bytes "psk".
Definition sample_random : bytes := replicate 8 Byte.x11.
Definition sample_options (ciphers : list string) : BandOptions := mkOptions (Some 5%Z) ciphers [] 5000 15000 true.
Definition sample_node (host : string) (ciphers : list string) : Node :=
  band_bind sample_psk host (sample_options ciphers) 0 sample_random.
Definition sample_hello (ciphers : list string) : bytes :=
  match connect_peer (λ _ _, true) "b" (sample_node "x" ciphers) with Ret (_, Ok d) => d | _ => [] end.
Definition sample_sent (ciphers : list string) : Node :=
  set_transport (set_seq (wrap 64 (t_seq (n_transport (sample_node "x" ciphers)) + 1)) (n_transport (sample_node "x" ciphers)))
    (sample_node "x" ciphers).

Lemma sample_connect ciphers :
  connect_peer (λ _ _, true) "b" (sample_node "x" ciphers) = Ret (sample_sent ciphers, Ok (sample_hello ciphers)).
Proof.
  assert (E : ∃ d, connect_peer (λ _ _, true) "b" (sample_node "x" ciphers) = Ret (sample_sent ciphers, Ok d)).
  { unfold connect_peer, send_control_json, transport_send. cbn [SequenceCounter_next send_key out_use_base_key].
    rewrite encode_packet_suite_eq by apply length_derive_band_id. eexists. reflexivity. }
  destruct E as (d & E). unfold sample_hello. by rewrite E.
Qed.

(** A HELLO from one address, a replay of it from another, noise, a keepalive round. *)
Definition sample_node_events : list node_event :=
  [NConnect "b"; NRecv 7 "a" (sample_hello ["aes256-gcm"]); NRecv 8 "c" (sample_hello ["aes256-gcm"]); NRecv 9 "d" [Byte.x00]; NKeepalive 10 15000].

Lemma control_invariant_witness :
  ∃ n, node_run (λ _ _, true) sample_node_events (sample_node "x" []) = Ret n ∧ NodeInv n
    ∧ size (n_peers n) = 2 ∧ size (n_sessions n) = 2 ∧ size (peer_keys (n_transport n)) = 2.
Proof.
  destruct (control_invariant (λ _ _, true) sample_psk "x" (sample_options []) 0 sample_random sample_node_events) as (n & E & I & _).
  exists n. split; [exact E|]. split; [exact I|].
  assert (H : (match node_run (λ _ _, true) sample_node_events (sample_node "x" []) with
               | Ret n => (size (n_peers n), size (n_sessions n), size (peer_keys (n_transport n)))
               | Panic => (0, 0, 0)
               end) = (2, 2, 2)) by by vm_compute.
  unfold sample_node in H. rewrite E in H. injection H as H1 H2 H3. exact (conj H1 (conj H2 H3)).
Defined.

Lemma handshake_agrees_witness :
  ∃ nb1 e1 d2, node_recv (λ _ _, true) 7 "a" (sample_hello ["aes256-gcm"]) (sample_node "y" ["aes256-gcm"]) = Ret (nb1, e1, None)
    ∧ e_sent e1 = [("a", d2)]
    ∧ ∃ na2 e2, node_recv (λ _ _, true) 9 "b" d2 (sample_sent ["aes256-gcm"]) = Ret (na2, e2, None)
        ∧ ps_cipher <$> n_peers na2 !! "b" = Some "aes256-gcm".
Proof.
  destruct (handshake_agrees sample_psk "x" "y" (sample_options ["aes256-gcm"]) (sample_options ["aes256-gcm"]) 0 0
    sample_random sample_random "a" "b" (λ _ _, true) (λ _ _, true) 7 9 (sample_sent ["aes256-gcm"])
    (sample_hello ["aes256-gcm"]) Aes256Gcm) as (nb1 & e1 & d2 & E & Ed & na2 & e2 & E2 & Hc & _).
  - reflexivity.
  - reflexivity.
  - by vm_compute.
  - by vm_compute.
  - reflexivity.
  - by vm_compute.
  - intros d to. reflexivity.
  - apply sample_connect.
  - exists nb1, e1, d2. split; [exact E|]. split; [exact Ed|]. exists na2, e2. split; [exact E2|exact Hc].
Defined.

Lemma unknown_suite_diverges_witness :
  ∃ nb1 e1, node_recv (λ _ _, true) 7 "a" (sample_hello ["rot13"]) (sample_node "y" ["rot13"]) = Ret (nb1, e1, None)
    ∧ ∀ to d2, (to, d2) ∈ e_sent e1 → ∃ na2 e2,
        node_recv (λ _ _, true) 9 "b" d2 (sample_sent ["rot13"]) = Ret (na2, e2, None)
        ∧ peer_keys (n_transport na2) !! "b" ≠ send_keys (n_transport nb1) !! "a".
Proof.
  destruct (unknown_suite_diverges sample_psk "x" "y" (sample_options ["rot13"]) (sample_options ["rot13"]) 0 0
    sample_random sample_random "a" "b" (λ _ _, true) (λ _ _, true) 7 9 (sample_sent ["rot13"])
    (sample_hello ["rot13"])) as (nb1 & e1 & E & H).
  - reflexivity.
  - reflexivity.
  - by vm_compute.
  - by vm_compute.
  - reflexivity.
  - apply sample_connect.
  - exists nb1, e1. split; [exact E|]. intros to d2 Hin. destruct (H to d2 Hin) as (na2 & e2 & E2 & Hs & Hp & _).
    exists na2, e2. split; [exact E2|]. rewrite Hs, Hp. by vm_compute.
Defined.

(** A node that knows ["a"] at epoch 9, a KEEPALIVE of it, and what it does. *)
Definition sample_known : Node :=
  mkNode (n_config (sample_node "y" [])) (n_transport (sample_node "y" [])) ∅ {["a" := 3%Z]} {["a" := 9%Z]}.
Definition sample_keepalive : Inbound :=
  mkInbound "a" (mkHeader [] Control 0 4) (env_to_vec TYPE_KEEPALIVE json_empty).
Definition sample_after : Node * Effects :=
  match control_packet (λ _ _, true) sample_keepalive sample_known with Ret x => x | Panic => (sample_known, no_effects) end.

Lemma epoch_monotone_witness :
  (∃ s', n_sessions sample_after.1 !! "a" = Some s' ∧ (9 <= s')%Z)
  ∨ in_from sample_keepalive = "a" ∧ e_events sample_after.2 = [EGoodbye "a"]
  ∨ n_peers sample_known !! "a" = None ∧ PEER_MAP_SOFT_CAP < size (n_watermark sample_known).
Proof.
  apply (epoch_monotone (λ _ _, true) sample_keepalive sample_known sample_after.1 sample_after.2 "a" 9).
  - reflexivity.
  - reflexivity.
Defined.

Lemma goodbye_forgets_epoch_witness :
  ∃ n2 e, handle_hello (λ _ _, true) "a" 1 true (hello_to_value (mkHello "x" [] [] 2))
            (handle_other "a" 4 TYPE_GOODBYE json_empty sample_known).1 = Ret (n2, e)
    ∧ n_sessions n2 !! "a" = Some 2%Z.
Proof.
  destruct (goodbye_forgets_epoch (λ _ _, true) "a" sample_known 4 json_empty 1 (hello_to_value (mkHello "x" [] [] 2))
    (EHello "a" "x" [] []) 2 "x" [] BASELINE_CIPHER) as (n2 & e & E & (_ & _ & Hs & _) & _).
  - done.
  - reflexivity.
  - reflexivity.
  - exists n2, e. exact (conj E Hs).
Defined.

Lemma hello_flood_leaks_keys_witness :
  ∃ n, node_run (λ _ _, true) ((λ a, NRecv 0 a (sample_hello ["aes256-gcm"])) <$> ["p"; "q"; "r"]) (sample_node "y" []) = Ret n
    ∧ size (peer_keys (n_transport n)) = 3.
Proof.
  destruct (hello_flood_leaks_keys (λ _ _, true) (λ _ _, true) sample_psk "x" "y" (sample_options ["aes256-gcm"])
    (sample_options []) 0 0 sample_random sample_random "b" (sample_sent ["aes256-gcm"]) (sample_hello ["aes256-gcm"]) 0
    ["p"; "q"; "r"]) as (n & E & Hs & _).
  - reflexivity.
  - by vm_compute.
  - apply sample_connect.
  - apply (bool_decide_unpack _). by vm_compute.
  - exists n. exact (conj E Hs).
Defined.
