(* ===== verification/ControlSend.v ===== *)
(** The typed senders of the Control channel ([ControlChannel] of
    [rust/telesthete/src/control.rs]) and what they amount to at a peer with
    which a session is established. *)

From S2P Require Import Prelude Crypto Framing Transport Control.

Section Senders.
Context {crates : Crates} {cj : ControlJson}.

(** [send_typed]: HELLO and HELLO_ACK go under the base key, the rest under the
    session key. *)
Definition send_typed (send_to : bytes → string → bool) (peer : string) (type_ : Z) (payload : json) (n : Node)
    : outcome (Node * result bytes TransportError) :=
  '(t, r) ← send_control_json send_to peer type_ payload ((type_ =? TYPE_HELLO)%Z || (type_ =? TYPE_HELLO_ACK)%Z) (n_transport n);
  Ret (set_transport t n, r).

Definition send_hello_full (send_to : bytes → string → bool) (peer hostname : string) (capabilities ciphers : list string) (n : Node) :=
  send_typed send_to peer TYPE_HELLO (hello_to_value (mkHello hostname capabilities ciphers (c_session (n_config n)))) n.

Definition send_hello (send_to : bytes → string → bool) (peer hostname : string) (n : Node) :=
  send_hello_full send_to peer hostname [] [BASELINE_CIPHER] n.

Definition send_hello_ack_full (send_to : bytes → string → bool) (peer hostname : string) (capabilities ciphers : list string)
    (cipher : string) (n : Node) :=
  send_typed send_to peer TYPE_HELLO_ACK (ack_to_value (mkHelloAck hostname capabilities ciphers cipher (c_session (n_config n)))) n.

Definition send_hello_ack (send_to : bytes → string → bool) (peer hostname : string) (n : Node) :=
  send_hello_ack_full send_to peer hostname [] [BASELINE_CIPHER] BASELINE_CIPHER n.

Definition send_keepalive (send_to : bytes → string → bool) (peer : string) (n : Node) := send_typed send_to peer TYPE_KEEPALIVE json_empty n.

Definition send_goodbye (send_to : bytes → string → bool) (peer : string) (n : Node) := send_typed send_to peer TYPE_GOODBYE json_empty n.

Definition send_keyframe_req (send_to : bytes → string → bool) (peer : string) (stream_id : Z) (n : Node) :=
  send_typed send_to peer TYPE_KEYFRAME_REQ (keyframe_to_value stream_id) n.

Definition send_rate_hint (send_to : bytes → string → bool) (peer : string) (stream_id target_bps : Z) (loss : f32) (n : Node) :=
  send_typed send_to peer TYPE_RATE_HINT (rate_to_value (stream_id, target_bps, loss)) n.

(** The messages of a running session. *)
Inductive ControlMsg := MKeepalive | MKeyframeReq (stream_id : Z) | MRateHint (stream_id target_bps : Z) (loss : f32).

Definition send_msg (send_to : bytes → string → bool) (peer : string) (m : ControlMsg) (n : Node) :=
  match m with
  | MKeepalive => send_keepalive send_to peer n
  | MKeyframeReq id => send_keyframe_req send_to peer id n
  | MRateHint id bps loss => send_rate_hint send_to peer id bps loss n
  end.

Definition event_of (from : string) (m : ControlMsg) : ControlEvent :=
  match m with
  | MKeepalive => EKeepalive from
  | MKeyframeReq id => EKeyframeReq from id
  | MRateHint id bps loss => ERateHint from id bps loss
  end.
End Senders.

(** The bodies of requests and hints; only a finite [f32] survives JSON. *)
Class TypedJsonSpec {cj : ControlJson} := {
  f32_finite : f32 → Prop;
  keyframe_roundtrip id : is_u16 id → ∀ t, is_u8 t →
    env_from_slice (env_to_vec t (keyframe_to_value id)) = Some (t, keyframe_to_value id) ∧ keyframe_from_value (keyframe_to_value id) = Some id;
  rate_roundtrip id bps loss : is_u16 id → is_u32 bps → f32_finite loss → ∀ t, is_u8 t →
    env_from_slice (env_to_vec t (rate_to_value (id, bps, loss))) = Some (t, rate_to_value (id, bps, loss))
    ∧ rate_from_value (rate_to_value (id, bps, loss)) = Some (id, bps, loss);
}.
Arguments TypedJsonSpec cj : clear implicits.

Section Arrival.
Context {crates : Crates} {cspec : CratesSpec} {cj : ControlJson} {jspec : ControlJsonSpec cj} {tspec : TypedJsonSpec cj} {ho : HashOrder}.

Definition msg_ok (m : ControlMsg) : Prop :=
  match m with
  | MKeepalive => True
  | MKeyframeReq id => is_u16 id
  | MRateHint id bps loss => is_u16 id ∧ is_u32 bps ∧ f32_finite loss
  end.

Definition msg_type (m : ControlMsg) : Z :=
  match m with MKeepalive => TYPE_KEEPALIVE | MKeyframeReq _ => TYPE_KEYFRAME_REQ | MRateHint _ _ _ => TYPE_RATE_HINT end.

Definition msg_body (m : ControlMsg) : json :=
  match m with
  | MKeepalive => json_empty
  | MKeyframeReq id => keyframe_to_value id
  | MRateHint id bps loss => rate_to_value (id, bps, loss)
  end.

(** [a] has a session with [b] under one suite, and [b] has seen nothing of [a]
    at or above its next sequence number. *)
Record linked (a b c : string) (na nb : Node) : Prop := {
  l_band : same_band na nb;
  l_len : length (t_band_id (n_transport na)) = BAND_ID_LEN;
  l_send : send_keys (n_transport na) !! b
    = Some (derive_session_key (c_psk (n_config na)) c (c_session (n_config na)), default ChaCha20Poly1305 (Suite_from_id c));
  l_recv : keyed a c (c_session (n_config na)) nb;
  l_route : Control ∈ routes (n_transport nb);
  l_seq : is_u64 (t_seq (n_transport na));
  l_wm : ∀ wm, n_watermark nb !! a = Some wm → (wm < t_seq (n_transport na))%Z;
}.

Lemma msg_decodes m : msg_ok m → env_from_slice (env_to_vec (msg_type m) (msg_body m)) = Some (msg_type m, msg_body m).
Proof.
  destruct m as [|id|id bps loss]; cbn [msg_ok msg_type msg_body]; intros H.
  - by apply empty_roundtrip.
  - by apply (keyframe_roundtrip id H TYPE_KEYFRAME_REQ).
  - destruct H as (H1 & H2 & H3). by apply (rate_roundtrip id bps loss H1 H2 H3 TYPE_RATE_HINT).
Qed.

(** What the receiving task makes of a message above its watermark. *)
Lemma handle_msg from seq m n :
  msg_ok m → match n_watermark n !! from with Some wm => (wm < seq)%Z | None => True end →
  handle_other from seq (msg_type m) (msg_body m) n
  = (mkNode (n_config n) (n_transport n) (n_peers n) (<[from := seq]> (n_watermark n)) (n_sessions n), mkEffects [] [event_of from m] []).
Proof.
  intros Hm Hw. unfold handle_other.
  replace (match n_watermark n !! from with Some wm => (seq <=? wm)%Z | None => false end) with false
    by (destruct (n_watermark n !! from); [symmetry; apply Z.leb_gt; lia|done]).
  destruct m as [|id|id bps loss]; cbn [msg_type msg_body event_of]; [done| |].
  - destruct (keyframe_roundtrip id Hm TYPE_KEYFRAME_REQ) as [_ E]; [by vm_compute|]. cbn -[keyframe_from_value]. by rewrite E.
  - destruct Hm as (H1 & H2 & H3). destruct (rate_roundtrip id bps loss H1 H2 H3 TYPE_RATE_HINT) as [_ E]; [by vm_compute|].
    cbn -[rate_from_value]. by rewrite E.
Qed.

(** A stale one is dropped. *)
Lemma handle_stale from seq type_ v n wm : n_watermark n !! from = Some wm → (seq <= wm)%Z → handle_other from seq type_ v n = (n, no_effects).
Proof. intros Hw Hs. unfold handle_other. by rewrite Hw, (proj2 (Z.leb_le _ _)). Qed.

(** Pruning keeps what is known of a peer in the registry. *)
Lemma prune_keyed a n :
  is_Some (n_peers n !! a) →
  n_watermark (prune n) !! a = n_watermark n !! a ∧ n_sessions (prune n) !! a = n_sessions n !! a
  ∧ n_config (prune n) = n_config n ∧ n_transport (prune n) = n_transport n ∧ n_peers (prune n) = n_peers n.
Proof.
  intros Hp. unfold prune. case_decide; [|done]. cbn [n_watermark n_sessions n_config n_transport n_peers].
  rewrite !map_lookup_filter. split_and!; try done.
  - destruct (n_watermark n !! a); [|done]. cbn. by rewrite option_guard_True.
  - destruct (n_sessions n !! a); [|done]. cbn. by rewrite option_guard_True.
Qed.

Lemma send_msg_eq send_to b m n :
  length (t_band_id (n_transport n)) = BAND_ID_LEN →
  ∃ r, transport_send send_to (mkOutbound b Control 0 (env_to_vec (msg_type m) (msg_body m)) 0 false) (n_transport n)
         = Ret (set_seq (wrap 64 (t_seq (n_transport n) + 1)) (n_transport n), r)
    ∧ send_msg send_to b m n = Ret (set_transport (set_seq (wrap 64 (t_seq (n_transport n) + 1)) (n_transport n)) n, r).
Proof.
  intros Hb. destruct (send_control_json_eq send_to b (msg_type m) (msg_body m) false (n_transport n) Hb) as (r & E).
  exists r. split; [exact E|]. unfold send_control_json in E.
  destruct m; cbn [msg_type msg_body] in E; unfold send_msg, send_keepalive, send_keyframe_req, send_rate_hint, send_typed, send_control_json;
    cbn [orb Z.eqb Pos.eqb TYPE_KEEPALIVE TYPE_KEYFRAME_REQ TYPE_RATE_HINT TYPE_HELLO TYPE_HELLO_ACK] in E |- *; by rewrite E.
Qed.

Lemma linked_key a b c na nb plain :
  linked a b c na nb → opens a (send_key (mkOutbound b Control 0 plain 0 false) (n_transport na)) (n_transport nb).
Proof.
  intros [(E1 & _ & _) _ Hs (Hk & _) _ _ _]. left. unfold send_key. cbn [out_use_base_key out_to]. rewrite Hs, Hk, E1. done.
Qed.

(** One message from the sender to the event at its peer, and its replay. *)
Lemma recv_msg send_to send_to' now now' a b c m na nb ta d :
  linked a b c na nb → msg_ok m →
  transport_send send_to (mkOutbound b Control 0 (env_to_vec (msg_type m) (msg_body m)) 0 false) (n_transport na) = Ret (ta, Ok d) →
  ∃ nb' e, node_recv send_to' now a d nb = Ret (nb', e, None) ∧ e_events e = [event_of a m] ∧ e_sent e = []
    ∧ n_config nb' = n_config nb ∧ n_watermark nb' !! a = Some (t_seq (n_transport na))
    ∧ keyed a c (c_session (n_config na)) nb' ∧ t_band_id (n_transport nb') = t_band_id (n_transport nb)
    ∧ base_key (n_transport nb') = base_key (n_transport nb) ∧ routes (n_transport nb') = routes (n_transport nb)
    ∧ ∃ nb'' e', node_recv send_to' now' a d nb' = Ret (nb'', e', None) ∧ e_events e' = [].
Proof.
  intros L Hm Hsend. pose proof L as [(E1 & E2 & E3) Hb _ Hk Hr Hq Hw].
  assert (Hrecv : ∀ n t, t_band_id (n_transport n) = t_band_id (n_transport nb) → peer_keys (n_transport n) = peer_keys (n_transport nb) →
    routes (n_transport n) = routes (n_transport nb) → base_key (n_transport n) = base_key (n_transport nb) →
    transport_recv t a d (n_transport n)
    = (see a t (n_transport n), Some (mkInbound a (mkHeader (t_band_id (n_transport na)) Control 0 (t_seq (n_transport na))) (env_to_vec (msg_type m) (msg_body m))))).
  { intros n t F1 F2 F3 F4. rewrite (link_recv send_to (mkOutbound b Control 0 (env_to_vec (msg_type m) (msg_body m)) 0 false) (n_transport na) ta (n_transport n) d t a);
      [done|done|by rewrite F1|done|done| |by rewrite F3|done].
    pose proof (linked_key a b c na nb (env_to_vec (msg_type m) (msg_body m)) L) as Ho. unfold opens in *. by rewrite F2, F4. }
  assert (Hpacket : ∀ n, control_packet send_to' (mkInbound a (mkHeader (t_band_id (n_transport na)) Control 0 (t_seq (n_transport na))) (env_to_vec (msg_type m) (msg_body m))) n
    = Ret (handle_other a (t_seq (n_transport na)) (msg_type m) (msg_body m) (prune n))).
  { intros n. unfold control_packet. cbn [in_payload in_from in_header sequence]. rewrite msg_decodes by done. by destruct m. }
  set (n1 := prune (set_transport (see a now (n_transport nb)) nb)).
  destruct Hk as (K1 & K2 & K3 & K4 & K5).
  assert (Hp : is_Some (n_peers nb !! a)) by (destruct (n_peers nb !! a); [by eexists|done]).
  destruct (prune_keyed a (set_transport (see a now (n_transport nb)) nb) Hp) as (P1 & P2 & P3 & P4 & P5). fold n1 in P1, P2, P3, P4, P5.
  cbn [set_transport n_watermark n_sessions n_config n_transport n_peers] in P1, P2, P3, P4, P5.
  set (n2 := mkNode (n_config n1) (n_transport n1) (n_peers n1) (<[a := t_seq (n_transport na)]> (n_watermark n1)) (n_sessions n1)).
  exists n2, (mkEffects [] [event_of a m] []). unfold node_recv at 1. rewrite Hrecv by done. cbv iota beta.
  cbn [in_header channel_type]. rewrite decide_True by done. rewrite Hpacket.
  rewrite handle_msg; [|done|fold n1; rewrite P1; destruct (n_watermark nb !! a) eqn:Ew; [by apply Hw|done]]. fold n1. cbn [mbind outcome_bind].
  split; [done|]. split; [done|]. split; [done|]. split; [exact P3|]. split; [by cbn; rewrite lookup_insert_eq|].
  split; [unfold keyed; subst n2; cbn [n_config n_transport n_peers n_sessions]; rewrite P2, P3, P4, P5; by split_and!|].
  split; [by cbn; rewrite P4|]. split; [by cbn; rewrite P4|]. split; [by cbn; rewrite P4|].
  unfold node_recv. rewrite Hrecv by (cbn; by rewrite P4). cbn [in_header channel_type]. rewrite decide_True by done. rewrite Hpacket.
  destruct (prune_keyed a (set_transport (see a now' (n_transport n2)) n2)) as (Q1 & _); [by cbn; rewrite P5|].
  rewrite (handle_stale _ _ _ _ _ (t_seq (n_transport na))); [|rewrite Q1; cbn; by rewrite lookup_insert_eq|lia]. by eexists _, _.
Qed.
End Arrival.

Section Exchange.
Context {crates : Crates} {cj : ControlJson} {ho : HashOrder}.

(** Messages from [a] to [b], each of which arrives or is lost: those that were
    sent and arrived, and the events at [b]. *)
Fixpoint exchange (send_to send_to' : bytes → string → bool) (now : Z) (a b : string) (ms : list (ControlMsg * bool)) (na nb : Node)
    : outcome (Node * Node * list ControlMsg * list ControlEvent) :=
  match ms with
  | [] => Ret (na, nb, [], [])
  | (m, arrives) :: rest =>
      '(na, r) ← send_msg send_to b m na;
      match r, arrives with
      | Ok d, true =>
          '(nb, e, _) ← node_recv send_to' now a d nb;
          '(na, nb, got, es) ← exchange send_to send_to' now a b rest na nb;
          Ret (na, nb, m :: got, e_events e ++ es)
      | _, _ => exchange send_to send_to' now a b rest na nb
      end
  end.

Lemma linked_sent a b c na nb :
  linked a b c na nb → (t_seq (n_transport na) + 1 < 2 ^ 64)%Z →
  linked a b c (set_transport (set_seq (wrap 64 (t_seq (n_transport na) + 1)) (n_transport na)) na) nb
  ∧ wrap 64 (t_seq (n_transport na) + 1) = (t_seq (n_transport na) + 1)%Z.
Proof.
  intros [H1 H2 H3 H4 H5 H6 H7] Hs. unfold is_u64 in *.
  assert (E : wrap 64 (t_seq (n_transport na) + 1) = (t_seq (n_transport na) + 1)%Z) by (unfold wrap; apply Z.mod_small; lia).
  split; [|done]. split; cbn; try done; rewrite ?E; [unfold is_u64; lia|]. intros wm Hw. specialize (H7 wm Hw). lia.
Qed.

(** The messages of a session are reported once and in order: with the session
    keys in place, of any keepalives, keyframe requests and rate hints a node sends,
    those that were sent and arrive, whichever are lost, are each reported by the
    peer's control task with the fields that were sent and nothing else is, and
    the session stays in place. *)
Theorem control_messages_arrive {cspec : CratesSpec} {jspec : ControlJsonSpec cj} {tspec : TypedJsonSpec cj}
    (send_to send_to' : bytes → string → bool) (now : Z) (a b c : string) (ms : list (ControlMsg * bool)) (na nb : Node) :
  linked a b c na nb → Forall (λ m, msg_ok m.1) ms → (t_seq (n_transport na) + len ms < 2 ^ 64)%Z →
  ∃ na' nb' got es, exchange send_to send_to' now a b ms na nb = Ret (na', nb', got, es)
    ∧ es = event_of a <$> got ∧ sublist got (fst <$> filter (λ m, m.2 = true) ms) ∧ linked a b c na' nb'.
Proof.
  intros L Hms Hs. revert na nb L Hs. induction Hms as [|[m arrives] ms Hm _ IH]; intros na nb L Hs; [by exists na, nb, [], []|].
  rewrite len_cons in Hs. pose proof (len_nonneg ms). cbn [fst] in Hm.
  destruct (send_msg_eq send_to b m na (l_len _ _ _ _ _ L)) as (r & Et & Es). cbn [exchange]. rewrite Es. cbn [mbind outcome_bind].
  destruct (linked_sent _ _ _ _ _ L ltac:(lia)) as [L1 Eq]. set (na1 := set_transport _ na) in *.
  assert (Hq : t_seq (n_transport na1) = (t_seq (n_transport na) + 1)%Z) by exact Eq.
  assert (Hlost : ∃ na' nb' got es, exchange send_to send_to' now a b ms na1 nb = Ret (na', nb', got, es)
    ∧ es = event_of a <$> got ∧ sublist got (fst <$> filter (λ m, m.2 = true) ((m, arrives) :: ms)) ∧ linked a b c na' nb').
  { destruct (IH na1 nb L1 ltac:(lia)) as (na' & nb' & got & es & E & He & Hsub & L'). exists na', nb', got, es. split_and!; try done.
    rewrite filter_cons. case_decide; [|done]. rewrite fmap_cons. by constructor. }
  destruct r as [d|]; [|exact Hlost]. destruct arrives; [|exact Hlost]. clear Hlost.
  destruct (recv_msg send_to send_to' now now a b c m na nb _ d L Hm Et) as (nb1 & e & En & Ee & _ & Hc & Hw & Hk & F1 & F2 & F3 & _).
  rewrite En. cbn [mbind outcome_bind].
  assert (L2 : linked a b c na1 nb1).
  { destruct L1 as [(G1 & G2 & G3) H2 H3 _ H5 H6 _]. split; try done.
    - split_and!; [by rewrite Hc|by rewrite F1|by rewrite F2].
    - by rewrite F3.
    - intros wm. rewrite Hw. intros [= <-]. lia. }
  destruct (IH na1 nb1 L2 ltac:(lia)) as (na' & nb' & got & es & E & He & Hsub & L'). rewrite E. cbn [mbind outcome_bind].
  exists na', nb', (m :: got), (event_of a m :: es). rewrite Ee. split_and!; try done; [by rewrite He|].
  rewrite filter_cons, decide_True by done. rewrite fmap_cons. by constructor.
Qed.
End Exchange.

(** ** Witness *)

#[local] Existing Instance sample_crates.
#[local] Existing Instance sample_control_json.
#[local] Existing Instance sample_hash_order.

#[local] Instance sample_typed_spec : TypedJsonSpec sample_control_json.
Proof.
  refine {| f32_finite := λ _, True |}; intros; simpl; rewrite of_bits_bits, !countable.decode_encode; done.
Defined.

Definition sample_sender : Node :=
  let n := sample_node "x" [] in
  set_transport (register_send_key "b" (derive_session_key sample_psk BASELINE_CIPHER 5) ChaCha20Poly1305 (n_transport n)) n.

Definition sample_receiver : Node :=
  let n := sample_node "y" [] in
  mkNode (n_config n)
    (register_send_key "a" (derive_session_key sample_psk BASELINE_CIPHER 5) ChaCha20Poly1305
      (register_peer_key "a" (derive_session_key sample_psk BASELINE_CIPHER 5) ChaCha20Poly1305 (n_transport n)))
    {["a" := mkPeer "x" [] BASELINE_CIPHER 5]} ∅ {["a" := 5%Z]}.

Definition sample_msgs : list (@ControlMsg sample_control_json * bool) :=
  [(MKeepalive, true); (MKeyframeReq 7, false); (@MRateHint sample_control_json 7 9 1%Z, true)].

Lemma sample_linked : linked "a" "b" BASELINE_CIPHER sample_sender sample_receiver.
Proof.
  split; try done.
Qed.

Lemma control_messages_arrive_witness :
  ∃ na' nb' got es,
    exchange (λ _ _, true) (λ _ _, true) 3 "a" "b" sample_msgs sample_sender sample_receiver
      = Ret (na', nb', got, es)
    ∧ es = event_of "a" <$> got.
Proof.
  destruct (@control_messages_arrive sample_crates sample_control_json sample_hash_order sample_crates_spec sample_control_json_spec sample_typed_spec
    (λ _ _, true) (λ _ _, true) 3 "a" "b" BASELINE_CIPHER
    sample_msgs sample_sender sample_receiver) as (na' & nb' & got & es & E & He & _).
  - apply sample_linked.
  - repeat constructor; cbn; unfold is_u16, is_u32; lia.
  - vm_compute. reflexivity.
  - exists na', nb', got, es. exact (conj E He).
Defined.
