(* ===== verification/Band.v ===== *)
(** A running Band ([rust/telesthete/src/band.rs]) with the endpoints it hands out:
    the hubs, tasks and handles of [stream.rs], [channel.rs], [board.rs] and
    [drop_channel.rs] around one transport and one control task, with the queues
    between them and the broadcast that tells the hubs a peer restarted. A step is
    one round of one task or one call of the application; any interleaving of
    steps is a behaviour. *)

From S2P Require Import Prelude Crypto Framing Fragment Channel Board Drop Transport Control.

(** * The rebase broadcast *)

(** [broadcast::channel(64)]: everything sent so far, and each receiver's position.
    A receiver more than 64 values behind is moved to the oldest value kept and told
    that it lagged; [None] while there is nothing to receive. *)
Definition REBASE_CAP : nat := 64.

Definition rebase_recv (log : list string) (pos : nat) : option (nat * option string) :=
  if decide (length log ≤ pos) then None
  else if decide (pos + REBASE_CAP < length log) then Some (length log - REBASE_CAP, None)
  else Some (S pos, log !! pos).

(** * Handles and tasks *)

(** A [StreamEndpoint]: its messages not yet received by the application. *)
Record StreamEp := mkStreamEp { se_peer : string; se_id : Z; se_queue : list StreamMessage }.

(** The Stream hub's task: its packets, its position in the broadcast, its tables, and
    the endpoints with the one that each stream id leads to. *)
Record StreamSide := mkStreamSide {
  ss_in : list Inbound;
  ss_pos : nat;
  ss_hub : StreamHub;
  ss_routes : gmap Z nat;
  ss_eps : list StreamEp;
}.

Inductive Command := CConnect | CSend (data : bytes) | CClose.

(** A [ChannelEndpoint] and its connection task: the two queues into the task, the
    messages and answered connects for the handle, and whether the handle is still
    held. *)
Record ChannelEp := mkChannelEp {
  ce_peer : string;
  ce_id : Z;
  ce_conn : Conn;
  ce_cmds : list Command;
  ce_frames : list ChannelFrame;
  ce_messages : list bytes;
  ce_connected : nat;
  ce_held : bool;
}.

Record ChannelSide := mkChannelSide {
  cs_in : list Inbound;
  cs_pos : nat;
  cs_hub : Hub;
  cs_routes : gmap (string * Z) nat;
  cs_eps : list ChannelEp;
}.

(** How a task of its own is doing: it runs, has ended (its channel closed, or aborted), or
    was stopped by a panic (or, in a Drop receiver, by a loop that does not end). *)
Inductive TaskState := Runs | Ended | Panicked.
Definition runs (s : TaskState) : bool := match s with Runs => true | _ => false end.

(** The keepalive task, if there is one, with its [dead_after]. *)
Inductive Keepalive := NoKeepalive | KeepaliveRuns (dead_after : Z) | KeepalivePanicked.

Section Band.
Context {crates : Crates} {serde : Serde} {dj : DropJson} {cj : ControlJson} {ho : HashOrder}.

(** A [BoardEndpoint] and its task. *)
Record BoardEp := mkBoardEp {
  be_id : Z;
  be_task : BoardTask;
  be_in : list Inbound;
  be_pos : nat;
  be_changes : list BoardChange;
  be_state : TaskState;
}.
Definition be_running (ep : BoardEp) : bool := runs (be_state ep).

Record BoardSide := mkBoardSide { bs_in : list Inbound; bs_routes : gmap Z nat; bs_eps : list BoardEp }.

(** A [DropSender] or [DropReceiver] and its task. *)
Record DropEp := mkDropEp {
  de_id : Z;
  de_side : DropSender + DropReceiver;
  de_in : list Inbound;
  de_pos : nat;
  de_verdicts : list (string * bool);
  de_done : list (bytes * bool);
  de_state : TaskState;
}.
Definition de_running (ep : DropEp) : bool := runs (de_state ep).

Record DropSide := mkDropSide { ds_in : list Inbound; ds_routes : gmap Z nat; ds_eps : list DropEp }.

(** The Band. The control task has ended once [bd_control_running] is false;
    [bd_control] says whether the Band still holds the [ControlChannel]. *)
Record Band := mkBand {
  bd_node : Node;
  bd_keepalive : Keepalive;
  bd_control_in : list Inbound;
  bd_control_running : bool;
  bd_events : list ControlEvent;
  bd_control : bool;
  bd_rebase : list string;
  bd_stream : StreamSide;
  bd_channel : ChannelSide;
  bd_board : BoardSide;
  bd_drop : DropSide;
}.

Definition with_node (n : Node) (b : Band) : Band :=
  mkBand n (bd_keepalive b) (bd_control_in b) (bd_control_running b) (bd_events b) (bd_control b) (bd_rebase b)
    (bd_stream b) (bd_channel b) (bd_board b) (bd_drop b).
Definition with_control_in (q : list Inbound) (b : Band) : Band :=
  mkBand (bd_node b) (bd_keepalive b) q (bd_control_running b) (bd_events b) (bd_control b) (bd_rebase b)
    (bd_stream b) (bd_channel b) (bd_board b) (bd_drop b).
Definition with_events (es : list ControlEvent) (b : Band) : Band :=
  mkBand (bd_node b) (bd_keepalive b) (bd_control_in b) (bd_control_running b) es (bd_control b) (bd_rebase b)
    (bd_stream b) (bd_channel b) (bd_board b) (bd_drop b).
Definition with_control (held running : bool) (b : Band) : Band :=
  mkBand (bd_node b) (bd_keepalive b) (bd_control_in b) running (bd_events b) held (bd_rebase b)
    (bd_stream b) (bd_channel b) (bd_board b) (bd_drop b).
Definition with_rebase (log : list string) (b : Band) : Band :=
  mkBand (bd_node b) (bd_keepalive b) (bd_control_in b) (bd_control_running b) (bd_events b) (bd_control b) log
    (bd_stream b) (bd_channel b) (bd_board b) (bd_drop b).
Definition with_stream (s : StreamSide) (b : Band) : Band :=
  mkBand (bd_node b) (bd_keepalive b) (bd_control_in b) (bd_control_running b) (bd_events b) (bd_control b) (bd_rebase b)
    s (bd_channel b) (bd_board b) (bd_drop b).
Definition with_channel (c : ChannelSide) (b : Band) : Band :=
  mkBand (bd_node b) (bd_keepalive b) (bd_control_in b) (bd_control_running b) (bd_events b) (bd_control b) (bd_rebase b)
    (bd_stream b) c (bd_board b) (bd_drop b).
Definition with_board (x : BoardSide) (b : Band) : Band :=
  mkBand (bd_node b) (bd_keepalive b) (bd_control_in b) (bd_control_running b) (bd_events b) (bd_control b) (bd_rebase b)
    (bd_stream b) (bd_channel b) x (bd_drop b).
Definition with_drop (x : DropSide) (b : Band) : Band :=
  mkBand (bd_node b) (bd_keepalive b) (bd_control_in b) (bd_control_running b) (bd_events b) (bd_control b) (bd_rebase b)
    (bd_stream b) (bd_channel b) (bd_board b) x.

Definition band_transport (b : Band) : Transport := n_transport (bd_node b).

(** * Binding *)

Definition StreamSide_new (pos : nat) : StreamSide := mkStreamSide [] pos (mkStreamHub ∅ ∅) ∅ [].
Definition ChannelSide_new (pos : nat) : ChannelSide := mkChannelSide [] pos Hub_new ∅ [].

(** [spawn_keepalive]: [tokio::time::interval] panics on a period of zero, in the task. *)
Definition spawn_keepalive (interval dead_after : Z) : Keepalive :=
  if (interval =? 0)%Z then KeepalivePanicked else KeepaliveRuns dead_after.

(** [bind_with_options]: the node, its hubs and the keepalive loop, when asked for. *)
Definition bind_with_options (psk : bytes) (hostname : string) (opts : BandOptions) (now_ms : Z) (random : bytes) : Band :=
  mkBand (band_bind psk hostname opts now_ms random)
    (if bo_auto_keepalive opts then spawn_keepalive (bo_keepalive_interval opts) (bo_dead_after opts) else NoKeepalive)
    [] true [] true [] (StreamSide_new 0) (ChannelSide_new 0) (mkBoardSide [] ∅ []) (mkDropSide [] ∅ []).

Definition bind (psk : bytes) (hostname : string) (now_ms : Z) (random : bytes) : Band :=
  bind_with_options psk hostname BandOptions_default now_ms random.

Definition bind_with_session (psk : bytes) (hostname : string) (session now_ms : Z) (random : bytes) : Band :=
  let d := BandOptions_default in
  bind_with_options psk hostname
    (mkOptions (Some session) (bo_ciphers d) (bo_capabilities d) (bo_keepalive_interval d) (bo_dead_after d) (bo_auto_keepalive d))
    now_ms random.

(** * Sending *)

(** Sends in order; a failed one is logged and the next is tried. *)
Fixpoint send_each_out (send_to : bytes → string → bool) (outs : list Outbound) (t : Transport)
    : outcome (Transport * list (string * bytes)) :=
  match outs with
  | [] => Ret (t, [])
  | o :: outs' =>
      '(t, r) ← transport_send send_to o t;
      '(t, rest) ← send_each_out send_to outs' t;
      Ret (t, sent_to (out_to o) r ++ rest)
  end.

(** Sends in order up to the first failure ([?] in a loop). *)
Fixpoint send_until (send_to : bytes → string → bool) (outs : list Outbound) (t : Transport)
    : outcome (Transport * list (string * bytes)) :=
  match outs with
  | [] => Ret (t, [])
  | o :: outs' =>
      '(t, r) ← transport_send send_to o t;
      match r with
      | Err _ => Ret (t, [])
      | Ok d => '(t, rest) ← send_until send_to outs' t; Ret (t, (out_to o, d) :: rest)
      end
  end.

Definition channel_out (peer : string) (channel_id : Z) (plaintext : bytes) : Outbound :=
  mkOutbound peer Channel channel_id plaintext 4 false.
Definition send_board_raw (board_id : Z) (x : string * bytes) : Outbound := mkOutbound x.1 Board board_id x.2 3 false.
Definition send_drop_raw (drop_id : Z) (x : string * bytes) : Outbound := mkOutbound x.1 Drop drop_id x.2 4 false.

Definition sending (send : Transport → outcome (Transport * list (string * bytes))) (b : Band)
    : outcome (Band * list (string * bytes)) :=
  '(t, sent) ← send (band_transport b);
  Ret (with_node (set_transport t (bd_node b)) b, sent).

(** * Tasks *)

(** The receive loop: an authenticated packet goes to the queue of its type's hub. *)
Definition push_inbound (pkt : Inbound) (b : Band) : Band :=
  match channel_type (in_header pkt) with
  | Control => with_control_in (bd_control_in b ++ [pkt]) b
  | Stream => let s := bd_stream b in
      with_stream (mkStreamSide (ss_in s ++ [pkt]) (ss_pos s) (ss_hub s) (ss_routes s) (ss_eps s)) b
  | Channel => let c := bd_channel b in
      with_channel (mkChannelSide (cs_in c ++ [pkt]) (cs_pos c) (cs_hub c) (cs_routes c) (cs_eps c)) b
  | Board => let x := bd_board b in with_board (mkBoardSide (bs_in x ++ [pkt]) (bs_routes x) (bs_eps x)) b
  | Drop => let x := bd_drop b in with_drop (mkDropSide (ds_in x ++ [pkt]) (ds_routes x) (ds_eps x)) b
  | _ => b
  end.

Definition recv_round (now : Z) (from : string) (d : bytes) (b : Band) : Band :=
  let '(t, inbound) := transport_recv now from d (band_transport b) in
  let b := with_node (set_transport t (bd_node b)) b in
  match inbound with Some pkt => push_inbound pkt b | None => b end.

(** The control task: a packet off its queue, the events it reports, the peers it
    announces as restarted. *)
Definition control_round (send_to : bytes → string → bool) (b : Band) : outcome (Band * list (string * bytes)) :=
  match bd_control_in b with
  | pkt :: rest =>
      if negb (bd_control_running b) then Ret (b, []) else
      '(n, e) ← control_packet send_to pkt (bd_node b);
      Ret (with_rebase (bd_rebase b ++ e_rebase e) (with_events (bd_events b ++ e_events e) (with_control_in rest (with_node n b))),
           e_sent e)
  | [] => Ret (b, [])
  end.

Definition keepalive_round (send_to : bytes → string → bool) (now : Z) (b : Band) : outcome (Band * list (string * bytes)) :=
  match bd_keepalive b with
  | KeepaliveRuns dead_after => '(n, sent) ← keepalive_tick send_to now dead_after (bd_node b); Ret (with_node n b, sent)
  | NoKeepalive | KeepalivePanicked => Ret (b, [])
  end.

(** The two arms of the Stream hub's [select!]. *)
Definition stream_round (s : StreamSide) : StreamSide :=
  match ss_in s with
  | [] => s
  | pkt :: rest =>
      let '(hub, msg) := stream_packet pkt (ss_hub s) in
      let eps := match msg, ss_routes s !! channel_id (in_header pkt) with
                 | Some m, Some e => alter (λ ep, mkStreamEp (se_peer ep) (se_id ep) (se_queue ep ++ [m])) e (ss_eps s)
                 | _, _ => ss_eps s
                 end in
      mkStreamSide rest (ss_pos s) hub (ss_routes s) eps
  end.

Definition stream_rebase_round (log : list string) (s : StreamSide) : StreamSide :=
  match rebase_recv log (ss_pos s) with
  | None => s
  | Some (pos, peer) =>
      mkStreamSide (ss_in s) pos (match peer with Some a => stream_rebase a (ss_hub s) | None => ss_hub s end)
        (ss_routes s) (ss_eps s)
  end.

(** The Channel hub. *)
Definition push_frame (f : ChannelFrame) (ep : ChannelEp) : ChannelEp :=
  if running (ce_conn ep)
  then mkChannelEp (ce_peer ep) (ce_id ep) (ce_conn ep) (ce_cmds ep) (ce_frames ep ++ [f]) (ce_messages ep) (ce_connected ep) (ce_held ep)
  else ep.

Definition channel_round (c : ChannelSide) : ChannelSide :=
  match cs_in c with
  | [] => c
  | pkt :: rest =>
      let '(hub, routed) := hub_packet (in_from pkt) (channel_id (in_header pkt)) (sequence (in_header pkt)) (in_payload pkt) (cs_hub c) in
      let eps := match routed with
                 | Some (key, f) => match cs_routes c !! key with Some e => alter (push_frame f) e (cs_eps c) | None => cs_eps c end
                 | None => cs_eps c
                 end in
      mkChannelSide rest (cs_pos c) hub (cs_routes c) eps
  end.

Definition channel_rebase_round (log : list string) (c : ChannelSide) : ChannelSide :=
  match rebase_recv log (cs_pos c) with
  | None => c
  | Some (pos, peer) =>
      mkChannelSide (cs_in c) pos (match peer with Some a => hub_rebase a (cs_hub c) | None => cs_hub c end)
        (cs_routes c) (cs_eps c)
  end.

(** One arm of [run_connection]'s [select!]: a command (or the handle gone), a frame
    (or the route taken over by a later [open]), the retransmission timer. [fid] is
    the random id of a message sent. *)
Inductive ConnArm := ArmCommand (fid : bytes) | ArmFrame | ArmTimer.

Definition command_event (fid : bytes) (c : Command) : ConnEvent :=
  match c with CConnect => CmdConnect | CSend d => CmdSend fid d | CClose => CmdClose end.

Definition conn_arm (now : Z) (arm : ConnArm) (routed : bool) (ep : ChannelEp) : option (ConnEvent * list Command * list ChannelFrame) :=
  match arm with
  | ArmCommand fid =>
      match ce_cmds ep with
      | c :: rest => Some (command_event fid c, rest, ce_frames ep)
      | [] => if ce_held ep then None else Some (CmdGone, [], ce_frames ep)
      end
  | ArmFrame =>
      match ce_frames ep with
      | f :: rest => Some (FrameIn f, ce_cmds ep, rest)
      | [] => if routed then None else Some (HubGone, ce_cmds ep, [])
      end
  | ArmTimer =>
      match deadline (ce_conn ep) with
      | Some d => if (d <=? now)%Z then Some (TimerFired, ce_cmds ep, ce_frames ep) else None
      | None => None
      end
  end.

Definition conn_task_round (send_to : bytes → string → bool) (now : Z) (arm : ConnArm) (e : nat) (b : Band)
    : outcome (Band * list (string * bytes)) :=
  let c := bd_channel b in
  match cs_eps c !! e with
  | None => Ret (b, [])
  | Some ep =>
      if negb (running (ce_conn ep)) then Ret (b, []) else
      match conn_arm now arm (bool_decide (cs_routes c !! (ce_peer ep, ce_id ep) = Some e)) ep with
      | None => Ret (b, [])
      | Some (ev, cmds, frames) =>
          '(conn, out) ← conn_round now (ce_held ep) ev (ce_conn ep);
          let ep' := mkChannelEp (ce_peer ep) (ce_id ep) conn cmds frames (ce_messages ep ++ o_messages out)
                       (ce_connected ep + (if o_connected out then 1 else 0)) (ce_held ep) in
          let b := with_channel (mkChannelSide (cs_in c) (cs_pos c) (cs_hub c) (cs_routes c) (<[e := ep']> (cs_eps c))) b in
          sending (send_each_out send_to (channel_out (ce_peer ep) (ce_id ep) <$> o_sent out)) b
      end
  end.

(** The demultiplexers of boards and drops: a packet for the endpoint opened last
    under its id, whose task must still be there to take it. *)
Definition push_board (pkt : Inbound) (ep : BoardEp) : BoardEp :=
  if be_running ep
  then mkBoardEp (be_id ep) (be_task ep) (be_in ep ++ [pkt]) (be_pos ep) (be_changes ep) Runs else ep.

Definition board_demux (x : BoardSide) : BoardSide :=
  match bs_in x with
  | [] => x
  | pkt :: rest =>
      mkBoardSide rest (bs_routes x)
        (match bs_routes x !! channel_id (in_header pkt) with Some e => alter (push_board pkt) e (bs_eps x) | None => bs_eps x end)
  end.

Definition push_drop (pkt : Inbound) (ep : DropEp) : DropEp :=
  if de_running ep
  then mkDropEp (de_id ep) (de_side ep) (de_in ep ++ [pkt]) (de_pos ep) (de_verdicts ep) (de_done ep) Runs else ep.

Definition drop_demux (x : DropSide) : DropSide :=
  match ds_in x with
  | [] => x
  | pkt :: rest =>
      mkDropSide rest (ds_routes x)
        (match ds_routes x !! channel_id (in_header pkt) with Some e => alter (push_drop pkt) e (ds_eps x) | None => ds_eps x end)
  end.

Definition set_board_ep (e : nat) (ep : BoardEp) (b : Band) : Band :=
  with_board (mkBoardSide (bs_in (bd_board b)) (bs_routes (bd_board b)) (<[e := ep]> (bs_eps (bd_board b)))) b.
Definition set_drop_ep (e : nat) (ep : DropEp) (b : Band) : Band :=
  with_drop (mkDropSide (ds_in (bd_drop b)) (ds_routes (bd_drop b)) (<[e := ep]> (ds_eps (bd_drop b)))) b.

(** A task that runs stops for the reason given. *)
Definition stop_board (why : TaskState) (ep : BoardEp) : BoardEp :=
  mkBoardEp (be_id ep) (be_task ep) [] (be_pos ep) (be_changes ep) (if be_running ep then why else be_state ep).
Definition stop_drop (why : TaskState) (ep : DropEp) : DropEp :=
  mkDropEp (de_id ep) (de_side ep) [] (de_pos ep) (de_verdicts ep) (de_done ep) (if de_running ep then why else de_state ep).

(** One packet of [run_board_task]. A task whose queue has lost its sender ends; a
    panic stops the task it happens in and is left in its state. *)
Definition board_task_round (send_to : bytes → string → bool) (now : Z) (fid : bytes) (e : nat) (b : Band)
    : outcome (Band * list (string * bytes)) :=
  match bs_eps (bd_board b) !! e with
  | None => Ret (b, [])
  | Some ep =>
      if negb (be_running ep) then Ret (b, []) else
      match be_in ep with
      | [] => if decide (bs_routes (bd_board b) !! be_id ep = Some e) then Ret (b, []) else Ret (set_board_ep e (stop_board Ended ep) b, [])
      | pkt :: rest =>
          match board_packet now fid (in_from pkt) (sequence (in_header pkt)) (in_payload pkt) (be_task ep) with
          | Panic => Ret (set_board_ep e (stop_board Panicked ep) b, [])
          | Ret (task, frames, changes) =>
              let ep := mkBoardEp (be_id ep) task rest (be_pos ep) (be_changes ep ++ changes) Runs in
              sending (send_until send_to (send_board_raw (be_id ep) <$> ((in_from pkt,.) <$> frames))) (set_board_ep e ep b)
          end
      end
  end.

Definition board_rebase_round (e : nat) (b : Band) : Band :=
  match bs_eps (bd_board b) !! e with
  | Some ep =>
      match be_running ep, rebase_recv (bd_rebase b) (be_pos ep) with
      | true, Some (pos, peer) =>
          set_board_ep e (mkBoardEp (be_id ep) (match peer with Some a => task_rebase a (be_task ep) | None => be_task ep end)
                            (be_in ep) pos (be_changes ep) Runs) b
      | _, _ => b
      end
  | None => b
  end.

(** The drop tasks; the receiver's also have a ticker. *)
Definition drop_sender_packet (send_to : bytes → string → bool) (e : nat) (ep : DropEp) (d : DropSender) (pkt : Inbound)
    (rest : list Inbound) (b : Band) : outcome (Band * list (string * bytes)) :=
  let '(d, frames, verdict) := sender_packet (in_from pkt) (sequence (in_header pkt)) (in_payload pkt) d in
  let ep := mkDropEp (de_id ep) (inl d) rest (de_pos ep)
              (de_verdicts ep ++ option_list ((in_from pkt,.) <$> verdict)) (de_done ep) Runs in
  sending (send_each_out send_to (send_drop_raw (de_id ep) <$> ((in_from pkt,.) <$> frames))) (set_drop_ep e ep b).

Definition drop_receiver_done (send_to : bytes → string → bool) (e : nat) (ep : DropEp) (rest : list Inbound)
    (r : outcome (DropReceiver * list bytes * option (bytes * bool))) (b : Band) : outcome (Band * list (string * bytes)) :=
  match r with
  | Panic => Ret (set_drop_ep e (stop_drop Panicked ep) b, [])
  | Ret (d, frames, completion) =>
      let ep := mkDropEp (de_id ep) (inr d) rest (de_pos ep) (de_verdicts ep) (de_done ep ++ option_list completion) Runs in
      let outs := match r_sender_addr (dr_core d) with Some dest => (dest,.) <$> frames | None => [] end in
      sending (send_each_out send_to (send_drop_raw (de_id ep) <$> outs)) (set_drop_ep e ep b)
  end.

Definition drop_task_round (send_to : bytes → string → bool) (now : Z) (e : nat) (b : Band)
    : outcome (Band * list (string * bytes)) :=
  match ds_eps (bd_drop b) !! e with
  | None => Ret (b, [])
  | Some ep =>
      if negb (de_running ep) then Ret (b, []) else
      match de_in ep with
      | [] => if decide (ds_routes (bd_drop b) !! de_id ep = Some e) then Ret (b, []) else Ret (set_drop_ep e (stop_drop Ended ep) b, [])
      | pkt :: rest =>
          match de_side ep with
          | inl d => drop_sender_packet send_to e ep d pkt rest b
          | inr d => drop_receiver_done send_to e ep rest
                       (receiver_packet now (in_from pkt) (sequence (in_header pkt)) (in_payload pkt) d) b
          end
      end
  end.

Definition drop_tick_round (send_to : bytes → string → bool) (now : Z) (e : nat) (b : Band)
    : outcome (Band * list (string * bytes)) :=
  match ds_eps (bd_drop b) !! e with
  | Some ep =>
      match de_running ep, de_side ep with
      | true, inr d => drop_receiver_done send_to e ep (de_in ep) (receiver_tick now d) b
      | _, _ => Ret (b, [])
      end
  | None => Ret (b, [])
  end.

Definition drop_rebase_round (e : nat) (b : Band) : Band :=
  match ds_eps (bd_drop b) !! e with
  | Some ep =>
      match de_running ep, rebase_recv (bd_rebase b) (de_pos ep) with
      | true, Some (pos, peer) =>
          let side := match peer, de_side ep with
                      | Some a, inl d => inl (sender_rebase a d)
                      | Some a, inr d => inr (receiver_rebase a d)
                      | None, side => side
                      end in
          set_drop_ep e (mkDropEp (de_id ep) side (de_in ep) pos (de_verdicts ep) (de_done ep) Runs) b
      | _, _ => b
      end
  | None => b
  end.

(** * What the application calls *)

Definition band_connect_peer (send_to : bytes → string → bool) (peer : string) (b : Band)
    : outcome (Band * result bytes TransportError) :=
  '(n, r) ← connect_peer send_to peer (bd_node b);
  Ret (with_node n b, r).

Definition band_peers (b : Band) : gmap string PeerState := n_peers (bd_node b).

(** [control] panics once [take_control] has handed the channel out. *)
Definition band_control (b : Band) : outcome unit := if bd_control b then Ret tt else Panic.
Definition take_control (b : Band) : Band * bool := (with_control false (bd_control_running b) b, bd_control b).

Definition control_recv (b : Band) : Band * option ControlEvent :=
  match bd_events b with e :: rest => (with_events rest b, Some e) | [] => (b, None) end.

(** Streams. *)
Definition band_stream (peer : string) (stream_id : Z) (b : Band) : Band * nat :=
  let s := bd_stream b in
  let e := length (ss_eps s) in
  (with_stream (mkStreamSide (ss_in s) (ss_pos s) (stream_open stream_id (ss_hub s)) (<[stream_id := e]> (ss_routes s))
                  (ss_eps s ++ [mkStreamEp peer stream_id []])) b, e).

Definition stream_send (send_to : bytes → string → bool) (e : nat) (priority : Z) (data : bytes) (b : Band)
    : outcome (Band * list (string * bytes)) :=
  match ss_eps (bd_stream b) !! e with
  | Some ep => sending (send_each_out send_to [stream_out (se_peer ep) (se_id ep) priority data]) b
  | None => Ret (b, [])
  end.

Definition stream_recv (e : nat) (b : Band) : Band * option StreamMessage :=
  let s := bd_stream b in
  match ss_eps s !! e with
  | Some ep =>
      match se_queue ep with
      | m :: rest => (with_stream (mkStreamSide (ss_in s) (ss_pos s) (ss_hub s) (ss_routes s)
                                     (<[e := mkStreamEp (se_peer ep) (se_id ep) rest]> (ss_eps s))) b, Some m)
      | [] => (b, None)
      end
  | None => (b, None)
  end.

(** Channels: opening replaces the route, and commands queue for the task. *)
Definition band_channel (peer : string) (channel_id : Z) (b : Band) : Band * nat :=
  let c := bd_channel b in
  let e := length (cs_eps c) in
  (with_channel (mkChannelSide (cs_in c) (cs_pos c) (hub_open peer channel_id (cs_hub c)) (<[(peer, channel_id) := e]> (cs_routes c))
     (cs_eps c ++ [mkChannelEp peer channel_id (Conn_new DEFAULT_WINDOW DEFAULT_RTO) [] [] [] 0 true])) b, e).

Definition set_channel_ep (e : nat) (ep : ChannelEp) (b : Band) : Band :=
  let c := bd_channel b in
  with_channel (mkChannelSide (cs_in c) (cs_pos c) (cs_hub c) (cs_routes c) (<[e := ep]> (cs_eps c))) b.

(** [connect], [send_message] and [close] up to the queue: refused once the task is
    gone. *)
Definition channel_command (e : nat) (cmd : Command) (b : Band) : Band * bool :=
  match cs_eps (bd_channel b) !! e with
  | Some ep =>
      if running (ce_conn ep)
      then (set_channel_ep e (mkChannelEp (ce_peer ep) (ce_id ep) (ce_conn ep) (ce_cmds ep ++ [cmd]) (ce_frames ep) (ce_messages ep)
                                (ce_connected ep) (ce_held ep)) b, true)
      else (b, false)
  | None => (b, false)
  end.

Inductive ChannelError := ConnectTimeout | EndpointClosed.
Definition CONNECT_TIMEOUT : Z := from_secs 5.

(** How [connect] ends: the command refused, or an answer (the reply, or the task gone
    without one) after some time. *)
Definition connect_result (queued : bool) (answer : option (Z * bool)) : result unit ChannelError :=
  if negb queued then Err EndpointClosed else
  match answer with
  | Some (after, replied) =>
      if (after <? CONNECT_TIMEOUT)%Z then if (replied : bool) then Ok tt else Err EndpointClosed else Err ConnectTimeout
  | None => Err ConnectTimeout
  end.

Record ChannelMessage := mkChannelMessage { cm_from : string; cm_channel_id : Z; cm_data : bytes }.

Definition channel_recv (e : nat) (b : Band) : Band * option ChannelMessage :=
  match cs_eps (bd_channel b) !! e with
  | Some ep =>
      match ce_messages ep with
      | m :: rest => (set_channel_ep e (mkChannelEp (ce_peer ep) (ce_id ep) (ce_conn ep) (ce_cmds ep) (ce_frames ep) rest
                                          (ce_connected ep) (ce_held ep)) b,
                      Some (mkChannelMessage (ce_peer ep) (ce_id ep) m))
      | [] => (b, None)
      end
  | None => (b, None)
  end.

Definition channel_release (e : nat) (b : Band) : Band :=
  match cs_eps (bd_channel b) !! e with
  | Some ep => set_channel_ep e (mkChannelEp (ce_peer ep) (ce_id ep) (ce_conn ep) (ce_cmds ep) (ce_frames ep) []
                                   (ce_connected ep) false) b
  | None => b
  end.

(** Boards. *)
Definition band_board (board_id : Z) (b : Band) : Band * nat :=
  let x := bd_board b in
  let e := length (bs_eps x) in
  let task := mkTask (mkShared (BoardCore_new (c_hostname (n_config (bd_node b)))) []) ∅ ∅ in
  (with_board (mkBoardSide (bs_in x) (<[board_id := e]> (bs_routes x))
                 (bs_eps x ++ [mkBoardEp board_id task [] (length (bd_rebase b)) [] Runs])) b, e).

Definition with_shared (s : BoardShared) (changes : list BoardChange) (ep : BoardEp) : BoardEp :=
  mkBoardEp (be_id ep) (mkTask s (t_watermark (be_task ep)) (t_reassemblers (be_task ep))) (be_in ep) (be_pos ep)
    (be_changes ep ++ changes) (be_state ep).

(** The calls on a handle. *)
Inductive BoardCall :=
| BSet (key : string) (value : Board.json)
| BDelete (key : string)
| BAddDestination (peer : string)
| BRemoveDestination (peer : string)
| BSendDigest (dest : option string)
| BSendSnapshot (dest : string) (fid : bytes).

Definition board_call (send_to : bytes → string → bool) (e : nat) (call : BoardCall) (b : Band)
    : outcome (Band * list (string * bytes)) :=
  match bs_eps (bd_board b) !! e with
  | None => Ret (b, [])
  | Some ep =>
      let s := t_shared (be_task ep) in
      let go outs := sending (send_until send_to (send_board_raw (be_id ep) <$> outs)) in
      match call with
      | BSet key value =>
          let '(s, ch, (outs, _)) := endpoint_set (λ _, true) key value s in go outs (set_board_ep e (with_shared s [ch] ep) b)
      | BDelete key =>
          let '(s, ch, (outs, _)) := endpoint_delete (λ _, true) key s in go outs (set_board_ep e (with_shared s [ch] ep) b)
      | BAddDestination peer => Ret (set_board_ep e (with_shared (add_destination peer s) [] ep) b, [])
      | BRemoveDestination peer => Ret (set_board_ep e (with_shared (remove_destination peer s) [] ep) b, [])
      | BSendDigest dest => go (send_digest (λ _, true) dest s).1 b
      | BSendSnapshot dest fid => chunks ← snapshot_chunks fid (snapshot (sh_core s)); go ((dest,.) <$> chunks) b
      end
  end.

Definition board_handle_get (e : nat) (key : string) (b : Band) : option Board.json :=
  bs_eps (bd_board b) !! e ≫= λ ep, board_get key (sh_core (t_shared (be_task ep))).

Definition board_handle_items (e : nat) (b : Band) : option (gmap string Board.json) :=
  (λ ep, board_items (sh_core (t_shared (be_task ep)))) <$> bs_eps (bd_board b) !! e.
Definition board_handle_digest (e : nat) (b : Band) : option (Z * bytes) :=
  (λ ep, digest (sh_core (t_shared (be_task ep)))) <$> bs_eps (bd_board b) !! e.

Definition board_changed (e : nat) (b : Band) : Band * option BoardChange :=
  match bs_eps (bd_board b) !! e with
  | Some ep =>
      match be_changes ep with
      | ch :: rest => (set_board_ep e (mkBoardEp (be_id ep) (be_task ep) (be_in ep) (be_pos ep) rest (be_state ep)) b, Some ch)
      | [] => (b, None)
      end
  | None => (b, None)
  end.

(** Dropping the handle aborts the task. *)
Definition board_release (e : nat) (b : Band) : Band :=
  match bs_eps (bd_board b) !! e with Some ep => set_board_ep e (stop_board Ended ep) b | None => b end.

(** Drops. *)
Definition drop_endpoint (drop_id : Z) (side : DropSender + DropReceiver) (b : Band) : Band * nat :=
  let x := bd_drop b in
  let e := length (ds_eps x) in
  (with_drop (mkDropSide (ds_in x) (<[drop_id := e]> (ds_routes x))
                (ds_eps x ++ [mkDropEp drop_id side [] (length (bd_rebase b)) [] [] Runs])) b, e).

Definition drop_send (drop_id : Z) (name : string) (data : bytes) (b : Band) : Band * nat :=
  drop_endpoint drop_id (inl (mkDropSender (DropSenderCore_new name data) ∅)) b.
Definition drop_recv_resume (drop_id : Z) (have : gmap Z bytes) (b : Band) : Band * nat :=
  drop_endpoint drop_id (inr (mkDropReceiver (DropReceiverCore_new have) ∅)) b.
Definition drop_recv (drop_id : Z) (b : Band) : Band * nat := drop_recv_resume drop_id ∅ b.

Definition drop_offer (send_to : bytes → string → bool) (e : nat) (dest : string) (b : Band)
    : outcome (Band * list (string * bytes)) :=
  match ds_eps (bd_drop b) !! e with
  | Some ep =>
      match de_side ep with
      | inl d => sending (send_until send_to [send_drop_raw (de_id ep) (dest, offer_frame (ds_core d))]) b
      | inr _ => Ret (b, [])
      end
  | None => Ret (b, [])
  end.

Definition recv_verdict (e : nat) (b : Band) : Band * option (string * bool) :=
  match ds_eps (bd_drop b) !! e with
  | Some ep =>
      match de_verdicts ep with
      | v :: rest => (set_drop_ep e (mkDropEp (de_id ep) (de_side ep) (de_in ep) (de_pos ep) rest (de_done ep) (de_state ep)) b, Some v)
      | [] => (b, None)
      end
  | None => (b, None)
  end.

Definition recv_file (e : nat) (b : Band) : Band * option (bytes * bool) :=
  match ds_eps (bd_drop b) !! e with
  | Some ep =>
      match de_done ep with
      | f :: rest => (set_drop_ep e (mkDropEp (de_id ep) (de_side ep) (de_in ep) (de_pos ep) (de_verdicts ep) rest (de_state ep)) b, Some f)
      | [] => (b, None)
      end
  | None => (b, None)
  end.

Definition drop_release (e : nat) (b : Band) : Band :=
  match ds_eps (bd_drop b) !! e with Some ep => set_drop_ep e (stop_drop Ended ep) b | None => b end.

(** * Steps *)

Inductive band_event :=
| EvDatagram (now : Z) (from : string) (d : bytes)
| EvControl
| EvKeepalive (now : Z)
| EvStream
| EvStreamRebase
| EvChannel
| EvChannelRebase
| EvConn (now : Z) (arm : ConnArm) (e : nat)
| EvBoardDemux
| EvBoard (now : Z) (fid : bytes) (e : nat)
| EvBoardRebase (e : nat)
| EvDropDemux
| EvDrop (now : Z) (e : nat)
| EvDropTick (now : Z) (e : nat)
| EvDropRebase (e : nat)
| ApConnectPeer (peer : string)
| ApTakeControl (keep : bool)
| ApControlRecv
| ApStream (peer : string) (stream_id : Z)
| ApStreamSend (e : nat) (priority : Z) (data : bytes)
| ApStreamRecv (e : nat)
| ApChannel (peer : string) (channel_id : Z)
| ApChannelCommand (e : nat) (cmd : Command)
| ApChannelRecv (e : nat)
| ApChannelRelease (e : nat)
| ApBoard (board_id : Z)
| ApBoardCall (e : nat) (call : BoardCall)
| ApDropSend (drop_id : Z) (name : string) (data : bytes)
| ApDropRecv (drop_id : Z) (have : gmap Z bytes)
| ApOffer (e : nat) (dest : string)
| ApBoardChanged (e : nat)
| ApBoardRelease (e : nat)
| ApDropVerdict (e : nat)
| ApDropFile (e : nat)
| ApDropRelease (e : nat).

(** One step, with the datagrams it sends. [Panic] is a panic of a task shared by the
    whole Band, of a connection task, or of the caller; that of a Board or Drop task
    stops that task and shows in its state. *)
Definition band_step (send_to : bytes → string → bool) (ev : band_event) (b : Band) : outcome (Band * list (string * bytes)) :=
  match ev with
  | EvDatagram now from d => Ret (recv_round now from d b, [])
  | EvControl => control_round send_to b
  | EvKeepalive now => keepalive_round send_to now b
  | EvStream => Ret (with_stream (stream_round (bd_stream b)) b, [])
  | EvStreamRebase => Ret (with_stream (stream_rebase_round (bd_rebase b) (bd_stream b)) b, [])
  | EvChannel => Ret (with_channel (channel_round (bd_channel b)) b, [])
  | EvChannelRebase => Ret (with_channel (channel_rebase_round (bd_rebase b) (bd_channel b)) b, [])
  | EvConn now arm e => conn_task_round send_to now arm e b
  | EvBoardDemux => Ret (with_board (board_demux (bd_board b)) b, [])
  | EvBoard now fid e => board_task_round send_to now fid e b
  | EvBoardRebase e => Ret (board_rebase_round e b, [])
  | EvDropDemux => Ret (with_drop (drop_demux (bd_drop b)) b, [])
  | EvDrop now e => drop_task_round send_to now e b
  | EvDropTick now e => drop_tick_round send_to now e b
  | EvDropRebase e => Ret (drop_rebase_round e b, [])
  | ApConnectPeer peer => '(b, r) ← band_connect_peer send_to peer b; Ret (b, sent_to peer r)
  | ApTakeControl keep => Ret (let '(b, had) := take_control b in with_control false (bd_control_running b && (keep || negb had)) b, [])
  | ApControlRecv => Ret ((control_recv b).1, [])
  | ApStream peer id => Ret ((band_stream peer id b).1, [])
  | ApStreamSend e priority data => stream_send send_to e priority data b
  | ApStreamRecv e => Ret ((stream_recv e b).1, [])
  | ApChannel peer id => Ret ((band_channel peer id b).1, [])
  | ApChannelCommand e cmd => Ret ((channel_command e cmd b).1, [])
  | ApChannelRecv e => Ret ((channel_recv e b).1, [])
  | ApChannelRelease e => Ret (channel_release e b, [])
  | ApBoard id => Ret ((band_board id b).1, [])
  | ApBoardCall e call => board_call send_to e call b
  | ApDropSend id name data => Ret ((drop_send id name data b).1, [])
  | ApDropRecv id have => Ret ((drop_recv_resume id have b).1, [])
  | ApOffer e dest => drop_offer send_to e dest b
  | ApBoardChanged e => Ret ((board_changed e b).1, [])
  | ApBoardRelease e => Ret (board_release e b, [])
  | ApDropVerdict e => Ret ((recv_verdict e b).1, [])
  | ApDropFile e => Ret ((recv_file e b).1, [])
  | ApDropRelease e => Ret (drop_release e b, [])
  end.

Fixpoint band_run (send_to : bytes → string → bool) (evs : list band_event) (b : Band) : outcome (Band * list (string * bytes)) :=
  match evs with
  | [] => Ret (b, [])
  | ev :: evs' =>
      '(b, sent) ← band_step send_to ev b;
      '(b, rest) ← band_run send_to evs' b;
      Ret (b, sent ++ rest)
  end.
End Band.

(** ** The invariant *)

Definition of_type (ty : ChannelType) (pkt : Inbound) : Prop := channel_type (in_header pkt) = ty.

(** A table of the endpoint each id leads to, against the endpoints. *)
Definition routes_ok {K A} `{Countable K} (key : A → K) (routes : gmap K nat) (eps : list A) : Prop :=
  ∀ k e, routes !! k = Some e → ∃ ep, eps !! e = Some ep ∧ key ep = k.

Record StreamInv (s : StreamSide) : Prop := {
  si_in : Forall (of_type Stream) (ss_in s);
  si_routes : routes_ok se_id (ss_routes s) (ss_eps s);
  si_senders : dom (ss_routes s) = sh_senders (ss_hub s);
  si_eps : Forall (λ ep, Forall (λ m, sm_stream_id m = se_id ep) (se_queue ep)) (ss_eps s);
}.

Definition command_ok (c : Command) : Prop :=
  match c with CSend d => (len (pieces_of MAX_CHUNK_PAYLOAD d) <= 0xFFFF)%Z | _ => True end.

Record ChannelEpInv (ep : ChannelEp) : Prop := {
  cei_conn : Conn_wf (ce_conn ep);
  cei_cmds : Forall command_ok (ce_cmds ep);
  cei_frames : Forall frame_wf (ce_frames ep);
}.

Record ChannelInv (c : ChannelSide) : Prop := {
  ci_in : Forall (of_type Channel) (cs_in c);
  ci_routes : routes_ok (λ ep, (ce_peer ep, ce_id ep)) (cs_routes c) (cs_eps c);
  ci_hub : dom (cs_routes c) = Channel.routes (cs_hub c);
  ci_eps : Forall ChannelEpInv (cs_eps c);
}.

Section BandInv.
Context {crates : Crates} {serde : Serde} {dj : DropJson} {cj : ControlJson} {ho : HashOrder}.

Definition addressed_to (ty : ChannelType) (id : Z) (pkt : Inbound) : Prop := of_type ty pkt ∧ channel_id (in_header pkt) = id.

Record BoardEpInv (ep : BoardEp) : Prop := {
  bei_in : Forall (addressed_to Board (be_id ep)) (be_in ep);
  bei_reassemblers : map_Forall (λ _, Reassembler_wf) (t_reassemblers (be_task ep));
}.

Record BoardInv (x : BoardSide) : Prop := {
  bsi_in : Forall (of_type Board) (bs_in x);
  bsi_routes : routes_ok be_id (bs_routes x) (bs_eps x);
  bsi_eps : Forall BoardEpInv (bs_eps x);
}.

Record DropInv (x : DropSide) : Prop := {
  dsi_in : Forall (of_type Drop) (ds_in x);
  dsi_routes : routes_ok de_id (ds_routes x) (ds_eps x);
  dsi_eps : Forall (λ ep, Forall (addressed_to Drop (de_id ep)) (de_in ep)) (ds_eps x);
}.

Record BandInv (b : Band) : Prop := {
  bi_node : NodeInv (bd_node b);
  bi_control : Forall (of_type Control) (bd_control_in b);
  bi_stream : StreamInv (bd_stream b);
  bi_channel : ChannelInv (bd_channel b);
  bi_board : BoardInv (bd_board b);
  bi_drop : DropInv (bd_drop b);
}.

End BandInv.

Lemma Forall_snoc_2 {A} (P : A → Prop) l x : Forall P l → P x → Forall P (l ++ [x]).
Proof. intros. apply Forall_app_2; [done|]. by constructor. Qed.

Lemma Forall_alter' {A} (P : A → Prop) f l i : Forall P l → (∀ x, P x → P (f x)) → Forall P (alter f i l).
Proof. intros Hl Hf. apply Forall_alter; [done|]. intros x _. apply Hf. Qed.

Section Routes.
Context {K A} `{Countable K} (key : A → K).
Implicit Types (r : gmap K nat) (eps : list A).

Lemma routes_ok_snoc r eps k ep : routes_ok key r eps → key ep = k → routes_ok key (<[k := length eps]> r) (eps ++ [ep]).
Proof.
  intros Hr Hk k' e [[<- <-]|[Hne He]]%lookup_insert_Some.
  - exists ep. split; [|done]. by rewrite lookup_app_r, Nat.sub_diag.
  - destruct (Hr _ _ He) as (ep' & Hl & ?). exists ep'. split; [|done]. by apply lookup_app_l_Some.
Qed.

Lemma routes_ok_insert r eps e ep ep' :
  routes_ok key r eps → eps !! e = Some ep → key ep' = key ep → routes_ok key r (<[e := ep']> eps).
Proof.
  intros Hr He Hk k i Hi. destruct (Hr _ _ Hi) as (epi & Hl & <-). destruct (decide (i = e)) as [->|Hne].
  - exists ep'. rewrite Hl in He. injection He as <-. split; [|done]. apply list_lookup_insert_eq. by eapply lookup_lt_Some.
  - exists epi. by rewrite list_lookup_insert_ne.
Qed.

Lemma routes_ok_alter r eps e f : routes_ok key r eps → (∀ ep, key (f ep) = key ep) → routes_ok key r (alter f e eps).
Proof.
  intros Hr Hf k i Hi. destruct (Hr _ _ Hi) as (epi & Hl & <-). destruct (decide (i = e)) as [->|Hne].
  - exists (f epi). by rewrite list_lookup_alter_eq, Hl.
  - exists epi. by rewrite list_lookup_alter_ne.
Qed.
End Routes.

(** ** The sides *)

Lemma handle_stream_id pkt wm wm' m : handle_stream_inbound pkt wm = (wm', Some m) → sm_stream_id m = channel_id (in_header pkt).
Proof. unfold handle_stream_inbound. repeat case_match; by intros [= _ <-]. Qed.

Lemma stream_round_inv s : StreamInv s → StreamInv (stream_round s).
Proof.
  intros [H1 H2 H3 H4]. unfold stream_round. destruct (ss_in s) as [|pkt rest] eqn:Ein; [by split; rewrite ?Ein|]. apply Forall_cons in H1 as [_ H1].
  unfold stream_packet. destruct (handle_stream_inbound pkt (sh_watermarks (ss_hub s))) as [wm msg] eqn:Eh.
  destruct (msg ≫= _) as [m|] eqn:Em; [|by split].
  apply bind_Some in Em as (m' & -> & Hm). case_decide; [|done]. injection Hm as ->. apply handle_stream_id in Eh.
  destruct (ss_routes s !! channel_id (in_header pkt)) as [e|] eqn:Er; [|by split]. split; simpl; try done.
  - by apply routes_ok_alter.
  - apply Forall_alter; [done|]. intros ep He Hq. simpl. destruct (H2 _ _ Er) as (ep' & He' & Eid). assert (ep' = ep) as -> by congruence.
    apply Forall_snoc_2; [done|]. congruence.
Qed.

Lemma stream_rebase_inv log s : StreamInv s → StreamInv (stream_rebase_round log s).
Proof. intros [H1 H2 H3 H4]. unfold stream_rebase_round. destruct (rebase_recv _ _) as [[pos [a|]]|]; by split. Qed.

Lemma push_frame_inv f ep : frame_wf f → ChannelEpInv ep → ChannelEpInv (push_frame f ep).
Proof. intros Hf [H1 H2 H3]. unfold push_frame. destruct (running _) eqn:?; split; simpl; try done. by apply Forall_snoc_2. Qed.

Lemma hub_packet_frame from cid seq payload h h' key f :
  hub_packet from cid seq payload h = (h', Some (key, f)) → frame_wf f ∧ Channel.routes h' = Channel.routes h.
Proof.
  unfold hub_packet. destruct (match _ with Some _ => _ | None => _ end); [done|].
  destruct (frame_parse payload) as [g|] eqn:Ef; [|done]. apply frame_parse_inv in Ef as [? _].
  case_decide; [|done]. by intros [= <- <- <-].
Qed.

Lemma hub_packet_routes from cid seq payload h : Channel.routes (hub_packet from cid seq payload h).1 = Channel.routes h.
Proof. unfold hub_packet. repeat case_match; done. Qed.

Lemma channel_round_inv c : ChannelInv c → ChannelInv (channel_round c).
Proof.
  intros [H1 H2 H3 H4]. unfold channel_round. destruct (cs_in c) as [|pkt rest] eqn:Ein; [by split; rewrite ?Ein|]. apply Forall_cons in H1 as [_ H1].
  pose proof (hub_packet_routes (in_from pkt) (channel_id (in_header pkt)) (sequence (in_header pkt)) (in_payload pkt) (cs_hub c)) as Hr.
  destruct (hub_packet _ _ _ _ _) as [hub routed] eqn:Ep. simpl in Hr. destruct routed as [[key f]|]; [|by split; simpl; rewrite ?Hr].
  apply hub_packet_frame in Ep as [Hf _].
  destruct (cs_routes c !! key) as [e|]; [|by split; simpl; rewrite ?Hr]. split; simpl; rewrite ?Hr; try done.
  - apply routes_ok_alter; [done|]. intros ep. unfold push_frame. by destruct (running _).
  - apply Forall_alter'; [done|]. intros ep. by apply push_frame_inv.
Qed.

Lemma channel_rebase_inv log c : ChannelInv c → ChannelInv (channel_rebase_round log c).
Proof. intros [H1 H2 H3 H4]. unfold channel_rebase_round. destruct (rebase_recv _ _) as [[pos [a|]]|]; by split. Qed.

Lemma conn_arm_ok now arm routed ep ev cmds frames :
  conn_arm now arm routed ep = Some (ev, cmds, frames) → ChannelEpInv ep →
  event_ok ev ∧ Forall command_ok cmds ∧ Forall frame_wf frames.
Proof.
  intros Ha [H1 H2 H3]. unfold conn_arm in Ha. destruct arm as [fid| |].
  - destruct (ce_cmds ep) as [|c rest]; [destruct (ce_held ep); by simplify_eq|]. apply Forall_cons in H2 as [Hc H2]. simplify_eq.
    split_and!; try done. by destruct c.
  - destruct (ce_frames ep) as [|f rest]; [destruct routed; by simplify_eq|]. apply Forall_cons in H3 as [Hf H3]. by simplify_eq.
  - repeat case_match; by simplify_eq.
Qed.

Lemma set_ep_inv c e ep ep' :
  ChannelInv c → cs_eps c !! e = Some ep → ce_peer ep' = ce_peer ep → ce_id ep' = ce_id ep → ChannelEpInv ep' →
  ChannelInv (mkChannelSide (cs_in c) (cs_pos c) (cs_hub c) (cs_routes c) (<[e := ep']> (cs_eps c))).
Proof.
  intros [H1 H2 H3 H4] He Ep Ei Hep. split; simpl; try done.
  - eapply routes_ok_insert; [done..|]. congruence.
  - by apply Forall_insert.
Qed.

Lemma channel_ep c e ep : ChannelInv c → cs_eps c !! e = Some ep → ChannelEpInv ep.
Proof. intros [_ _ _ H] He. by eapply Forall_lookup_1. Qed.

Section Sides.
Context {crates : Crates} {serde : Serde} {dj : DropJson} {cj : ControlJson} {ho : HashOrder}.

Lemma board_demux_inv x : BoardInv x → BoardInv (board_demux x).
Proof.
  intros [H1 H2 H3]. unfold board_demux. destruct (bs_in x) as [|pkt rest] eqn:Ein; [by split; rewrite ?Ein|]. apply Forall_cons in H1 as [Hp H1].
  destruct (bs_routes x !! _) as [e|] eqn:Er; [|by split]. split; simpl; try done.
  - apply routes_ok_alter; [done|]. intros ep. unfold push_board. by destruct (be_running ep).
  - apply Forall_alter; [done|]. intros ep He [Hin Hre]. destruct (H2 _ _ Er) as (ep' & He' & Eid). assert (ep' = ep) as -> by congruence.
    unfold push_board. destruct (be_running ep); [|by split]. split; simpl; [|done]. by apply Forall_snoc_2.
Qed.

Lemma drop_demux_inv x : DropInv x → DropInv (drop_demux x).
Proof.
  intros [H1 H2 H3]. unfold drop_demux. destruct (ds_in x) as [|pkt rest] eqn:Ein; [by split; rewrite ?Ein|]. apply Forall_cons in H1 as [Hp H1].
  destruct (ds_routes x !! _) as [e|] eqn:Er; [|by split]. split; simpl; try done.
  - apply routes_ok_alter; [done|]. intros ep. unfold push_drop. by destruct (de_running ep).
  - apply Forall_alter; [done|]. intros ep He Hin. destruct (H2 _ _ Er) as (ep' & He' & Eid). assert (ep' = ep) as -> by congruence.
    unfold push_drop. destruct (de_running ep); [|done]. simpl. by apply Forall_snoc_2.
Qed.

Lemma set_board_inv x e ep ep' :
  BoardInv x → bs_eps x !! e = Some ep → be_id ep' = be_id ep → BoardEpInv ep' →
  BoardInv (mkBoardSide (bs_in x) (bs_routes x) (<[e := ep']> (bs_eps x))).
Proof.
  intros [H1 H2 H3] He Ei Hep. split; simpl; try done.
  - by eapply routes_ok_insert.
  - by apply Forall_insert.
Qed.

Lemma set_drop_inv x e ep ep' :
  DropInv x → ds_eps x !! e = Some ep → de_id ep' = de_id ep → Forall (addressed_to Drop (de_id ep')) (de_in ep') →
  DropInv (mkDropSide (ds_in x) (ds_routes x) (<[e := ep']> (ds_eps x))).
Proof.
  intros [H1 H2 H3] He Ei Hep. split; simpl; try done.
  - by eapply routes_ok_insert.
  - by apply Forall_insert.
Qed.

Lemma board_ep x e ep : BoardInv x → bs_eps x !! e = Some ep → BoardEpInv ep.
Proof. intros [_ _ H] He. by eapply Forall_lookup_1. Qed.

Lemma drop_ep x e ep : DropInv x → ds_eps x !! e = Some ep → Forall (addressed_to Drop (de_id ep)) (de_in ep).
Proof. intros [_ _ H] He. by eapply (Forall_lookup_1 (λ ep, Forall (addressed_to Drop (de_id ep)) (de_in ep))). Qed.

(** A board task keeps its reassemblers in order, and panics only where it has to cut a
    snapshot of more chunks than the envelope can number. *)
Definition snapshot_fits (core : BoardCore Board.json) : Prop :=
  (len (pieces_of MAX_CHUNK_PAYLOAD (Board.env_to_vec TYPE_SNAPSHOT (entries_to_value (snapshot core)))) <= 0xFFFF)%Z.

Definition reassemblers_ok (t : BoardTask) : Prop := map_Forall (λ _, Reassembler_wf) (t_reassemblers t).

Lemma board_dispatch_ok fid payload t :
  match board_dispatch fid payload t with
  | Ret (t', _, _) => t_reassemblers t' = t_reassemblers t
  | Panic => ¬ snapshot_fits (sh_core (t_shared t))
  end.
Proof.
  unfold board_dispatch. destruct (Board.env_from_slice payload) as [[ty v]|]; [|done].
  destruct (ty =? TYPE_SET)%Z; [destruct (set_from_value v) as [p|]; [|done]; by destruct (merge_entry _ _)|].
  destruct (ty =? TYPE_DIGEST)%Z.
  { destruct (digest_from_value v) as [[c h]|]; [|done]. destruct (digest _) as [n hh]. by case_decide. }
  destruct (ty =? TYPE_SYNC_REQ)%Z.
  - destruct (snapshot_chunks fid (snapshot (sh_core (t_shared t)))) as [|chunks] eqn:Ec; [|done]. simpl. intros Hf.
    unfold snapshot_chunks in Ec. rewrite fragment_eq in Ec by done. unfold snapshot_fits in Hf.
    by rewrite (proj2 (Z.ltb_ge _ _)) in Ec by exact Hf.
  - destruct (ty =? TYPE_SNAPSHOT)%Z; [|done]. destruct (entries_from_value v) as [es|]; [|done]. by destruct (merge_all _ _).
Qed.

Lemma board_packet_ok now fid from seq payload t :
  reassemblers_ok t →
  match board_packet now fid from seq payload t with
  | Ret (t', _, _) => reassemblers_ok t'
  | Panic => ¬ snapshot_fits (sh_core (t_shared t))
  end.
Proof.
  intros Hr. unfold board_packet. destruct (match _ with Some _ => _ | None => _ end); [done|]. cbn zeta.
  case_decide as Hh; cbn [t_reassemblers].
  - assert (W : Reassembler_wf (default (for_chunk_size MAX_CHUNK_PAYLOAD) (t_reassemblers t !! from))).
    { destruct (t_reassemblers t !! from) as [r|] eqn:E; [by apply (Hr from)|]. apply Built_wf, Built_for_chunk_size. }
    destruct (feed_wf now payload _ W) as (r' & o & -> & W' & _). cbn [mbind outcome_bind].
    destruct o as [full|]; [|by apply map_Forall_insert_2].
    set (t1 := mkTask _ _ _). pose proof (board_dispatch_ok fid full t1) as Hd.
    destruct (board_dispatch fid full t1) as [|[[t' fs] ch]]; [done|]. unfold reassemblers_ok. rewrite Hd. by apply map_Forall_insert_2.
  - set (t1 := mkTask _ _ _). pose proof (board_dispatch_ok fid payload t1) as Hd.
    destruct (board_dispatch fid payload t1) as [|[[t' fs] ch]]; [done|]. unfold reassemblers_ok. by rewrite Hd.
Qed.
End Sides.

(** ** Steps keep the invariant *)

Section Steps.
Context {crates : Crates} {serde : Serde} {dj : DropJson} {cj : ControlJson} {ho : HashOrder} {hspec : HashOrderSpec ho}.
Implicit Types (b : Band) (outs : list Outbound).

(** Sending only advances the sequence counter. *)
Lemma send_each_out_eq send_to outs t :
  length (t_band_id t) = BAND_ID_LEN → ∃ s sent, send_each_out send_to outs t = Ret (set_seq s t, sent).
Proof.
  revert t. induction outs as [|o outs IH]; intros t Hb; simpl; [exists (t_seq t), []; by destruct t|].
  destruct (transport_send_eq send_to o t Hb) as (r & -> & _). cbn [mbind outcome_bind].
  destruct (IH (set_seq (wrap 64 (t_seq t + 1)) t) Hb) as (s & sent & ->). cbn [mbind outcome_bind]. eauto.
Qed.

Lemma send_until_eq send_to outs t :
  length (t_band_id t) = BAND_ID_LEN → ∃ s sent, send_until send_to outs t = Ret (set_seq s t, sent).
Proof.
  revert t. induction outs as [|o outs IH]; intros t Hb; simpl; [exists (t_seq t), []; by destruct t|].
  destruct (transport_send_eq send_to o t Hb) as (r & -> & _). cbn [mbind outcome_bind]. destruct r as [d|]; [|eauto].
  destruct (IH (set_seq (wrap 64 (t_seq t + 1)) t) Hb) as (s & sent & ->). cbn [mbind outcome_bind]. eauto.
Qed.

Lemma NodeInv_transport t n :
  NodeInv n → t_band_id t = t_band_id (n_transport n) → peer_keys t = peer_keys (n_transport n) → NodeInv (set_transport t n).
Proof. intros [H1 H2 H3 H4 H5] Eb Ek. split; simpl; rewrite ?Eb, ?Ek; done. Qed.

Lemma BandInv_node n b : NodeInv n → BandInv b → BandInv (with_node n b).
Proof. intros Hn [H1 H2 H3 H4 H5 H6]. by split. Qed.

Definition fine (r : outcome (Band * list (string * bytes))) : Prop := ∃ b sent, r = Ret (b, sent) ∧ BandInv b.

Lemma fine_ret b sent : BandInv b → fine (Ret (b, sent)).
Proof. intros H. by exists b, sent. Qed.

Lemma sending_fine send b :
  (∀ t, length (t_band_id t) = BAND_ID_LEN → ∃ s sent, send t = Ret (set_seq s t, sent)) → BandInv b → fine (sending send b).
Proof.
  intros Hs I. unfold sending. destruct (Hs (band_transport b) (ni_band _ (bi_node _ I))) as (s & sent & ->). cbn [mbind outcome_bind].
  apply fine_ret, BandInv_node; [|done]. apply NodeInv_transport; [apply I|done..].
Qed.

Lemma push_inbound_inv pkt b : BandInv b → BandInv (push_inbound pkt b).
Proof.
  intros [H1 H2 H3 H4 H5 H6]. unfold push_inbound.
  destruct (channel_type (in_header pkt)) eqn:Et; split; simpl; try done; try (by apply Forall_snoc_2).
  - destruct H3. split; simpl; try done. by apply Forall_snoc_2.
  - destruct H4. split; simpl; try done. by apply Forall_snoc_2.
  - destruct H5. split; simpl; try done. by apply Forall_snoc_2.
  - destruct H6. split; simpl; try done. by apply Forall_snoc_2.
Qed.

Lemma recv_round_inv now from d b : BandInv b → BandInv (recv_round now from d b).
Proof.
  intros I. unfold recv_round. destruct (transport_recv now from d (band_transport b)) as [t inb] eqn:Er.
  assert (Ht : BandInv (with_node (set_transport t (bd_node b)) b)).
  { apply BandInv_node; [|done]. apply NodeInv_transport; [apply I|..]; unfold transport_recv in Er; repeat case_match; by simplify_eq. }
  destruct inb; [by apply push_inbound_inv|done].
Qed.

Lemma control_round_fine send_to b : BandInv b → fine (control_round send_to b).
Proof.
  intros I. unfold control_round. destruct (bd_control_in b) as [|pkt rest] eqn:Ein; [by apply fine_ret|].
  destruct (bd_control_running b); [|by apply fine_ret].
  destruct (control_packet_inv send_to pkt (bd_node b) (bi_node _ I)) as (n & e & -> & Hn & _). cbn [mbind outcome_bind negb].
  apply fine_ret. destruct I as [H1 H2 H3 H4 H5 H6]. rewrite Ein in H2. apply Forall_cons in H2 as [_ H2]. by split.
Qed.

Lemma keepalive_round_fine send_to now b : BandInv b → fine (keepalive_round send_to now b).
Proof.
  intros I. unfold keepalive_round. destruct (bd_keepalive b) as [|da|]; [by apply fine_ret| |by apply fine_ret].
  destruct (keepalive_tick_inv send_to now da (bd_node b) (bi_node _ I)) as (n & sent & -> & Hn & _). cbn [mbind outcome_bind].
  by apply fine_ret, BandInv_node.
Qed.

Lemma conn_task_fine send_to now arm e b : BandInv b → fine (conn_task_round send_to now arm e b).
Proof.
  intros I. unfold conn_task_round. destruct (cs_eps (bd_channel b) !! e) as [ep|] eqn:Ee; [|by apply fine_ret].
  destruct (running (ce_conn ep)) eqn:Er; [|by apply fine_ret]. cbn [negb].
  destruct (conn_arm _ _ _ ep) as [[[ev cmds] frames]|] eqn:Ea; [|by apply fine_ret].
  pose proof (channel_ep _ _ _ (bi_channel _ I) Ee) as Hep. destruct (conn_arm_ok _ _ _ _ _ _ _ Ea Hep) as (Hev & Hc & Hf).
  destruct (conn_round_wf now (ce_held ep) ev (ce_conn ep) (cei_conn _ Hep) Er Hev) as (conn & out & -> & W). cbn [mbind outcome_bind].
  apply sending_fine; [intros; by apply send_each_out_eq|]. destruct I. split; simpl; try done. by apply set_ep_inv with ep.
Qed.

Lemma set_board_ep_inv e ep ep' b :
  BandInv b → bs_eps (bd_board b) !! e = Some ep → be_id ep' = be_id ep → BoardEpInv ep' → BandInv (set_board_ep e ep' b).
Proof. intros [H1 H2 H3 H4 H5 H6] He Ei Hep. split; simpl; try done. by apply set_board_inv with ep. Qed.

Lemma set_drop_ep_inv e ep ep' b :
  BandInv b → ds_eps (bd_drop b) !! e = Some ep → de_id ep' = de_id ep → Forall (addressed_to Drop (de_id ep')) (de_in ep') →
  BandInv (set_drop_ep e ep' b).
Proof. intros [H1 H2 H3 H4 H5 H6] He Ei Hep. split; simpl; try done. by apply set_drop_inv with ep. Qed.

Lemma set_channel_ep_inv e ep ep' b :
  BandInv b → cs_eps (bd_channel b) !! e = Some ep → ce_peer ep' = ce_peer ep → ce_id ep' = ce_id ep → ChannelEpInv ep' →
  BandInv (set_channel_ep e ep' b).
Proof. intros [H1 H2 H3 H4 H5 H6] He Ep Ei Hep. split; simpl; try done. by apply set_ep_inv with ep. Qed.

Lemma stop_board_inv why e ep b : BandInv b → bs_eps (bd_board b) !! e = Some ep → BandInv (set_board_ep e (stop_board why ep) b).
Proof.
  intros I He. eapply set_board_ep_inv; [done..|]. split; [by constructor|]. apply (board_ep _ _ _ (bi_board _ I) He).
Qed.

Lemma stop_drop_inv why e ep b : BandInv b → ds_eps (bd_drop b) !! e = Some ep → BandInv (set_drop_ep e (stop_drop why ep) b).
Proof. intros I He. eapply set_drop_ep_inv; [done..|]. by constructor. Qed.

Lemma board_task_fine send_to now fid e b : BandInv b → fine (board_task_round send_to now fid e b).
Proof.
  intros I. unfold board_task_round. destruct (bs_eps (bd_board b) !! e) as [ep|] eqn:Ee; [|by apply fine_ret].
  destruct (be_running ep); [|by apply fine_ret]. cbn [negb]. destruct (board_ep _ _ _ (bi_board _ I) Ee) as [Hin Hre].
  destruct (be_in ep) as [|pkt rest] eqn:Ein; [case_decide; apply fine_ret; [done|by apply stop_board_inv]|].
  apply Forall_cons in Hin as [_ Hin].
  pose proof (board_packet_ok now fid (in_from pkt) (sequence (in_header pkt)) (in_payload pkt) (be_task ep) Hre) as Hp.
  destruct (board_packet _ _ _ _ _ _) as [|[[task frames] changes]]; [by apply fine_ret, stop_board_inv|].
  apply sending_fine; [intros; by apply send_until_eq|]. by eapply set_board_ep_inv.
Qed.

Lemma board_rebase_inv e b : BandInv b → BandInv (board_rebase_round e b).
Proof.
  intros I. unfold board_rebase_round. destruct (bs_eps (bd_board b) !! e) as [ep|] eqn:Ee; [|done].
  destruct (be_running ep); [|done]. destruct (rebase_recv _ _) as [[pos peer]|]; [|done].
  destruct (board_ep _ _ _ (bi_board _ I) Ee) as [Hin Hre]. eapply set_board_ep_inv; [done..|]. split; simpl; [done|].
  destruct peer; [|done]. simpl. by apply map_Forall_delete.
Qed.

Lemma drop_receiver_fine send_to e ep rest r b :
  BandInv b → ds_eps (bd_drop b) !! e = Some ep → Forall (addressed_to Drop (de_id ep)) rest → fine (drop_receiver_done send_to e ep rest r b).
Proof.
  intros I Ee Hr. unfold drop_receiver_done. destruct r as [|[[d frames] comp]]; [by apply fine_ret, stop_drop_inv|].
  apply sending_fine; [intros; by apply send_each_out_eq|]. by eapply set_drop_ep_inv.
Qed.

Lemma drop_task_fine send_to now e b : BandInv b → fine (drop_task_round send_to now e b).
Proof.
  intros I. unfold drop_task_round. destruct (ds_eps (bd_drop b) !! e) as [ep|] eqn:Ee; [|by apply fine_ret].
  destruct (de_running ep); [|by apply fine_ret]. cbn [negb]. pose proof (drop_ep _ _ _ (bi_drop _ I) Ee) as Hin.
  destruct (de_in ep) as [|pkt rest] eqn:Ein; [case_decide; apply fine_ret; [done|by apply stop_drop_inv]|].
  apply Forall_cons in Hin as [_ Hin]. destruct (de_side ep) as [d|d]; [|by apply drop_receiver_fine].
  unfold drop_sender_packet. destruct (sender_packet _ _ _ d) as [[d' frames] v].
  apply sending_fine; [intros; by apply send_each_out_eq|]. by eapply set_drop_ep_inv.
Qed.

Lemma drop_tick_fine send_to now e b : BandInv b → fine (drop_tick_round send_to now e b).
Proof.
  intros I. unfold drop_tick_round. destruct (ds_eps (bd_drop b) !! e) as [ep|] eqn:Ee; [|by apply fine_ret].
  destruct (de_running ep); [|by apply fine_ret]. destruct (de_side ep) as [d|d]; [by apply fine_ret|].
  apply drop_receiver_fine; [done..|]. by apply (drop_ep _ _ _ (bi_drop _ I)) in Ee.
Qed.

Lemma drop_rebase_inv e b : BandInv b → BandInv (drop_rebase_round e b).
Proof.
  intros I. unfold drop_rebase_round. destruct (ds_eps (bd_drop b) !! e) as [ep|] eqn:Ee; [|done].
  destruct (de_running ep); [|done]. destruct (rebase_recv _ _) as [[pos peer]|]; [|done].
  eapply set_drop_ep_inv; [done..|]. by apply (drop_ep _ _ _ (bi_drop _ I)) in Ee.
Qed.
End Steps.

Section Calls.
Context {crates : Crates} {serde : Serde} {dj : DropJson} {cj : ControlJson} {ho : HashOrder} {hspec : HashOrderSpec ho}.
Implicit Types (b : Band).

Lemma band_stream_inv peer id b : BandInv b → BandInv (band_stream peer id b).1.
Proof.
  intros [H1 H2 H3 H4 H5 H6]. split; simpl; try done. destruct H3 as [S1 S2 S3 S4]. split; simpl; try done.
  - by apply routes_ok_snoc.
  - by rewrite dom_insert_L, S3.
  - by apply Forall_snoc_2.
Qed.

Lemma stream_recv_inv e b : BandInv b → BandInv (stream_recv e b).1.
Proof.
  intros I. unfold stream_recv. destruct (ss_eps (bd_stream b) !! e) as [ep|] eqn:Ee; [|done].
  destruct (se_queue ep) as [|m rest] eqn:Eq; [done|]. destruct I as [H1 H2 [S1 S2 S3 S4] H4 H5 H6]. split; simpl; try done.
  pose proof (Forall_lookup_1 _ _ _ _ S4 Ee) as Hq. simpl in Hq. rewrite Eq in Hq. apply Forall_cons in Hq as [_ Hq].
  split; simpl; try done; [by eapply routes_ok_insert|by apply Forall_insert].
Qed.

Lemma control_recv_inv b : BandInv b → BandInv (control_recv b).1.
Proof. intros I. unfold control_recv. destruct (bd_events b); [done|]. by destruct I. Qed.

Lemma board_changed_inv e b : BandInv b → BandInv (board_changed e b).1.
Proof.
  intros I. unfold board_changed. destruct (bs_eps (bd_board b) !! e) as [ep|] eqn:Ee; [|done]. destruct (be_changes ep); [done|].
  destruct (board_ep _ _ _ (bi_board _ I) Ee) as [Hin Hre]. by eapply set_board_ep_inv.
Qed.

Lemma board_release_inv e b : BandInv b → BandInv (board_release e b).
Proof. intros I. unfold board_release. destruct (bs_eps (bd_board b) !! e) eqn:Ee; [|done]. by apply stop_board_inv. Qed.

Lemma recv_verdict_inv e b : BandInv b → BandInv (recv_verdict e b).1.
Proof.
  intros I. unfold recv_verdict. destruct (ds_eps (bd_drop b) !! e) as [ep|] eqn:Ee; [|done]. destruct (de_verdicts ep); [done|].
  eapply set_drop_ep_inv; [done..|]. by apply (drop_ep _ _ _ (bi_drop _ I)) in Ee.
Qed.

Lemma recv_file_inv e b : BandInv b → BandInv (recv_file e b).1.
Proof.
  intros I. unfold recv_file. destruct (ds_eps (bd_drop b) !! e) as [ep|] eqn:Ee; [|done]. destruct (de_done ep); [done|].
  eapply set_drop_ep_inv; [done..|]. by apply (drop_ep _ _ _ (bi_drop _ I)) in Ee.
Qed.

Lemma drop_release_inv e b : BandInv b → BandInv (drop_release e b).
Proof. intros I. unfold drop_release. destruct (ds_eps (bd_drop b) !! e) eqn:Ee; [|done]. by apply stop_drop_inv. Qed.

Lemma band_channel_inv peer id b : BandInv b → BandInv (band_channel peer id b).1.
Proof.
  intros [H1 H2 H3 H4 H5 H6]. split; simpl; try done. destruct H4 as [C1 C2 C3 C4]. split; simpl; try done.
  - by apply routes_ok_snoc.
  - by rewrite dom_insert_L, C3.
  - apply Forall_snoc_2; [done|]. split; simpl; try done. intros _. split; [|done]. split; simpl; try done.
    apply Built_wf, Built_for_chunk_size.
Qed.

Lemma channel_command_inv e cmd b : command_ok cmd → BandInv b → BandInv (channel_command e cmd b).1.
Proof.
  intros Hc I. unfold channel_command. destruct (cs_eps (bd_channel b) !! e) as [ep|] eqn:Ee; [|done].
  destruct (running _); [|done]. destruct (channel_ep _ _ _ (bi_channel _ I) Ee). eapply set_channel_ep_inv; [done..|].
  split; simpl; try done. by apply Forall_snoc_2.
Qed.

Lemma channel_recv_inv e b : BandInv b → BandInv (channel_recv e b).1.
Proof.
  intros I. unfold channel_recv. destruct (cs_eps (bd_channel b) !! e) as [ep|] eqn:Ee; [|done].
  destruct (ce_messages ep); [done|]. destruct (channel_ep _ _ _ (bi_channel _ I) Ee). by eapply set_channel_ep_inv.
Qed.

Lemma channel_release_inv e b : BandInv b → BandInv (channel_release e b).
Proof.
  intros I. unfold channel_release. destruct (cs_eps (bd_channel b) !! e) as [ep|] eqn:Ee; [|done].
  destruct (channel_ep _ _ _ (bi_channel _ I) Ee). by eapply set_channel_ep_inv.
Qed.

Lemma band_board_inv id b : BandInv b → BandInv (band_board id b).1.
Proof.
  intros [H1 H2 H3 H4 H5 H6]. split; simpl; try done. destruct H5 as [B1 B2 B3]. split; simpl; try done.
  - by apply routes_ok_snoc.
  - apply Forall_snoc_2; [done|]. split; simpl; [done|]. apply map_Forall_empty.
Qed.

Lemma with_shared_inv s changes ep : BoardEpInv ep → BoardEpInv (with_shared s changes ep).
Proof. intros [H1 H2]. by split. Qed.

Lemma drop_endpoint_inv id side b : BandInv b → BandInv (drop_endpoint id side b).1.
Proof.
  intros [H1 H2 H3 H4 H5 H6]. split; simpl; try done. destruct H6 as [B1 B2 B3]. split; simpl; try done.
  - by apply routes_ok_snoc.
  - by apply Forall_snoc_2.
Qed.

(** The one call that can panic: a snapshot of more chunks than can be numbered. *)
Definition too_large (ev : band_event) (b : Band) : Prop :=
  ∃ e dest fid ep, ev = ApBoardCall e (BSendSnapshot dest fid) ∧ bs_eps (bd_board b) !! e = Some ep
    ∧ ¬ snapshot_fits (sh_core (t_shared (be_task ep))).

Lemma board_call_fine send_to e call b :
  BandInv b → fine (board_call send_to e call b) ∨ too_large (ApBoardCall e call) b.
Proof.
  intros I. unfold board_call. destruct (bs_eps (bd_board b) !! e) as [ep|] eqn:Ee; [|left; by apply fine_ret].
  pose proof (board_ep _ _ _ (bi_board _ I) Ee) as Hep.
  assert (Hset : ∀ s ch, BandInv (set_board_ep e (with_shared s ch ep) b)) by (intros; eapply set_board_ep_inv; [done..|]; by apply with_shared_inv).
  assert (Hgo : ∀ outs b, BandInv b → fine (sending (send_until send_to (send_board_raw (be_id ep) <$> outs)) b))
    by (intros; apply sending_fine; [intros; by apply send_until_eq|done]).
  destruct call as [key v|key|peer|peer|dest|dest fid]; try (left; by apply fine_ret).
  - left. destruct (endpoint_set _ _ _ _) as [[s ch] [outs ok]]. by apply Hgo.
  - left. destruct (endpoint_delete _ _ _) as [[s ch] [outs ok]]. by apply Hgo.
  - left. by apply Hgo.
  - destruct (snapshot_chunks fid _) as [|chunks] eqn:Ec; [|left; by apply Hgo]. right. exists e, dest, fid, ep. split_and!; [done..|].
    unfold snapshot_chunks in Ec. rewrite fragment_eq in Ec by done. unfold snapshot_fits. case_match eqn:El; [|done].
    apply Z.ltb_lt in El. exact (Zlt_not_le _ _ El).
Qed.

Definition ev_ok (ev : band_event) : Prop :=
  match ev with ApChannelCommand _ cmd => command_ok cmd | _ => True end.

Lemma band_step_fine send_to ev b : BandInv b → ev_ok ev → fine (band_step send_to ev b) ∨ too_large ev b.
Proof.
  intros I Hok. destruct ev; simpl; try (left; apply fine_ret; first
    [by apply recv_round_inv|by apply control_recv_inv|by apply band_stream_inv|by apply stream_recv_inv|by apply band_channel_inv|by apply channel_command_inv
    |by apply channel_recv_inv|by apply channel_release_inv|by apply band_board_inv|by apply drop_endpoint_inv
    |by apply board_rebase_inv|by apply drop_rebase_inv|by apply board_changed_inv|by apply board_release_inv
    |by apply recv_verdict_inv|by apply recv_file_inv|by apply drop_release_inv]).
  - left. by apply control_round_fine.
  - left. by apply keepalive_round_fine.
  - left. apply fine_ret. destruct I. split; simpl; try done. by apply stream_round_inv.
  - left. apply fine_ret. destruct I. split; simpl; try done. by apply stream_rebase_inv.
  - left. apply fine_ret. destruct I. split; simpl; try done. by apply channel_round_inv.
  - left. apply fine_ret. destruct I. split; simpl; try done. by apply channel_rebase_inv.
  - left. by apply conn_task_fine.
  - left. apply fine_ret. destruct I. split; simpl; try done. by apply board_demux_inv.
  - left. by apply board_task_fine.
  - left. apply fine_ret. destruct I. split; simpl; try done. by apply drop_demux_inv.
  - left. by apply drop_task_fine.
  - left. by apply drop_tick_fine.
  - left. unfold band_connect_peer. destruct (connect_peer_eq send_to peer (bd_node b) (ni_band _ (bi_node _ I))) as (r & ->).
    apply fine_ret, BandInv_node; [|done]. apply NodeInv_transport; [apply I|done..].
  - left. apply fine_ret. by destruct I.
  - left. unfold stream_send. destruct (ss_eps (bd_stream b) !! e); [|by apply fine_ret].
    apply sending_fine; [intros; by apply send_each_out_eq|done].
  - by apply board_call_fine.
  - left. unfold drop_offer. destruct (ds_eps (bd_drop b) !! e) as [ep|]; [|by apply fine_ret]. destruct (de_side ep); [|by apply fine_ret].
    apply sending_fine; [intros; by apply send_until_eq|done].
Qed.

(** *** Panics of Board and Drop tasks *)

Definition board_panicked (e : nat) (b : Band) : Prop := ∃ ep, bs_eps (bd_board b) !! e = Some ep ∧ be_state ep = Panicked.
Definition drop_panicked (e : nat) (b : Band) : Prop := ∃ ep, ds_eps (bd_drop b) !! e = Some ep ∧ de_state ep = Panicked.

(** A Board task about to take a packet while its board has outgrown the envelope. *)
Definition board_cause (e : nat) (ev : band_event) (b : Band) : Prop :=
  ∃ now fid ep, ev = EvBoard now fid e ∧ bs_eps (bd_board b) !! e = Some ep ∧ ¬ snapshot_fits (sh_core (t_shared (be_task ep))).

(** A Drop receiver about to take a packet, or woken by its ticker, in a hazardous state. *)
Definition drop_cause (e : nat) (ev : band_event) (b : Band) : Prop :=
  ∃ ep d, ds_eps (bd_drop b) !! e = Some ep ∧ de_side ep = inr d
    ∧ ((∃ now pkt rest, ev = EvDrop now e ∧ de_in ep = pkt :: rest ∧ drop_hazard (Some (in_payload pkt)) (dr_core d))
       ∨ (∃ now, ev = EvDropTick now e ∧ drop_hazard None (dr_core d))).

(** No task of the two kinds panics from one state to the next, except where allowed. *)
Record quiet (P Q : nat → Prop) (b b' : Band) : Prop := {
  qt_board : ∀ e, board_panicked e b' → board_panicked e b ∨ P e;
  qt_drop : ∀ e, drop_panicked e b' → drop_panicked e b ∨ Q e;
  qt_keepalive : bd_keepalive b' = bd_keepalive b;
}.

Lemma quiet_same P Q b b' :
  bs_eps (bd_board b') = bs_eps (bd_board b) → ds_eps (bd_drop b') = ds_eps (bd_drop b) → bd_keepalive b' = bd_keepalive b → quiet P Q b b'.
Proof. intros E1 E2 E3. split; [| |done]; intros e; unfold board_panicked, drop_panicked; rewrite ?E1, ?E2; by left. Qed.

Lemma quiet_insert_board P Q e ep ep' b :
  bs_eps (bd_board b) !! e = Some ep → (be_state ep' = Panicked → be_state ep = Panicked ∨ P e) → quiet P Q b (set_board_ep e ep' b).
Proof.
  intros He Hs. split; [|by left|done]. intros i (x & Hx & Ex). simpl in Hx. destruct (decide (e = i)) as [<-|Hne].
  - rewrite list_lookup_insert_eq in Hx by (by eapply lookup_lt_Some). injection Hx as <-. destruct (Hs Ex); [left; by exists ep|by right].
  - rewrite list_lookup_insert_ne in Hx by done. left. by exists x.
Qed.

Lemma quiet_insert_drop P Q e ep ep' b :
  ds_eps (bd_drop b) !! e = Some ep → (de_state ep' = Panicked → de_state ep = Panicked ∨ Q e) → quiet P Q b (set_drop_ep e ep' b).
Proof.
  intros He Hs. split; [by left| |done]. intros i (x & Hx & Ex). simpl in Hx. destruct (decide (e = i)) as [<-|Hne].
  - rewrite list_lookup_insert_eq in Hx by (by eapply lookup_lt_Some). injection Hx as <-. destruct (Hs Ex); [left; by exists ep|by right].
  - rewrite list_lookup_insert_ne in Hx by done. left. by exists x.
Qed.

Lemma quiet_sending P Q send b b1 b' sent : sending send b1 = Ret (b', sent) → quiet P Q b b1 → quiet P Q b b'.
Proof. unfold sending. destruct (send _) as [|[t x]]; [done|]. intros [= <- <-] [H1 H2 H3]. by split. Qed.

Lemma stop_board_state why ep : be_state (stop_board why ep) = Panicked → be_state ep = Panicked ∨ why = Panicked.
Proof. unfold stop_board. simpl. destruct (be_running ep); auto. Qed.

Lemma stop_drop_state why ep : de_state (stop_drop why ep) = Panicked → de_state ep = Panicked ∨ why = Panicked.
Proof. unfold stop_drop. simpl. destruct (de_running ep); auto. Qed.

Lemma demux_quiet P Q b : quiet P Q b (with_board (board_demux (bd_board b)) b) ∧ quiet P Q b (with_drop (drop_demux (bd_drop b)) b).
Proof.
  split.
  - unfold board_demux. destruct (bs_in (bd_board b)) as [|pkt rest]; [by apply quiet_same|].
    split; [|by left|done]. intros i (x & Hx & Ex). left. simpl in Hx. destruct (bs_routes _ !! _) as [e|]; [|by exists x].
    destruct (decide (e = i)) as [->|Hne]; [|rewrite list_lookup_alter_ne in Hx by done; by exists x].
    rewrite list_lookup_alter_eq in Hx. destruct (bs_eps (bd_board b) !! i) as [ep|] eqn:Ei; [|done]. injection Hx as <-.
    exists ep. split; [done|]. unfold push_board in Ex. by destruct (be_running ep).
  - unfold drop_demux. destruct (ds_in (bd_drop b)) as [|pkt rest]; [by apply quiet_same|].
    split; [by left| |done]. intros i (x & Hx & Ex). left. simpl in Hx. destruct (ds_routes _ !! _) as [e|]; [|by exists x].
    destruct (decide (e = i)) as [->|Hne]; [|rewrite list_lookup_alter_ne in Hx by done; by exists x].
    rewrite list_lookup_alter_eq in Hx. destruct (ds_eps (bd_drop b) !! i) as [ep|] eqn:Ei; [|done]. injection Hx as <-.
    exists ep. split; [done|]. unfold push_drop in Ex. by destruct (de_running ep).
Qed.

Lemma recv_round_quiet P Q now from d b : quiet P Q b (recv_round now from d b).
Proof.
  unfold recv_round. destruct (transport_recv _ _ _ _) as [t [pkt|]]; [|by apply quiet_same].
  unfold push_inbound. destruct (channel_type _); by apply quiet_same.
Qed.

Lemma control_round_quiet P Q send_to b b' sent : control_round send_to b = Ret (b', sent) → quiet P Q b b'.
Proof.
  unfold control_round. destruct (bd_control_in b); [intros [= <- <-]; by apply quiet_same|]. destruct (negb _); [intros [= <- <-]; by apply quiet_same|].
  destruct (control_packet _ _ _) as [|[n e]]; [done|]. intros [= <- <-]. by apply quiet_same.
Qed.

Lemma keepalive_round_quiet P Q send_to now b b' sent : keepalive_round send_to now b = Ret (b', sent) → quiet P Q b b'.
Proof.
  unfold keepalive_round. destruct (bd_keepalive b) eqn:E; try (intros [= <- <-]; by apply quiet_same).
  destruct (keepalive_tick _ _ _ _) as [|[n x]]; [done|]. intros [= <- <-]. by apply quiet_same.
Qed.

Lemma conn_task_quiet P Q send_to now arm e b b' sent : conn_task_round send_to now arm e b = Ret (b', sent) → quiet P Q b b'.
Proof.
  unfold conn_task_round. destruct (cs_eps _ !! e) as [ep|]; [|intros [= <- <-]; by apply quiet_same].
  destruct (negb _); [intros [= <- <-]; by apply quiet_same|].
  destruct (conn_arm _ _ _ _) as [[[ev cmds] frames]|]; [|intros [= <- <-]; by apply quiet_same].
  destruct (conn_round _ _ _ _) as [|[conn out]]; [done|]. intros E. eapply quiet_sending; [exact E|]. by apply quiet_same.
Qed.

Lemma board_task_quiet Q send_to now fid e b b' sent :
  BandInv b → board_task_round send_to now fid e b = Ret (b', sent) → quiet (λ i, board_cause i (EvBoard now fid e) b) Q b b'.
Proof.
  intros I. unfold board_task_round. destruct (bs_eps _ !! e) as [ep|] eqn:Ee; [|intros [= <- <-]; by apply quiet_same].
  destruct (be_running ep) eqn:Er; [|intros [= <- <-]; by apply quiet_same]. cbn [negb].
  destruct (be_in ep) as [|pkt rest].
  { case_decide; intros [= <- <-]; [by apply quiet_same|]. eapply quiet_insert_board; [done|]. intros [?|?]%stop_board_state; [by left|done]. }
  pose proof (board_packet_ok now fid (in_from pkt) (sequence (in_header pkt)) (in_payload pkt) (be_task ep)
    (bei_reassemblers _ (board_ep _ _ _ (bi_board _ I) Ee))) as Hp.
  destruct (board_packet _ _ _ _ _ _) as [|[[task frames] changes]].
  - intros [= <- <-]. eapply quiet_insert_board; [done|]. intros _. right. by exists now, fid, ep.
  - intros E. eapply quiet_sending; [exact E|]. by eapply quiet_insert_board.
Qed.

Lemma drop_receiver_quiet P Q send_to e ep rest r b b' sent :
  ds_eps (bd_drop b) !! e = Some ep → (r = Panic → Q e) → drop_receiver_done send_to e ep rest r b = Ret (b', sent) → quiet P Q b b'.
Proof.
  intros Ee HP. unfold drop_receiver_done. destruct r as [|[[d frames] comp]].
  - intros [= <- <-]. eapply quiet_insert_drop; [done|]. intros _. right. by apply HP.
  - intros E. eapply quiet_sending; [exact E|]. by eapply quiet_insert_drop.
Qed.

Lemma drop_task_quiet P send_to now e b b' sent :
  drop_task_round send_to now e b = Ret (b', sent) → quiet P (λ i, drop_cause i (EvDrop now e) b) b b'.
Proof.
  unfold drop_task_round. destruct (ds_eps _ !! e) as [ep|] eqn:Ee; [|intros [= <- <-]; by apply quiet_same].
  destruct (de_running ep) eqn:Er; [|intros [= <- <-]; by apply quiet_same]. cbn [negb].
  destruct (de_in ep) as [|pkt rest] eqn:Ein.
  { case_decide; intros [= <- <-]; [by apply quiet_same|]. eapply quiet_insert_drop; [done|]. intros [?|?]%stop_drop_state; [by left|done]. }
  destruct (de_side ep) as [d|d] eqn:Es.
  - unfold drop_sender_packet. destruct (sender_packet _ _ _ d) as [[d' frames] v]. intros E. eapply quiet_sending; [exact E|].
    by eapply quiet_insert_drop.
  - apply drop_receiver_quiet; [done|]. intros E%receiver_packet_fails. exists ep, d. split_and!; [done..|]. left. by exists now, pkt, rest.
Qed.

Lemma drop_tick_quiet P send_to now e b b' sent :
  drop_tick_round send_to now e b = Ret (b', sent) → quiet P (λ i, drop_cause i (EvDropTick now e) b) b b'.
Proof.
  unfold drop_tick_round. destruct (ds_eps _ !! e) as [ep|] eqn:Ee; [|intros [= <- <-]; by apply quiet_same].
  destruct (de_running ep) eqn:Er; [|intros [= <- <-]; by apply quiet_same].
  destruct (de_side ep) as [d|d] eqn:Es; [intros [= <- <-]; by apply quiet_same|].
  apply drop_receiver_quiet; [done|]. intros E%receiver_tick_fails. exists ep, d. split_and!; [done..|]. right. by exists now.
Qed.

Lemma board_call_quiet P Q send_to e call b b' sent : board_call send_to e call b = Ret (b', sent) → quiet P Q b b'.
Proof.
  unfold board_call. destruct (bs_eps _ !! e) as [ep|] eqn:Ee; [|intros [= <- <-]; by apply quiet_same].
  assert (Hset : ∀ s ch, quiet P Q b (set_board_ep e (with_shared s ch ep) b)) by (intros; eapply quiet_insert_board; [done|]; by left).
  destruct call as [key v|key|peer|peer|dest|dest fid].
  - destruct (endpoint_set _ _ _ _) as [[s ch] [outs ok]]. intros E. by eapply quiet_sending.
  - destruct (endpoint_delete _ _ _) as [[s ch] [outs ok]]. intros E. by eapply quiet_sending.
  - intros [= <- <-]. apply Hset.
  - intros [= <- <-]. apply Hset.
  - intros E. eapply quiet_sending; [exact E|]. by apply quiet_same.
  - destruct (snapshot_chunks fid _) as [|chunks]; [done|]. intros E. eapply quiet_sending; [exact E|]. by apply quiet_same.
Qed.

Lemma snoc_quiet P Q b b' x y :
  bs_eps (bd_board b') = bs_eps (bd_board b) ++ x → ds_eps (bd_drop b') = ds_eps (bd_drop b) ++ y → bd_keepalive b' = bd_keepalive b →
  Forall (λ ep, be_state ep ≠ Panicked) x → Forall (λ ep, de_state ep ≠ Panicked) y → quiet P Q b b'.
Proof.
  intros E1 E2 E3 Hx Hy. split; [| |done]; intros e (ep & He & Ep); [rewrite E1 in He|rewrite E2 in He];
    (apply lookup_app_Some in He as [He|[_ He]]; [left; by exists ep|]); exfalso.
  - by apply (Forall_lookup_1 _ _ _ _ Hx) in He.
  - by apply (Forall_lookup_1 _ _ _ _ Hy) in He.
Qed.

Lemma handle_calls_quiet P Q e b :
  quiet P Q b (board_changed e b).1 ∧ quiet P Q b (board_release e b) ∧ quiet P Q b (board_rebase_round e b)
  ∧ quiet P Q b (recv_verdict e b).1 ∧ quiet P Q b (recv_file e b).1 ∧ quiet P Q b (drop_release e b) ∧ quiet P Q b (drop_rebase_round e b).
Proof.
  split_and!.
  - unfold board_changed. destruct (bs_eps _ !! e) as [ep|] eqn:Ee; [|by apply quiet_same]. destruct (be_changes ep); [by apply quiet_same|].
    eapply quiet_insert_board; [done|]. by left.
  - unfold board_release. destruct (bs_eps _ !! e) as [ep|] eqn:Ee; [|by apply quiet_same]. eapply quiet_insert_board; [done|].
    intros [?|?]%stop_board_state; [by left|done].
  - unfold board_rebase_round. destruct (bs_eps _ !! e) as [ep|] eqn:Ee; [|by apply quiet_same]. destruct (be_running ep); [|by apply quiet_same].
    destruct (rebase_recv _ _) as [[pos peer]|]; [|by apply quiet_same]. by eapply quiet_insert_board.
  - unfold recv_verdict. destruct (ds_eps _ !! e) as [ep|] eqn:Ee; [|by apply quiet_same]. destruct (de_verdicts ep); [by apply quiet_same|].
    eapply quiet_insert_drop; [done|]. by left.
  - unfold recv_file. destruct (ds_eps _ !! e) as [ep|] eqn:Ee; [|by apply quiet_same]. destruct (de_done ep); [by apply quiet_same|].
    eapply quiet_insert_drop; [done|]. by left.
  - unfold drop_release. destruct (ds_eps _ !! e) as [ep|] eqn:Ee; [|by apply quiet_same]. eapply quiet_insert_drop; [done|].
    intros [?|?]%stop_drop_state; [by left|done].
  - unfold drop_rebase_round. destruct (ds_eps _ !! e) as [ep|] eqn:Ee; [|by apply quiet_same]. destruct (de_running ep); [|by apply quiet_same].
    destruct (rebase_recv _ _) as [[pos peer]|]; [|by apply quiet_same]. by eapply quiet_insert_drop.
Qed.

Lemma band_step_quiet send_to ev b b' sent :
  BandInv b → band_step send_to ev b = Ret (b', sent) → quiet (λ e, board_cause e ev b) (λ e, drop_cause e ev b) b b'.
Proof.
  intros I E. destruct ev; cbn [band_step] in E;
    try (injection E as <- <-; first [apply recv_round_quiet|apply demux_quiet|apply handle_calls_quiet|by apply quiet_same
      |by unfold stream_recv, channel_command, channel_recv, channel_release, control_recv, set_channel_ep; repeat case_match; apply quiet_same
      |eapply (snoc_quiet _ _ _ _ [_] []); [done|by rewrite app_nil_r|done|by repeat constructor|done]
      |eapply (snoc_quiet _ _ _ _ [] [_]); [by rewrite app_nil_r|done|done|done|by repeat constructor]]).
  - by eapply control_round_quiet.
  - by eapply keepalive_round_quiet.
  - by eapply conn_task_quiet.
  - by eapply board_task_quiet.
  - by eapply drop_task_quiet.
  - by eapply drop_tick_quiet.
  - unfold band_connect_peer in E. destruct (connect_peer _ _ _) as [|[n r]]; [done|]. injection E as <- <-. by apply quiet_same.
  - unfold stream_send in E. destruct (ss_eps _ !! e); [|injection E as <- <-; by apply quiet_same]. eapply quiet_sending; [exact E|]. by apply quiet_same.
  - by eapply board_call_quiet.
  - unfold drop_offer in E. destruct (ds_eps _ !! e) as [ep|]; [|injection E as <- <-; by apply quiet_same].
    destruct (de_side ep); [|injection E as <- <-; by apply quiet_same]. eapply quiet_sending; [exact E|]. by apply quiet_same.
Qed.

(** Some step of the run is the cause of what holds at its end. *)
Definition caused (send_to : bytes → string → bool) (evs : list band_event) (start : Band) (cause : band_event → Band → Prop) : Prop :=
  ∃ before ev after b sent, evs = before ++ ev :: after ∧ band_run send_to before start = Ret (b, sent) ∧ cause ev b.

Lemma caused_cons send_to ev evs b b1 sent1 cause :
  band_step send_to ev b = Ret (b1, sent1) → caused send_to evs b1 cause → caused send_to (ev :: evs) b cause.
Proof.
  intros E1 (before & ev' & after & b2 & sent2 & -> & E2 & Hc). exists (ev :: before), ev', after, b2, (sent1 ++ sent2).
  split_and!; [done| |done]. simpl. rewrite E1. cbn [mbind outcome_bind]. by rewrite E2.
Qed.

Lemma band_run_quiet send_to evs b b' sent :
  BandInv b → Forall ev_ok evs → band_run send_to evs b = Ret (b', sent) →
  (∀ e, board_panicked e b' → board_panicked e b ∨ caused send_to evs b (board_cause e))
  ∧ (∀ e, drop_panicked e b' → drop_panicked e b ∨ caused send_to evs b (drop_cause e))
  ∧ bd_keepalive b' = bd_keepalive b.
Proof.
  intros I Hok. revert b sent I. induction Hok as [|ev evs Hev Hok IH]; intros b sent I E; simpl in E.
  { injection E as <- <-. split_and!; auto. }
  destruct (band_step send_to ev b) as [|[b1 sent1]] eqn:E1; [done|]. cbn [mbind outcome_bind] in E.
  destruct (band_run send_to evs b1) as [|[b2 sent2]] eqn:E2; [done|]. cbn [mbind outcome_bind] in E. injection E as <- <-.
  destruct (band_step_fine send_to ev b I Hev) as [(b3 & sent3 & E3 & I3)|Hl].
  - rewrite E1 in E3. injection E3 as <- <-. destruct (IH b1 sent2 I3 E2) as (H1 & H2 & H3).
    destruct (band_step_quiet send_to ev b b1 sent1 I E1) as [Q1 Q2 Q3].
    assert (Here : ∀ cause : band_event → Band → Prop, cause ev b → caused send_to (ev :: evs) b cause) by (intros cause Hc; by exists [], ev, evs, b, []).
    split_and!; [| |congruence].
    + intros e [Hp|Hc]%H1; [|right; by eapply caused_cons]. apply Q1 in Hp as [?|?]; [by left|right; by apply Here].
    + intros e [Hp|Hc]%H2; [|right; by eapply caused_cons]. apply Q2 in Hp as [?|?]; [by left|right; by apply Here].
  - destruct Hl as (e & dest & fid & ep & -> & He & Hn). exfalso. cbn [band_step] in E1. unfold board_call in E1. rewrite He in E1.
    unfold snapshot_chunks in E1. rewrite fragment_eq in E1 by done. unfold snapshot_fits in Hn. case_match eqn:El; [done|].
    apply Hn. by apply Z.ltb_ge in El.
Qed.

Lemma bind_inv {cspec : CratesSpec} psk hostname opts now_ms random : BandInv (bind_with_options psk hostname opts now_ms random).
Proof.
  split; simpl; try done; [apply band_bind_inv|..]; split; simpl; try done; by intros k e ?%lookup_empty_Some.
Qed.

Lemma band_run_fine send_to evs b :
  BandInv b → Forall ev_ok evs → (∃ b' sent, band_run send_to evs b = Ret (b', sent) ∧ BandInv b') ∨ caused send_to evs b too_large.
Proof.
  intros I Hok. revert b I. induction Hok as [|ev evs Hev Hok IH]; intros b I; simpl; [left; by exists b, []|].
  destruct (band_step_fine send_to ev b I Hev) as [(b1 & sent1 & E1 & I1)|Hl]; [|right; by exists [], ev, evs, b, []].
  rewrite E1. cbn [mbind outcome_bind]. destruct (IH b1 I1) as [(b2 & sent2 & -> & I2)|Hc].
  - left. cbn [mbind outcome_bind]. eauto.
  - right. by eapply caused_cons.
Qed.
End Calls.

(** ** Properties *)


(** ** Witnesses *)

#[local] Existing Instance sample_crates.
#[local] Existing Instance sample_control_json.
#[local] Existing Instance sample_serde.
#[local] Existing Instance sample_json.
#[local] Existing Instance sample_hash_order.

(** A Band that opens one endpoint of each kind, writes, sends, and gets a HELLO of its
    own kind and noise from the network. *)
Definition sample_band (host : string) : Band := bind_with_options sample_psk host (sample_options ["aes256-gcm"]) 0 sample_random.

Definition sample_band_events : list band_event :=
  [ApStream "b" 1; ApChannel "b" 2; ApBoard 3; ApDropRecv 4 ∅; ApBoardCall 0 (BAddDestination "b");
   ApBoardCall 0 (BSet "topic" 3%positive); ApChannelCommand 0 CConnect; EvConn 1 (ArmCommand []) 0; ApStreamSend 0 9 [Byte.x2a];
   EvDatagram 2 "b" (sample_hello ["aes256-gcm"]); EvControl; EvStreamRebase; EvBoardRebase 0; EvDatagram 3 "c" [Byte.x00];
   EvConn 600 ArmTimer 0; EvDropTick 700 0; EvKeepalive 800].


(** The panic of a Drop task shows: an offer of more bytes than can be allocated and its one
    chunk stop the receiver, and nothing else of the Band. *)
Definition sample_drop_packet (seq : Z) (payload : bytes) : Inbound :=
  mkInbound "b" (mkHeader [] Drop 4 seq) payload.
Definition sample_huge_offer : list Inbound :=
  [sample_drop_packet 1 (TYPE_OFFER :: offer_to_vec (mkOffer "f" u64_max CHUNK_SIZE 1 [])); sample_drop_packet 2 (TYPE_CHUNK :: to_be_bytes 4 0)].

Lemma drop_panic_shows :
  let b := with_drop (mkDropSide sample_huge_offer ∅ []) (sample_band "y") in
  match band_run (λ _ _, true) [ApDropRecv 4 ∅; EvDropDemux; EvDropDemux; EvDrop 1 0; EvDrop 2 0] b with
  | Ret (b', sent) => drop_panicked 0 b' ∧ length sent = 1
  | Panic => False
  end.
Proof. vm_compute. split; [|reflexivity]. by eexists. Qed.

(** So does a keepalive interval of zero. *)
Lemma keepalive_panic_shows :
  bd_keepalive (bind_with_options sample_psk "y"
    (mkOptions None (bo_ciphers BandOptions_default) (bo_capabilities BandOptions_default) 0 (bo_dead_after BandOptions_default) true) 0 sample_random)
  = KeepalivePanicked.
Proof. reflexivity. Qed.
