(* ===== verification/BandNet.v ===== *)
(** Two Bands in a session ([rust/telesthete/src/band.rs] and the endpoints it hands out):
    what one application sends through the transport, the network and the other
    Band's tasks reaches the other application. *)

From S2P Require Import Prelude Crypto Framing Fragment Channel Board Drop Transport Control Band.

(** ** Sessions *)

(** What [ta] sends to [b] under its data key, which is of the right length, opens at
    [tb], which takes every type a Band routes. *)
Record talks (a b : string) (ta tb : Transport) : Prop := {
  tk_len : length (t_band_id ta) = BAND_ID_LEN;
  tk_band : t_band_id tb = t_band_id ta;
  tk_key : opens a (default (session_key ta, ChaCha20Poly1305) (send_keys ta !! b)) tb;
  tk_routes : {[Control; Drop; Board; Channel; Stream]} ⊆ Transport.routes tb;
  tk_whole : length (default (session_key ta, ChaCha20Poly1305) (send_keys ta !! b)).1 = KEY_LEN;
}.

Lemma talks_seq a b ta tb s : talks a b ta tb → talks a b (set_seq s ta) tb.
Proof. intros [H1 H2 H3 H4 H5]. by split. Qed.

Lemma talks_peer_seq a b ta tb s : talks a b ta tb → talks a b ta (set_seq s tb).
Proof. intros [H1 H2 H3 H4 H5]. by split. Qed.

Lemma talks_see a b ta tb from now : talks a b ta tb → talks a b ta (see from now tb).
Proof. intros [H1 H2 H3 H4 H5]. by split. Qed.

Lemma talks_sender_see a b ta tb from now : talks a b ta tb → talks a b (see from now ta) tb.
Proof. intros [H1 H2 H3 H4 H5]. by split. Qed.

#[export] Hint Resolve talks_seq talks_peer_seq talks_see talks_sender_see : tele.

Section Net.
Context {crates : Crates} {cspec : CratesSpec} {serde : Serde} {dj : DropJson} {cj : ControlJson} {ho : HashOrder}.
Implicit Types (A B : Band) (out : Outbound).

(** A datagram sent within a session is handed to the hub of its type. *)
Lemma session_recv send_to out ta ta' d now a b B :
  talks a b ta (band_transport B) → out_to out = b → out_use_base_key out = false → is_u16 (out_channel_id out) →
  out_channel_type out ∈ ({[Control; Drop; Board; Channel; Stream]} : gset ChannelType) → is_u64 (t_seq ta) →
  transport_send send_to out ta = Ret (ta', Ok d) →
  recv_round now a d B
  = push_inbound (mkInbound a (mkHeader (t_band_id ta) (out_channel_type out) (out_channel_id out) (t_seq ta)) (out_plaintext out))
      (with_node (set_transport (see a now (band_transport B)) (bd_node B)) B).
Proof.
  intros [H1 H2 H3 H4 H5] Hto Hb Hid Hty Hs Hsend. unfold recv_round.
  rewrite (link_recv send_to out ta ta' (band_transport B) d now a); [done|done..| |set_solver|done].
  unfold send_key. by rewrite Hb, Hto.
Qed.

Lemma transport_send_seq send_to out t t' r :
  length (t_band_id t) = BAND_ID_LEN → transport_send send_to out t = Ret (t', r) → t' = set_seq (wrap 64 (t_seq t + 1)) t.
Proof. intros Hb E. destruct (transport_send_eq send_to out t Hb) as (r' & E' & _). congruence. Qed.

(** ** Streams *)

(** The datagrams of a run of sends, each under the next sequence. *)
Inductive sent_under (send_to : bytes → string → bool) (t : Transport) : Z → list Outbound → list bytes → Prop :=
| sent_nil s : sent_under send_to t s [] []
| sent_cons s o outs d ds :
    (∃ t', transport_send send_to o (set_seq s t) = Ret (t', Ok d)) →
    sent_under send_to t (s + 1) outs ds → sent_under send_to t s (o :: outs) (d :: ds).

Lemma sent_under_lookup send_to t s outs ds i d :
  sent_under send_to t s outs ds → ds !! i = Some d →
  ∃ o t', outs !! i = Some o ∧ transport_send send_to o (set_seq (s + Z.of_nat i) t) = Ret (t', Ok d).
Proof.
  intros H. revert i. induction H as [s|s o outs d0 ds (t' & E) _ IH]; intros i Hi; [done|].
  destruct i as [|i]; simpl in *.
  - injection Hi as <-. exists o, t'. rewrite Z.add_0_r. done.
  - destruct (IH i Hi) as (o' & t1 & Ho & E'). exists o', t1. split; [done|]. rewrite <- E'. do 2 f_equal. lia.
Qed.

Lemma sent_under_set_seq send_to t x s outs ds : sent_under send_to (set_seq x t) s outs ds → sent_under send_to t s outs ds.
Proof. induction 1 as [|s o outs d ds Hx _ IH]; constructor; [exact Hx|done]. Qed.

Lemma sent_to_length to (r : result bytes TransportError) : length (sent_to to r) ≤ 1.
Proof. destruct r; simpl; lia. Qed.

Definition stream_sends (e : nat) (ms : list (Z * bytes)) : list band_event := (λ m, ApStreamSend e m.1 m.2) <$> ms.

Lemma set_transport_same n : set_transport (n_transport n) n = n.
Proof. by destruct n. Qed.

Lemma with_node_same b : with_node (bd_node b) b = b.
Proof. by destruct b. Qed.

(** The sends of one endpoint, all of which went out. *)
Lemma stream_sends_spec send_to e ep ms A A' sent :
  ss_eps (bd_stream A) !! e = Some ep → length (t_band_id (band_transport A)) = BAND_ID_LEN →
  (0 <= t_seq (band_transport A))%Z → (t_seq (band_transport A) + len ms < 2 ^ 64)%Z →
  band_run send_to (stream_sends e ms) A = Ret (A', sent) →
  length sent ≤ length ms
  ∧ (length sent = length ms → ∃ ds, sent = (se_peer ep,.) <$> ds
      ∧ sent_under send_to (band_transport A) (t_seq (band_transport A)) ((λ m, stream_out (se_peer ep) (se_id ep) m.1 m.2) <$> ms) ds).
Proof.
  revert A sent. induction ms as [|m ms IH]; intros A sent He Hb H0 Hn Hrun; simpl in Hrun.
  { injection Hrun as <- <-. split; [done|]. intros _. exists []. split; [done|]. constructor. }
  rewrite len_cons in Hn. pose proof (len_nonneg ms).
  unfold stream_send in Hrun. rewrite He in Hrun. unfold sending, send_each_out in Hrun.
  destruct (transport_send_eq send_to (stream_out (se_peer ep) (se_id ep) m.1 m.2) (band_transport A) Hb) as (r & Er & _).
  rewrite Er in Hrun. cbn [mbind outcome_bind] in Hrun.
  set (A1 := with_node _ A) in Hrun. destruct (band_run send_to (stream_sends e ms) A1) as [|[A2 rest]] eqn:E2; [done|].
  cbn [mbind outcome_bind] in Hrun. injection Hrun as -> <-. rewrite app_nil_r.
  assert (Ew : wrap 64 (t_seq (band_transport A) + 1) = (t_seq (band_transport A) + 1)%Z) by (unfold wrap; apply Z.mod_small; lia).
  assert (Et : band_transport A1 = set_seq (t_seq (band_transport A) + 1) (band_transport A)) by (by rewrite <- Ew).
  destruct (IH A1 rest) as [Hl Hd]; [done|by rewrite Et|rewrite Et; simpl; lia|rewrite Et; simpl; lia|done|].
  rewrite length_app. pose proof (sent_to_length (se_peer ep) r). simpl. split; [lia|]. intros Hlen.
  destruct Hd as (ds & -> & Hs); [lia|]. destruct r as [d|]; [|simpl in Hlen; rewrite length_fmap in *; lia].
  exists (d :: ds). split; [done|]. simpl. constructor.
  - exists (set_seq (wrap 64 (t_seq (band_transport A) + 1)) (band_transport A)). rewrite <- Er. by destruct (band_transport A).
  - rewrite Et in Hs. by apply sent_under_set_seq in Hs.
Qed.

(** An endpoint of a Band whose Stream hub has nothing waiting. *)
Record idle_stream (id : Z) (e : nat) (ep : StreamEp) (B : Band) : Prop := {
  is_in : ss_in (bd_stream B) = [];
  is_route : ss_routes (bd_stream B) !! id = Some e;
  is_ep : ss_eps (bd_stream B) !! e = Some ep;
  is_open : id ∈ sh_senders (ss_hub (bd_stream B));
}.

Definition stream_mark (a : string) (id : Z) (B : Band) : option Z := sh_watermarks (ss_hub (bd_stream B)) !! (a, id).
Definition receive_message (m : StreamMessage) (ep : StreamEp) : StreamEp := mkStreamEp (se_peer ep) (se_id ep) (se_queue ep ++ [m]).
Definition past_mark (mark : option Z) (seq : Z) : bool := match mark with Some w => (w <? seq)%Z | None => true end.

Lemma stream_arrival send_to send_to' a b id e ep priority data ta ta' d now B :
  talks a b ta (band_transport B) → idle_stream id e ep B → is_u16 id → is_u8 priority → is_u64 (t_seq ta) →
  transport_send send_to (stream_out b id priority data) ta = Ret (ta', Ok d) →
  let fresh := past_mark (stream_mark a id B) (t_seq ta) in
  ∃ B', band_run send_to' [EvDatagram now a d; EvStream] B = Ret (B', [])
    ∧ band_transport B' = see a now (band_transport B)
    ∧ idle_stream id e (if fresh then receive_message (mkMessage a id priority data) ep else ep) B'
    ∧ stream_mark a id B' = if fresh then Some (t_seq ta) else stream_mark a id B.
Proof.
  intros Ht [I1 I2 I3 I4] Hid Hp Hs Hsend fresh. cbn [band_run band_step].
  rewrite (session_recv send_to (stream_out b id priority data) ta ta' d now a b B Ht) by (try done; set_solver).
  cbn [push_inbound in_header channel_type out_channel_type stream_out]. unfold push_inbound. cbn [in_header channel_type with_node bd_stream].
  rewrite I1. cbn [app mbind outcome_bind]. eexists. split; [done|]. split; [done|].
  unfold stream_round. cbn [bd_stream with_stream ss_in ss_hub]. unfold stream_packet, handle_stream_inbound.
  cbn [in_payload out_plaintext stream_out stream_payload in_from in_header channel_id sequence out_channel_id].
  unfold stream_mark, fresh, stream_mark, past_mark in *. rewrite b2z_z2b_u8 by done.
  destruct (sh_watermarks (ss_hub (bd_stream B)) !! (a, id)) as [w|] eqn:Ew.
  - rewrite Z.leb_antisym. destruct (Z.ltb_spec w (t_seq ta)); cbn [negb].
    + cbn [mbind option_bind ss_routes]. rewrite decide_True by done. rewrite I2. split; [|simpl; by rewrite lookup_insert_eq].
      split; simpl; try done. by rewrite list_lookup_alter_eq, I3.
    + cbn [mbind option_bind]. split; [by split|done].
  - cbn [mbind option_bind ss_routes]. rewrite decide_True by done. rewrite I2. split; [|simpl; by rewrite lookup_insert_eq].
    split; simpl; try done. by rewrite list_lookup_alter_eq, I3.
Qed.

(** The arrivals that are newer than every earlier one. *)
Fixpoint freshest (last : option nat) (is_ : list nat) : list nat :=
  match is_ with
  | [] => []
  | i :: is' => if match last with Some l => bool_decide (i ≤ l) | None => false end
                then freshest last is' else i :: freshest (Some i) is'
  end.

(** The messages of the arrivals [is_] among those sent. *)
Definition messages_at (a : string) (id : Z) (ms : list (Z * bytes)) (is_ : list nat) : list StreamMessage :=
  omap (λ i, (λ m, mkMessage a id m.1 m.2) <$> ms !! i) is_.

Definition stream_arrivals (a : string) (arrivals : list (nat * Z * bytes)) : list band_event :=
  arrivals ≫= λ x, [EvDatagram x.1.2 a x.2; EvStream].

Lemma band_run_app send_to evs1 evs2 b :
  band_run send_to (evs1 ++ evs2) b
  = ('(b1, s1) ← band_run send_to evs1 b; '(b2, s2) ← band_run send_to evs2 b1; Ret (b2, s1 ++ s2)).
Proof.
  revert b. induction evs1 as [|ev evs1 IH]; intros b.
  - simpl. by destruct (band_run send_to evs2 b) as [|[b2 s2]].
  - cbn [band_run app]. destruct (band_step send_to ev b) as [|[b1 s1]]; [done|]. cbn [mbind outcome_bind]. rewrite IH.
    destruct (band_run send_to evs1 b1) as [|[b2 s2]]; [done|]. cbn [mbind outcome_bind].
    destruct (band_run send_to evs2 b2) as [|[b3 s3]]; [done|]. cbn [mbind outcome_bind]. by rewrite app_assoc.
Qed.

Lemma stream_arrivals_spec send_to send_to' a b id e ep ms ds ta (arrivals : list (nat * Z * bytes)) last B :
  talks a b ta (band_transport B) → idle_stream id e ep B → is_u16 id → Forall (λ m, is_u8 m.1) ms →
  (0 <= t_seq ta)%Z → (t_seq ta + len ms < 2 ^ 64)%Z →
  sent_under send_to ta (t_seq ta) ((λ m, stream_out b id m.1 m.2) <$> ms) ds →
  Forall (λ x, ds !! x.1.1 = Some x.2) arrivals →
  match last with
  | Some l => stream_mark a id B = Some (t_seq ta + Z.of_nat l)%Z
  | None => past_mark (stream_mark a id B) (t_seq ta) = true
  end →
  ∃ B' ep', band_run send_to' (stream_arrivals a arrivals) B = Ret (B', []) ∧ idle_stream id e ep' B'
    ∧ talks a b ta (band_transport B')
    ∧ se_queue ep' = se_queue ep ++ messages_at a id ms (freshest last (arrivals.*1.*1)).
Proof.
  intros Ht Hi Hid Hms H0 Hn Hsent Harr. revert B ep last Ht Hi. induction Harr as [|[[i now] d] arrivals Hd Harr IH]; intros B ep last Ht Hi Hlast.
  { exists B, ep. simpl. by rewrite app_nil_r. }
  simpl in Hd. destruct (sent_under_lookup _ _ _ _ _ _ _ Hsent Hd) as (o & t' & Ho & Esend).
  apply list_lookup_fmap_Some in Ho as (m & -> & Hm). pose proof (Forall_lookup_1 _ _ _ _ Hms Hm) as Hp.
  assert (Hlt : (Z.of_nat i < len ms)%Z) by (apply lookup_lt_Some in Hm; unfold len; lia).
  destruct (stream_arrival send_to send_to' a b id e ep m.1 m.2 (set_seq (t_seq ta + Z.of_nat i) ta) t' d now B (talks_seq _ _ _ _ _ Ht) Hi Hid Hp) as (B1 & E1 & Et1 & Hi1 & Hm1);
    [unfold is_u64; simpl; lia|done|]. cbn [t_seq set_seq] in Hi1, Hm1.
  assert (Ht1 : talks a b ta (band_transport B1)) by (rewrite Et1; auto with tele).
  unfold stream_arrivals. cbn [mbind list_bind]. rewrite band_run_app. cbn [fst snd]. rewrite E1. cbn [mbind outcome_bind].
  fold (stream_arrivals a arrivals). cbn [fmap list_fmap fst freshest].
  assert (Hfresh : past_mark (stream_mark a id B) (t_seq ta + Z.of_nat i) = negb (match last with Some l => bool_decide (i ≤ l) | None => false end)).
  { destruct last as [l|].
    - rewrite Hlast. simpl. case_bool_decide; [apply Z.ltb_ge|apply Z.ltb_lt]; lia.
    - unfold past_mark in *. destruct (stream_mark a id B); [|done]. apply Z.ltb_lt in Hlast. apply Z.ltb_lt. lia. }
  rewrite Hfresh in Hi1, Hm1. destruct (match last with Some l => bool_decide (i ≤ l) | None => false end) eqn:El; cbn [negb] in *.
  - destruct (IH B1 ep last Ht1 Hi1) as (B2 & ep2 & -> & Hi2 & Ht2 & Hq); [by destruct last; rewrite ?Hm1|]. by exists B2, ep2.
  - destruct (IH B1 _ (Some i) Ht1 Hi1 Hm1) as (B2 & ep2 & -> & Hi2 & Ht2 & Hq). exists B2, ep2. split_and!; [done..|].
    rewrite Hq. cbn [messages_at omap list_omap]. rewrite Hm. simpl. by rewrite <- app_assoc.
Qed.

(** ** The handshake of two Bands *)

(** What the control task leaves alone of a transport; it sends at most once. *)
Record same_frame (t t' : Transport) : Prop := {
  sf_band : t_band_id t' = t_band_id t;
  sf_routes : Transport.routes t' = Transport.routes t;
  sf_session : session_key t' = session_key t;
  sf_seq : t_seq t' = t_seq t ∨ t_seq t' = wrap 64 (t_seq t + 1);
}.

Lemma same_frame_refl t : same_frame t t.
Proof. split; auto. Qed.

Lemma prune_transport n : n_transport (prune n) = n_transport n.
Proof. unfold prune. by case_decide. Qed.

Lemma handle_hello_frame send_to from seq is_hello v n n' e :
  length (t_band_id (n_transport n)) = BAND_ID_LEN →
  handle_hello send_to from seq is_hello v n = Ret (n', e) → same_frame (n_transport n) (n_transport n').
Proof.
  intros Hb. unfold handle_hello. destruct (hello_body _ _ _ _) as [[[[[event ep] hostname] caps] committed]|];
    [|intros [= <- _]; apply same_frame_refl].
  destruct (match n_sessions n !! from with Some prev => (ep <? prev)%Z | None => false end); [intros [= <- _]; apply same_frame_refl|].
  cbn zeta. set (n1 := if match n_sessions n !! from with Some prev => (prev <? ep)%Z | None => true end then _ else n).
  assert (E1 : n_transport n1 = n_transport n) by (unfold n1; by case_match).
  destruct (match n_watermark n1 !! from with Some wm => (seq <=? wm)%Z | None => false end);
    [intros [= <- _]; rewrite E1; apply same_frame_refl|].
  rewrite E1. destruct is_hello; [|intros [= <- _]; simpl; split; auto].
  cbn [n_transport].
  match goal with |- context [send_control_json send_to from TYPE_HELLO_ACK ?v true ?t] =>
    destruct (send_control_json_eq send_to from TYPE_HELLO_ACK v true t Hb) as (r & ->) end.
  cbn [mbind outcome_bind]. intros [= <- _]. split; simpl; auto.
Qed.

Lemma handle_other_frame from seq ty v n : same_frame (n_transport n) (n_transport (handle_other from seq ty v n).1).
Proof. unfold handle_other. repeat case_match; simpl; split; auto. Qed.

Lemma control_packet_frame send_to pkt n n' e :
  length (t_band_id (n_transport n)) = BAND_ID_LEN →
  control_packet send_to pkt n = Ret (n', e) → same_frame (n_transport n) (n_transport n').
Proof.
  intros Hb. unfold control_packet. cbn zeta. destruct (env_from_slice (in_payload pkt)) as [[ty v]|];
    [|intros [= <- _]; rewrite prune_transport; apply same_frame_refl].
  case_match.
  - intros E. apply handle_hello_frame in E; [|by rewrite prune_transport]. by rewrite prune_transport in E.
  - intros [= E]. pose proof (handle_other_frame (in_from pkt) (sequence (in_header pkt)) ty v (prune n)) as Hf. rewrite prune_transport, E in Hf. done.
Qed.

Lemma node_recv_frame send_to now from d n n' e o :
  length (t_band_id (n_transport n)) = BAND_ID_LEN →
  node_recv send_to now from d n = Ret (n', e, o) → same_frame (n_transport n) (n_transport n').
Proof.
  intros Hb. unfold node_recv. destruct (transport_recv now from d (n_transport n)) as [t inb] eqn:Er.
  assert (Ht : same_frame (n_transport n) t ∧ t_seq t = t_seq (n_transport n)).
  { unfold transport_recv in Er. repeat case_match; simplify_eq; (split; [split; simpl; auto|done]). }
  destruct Ht as [[F1 F2 F3 F4] Es]. destruct inb as [pkt|]; [|intros [= <- _ _]; by split].
  case_decide; [|intros [= <- _ _]; by split].
  destruct (control_packet send_to pkt (set_transport t n)) as [|[n1 e1]] eqn:Ec; [done|]. intros [= <- _ _].
  apply control_packet_frame in Ec as [G1 G2 G3 G4]; [|simpl; by rewrite F1]. simpl in *. split; [congruence..|]. rewrite Es in G4. done.
Qed.

(** A control packet, from the socket through the control task. *)
Lemma band_recv_control send_to now from d B n' e :
  node_recv send_to now from d (bd_node B) = Ret (n', e, None) → bd_control_in B = [] → bd_control_running B = true →
  ∃ B', band_run send_to [EvDatagram now from d; EvControl] B = Ret (B', e_sent e)
    ∧ bd_node B' = n' ∧ bd_control_in B' = [] ∧ bd_control_running B' = true ∧ bd_rebase B' = bd_rebase B ++ e_rebase e
    ∧ bd_stream B' = bd_stream B ∧ bd_channel B' = bd_channel B ∧ bd_board B' = bd_board B ∧ bd_drop B' = bd_drop B
    ∧ bd_events B' = bd_events B ++ e_events e.
Proof.
  intros Hn Hin Hrun. cbn [band_run band_step]. unfold recv_round. unfold node_recv in Hn.
  change (n_transport (bd_node B)) with (band_transport B) in Hn.
  destruct (transport_recv now from d (band_transport B)) as [t inb]. destruct inb as [pkt|].
  - case_decide as Hty; [|done].
    destruct (control_packet send_to pkt (set_transport t (bd_node B))) as [|[n1 e1]] eqn:Ec; [done|]. injection Hn as -> ->.
    cbn [mbind outcome_bind]. unfold push_inbound. rewrite Hty. unfold control_round. cbn. rewrite Hin, Hrun. cbn. rewrite Ec. cbn.
    rewrite app_nil_r. by eexists.
  - injection Hn as <- <-. cbn [mbind outcome_bind]. unfold control_round. cbn. rewrite Hin. cbn. eexists. split; [done|]. simpl. rewrite !app_nil_r. done.
Qed.

(** A Band that has its transport and control task at work and no endpoint yet. *)
Record fresh_band (B : Band) : Prop := {
  fb_stream : bd_stream B = StreamSide_new 0;
  fb_channel : bd_channel B = ChannelSide_new 0;
  fb_board : bd_board B = mkBoardSide [] ∅ [];
  fb_drop : bd_drop B = mkDropSide [] ∅ [];
  fb_control : bd_control_in B = [] ∧ bd_control_running B = true;
  fb_seq : (0 <= t_seq (band_transport B) <= 2 ^ 63 + 2)%Z;
}.

Lemma seq_bound s s' k : (0 <= s <= 2 ^ 63 + k)%Z → (0 <= k < 2)%Z → s' = s ∨ s' = wrap 64 (s + 1) → (0 <= s' <= 2 ^ 63 + k + 1)%Z.
Proof. intros Hs Hk [->| ->]; [lia|]. unfold wrap. rewrite Z.mod_small; lia. Qed.

Lemma band_handshake {jspec : ControlJsonSpec cj} psk ha hb oa ob ma mb ra rb a b send_a send_b now1 now2 suite A1 d1 B1 to d2 :
  let A := bind_with_options psk ha oa ma ra in
  let B := bind_with_options psk hb ob mb rb in
  let c := select_cipher (c_ciphers (n_config (bd_node A))) (c_ciphers (n_config (bd_node B))) in
  length ra = 8 → length rb = 8 → is_u64 (c_session (n_config (bd_node A))) → is_u64 (c_session (n_config (bd_node B))) →
  Suite_from_id c = Some suite →
  band_run send_a [ApConnectPeer b] A = Ret (A1, [(b, d1)]) →
  band_run send_b [EvDatagram now1 a d1; EvControl] B = Ret (B1, [(to, d2)]) →
  ∃ A2 sent, band_run send_a [EvDatagram now2 b d2; EvControl] A1 = Ret (A2, sent)
    ∧ talks a b (band_transport A2) (band_transport B1) ∧ talks b a (band_transport B1) (band_transport A2)
    ∧ fresh_band A2 ∧ fresh_band B1
    ∧ n_config (bd_node A2) = n_config (bd_node A) ∧ n_config (bd_node B1) = n_config (bd_node B)
    ∧ ∃ ev, bd_events B1 = [ev] ∧ greets a ev.
Proof.
  intros A B c Hra Hrb Hsa Hsb Hsuite Hconn HB. pose proof (SequenceCounter_random_range ra Hra) as Ra. pose proof (SequenceCounter_random_range rb Hrb) as Rb.
  assert (La : length (t_band_id (n_transport (band_bind psk ha oa ma ra))) = BAND_ID_LEN) by apply length_derive_band_id.
  cbn [band_run band_step] in Hconn. unfold band_connect_peer in Hconn. cbn [A bd_node bind_with_options] in Hconn.
  destruct (connect_peer_eq send_a b (band_bind psk ha oa ma ra) La) as (r & Er). rewrite Er in Hconn.
  cbn [mbind outcome_bind] in Hconn. injection Hconn as HA1 Hr. rewrite app_nil_r in Hr. destruct r as [d1'|]; [|done]. injection Hr as ->.
  destruct (handshake_run psk ha hb oa ob ma mb ra rb a b send_a send_b now1 now2 _ d1 Hra Hrb Hsa Hsb Er)
    as (nb1 & e1 & E1 & (K1 & K2 & _ & K4 & _) & Ecb & (ev & Hev & Hg) & Hsent).
  destruct (band_recv_control send_b now1 a d1 B nb1 e1 E1 eq_refl eq_refl) as (B1' & EB & Hn & F1 & F2 & F3 & F4 & F5 & F6 & F7 & F8).
  rewrite EB in HB. injection HB as -> He. destruct (Hsent to d2) as (-> & na2 & e2 & E2 & (L1 & L2 & _ & L4 & _) & Eca); [rewrite He; by apply list_elem_of_singleton|].
  change (Suite_from_id (select_cipher (c_ciphers (n_config (band_bind psk ha oa ma ra))) (c_ciphers (n_config (band_bind psk hb ob mb rb)))) = Some suite) in Hsuite.
  rewrite Hsuite in K1, K2, L1, L2, L4. simpl in Hsuite.
  destruct (band_recv_control send_a now2 b d2 A1 na2 e2) as (A2 & EA & Hn2 & G1 & G2 & G3 & G4 & G5 & G6 & G7 & _); [by rewrite <- HA1|by rewrite <- HA1..|].
  apply node_recv_frame in E1 as [S1 S2 S3 S4]; [|apply length_derive_band_id].
  apply node_recv_frame in E2 as [T1 T2 T3 T4]; [|apply length_derive_band_id].
  cbn [n_transport set_transport t_band_id set_seq Transport.routes t_seq session_key] in *.
  exists A2, (e_sent e2). unfold band_transport. rewrite Hn, Hn2. split_and!; try done.
  - split; [by rewrite T1|by rewrite S1, T1| |rewrite S2; cbn; set_solver|rewrite L2; apply length_derive_session_key]. left. rewrite L2, K1. simpl. rewrite Ecb, Eca. simpl. by rewrite Hsuite.
  - split; [by rewrite S1|by rewrite S1, T1| |rewrite T2; cbn; set_solver|rewrite K2; apply length_derive_session_key]. left. rewrite K2, L1. simpl. rewrite Ecb, Eca. simpl. by rewrite Hsuite.
  - rewrite <- HA1 in G4, G5, G6, G7. split; try done. unfold band_transport. rewrite Hn2. cbn [t_seq band_bind] in T4.
    apply (seq_bound _ _ 1) in T4; [lia| |lia]. change (t_seq (n_transport (band_bind psk ha oa ma ra))) with (SequenceCounter_random ra).
    unfold wrap. rewrite Z.mod_small; lia.
  - split; try done. unfold band_transport. rewrite Hn. apply (seq_bound _ _ 0) in S4; [lia| |lia].
    change (t_seq (n_transport (band_bind psk hb ob mb rb))) with (SequenceCounter_random rb). lia.
  - exists ev. split; [|done]. rewrite F8, Hev. done.
Qed.

(** What arrives of a Stream between two Bands in a session, from its opening. *)
Lemma stream_between a b A B send_a send_b id (ms : list (Z * bytes)) (arrivals : list (nat * Z * bytes)) A' sent :
  talks a b (band_transport A) (band_transport B) → fresh_band A → fresh_band B →
  is_u16 id → Forall (λ m, is_u8 m.1) ms → (len ms < 2 ^ 62)%Z →
  band_run send_a (ApStream b id :: stream_sends 0 ms) A = Ret (A', sent) → length sent = length ms →
  Forall (λ x, sent !! x.1.1 = Some (b, x.2)) arrivals →
  ∃ B', band_run send_b (ApStream a id :: stream_arrivals a arrivals) B = Ret (B', [])
    ∧ se_queue <$> ss_eps (bd_stream B') !! 0 = Some (messages_at a id ms (freshest None (arrivals.*1.*1))).
Proof.
  intros Tab [FA1 FA2 FA3 FA4 FA5 FA6] [FB1 FB2 FB3 FB4 FB5 FB6] Hid Hms Hn Hrun Hlen Harr.
  cbn [band_run band_step mbind outcome_bind] in Hrun. set (A2' := (band_stream b id A).1) in Hrun.
  destruct (band_run send_a (stream_sends 0 ms) A2') as [|[A4 sent4]] eqn:E4; [done|]. injection Hrun as -> <-.
  assert (He : ss_eps (bd_stream A2') !! 0 = Some (mkStreamEp b id [])) by (unfold A2'; simpl; by rewrite FA1).
  change (band_transport A) with (band_transport A2') in *.
  destruct (stream_sends_spec send_a 0 _ ms A2' A' sent4 He) as [_ (ds & -> & Hs)]; [apply Tab|lia|lia|done|done|].
  cbn [se_peer se_id] in Hs. cbn [band_run band_step mbind outcome_bind]. set (B1' := (band_stream a id B).1).
  change (band_transport B) with (band_transport B1') in *.
  destruct (stream_arrivals_spec send_a send_b a b id 0 (mkStreamEp a id []) ms ds (band_transport A2') arrivals None B1')
    as (B3 & ep3 & -> & [_ _ I3 _] & _ & Hq).
  - done.
  - unfold B1'. split; simpl; rewrite FB1; simpl; [done|by rewrite lookup_insert_eq|done|by apply elem_of_union_l, elem_of_singleton].
  - done.
  - done.
  - lia.
  - lia.
  - done.
  - eapply Forall_impl; [exact Harr|]. intros [[i now] d] Hx. simpl in *. apply list_lookup_fmap_Some in Hx as (d' & [= ->] & ?). done.
  - unfold B1', stream_mark. simpl. by rewrite FB1.
  - exists B3. split; [done|]. rewrite I3. simpl. by rewrite Hq.
Qed.

(** ** Boards *)

(** A board of a Band that has nothing waiting for it. *)
Record idle_board (id : Z) (e : nat) (task : BoardTask) (changes : list BoardChange) (B : Band) : Prop := {
  ib_in : bs_in (bd_board B) = [];
  ib_route : bs_routes (bd_board B) !! id = Some e;
  ib_ep : ∃ pos, bs_eps (bd_board B) !! e = Some (mkBoardEp id task [] pos changes Runs);
}.

Definition board_arrival_events (a : string) (now : Z) (d fid : bytes) (e : nat) : list band_event :=
  [EvDatagram now a d; EvBoardDemux; EvBoard now fid e].

(** A datagram for the board, through the hub and the task. *)
Lemma board_arrival send_to send_to' a b id e task changes w ta ta' d now fid task' frames ch B :
  talks a b ta (band_transport B) → idle_board id e task changes B → is_u16 id → is_u64 (t_seq ta) →
  transport_send send_to (send_board_raw id (b, w)) ta = Ret (ta', Ok d) →
  board_packet now fid a (t_seq ta) w task = Ret (task', frames, ch) →
  ∃ B' s sent, band_run send_to' (board_arrival_events a now d fid e) B = Ret (B', sent)
    ∧ idle_board id e task' (changes ++ ch) B'
    ∧ send_until send_to' (send_board_raw id <$> ((a,.) <$> frames)) (see a now (band_transport B)) = Ret (set_seq s (see a now (band_transport B)), sent)
    ∧ band_transport B' = set_seq s (see a now (band_transport B)) ∧ n_config (bd_node B') = n_config (bd_node B).
Proof.
  intros Ht [I1 I2 (pos & I3)] Hid Hs Hsend Hp. unfold board_arrival_events. cbn [band_run band_step].
  rewrite (session_recv send_to (send_board_raw id (b, w)) ta ta' d now a b B Ht) by (try done; set_solver).
  set (B0 := with_node _ B). cbn [mbind outcome_bind]. unfold push_inbound. cbn [in_header channel_type out_channel_type send_board_raw].
  set (B1 := with_board _ B0). assert (Hx : bd_board (with_board (board_demux (bd_board B1)) B1)
    = mkBoardSide [] (bs_routes (bd_board B)) (alter (push_board (mkInbound a (mkHeader (t_band_id ta) Board id (t_seq ta)) w)) e (bs_eps (bd_board B)))).
  { unfold B1, B0. simpl. unfold board_demux. simpl. rewrite I1. simpl. by rewrite I2. }
  set (B2 := with_board (board_demux (bd_board B1)) B1) in *. cbn [mbind outcome_bind].
  assert (Et2 : band_transport B2 = see a now (band_transport B)) by done. assert (Ec2 : n_config (bd_node B2) = n_config (bd_node B)) by done.
  clearbody B2.
  unfold board_task_round. rewrite Hx. cbn [bs_eps bs_routes]. rewrite list_lookup_alter_eq, I3. cbn [fmap option_fmap option_map].
  unfold push_board, be_running. cbn [be_state runs].
  cbn [negb be_in app in_from in_header sequence in_payload be_task be_id be_pos be_changes]. rewrite Hp.
  unfold sending. assert (Et : ∀ ep, band_transport (set_board_ep e ep B2) = see a now (band_transport B)) by (intros; exact Et2). rewrite Et.
  destruct (send_until_eq send_to' (send_board_raw id <$> ((a,.) <$> frames)) (see a now (band_transport B))) as (s & sent & Es);
    [simpl; rewrite (tk_band _ _ _ _ Ht); apply Ht|]. rewrite Es. cbn [mbind outcome_bind]. rewrite app_nil_r.
  eexists _, s, sent. split; [done|]. split; [|done]. split; simpl; rewrite ?Hx; simpl; try done.
  exists pos. apply list_lookup_insert_eq. rewrite length_alter. by eapply lookup_lt_Some.
Qed.

Lemma send_until_sent send_to outs t t' sent :
  length (t_band_id t) = BAND_ID_LEN → (0 <= t_seq t)%Z → (t_seq t + len outs < 2 ^ 64)%Z →
  send_until send_to outs t = Ret (t', sent) →
  length sent ≤ length outs
  ∧ (length sent = length outs → ∃ ds, sent = zip (out_to <$> outs) ds ∧ sent_under send_to t (t_seq t) outs ds).
Proof.
  revert t sent. induction outs as [|o outs IH]; intros t sent Hb H0 Hn E; simpl in E.
  { injection E as _ <-. split; [done|]. intros _. exists []. split; [done|constructor]. }
  rewrite len_cons in Hn. pose proof (len_nonneg outs).
  destruct (transport_send_eq send_to o t Hb) as (r & Er & _). rewrite Er in E. cbn [mbind outcome_bind] in E.
  destruct r as [d|]; [|injection E as _ <-; simpl; split; [lia|done]].
  assert (Ew : wrap 64 (t_seq t + 1) = (t_seq t + 1)%Z) by (unfold wrap; apply Z.mod_small; lia). rewrite Ew in *.
  destruct (send_until send_to outs (set_seq (t_seq t + 1) t)) as [|[t1 rest]] eqn:E1; [done|]. injection E as -> <-.
  destruct (IH (set_seq (t_seq t + 1) t) rest) as [Hl Hd]; [done|simpl; lia|simpl; lia|done|]. simpl. split; [lia|]. intros Hlen.
  destruct Hd as (ds & -> & Hs); [lia|]. exists (d :: ds). split; [done|]. constructor.
  - eexists. rewrite <- Er. by destruct t.
  - by apply sent_under_set_seq in Hs.
Qed.

(** On a socket that takes everything all of them go out. *)
Lemma send_until_all {tot : AeadTotal} {atot : AesTotal} send_to outs t t' sent :
  length (t_band_id t) = BAND_ID_LEN → accepting send_to →
  Forall (λ o, length (send_key o t).1 = KEY_LEN ∧ (len (out_plaintext o) <= u32_max + 8)%Z) outs →
  send_until send_to outs t = Ret (t', sent) → length sent = length outs.
Proof.
  intros Hb Ha Ho. revert t sent Hb Ho. induction outs as [|o outs IH]; intros t sent Hb Ho E; simpl in E; [by injection E as _ <-|].
  apply Forall_cons in Ho as [[Hk Hl] Ho]. destruct (transport_send_ok send_to o t Hb Hk Hl Ha) as [d Ed]. rewrite Ed in E. cbn [mbind outcome_bind] in E.
  destruct (send_until send_to outs _) as [|[t1 rest]] eqn:E1; [done|]. injection E as -> <-. simpl. f_equal.
  exact (IH (set_seq (wrap 64 (t_seq t + 1)) t) rest Hb Ho E1).
Qed.

(** The data key for a peer, and the size of a chunk. *)
Lemma board_key a b ta tb id w : talks a b ta tb → length (send_key (send_board_raw id (b, w)) ta).1 = KEY_LEN.
Proof. intros T. apply T. Qed.

Lemma wires_small cs payload fid :
  (0 < cs <= u32_max - 13)%Z → length fid = FRAGMENT_ID_LEN → Forall (λ w, (len w <= u32_max + 8)%Z) (wires_of cs payload fid).
Proof.
  intros Hc Hf. apply Forall_lookup. intros i w Hw. unfold wires_of in Hw. rewrite list_lookup_imap in Hw.
  destruct (pieces_of cs payload !! i) as [d|] eqn:Ed; [|done]. injection Hw as <-.
  pose proof (proj1 (Forall_lookup _ _) (pieces_of_size cs payload ltac:(lia)) _ _ Ed) as Hd. simpl in Hd.
  unfold pack_chunk. rewrite !len_app. unfold len at 1 2 3 4. rewrite !length_to_be_bytes, Hf. unfold FRAGMENT_ID_LEN. simpl length. lia.
Qed.

(** The chunks of a message arriving in the order they were sent. *)
Definition board_arrivals (a : string) (fid : bytes) (e : nat) (xs : list (Z * bytes)) : list band_event :=
  xs ≫= λ x, board_arrival_events a x.1 x.2 fid e.

Lemma board_arrivals_spec send_to send_to' a b id e fid task changes ws ds ta (times : list Z) task' ch B :
  talks a b ta (band_transport B) → idle_board id e task changes B → is_u16 id →
  (0 <= t_seq ta)%Z → (t_seq ta + len ws < 2 ^ 64)%Z → length times = length ws →
  sent_under send_to ta (t_seq ta) ((λ w, send_board_raw id (b, w)) <$> ws) ds →
  board_packets fid a (zip (zip times (seqZ (t_seq ta) (len ws))) ws) task = Ret (task', [], ch) →
  ∃ B', band_run send_to' (board_arrivals a fid e (zip times ds)) B = Ret (B', [])
    ∧ idle_board id e task' (changes ++ ch) B' ∧ talks a b ta (band_transport B').
Proof.
  intros Ht Hi Hid H0 Hn Hl Hs Hp. remember (t_seq ta) as s eqn:Es0. clear Es0.
  revert s ds times task changes ch B Ht Hi H0 Hn Hl Hs Hp. induction ws as [|w ws IH]; intros s ds times task changes ch B Ht Hi H0 Hn Hl Hs Hp.
  { destruct times; [|done]. simpl in Hp. injection Hp as <- <-. exists B. rewrite app_nil_r. done. }
  destruct times as [|t times]; [done|]. rewrite len_cons in Hn. pose proof (len_nonneg ws).
  rewrite len_cons, seqZ_cons in Hp by lia. replace (Z.pred (1 + len ws)) with (len ws) in Hp by lia. replace (Z.succ s) with (s + 1)%Z in Hp by lia.
  cbn [zip zip_with board_packets] in Hp. inversion Hs as [|s0 o outs d ds' (t' & Esend) Hs']; subst.
  destruct (board_packet t fid a s w task) as [|[[task1 frames] ch1]] eqn:Ep; [done|]. cbn [mbind outcome_bind] in Hp.
  destruct (board_packets fid a _ task1) as [|[[task2 frames2] ch2]] eqn:E2; [done|]. cbn [mbind outcome_bind] in Hp.
  injection Hp as -> Hf <-. apply app_eq_nil in Hf as [-> ->].
  destruct (board_arrival send_to send_to' a b id e task changes w (set_seq s ta) t' d t fid task1 [] ch1 B
    (talks_seq _ _ _ _ _ Ht) Hi Hid) as (B1 & s1 & sent1 & E1 & Hi1 & Eu & Et1 & _); [unfold is_u64; simpl; lia|done|done|].
  simpl in Eu. injection Eu as _ <-.
  destruct (IH (s + 1)%Z ds' times task1 (changes ++ ch1) ch2 B1) as (B2 & E3 & Hi2 & Ht2);
    [rewrite Et1; auto with tele|done|lia|lia|simpl in Hl; lia|done|done|].
  exists B2. unfold board_arrivals. cbn [zip zip_with mbind list_bind fst snd]. rewrite band_run_app, E1. cbn [mbind outcome_bind].
  fold (board_arrivals a fid e (zip times ds')). rewrite E3. cbn [mbind outcome_bind]. rewrite app_assoc. done.
Qed.

(** A direct message of a board, newer than what was seen of its sender. *)
Lemma board_packet_env now fid from seq payload t :
  past_mark (t_watermark t !! from) seq = true → head payload = Some Byte.x7b →
  board_packet now fid from seq payload t
  = board_dispatch fid payload (mkTask (t_shared t) (<[from := seq]> (t_watermark t)) (t_reassemblers t)).
Proof.
  intros Hn Hh. unfold board_packet.
  replace (match t_watermark t !! from with Some wm => (seq <=? wm)%Z | None => false end) with false
    by (unfold past_mark in Hn; destruct (t_watermark t !! from); [symmetry; apply Z.leb_gt; by apply Z.ltb_lt|done]).
  rewrite decide_False by (rewrite Hh; done). done.
Qed.

(** Sending one message from a handle. *)
Lemma board_send_one send_to id e task changes b body A A1 d :
  idle_board id e task changes A → length (t_band_id (band_transport A)) = BAND_ID_LEN →
  sending (send_until send_to [send_board_raw id (b, body)]) A = Ret (A1, [(b, d)]) →
  transport_send send_to (send_board_raw id (b, body)) (band_transport A) = Ret (band_transport A1, Ok d)
  ∧ band_transport A1 = set_seq (wrap 64 (t_seq (band_transport A) + 1)) (band_transport A) ∧ idle_board id e task changes A1.
Proof.
  intros [I1 I2 I3] Hb. unfold sending, send_until.
  destruct (transport_send_eq send_to (send_board_raw id (b, body)) (band_transport A) Hb) as (r & -> & _). cbn [mbind outcome_bind].
  destruct r as [d'|]; cbn [mbind outcome_bind]; [|done]. intros [= <- <-]. done.
Qed.

Lemma sync_req_dispatch {spec : SerdeSpec serde} fid t ws :
  exact Board.json_empty → snapshot_chunks fid (snapshot (sh_core (t_shared t))) = Ret ws →
  board_dispatch fid (Board.env_to_vec TYPE_SYNC_REQ Board.json_empty) t = Ret (t, ws, []).
Proof. intros Hex Hw. unfold board_dispatch. rewrite env_roundtrip by done. simpl. by rewrite Hw. Qed.

(** [increasing] for consecutive sequences. *)
Lemma increasing_seqZ (times : list Z) (ws : list bytes) wm s :
  length times = length ws → match wm with Some w => (w < s)%Z | None => True end →
  increasing wm (zip (zip times (seqZ s (len ws))) ws).
Proof.
  revert ws wm s. induction times as [|t times IH]; intros [|w ws] wm s Hl Hw; try done. rewrite len_cons, seqZ_cons by (pose proof (len_nonneg ws); lia).
  replace (Z.pred (1 + len ws)) with (len ws) by lia. split; [done|]. apply IH; [simpl in Hl; lia|]. simpl. lia.
Qed.

Lemma zip3_fst (times : list Z) (ws : list bytes) s :
  length times = length ws → (λ e : Z * Z * bytes, e.1.1) <$> zip (zip times (seqZ s (len ws))) ws = times.
Proof.
  intros Hl. assert (Hz : length (zip times (seqZ s (len ws))) = length ws) by (rewrite length_zip_with, length_seqZ; unfold len; lia).
  transitivity ((zip (zip times (seqZ s (len ws))) ws).*1.*1); [by rewrite <- list_fmap_compose|].
  rewrite fst_zip by lia. apply fst_zip. rewrite length_seqZ. unfold len. lia.
Qed.

Lemma zip3_snd (times : list Z) (ws : list bytes) s : length times = length ws → (zip (zip times (seqZ s (len ws))) ws).*2 = ws.
Proof. intros Hl. apply snd_zip. rewrite length_zip_with, length_seqZ. unfold len. lia. Qed.

Lemma sent_under_length send_to t s outs ds : sent_under send_to t s outs ds → length ds = length outs.
Proof. induction 1; simpl; congruence. Qed.

(** A digest probe goes out. *)
Lemma probe_goes_out {tot : AeadTotal} {atot : AesTotal} A B a b id ea taskA chA send_a :
  let core := sh_core (t_shared taskA) in
  let body := Board.env_to_vec TYPE_DIGEST (digest_to_value (Some (digest core).1, Some (digest core).2)) in
  talks a b (band_transport A) (band_transport B) → accepting send_a → (len body <= u32_max)%Z → idle_board id ea taskA chA A →
  ∃ A1 d1, band_run send_a [ApBoardCall ea (BSendDigest (Some b))] A = Ret (A1, [(b, d1)])
    ∧ transport_send send_a (send_board_raw id (b, body)) (band_transport A) = Ret (band_transport A1, Ok d1)
    ∧ band_transport A1 = set_seq (wrap 64 (t_seq (band_transport A) + 1)) (band_transport A) ∧ idle_board id ea taskA chA A1.
Proof.
  intros core body Tab Aa Hl IA. cbn [band_run band_step]. unfold board_call. destruct (ib_ep _ _ _ _ _ IA) as (pos & ->).
  cbn [be_id be_task]. unfold send_digest. fold core. destruct (digest core) as [n h] eqn:Ed. cbn [send_each fst fmap list_fmap snd] in *.
  destruct (transport_send_ok send_a (send_board_raw id (b, body)) (band_transport A)) as [d1 E1]; [apply Tab|apply Tab|simpl; lia|done|].
  assert (Es : ∃ A1, sending (send_until send_a [send_board_raw id (b, body)]) A = Ret (A1, [(b, d1)])).
  { unfold sending, send_until. rewrite E1. cbn [mbind outcome_bind]. by eexists. }
  destruct Es as [A1 Es]. exists A1, d1. unfold body in Es at 1. rewrite Es. cbn [mbind outcome_bind]. split; [done|].
  by apply (board_send_one send_a id ea taskA chA b body A A1 d1 IA (tk_len _ _ _ _ Tab)).
Qed.

(** A request for the snapshot, and the datagrams of the answer. *)
Lemma sync_request_arrives {spec : SerdeSpec serde} {tot : AeadTotal} {atot : AesTotal} send_to send_to' a b id e task changes tb tb' d now fid ws A :
  talks b a tb (band_transport A) → idle_board id e task changes A → is_u16 id → is_u64 (t_seq tb) →
  (0 <= t_seq (band_transport A))%Z → (t_seq (band_transport A) + len ws < 2 ^ 64)%Z →
  past_mark (t_watermark task !! b) (t_seq tb) = true → exact Board.json_empty →
  snapshot_chunks fid (snapshot (sh_core (t_shared task))) = Ret ws →
  transport_send send_to (send_board_raw id (a, Board.env_to_vec TYPE_SYNC_REQ Board.json_empty)) tb = Ret (tb', Ok d) →
  accepting send_to' → length fid = FRAGMENT_ID_LEN → talks a b (band_transport A) tb →
  ∃ A' sent, band_run send_to' (board_arrival_events b now d fid e) A = Ret (A', sent)
    ∧ length sent = length ws ∧ (length sent = length ws →
       sent_under send_to' (see b now (band_transport A)) (t_seq (band_transport A)) ((λ w, send_board_raw id (b, w)) <$> ws) (sent.*2)).
Proof.
  intros Tba IA Hid Hs H0 Hn Hw Hex Hws Hsend Hacc Hfid Tab.
  pose proof (board_packet_env now fid b (t_seq tb) (Board.env_to_vec TYPE_SYNC_REQ Board.json_empty) task Hw (env_object _ _)) as Ep.
  rewrite (sync_req_dispatch _ _ ws Hex) in Ep by done.
  destruct (board_arrival _ send_to' _ _ _ _ _ _ _ _ _ _ _ _ _ _ _ _ Tba IA Hid Hs Hsend Ep) as (A2 & sA & sent & EA & _ & Eu & _ & _).
  exists A2, sent. split; [done|]. split.
  { apply send_until_all in Eu; [by rewrite !length_fmap in Eu|simpl; rewrite (tk_band _ _ _ _ Tba); apply Tba|done|].
    unfold snapshot_chunks in Hws. rewrite fragment_eq in Hws by done. case_match; [done|]. injection Hws as <-.
    rewrite <- list_fmap_compose. apply Forall_fmap. eapply Forall_impl; [apply wires_small; [by vm_compute|done]|]. intros w Hlw. split; [|done].
    apply (board_key a b _ tb id w (talks_sender_see _ _ _ _ _ _ Tab)). }
  intros Hl.
  apply send_until_sent in Eu as [_ Hs2]; [|simpl; rewrite (tk_band _ _ _ _ Tba); apply Tba|done|unfold len in *; rewrite !length_fmap; done].
  destruct Hs2 as (ds & -> & Hsent); [by rewrite !length_fmap|]. pose proof (sent_under_length _ _ _ _ _ Hsent) as Hds. rewrite !length_fmap in Hds.
  rewrite snd_zip by (rewrite !length_fmap; lia). rewrite <- list_fmap_compose in Hsent. exact Hsent.
Qed.

(** The datagrams of a snapshot, arriving in order. *)
Lemma snapshot_arrives {spec : SerdeSpec serde} send_to send_to' a b id e fid task changes (snap : list (SetPayload Board.json)) ws ds ta times t0 before os B :
  let core := sh_core (t_shared task) in
  let r := default (for_chunk_size MAX_CHUNK_PAYLOAD) (t_reassemblers task !! a) in
  talks a b ta (band_transport B) → idle_board id e task changes B → is_u16 id →
  (0 <= t_seq ta)%Z → (t_seq ta + len ws < 2 ^ 64)%Z → past_mark (t_watermark task !! a) (t_seq ta) = true →
  exact (entries_to_value snap) → Forall payload_u64 snap →
  (len (Board.env_to_vec TYPE_SNAPSHOT (entries_to_value snap)) <= u64_max)%Z → length fid = FRAGMENT_ID_LEN →
  snapshot_chunks fid snap = Ret ws →
  feed_all (for_chunk_size MAX_CHUNK_PAYLOAD) before = Ret (r, os) → buffers r !! fid = None → evicted r !! fid = None →
  length times = length ws → head times = Some t0 → Forall (λ t, (t - t0 <= DEFAULT_REASSEMBLY_TIMEOUT)%Z) times →
  sent_under send_to ta (t_seq ta) ((λ w, send_board_raw id (b, w)) <$> ws) ds →
  ∃ B' task', band_run send_to' (board_arrivals a fid e (zip times ds)) B = Ret (B', [])
    ∧ idle_board id e task' (changes ++ (change_of <$> (merge_all snap core).2)) B' ∧ sh_core (t_shared task') = (merge_all snap core).1.
Proof.
  intros core r Tab IB Hid H0 Hn Hw Hex Hp64 Hlen Hfid Hws Hbef Hb He Htimes Hhd Hage Hsent.
  destruct (board_packets_snapshot snap fid ws (zip (zip times (seqZ (t_seq ta) (len ws))) ws) a task before os t0)
    as (task2 & Ebp & Ecore & _); [done..|by rewrite zip3_snd| |by rewrite zip3_fst| |].
  - apply increasing_seqZ; [done|]. unfold past_mark in Hw. destruct (t_watermark task !! a); [by apply Z.ltb_lt|done].
  - assert (Hf : Forall (λ t, (t - t0 <= DEFAULT_REASSEMBLY_TIMEOUT)%Z) ((λ e : Z * Z * bytes, e.1.1) <$> zip (zip times (seqZ (t_seq ta) (len ws))) ws))
      by (by rewrite zip3_fst). rewrite Forall_fmap in Hf. exact Hf.
  - destruct (board_arrivals_spec send_to send_to' a b id e fid task changes ws ds ta times task2 (change_of <$> (merge_all snap core).2) B)
      as (B2 & EB2 & IB2 & _); [done..|]. by exists B2, task2.
Qed.
End Net.

(** ** Restarts *)

(** Taking [n] values off the broadcast. *)
Lemma rebase_recv_next log pos : pos < length log → length log ≤ pos + REBASE_CAP → rebase_recv log pos = Some (S pos, log !! pos).
Proof. intros H1 H2. unfold rebase_recv. rewrite decide_False by lia. rewrite decide_False by lia. done. Qed.

Lemma filter_peer_lookup {A} (m : gmap (string * Z) A) y x id :
  filter (λ kv, kv.1.1 ≠ y) m !! (x, id) = if decide (x = y) then None else m !! (x, id).
Proof.
  case_decide as Hx.
  - subst. apply map_lookup_filter_None. right. intros v _. simpl. auto.
  - destruct (m !! (x, id)) as [v|] eqn:Ev; [by apply map_lookup_filter_Some|]. apply map_lookup_filter_None. by left.
Qed.

(** One announcement more. *)
Lemma marks_step {A} (m : gmap (string * Z) A) log pos y x id :
  log !! pos = Some y →
  (if decide (x ∈ drop (S pos) log) then None else filter (λ kv, kv.1.1 ≠ y) m !! (x, id))
  = if decide (x ∈ drop pos log) then None else m !! (x, id).
Proof.
  intros Hy. rewrite (drop_S _ _ _ Hy), filter_peer_lookup.
  destruct (decide (x ∈ drop (S pos) log)); [by rewrite decide_True by (by apply elem_of_cons; right)|].
  destruct (decide (x = y)) as [->|]; [by rewrite decide_True by (apply elem_of_cons; by left)|].
  by rewrite decide_False by (by intros [?|?]%elem_of_cons).
Qed.

Lemma stream_catch_up log n s :
  ss_pos s + n = length log → n ≤ REBASE_CAP →
  let s' := Nat.iter n (stream_rebase_round log) s in
  ss_pos s' = length log ∧ ss_in s' = ss_in s ∧ ss_routes s' = ss_routes s ∧ ss_eps s' = ss_eps s
  ∧ sh_senders (ss_hub s') = sh_senders (ss_hub s)
  ∧ ∀ x id, sh_watermarks (ss_hub s') !! (x, id)
            = if decide (x ∈ drop (ss_pos s) log) then None else sh_watermarks (ss_hub s) !! (x, id).
Proof.
  cbn zeta. revert s. induction n as [|n IH]; intros s Hn Hc.
  { simpl. split_and!; try done; [lia|]. intros x id. rewrite drop_ge by lia. by rewrite decide_False by apply not_elem_of_nil. }
  rewrite Nat.iter_succ_r. set (s1 := stream_rebase_round log s).
  destruct (lookup_lt_is_Some_2 log (ss_pos s)) as [y Hy]; [lia|].
  assert (E1 : s1 = mkStreamSide (ss_in s) (S (ss_pos s)) (stream_rebase y (ss_hub s)) (ss_routes s) (ss_eps s)).
  { unfold s1, stream_rebase_round. rewrite rebase_recv_next by lia. by rewrite Hy. }
  destruct (IH s1) as (P1 & P2 & P3 & P4 & P5 & P6); [rewrite E1; simpl; lia|lia|].
  split_and!; [done|by rewrite P2, E1|by rewrite P3, E1|by rewrite P4, E1|by rewrite P5, E1|].
  intros x id. rewrite P6, E1. by apply marks_step.
Qed.

Lemma channel_catch_up log n c :
  cs_pos c + n = length log → n ≤ REBASE_CAP →
  let c' := Nat.iter n (channel_rebase_round log) c in
  cs_pos c' = length log ∧ cs_in c' = cs_in c ∧ cs_routes c' = cs_routes c ∧ cs_eps c' = cs_eps c
  ∧ Channel.routes (cs_hub c') = Channel.routes (cs_hub c)
  ∧ ∀ x id, Channel.watermarks (cs_hub c') !! (x, id)
            = if decide (x ∈ drop (cs_pos c) log) then None else Channel.watermarks (cs_hub c) !! (x, id).
Proof.
  cbn zeta. revert c. induction n as [|n IH]; intros c Hn Hc.
  { simpl. split_and!; try done; [lia|]. intros x id. rewrite drop_ge by lia. by rewrite decide_False by apply not_elem_of_nil. }
  rewrite Nat.iter_succ_r. set (c1 := channel_rebase_round log c).
  destruct (lookup_lt_is_Some_2 log (cs_pos c)) as [y Hy]; [lia|].
  assert (E1 : c1 = mkChannelSide (cs_in c) (S (cs_pos c)) (hub_rebase y (cs_hub c)) (cs_routes c) (cs_eps c)).
  { unfold c1, channel_rebase_round. rewrite rebase_recv_next by lia. by rewrite Hy. }
  destruct (IH c1) as (P1 & P2 & P3 & P4 & P5 & P6); [rewrite E1; simpl; lia|lia|].
  split_and!; [done|by rewrite P2, E1|by rewrite P3, E1|by rewrite P4, E1|by rewrite P5, E1|].
  intros x id. rewrite P6, E1. by apply marks_step.
Qed.

Section Restart.
Context {crates : Crates} {serde : Serde} {dj : DropJson} {cj : ControlJson} {ho : HashOrder} {hspec : HashOrderSpec ho}.

(** A HELLO or HELLO_ACK with a newer epoch than recorded. *)
Lemma handle_hello_newer send_to from seq is_hello v n event ep hostname caps committed :
  length (t_band_id (n_transport n)) = BAND_ID_LEN →
  hello_body (n_config n) from is_hello v = Some (event, ep, hostname, caps, committed) →
  match n_sessions n !! from with Some prev => (prev < ep)%Z | None => True end →
  ∃ n' e, handle_hello send_to from seq is_hello v n = Ret (n', e) ∧ e_rebase e = [from]
    ∧ peer_keys (n_transport n') !! from
      = Some (derive_session_key (c_psk (n_config n)) committed ep, default ChaCha20Poly1305 (Suite_from_id committed)).
Proof.
  intros Hb Hbody Hnew. unfold handle_hello. rewrite Hbody.
  replace (match n_sessions n !! from with Some prev => (ep <? prev)%Z | None => false end) with false
    by (destruct (n_sessions n !! from); [symmetry; apply Z.ltb_ge; lia|done]).
  replace (match n_sessions n !! from with Some prev => (prev <? ep)%Z | None => true end) with true
    by (destruct (n_sessions n !! from); [symmetry; apply Z.ltb_lt; lia|done]).
  cbn [n_watermark n_transport]. rewrite lookup_delete_eq. destruct is_hello.
  - match goal with |- context [send_control_json send_to from TYPE_HELLO_ACK ?v true ?t] =>
      destruct (send_control_json_eq send_to from TYPE_HELLO_ACK v true t Hb) as (r & ->) end.
    eexists _, _. split; [done|]. simpl. by rewrite lookup_insert_eq.
  - eexists _, _. split; [done|]. simpl. by rewrite lookup_insert_eq.
Qed.

Lemma prune_sessions n from : n_sessions (prune n) !! from = n_sessions n !! from ∨ n_sessions (prune n) !! from = None.
Proof.
  unfold prune. case_decide; [|by left]. simpl. destruct (n_sessions n !! from) as [ep|] eqn:E.
  - destruct (decide (is_Some (n_peers n !! from))) as [Hs|Hs]; [left; by apply map_lookup_filter_Some|].
    right. apply map_lookup_filter_None. right. intros x _. done.
  - right. apply map_lookup_filter_None. by left.
Qed.

Lemma prune_config n : n_config (prune n) = n_config n.
Proof. unfold prune. by case_decide. Qed.

Lemma band_run_iter (side : Band → Band) (ev : band_event) send_to n B :
  (∀ b, band_step send_to ev b = Ret (side b, [])) → band_run send_to (replicate n ev) B = Ret (Nat.iter n side B, []).
Proof.
  intros Hs. revert B. induction n as [|n IH]; intros B; [done|]. cbn [replicate band_run]. rewrite Hs. cbn [mbind outcome_bind].
  by rewrite IH, Nat.iter_succ_r.
Qed.

Lemma iter_stream n B :
  Nat.iter n (λ b, with_stream (stream_rebase_round (bd_rebase b) (bd_stream b)) b) B
  = with_stream (Nat.iter n (stream_rebase_round (bd_rebase B)) (bd_stream B)) B.
Proof. induction n as [|n IH]; [by destruct B|]. rewrite !Nat.iter_succ. by rewrite IH. Qed.

Lemma iter_channel n B :
  Nat.iter n (λ b, with_channel (channel_rebase_round (bd_rebase b) (bd_channel b)) b) B
  = with_channel (Nat.iter n (channel_rebase_round (bd_rebase B)) (bd_channel B)) B.
Proof. induction n as [|n IH]; [by destruct B|]. rewrite !Nat.iter_succ. by rewrite IH. Qed.
End Restart.

(** ** Properties *)

(** C8: from binding to delivery. Two Bands of one key that complete a HELLO exchange
    can open a Stream, and whatever part of the messages one application then sends
    arrives at the other's socket, in whatever order and however often, the other
    application receives exactly the messages that are newer than all before them,
    each once, with their priority, bytes and sender. *)
Theorem stream_end_to_end {crates : Crates} {cspec : CratesSpec} {serde : Serde} {dj : DropJson} {cj : ControlJson} {jspec : ControlJsonSpec cj}
    {ho : HashOrder} psk ha hb oa ob ma mb ra rb a b send_a send_b now1 now2 suite A1 d1 B1 d2 to
    (id : Z) (ms : list (Z * bytes)) (arrivals : list (nat * Z * bytes)) :
  let A := bind_with_options psk ha oa ma ra in
  let B := bind_with_options psk hb ob mb rb in
  length ra = 8 → length rb = 8 → is_u64 (c_session (n_config (bd_node A))) → is_u64 (c_session (n_config (bd_node B))) →
  Suite_from_id (select_cipher (c_ciphers (n_config (bd_node A))) (c_ciphers (n_config (bd_node B)))) = Some suite →
  band_run send_a [ApConnectPeer b] A = Ret (A1, [(b, d1)]) →
  band_run send_b [EvDatagram now1 a d1; EvControl] B = Ret (B1, [(to, d2)]) →
  is_u16 id → Forall (λ m, is_u8 m.1) ms → (len ms < 2 ^ 62)%Z →
  ∃ A2 sent0, band_run send_a [EvDatagram now2 b d2; EvControl] A1 = Ret (A2, sent0)
    ∧ ∀ A3 sent, band_run send_a (ApStream b id :: stream_sends 0 ms) A2 = Ret (A3, sent) → length sent = length ms →
      Forall (λ x, sent !! x.1.1 = Some (b, x.2)) arrivals →
      ∃ B3, band_run send_b (ApStream a id :: stream_arrivals a arrivals) B1 = Ret (B3, [])
        ∧ se_queue <$> ss_eps (bd_stream B3) !! 0 = Some (messages_at a id ms (freshest None (arrivals.*1.*1))).
Proof.
  intros A B Hra Hrb Hsa Hsb Hsuite HA1 HB1 Hid Hms Hn.
  destruct (band_handshake psk ha hb oa ob ma mb ra rb a b send_a send_b now1 now2 suite A1 d1 B1 to d2 Hra Hrb Hsa Hsb Hsuite HA1 HB1)
    as (A2 & sent0 & E2 & Tab & _ & FA & FB & _).
  exists A2, sent0. split; [done|]. intros A3 sent Hrun Hlen Harr. by eapply stream_between.
Qed.

(** C18: anti-entropy repairs a board across the network. Two Bands in a session hold a
    board of one id, with whatever contents, and their sockets take what they send. A
    digest probe goes out; the other answers it with one request exactly when the digests
    differ, the first answers that with every chunk of its snapshot, and once those
    datagrams have arrived in order within the reassembly timeout the other's board is
    the merge of the first's entries into its own, with exactly the changes of that merge
    reported to its application. The messages are of less than 4 GiB and neither sequence
    counter wraps. *)
Theorem board_anti_entropy {crates : Crates} {cspec : CratesSpec} {tot : AeadTotal} {atot : AesTotal} {serde : Serde} {spec : SerdeSpec serde}
    {dj : DropJson} {cj : ControlJson} {ho : HashOrder} (A B : Band) a b id ea eb taskA taskB chA chB send_a send_b t1 t2 fid0 fid (times : list Z) t0 ws before os :
  let coreA := sh_core (t_shared taskA) in
  let coreB := sh_core (t_shared taskB) in
  let probe := digest_to_value (Some (digest coreA).1, Some (digest coreA).2) in
  let snap := snapshot coreA in
  let r := default (for_chunk_size MAX_CHUNK_PAYLOAD) (t_reassemblers taskB !! a) in
  talks a b (band_transport A) (band_transport B) → talks b a (band_transport B) (band_transport A) →
  accepting send_a → accepting send_b →
  (len (Board.env_to_vec TYPE_DIGEST probe) <= u32_max)%Z → (len (Board.env_to_vec TYPE_SYNC_REQ Board.json_empty) <= u32_max)%Z →
  idle_board id ea taskA chA A → idle_board id eb taskB chB B → is_u16 id →
  (0 <= t_seq (band_transport A))%Z → (t_seq (band_transport A) + 1 + len ws < 2 ^ 64)%Z →
  (0 <= t_seq (band_transport B))%Z → (t_seq (band_transport B) + 1 < 2 ^ 64)%Z →
  past_mark (t_watermark taskB !! a) (t_seq (band_transport A)) = true → past_mark (t_watermark taskA !! b) (t_seq (band_transport B)) = true →
  is_u64 (digest coreA).1 → exact probe → exact Board.json_empty → exact (entries_to_value snap) → Forall payload_u64 snap →
  (len (Board.env_to_vec TYPE_SNAPSHOT (entries_to_value snap)) <= u64_max)%Z → length fid = FRAGMENT_ID_LEN →
  snapshot_chunks fid snap = Ret ws →
  feed_all (for_chunk_size MAX_CHUNK_PAYLOAD) before = Ret (r, os) → buffers r !! fid = None → evicted r !! fid = None →
  length times = length ws → head times = Some t0 → Forall (λ t, (t - t0 <= DEFAULT_REASSEMBLY_TIMEOUT)%Z) times →
  ∃ A1 d1 B1 sent1, band_run send_a [ApBoardCall ea (BSendDigest (Some b))] A = Ret (A1, [(b, d1)])
    ∧ band_run send_b (board_arrival_events a t1 d1 fid0 eb) B = Ret (B1, sent1)
    ∧ if decide (digest coreB = digest coreA) then sent1 = []
      else ∃ d2 A2 sent2 B2 taskB', sent1 = [(a, d2)]
          ∧ band_run send_a (board_arrival_events b t2 d2 fid ea) A1 = Ret (A2, sent2) ∧ length sent2 = length ws
          ∧ band_run send_b (board_arrivals a fid eb (zip times (sent2.*2))) B1 = Ret (B2, [])
          ∧ idle_board id eb taskB' (chB ++ (change_of <$> (merge_all snap coreB).2)) B2
          ∧ sh_core (t_shared taskB') = (merge_all snap coreB).1.
Proof.
  intros coreA coreB probe snap r Tab Tba Aa Ab Hl1 Hl2 IA IB Hid SA0 SA1 SB0 SB1 WB WA Hu Hex1 Hex2 Hex3 Hp64 Hlen Hfid Hws Hbef Hb He Htimes Hhd Hage.
  pose proof (len_nonneg ws).
  destruct (probe_goes_out A B a b id ea taskA chA send_a Tab Aa Hl1 IA) as (A1 & d1 & Hrun & E1 & Et1 & IA1).
  set (body := Board.env_to_vec TYPE_DIGEST _) in E1. exists A1, d1.
  (* the probe at B *)
  pose proof (board_packet_env t1 fid0 a (t_seq (band_transport A)) body taskB WB (env_object _ _)) as Ep.
  pose proof (digest_probe fid0 (mkTask (t_shared taskB) (<[a := t_seq (band_transport A)]> (t_watermark taskB)) (t_reassemblers taskB)) coreA) as Hd.
  cbn zeta in Hd. cbn [t_shared] in Hd. fold coreB in Hd. specialize (Hd Hu Hex1). unfold body, probe in Ep. fold coreA in Ep. rewrite Hd in Ep. clear Hd.
  assert (UA : is_u64 (t_seq (band_transport A))) by (unfold is_u64; lia).
  destruct (board_arrival _ send_b _ _ _ _ _ _ _ _ _ _ _ _ _ _ _ _ Tab IB Hid UA E1 Ep) as (B1 & sB & sent1 & EB1 & IB1 & Eu & EtB1 & _). rewrite app_nil_r in IB1.
  exists B1, sent1. split; [done|]. split; [done|]. case_decide as Hdig; [by injection Eu as _ <-|].
  (* the request at A *)
  cbn [fmap list_fmap] in Eu. assert (Hb1 : length (t_band_id (see a t1 (band_transport B))) = BAND_ID_LEN) by (simpl; rewrite (tk_band _ _ _ _ Tab); apply Tab).
  pose proof Eu as Hone. apply send_until_all in Hone; [|exact Hb1|exact Ab|apply Forall_singleton; split; [exact (tk_whole _ _ _ _ Tba)|cbn [out_plaintext send_board_raw snd]; lia]].
  apply send_until_sent in Eu as [_ Hs]; [|done..].
  destruct (Hs Hone) as (ds2 & -> & Hsent). destruct ds2 as [|d2 ds2]; [done|]. cbn [fmap list_fmap zip zip_with out_to send_board_raw fst].
  inversion Hsent as [|s0 o outs dd dds (tx & Esend2) _]; subst. cbn [t_seq see set_seq] in Esend2.
  assert (Ew1 : wrap 64 (t_seq (band_transport A) + 1) = (t_seq (band_transport A) + 1)%Z) by (unfold wrap; apply Z.mod_small; lia).
  rewrite Ew1 in Et1.
  destruct (sync_request_arrives send_b send_a a b id ea taskA chA (set_seq (t_seq (band_transport B)) (see a t1 (band_transport B))) tx d2 t2 fid ws A1)
    as (A2 & sent2 & EA2 & Hl2' & Hsent2); try done; [rewrite Et1; auto with tele|unfold is_u64; simpl; lia|rewrite Et1; simpl; lia..|rewrite Et1; auto with tele|].
  exists d2, A2, sent2. specialize (Hsent2 Hl2'). rewrite Et1 in Hsent2.
  destruct (snapshot_arrives send_a send_b a b id eb fid
    (mkTask (t_shared taskB) (<[a := t_seq (band_transport A)]> (t_watermark taskB)) (t_reassemblers taskB)) chB snap ws (sent2.*2)
    (see b t2 (set_seq (t_seq (band_transport A) + 1) (band_transport A))) times t0 before os B1) as (B2 & taskB' & EB2 & IB2 & Ec);
    try done; [rewrite EtB1; auto with tele|simpl; lia..| |by exists B2, taskB'].
  cbn [t_watermark t_seq see set_seq]. rewrite lookup_insert_eq. simpl. apply Z.ltb_lt. lia.
Qed.

(** C20: a peer that restarts is let in again. When a HELLO or HELLO_ACK of a newer epoch
    is taken from the control queue, the peer's data key becomes the one of that
    epoch, and once the Stream and the Channel hub, no more than 64 announcements
    behind, have taken theirs, they hold no watermark of that peer, so a packet of
    any sequence is accepted from it, while the watermarks of peers not announced are
    as they were. *)
Theorem restart_accepted {crates : Crates} {serde : Serde} {dj : DropJson} {cj : ControlJson} {ho : HashOrder}
    (send_to : bytes → string → bool) (B : Band) (pkt : Inbound) (rest : list Inbound) ty v event ep hostname caps committed :
  BandInv B → bd_control_running B = true → bd_control_in B = pkt :: rest →
  env_from_slice (in_payload pkt) = Some (ty, v) → (ty = TYPE_HELLO ∨ ty = TYPE_HELLO_ACK) →
  let a := in_from pkt in
  let n := bd_node B in
  hello_body (n_config n) a (ty =? TYPE_HELLO)%Z v = Some (event, ep, hostname, caps, committed) →
  match n_sessions n !! a with Some prev => (prev < ep)%Z | None => True end →
  let s := bd_stream B in
  let c := bd_channel B in
  let log := bd_rebase B ++ [a] in
  ss_pos s ≤ length (bd_rebase B) → cs_pos c ≤ length (bd_rebase B) →
  length log - ss_pos s ≤ REBASE_CAP → length log - cs_pos c ≤ REBASE_CAP →
  ∃ B' sent, band_run send_to (EvControl :: replicate (length log - ss_pos s) EvStreamRebase
                               ++ replicate (length log - cs_pos c) EvChannelRebase) B = Ret (B', sent)
    ∧ peer_keys (band_transport B') !! a
      = Some (derive_session_key (c_psk (n_config n)) committed ep, default ChaCha20Poly1305 (Suite_from_id committed))
    ∧ (∀ x id, stream_mark x id B' = if decide (x ∈ drop (ss_pos s) log) then None else stream_mark x id B)
    ∧ (∀ x id, Channel.watermarks (cs_hub (bd_channel B')) !! (x, id)
               = if decide (x ∈ drop (cs_pos c) log) then None else Channel.watermarks (cs_hub c) !! (x, id))
    ∧ a ∈ drop (ss_pos s) log ∧ a ∈ drop (cs_pos c) log.
Proof.
  intros I Hrun Hin Henv Hty a n Hbody Hnew s c log Ps Pc Ls Lc.
  assert (Hdrop : ∀ pos, pos ≤ length (bd_rebase B) → a ∈ drop pos log)
    by (intros pos Hp; unfold log; rewrite drop_app_le by done; apply elem_of_app; right; by apply list_elem_of_singleton).
  destruct (handle_hello_newer send_to a (sequence (in_header pkt)) (ty =? TYPE_HELLO)%Z v (prune n) event ep hostname caps committed)
    as (n' & e & Eh & Er & Ek).
  - rewrite prune_transport. apply I.
  - by rewrite prune_config.
  - destruct (prune_sessions n a) as [-> | ->]; done.
  - assert (Ec : control_packet send_to pkt n = Ret (n', e)).
    { unfold control_packet. rewrite Henv. rewrite <- Eh. by destruct Hty as [-> | ->]. }
    set (B1 := with_rebase log (with_events (bd_events B ++ e_events e) (with_control_in rest (with_node n' B)))).
    assert (E1 : control_round send_to B = Ret (B1, e_sent e)).
    { unfold control_round. rewrite Hin, Hrun. cbn [negb]. fold n. rewrite Ec. cbn [mbind outcome_bind]. by rewrite Er. }
    cbn [band_run band_step]. rewrite E1. cbn [mbind outcome_bind]. rewrite band_run_app.
    rewrite (band_run_iter (λ b, with_stream (stream_rebase_round (bd_rebase b) (bd_stream b)) b)) by done.
    cbn [mbind outcome_bind]. rewrite iter_stream. set (B2 := with_stream _ B1).
    rewrite (band_run_iter (λ b, with_channel (channel_rebase_round (bd_rebase b) (bd_channel b)) b)) by done.
    cbn [mbind outcome_bind]. rewrite iter_channel. eexists _, _. split; [done|].
    assert (Hl : length log = S (length (bd_rebase B))) by (unfold log; rewrite length_app; simpl; lia).
    destruct (stream_catch_up log (length log - ss_pos s) s) as (_ & _ & _ & _ & _ & Hs); [lia|done|].
    destruct (channel_catch_up log (length log - cs_pos c) c) as (_ & _ & _ & _ & _ & Hc); [lia|done|].
    rewrite prune_config in Ek. split_and!; [exact Ek|exact Hs|exact Hc|by apply Hdrop..].
Qed.

(** A hub that falls more than 64 announcements behind skips the oldest: the marks of a
    peer announced only there are never cleared. *)
Lemma lagging_hub_keeps_marks (log : list string) (s : StreamSide) (a : string) (id : Z) :
  ss_pos s + REBASE_CAP < length log → a ∉ drop (length log - REBASE_CAP) log →
  let s' := Nat.iter (S REBASE_CAP) (stream_rebase_round log) s in
  ss_pos s' = length log ∧ sh_watermarks (ss_hub s') !! (a, id) = sh_watermarks (ss_hub s) !! (a, id).
Proof.
  cbv zeta. intros Hlag Ha. rewrite Nat.iter_succ_r. set (s1 := stream_rebase_round log s).
  assert (E1 : s1 = mkStreamSide (ss_in s) (length log - REBASE_CAP) (ss_hub s) (ss_routes s) (ss_eps s)).
  { unfold s1, stream_rebase_round, rebase_recv. rewrite decide_False by lia. by rewrite decide_True by lia. }
  destruct (stream_catch_up log REBASE_CAP s1) as (P1 & _ & _ & _ & _ & P6); [rewrite E1; simpl; lia|done|].
  split; [done|]. rewrite P6, E1. simpl. by rewrite decide_False.
Qed.

(** A packet of the old session that is still queued when the hub takes the
    announcement sets the mark again, and a new session that starts below it is
    refused until it passes that mark. *)
Lemma queued_packet_undoes_rebase (log : list string) (s : StreamSide) (old new : Inbound) :
  let a := in_from old in
  let id := channel_id (in_header old) in
  log !! ss_pos s = Some a → length log ≤ ss_pos s + REBASE_CAP → ss_in s = [old; new] →
  in_payload old ≠ [] → in_from new = a → channel_id (in_header new) = id →
  (sequence (in_header new) <= sequence (in_header old))%Z →
  let s1 := stream_round (stream_rebase_round log s) in
  sh_watermarks (ss_hub s1) !! (a, id) = Some (sequence (in_header old)) ∧ ss_eps (stream_round s1) = ss_eps s1
  ∧ ss_hub (stream_round s1) = ss_hub s1.
Proof.
  cbv zeta. intros Hlog Hc Hin Hp Hf Hid Hseq.
  assert (E0 : stream_rebase_round log s = mkStreamSide [old; new] (S (ss_pos s)) (stream_rebase (in_from old) (ss_hub s)) (ss_routes s) (ss_eps s)).
  { unfold stream_rebase_round. rewrite rebase_recv_next by (try done; by eapply lookup_lt_Some). by rewrite Hlog, Hin. }
  rewrite E0. set (k := (in_from old, channel_id (in_header old))).
  assert (E1 : ∃ eps, stream_round (mkStreamSide [old; new] (S (ss_pos s)) (stream_rebase (in_from old) (ss_hub s)) (ss_routes s) (ss_eps s))
    = mkStreamSide [new] (S (ss_pos s))
        (mkStreamHub (sh_senders (ss_hub s)) (<[k := sequence (in_header old)]> (filter (λ kv, kv.1.1 ≠ in_from old) (sh_watermarks (ss_hub s)))))
        (ss_routes s) eps).
  { unfold stream_round, stream_packet, handle_stream_inbound. cbn [ss_in ss_hub stream_rebase sh_watermarks].
    destruct (in_payload old) as [|pr data]; [done|]. rewrite filter_peer_lookup, decide_True by done. by eexists. }
  destruct E1 as (eps & ->). split; [apply lookup_insert_eq|].
  unfold stream_round, stream_packet, handle_stream_inbound. cbn [ss_in ss_hub sh_watermarks ss_eps]. rewrite Hf, Hid. fold k.
  destruct (in_payload new); [done|]. rewrite lookup_insert_eq, (proj2 (Z.leb_le _ _)) by done. done.
Qed.

(** ** Witnesses *)

#[local] Existing Instance sample_crates.
#[local] Existing Instance sample_control_json.
#[local] Existing Instance sample_control_json_spec.
#[local] Existing Instance sample_serde.
#[local] Existing Instance sample_serde_spec.
#[local] Existing Instance sample_json.
#[local] Existing Instance sample_hash_order.

(** A run on a network that takes every datagram. *)
Definition sample_run (evs : list band_event) (b : Band) : Band * list (string * bytes) :=
  match band_run (λ _ _, true) evs b with Ret x => x | Panic => (b, []) end.

Definition first_sent (x : Band * list (string * bytes)) : bytes := match x.2 with (_, d) :: _ => d | [] => [] end.

(** What a run did, read off its evaluation. *)
Definition ran (p : Band → list (string * bytes) → bool) (evs : list band_event) (b : Band) : bool :=
  match band_run (λ _ _, true) evs b with Ret (b', sent) => p b' sent | Panic => false end.
Definition one_to (to : string) (_ : Band) (sent : list (string * bytes)) : bool :=
  match sent with [(t, _)] => bool_decide (t = to) | _ => false end.

Lemma ran_run p evs b : ran p evs b = true →
  band_run (λ _ _, true) evs b = Ret (sample_run evs b) ∧ p (sample_run evs b).1 (sample_run evs b).2 = true.
Proof. unfold ran, sample_run. by destruct (band_run _ evs b) as [|[b' sent]]. Qed.

Lemma ran_one to evs b : ran (one_to to) evs b = true →
  band_run (λ _ _, true) evs b = Ret ((sample_run evs b).1, [(to, first_sent (sample_run evs b))]).
Proof.
  intros H. destruct (ran_run _ _ _ H) as [-> H1]. destruct (sample_run evs b) as [b' sent]. unfold first_sent. simpl in *.
  destruct sent as [|[t d] [|]]; try done. apply bool_decide_eq_true in H1 as ->. done.
Qed.

Lemma ran_three to evs b : ran (λ _ sent, bool_decide (sent.*1 = [to; to; to])) evs b = true →
  band_run (λ _ _, true) evs b = Ret ((sample_run evs b).1, (sample_run evs b).2)
  ∧ ∃ d0 d1 d2, (sample_run evs b).2 = [(to, d0); (to, d1); (to, d2)].
Proof.
  intros H. destruct (ran_run _ _ _ H) as [-> H1]. apply bool_decide_eq_true in H1. destruct (sample_run evs b) as [b' sent]. simpl in *.
  split; [done|]. destruct sent as [|[t0 d0] [|[t1 d1] [|[t2 d2] [|]]]]; try done. injection H1 as -> -> ->. by exists d0, d1, d2.
Qed.

(** [x] at address "a" greets [y] at address "b", and sends three messages. *)
Definition sample_a1 := sample_run [ApConnectPeer "b"] (sample_band "x").
Definition sample_b1 := sample_run [EvDatagram 7 "a" (first_sent sample_a1); EvControl] (sample_band "y").
Definition sample_a2 := sample_run [EvDatagram 9 "b" (first_sent sample_b1); EvControl] sample_a1.1.
Definition sample_messages : list (Z * bytes) := [(1%Z, [Byte.x01]); (2%Z, [Byte.x02]); (3%Z, [Byte.x03])].
Definition sample_a3 := sample_run (ApStream "b" 5 :: stream_sends 0 sample_messages) sample_a2.1.
Definition sample_datagram (i : nat) : bytes := default [] (sample_a3.2.*2 !! i).
Definition sample_arrivals : list (nat * Z * bytes) := (λ i, (i, 20%Z, sample_datagram i)) <$> [0; 2; 1; 2].

Lemma stream_end_to_end_witness :
  ∃ B3, band_run (λ _ _, true) (ApStream "a" 5 :: stream_arrivals "a" sample_arrivals) sample_b1.1 = Ret (B3, [])
    ∧ se_queue <$> ss_eps (bd_stream B3) !! 0 = Some [mkMessage "a" 5 1 [Byte.x01]; mkMessage "a" 5 3 [Byte.x03]].
Proof.
  destruct (stream_end_to_end sample_psk "x" "y" (sample_options ["aes256-gcm"]) (sample_options ["aes256-gcm"]) 0 0
    sample_random sample_random "a" "b" (λ _ _, true) (λ _ _, true) 7 9 Aes256Gcm sample_a1.1 (first_sent sample_a1)
    sample_b1.1 (first_sent sample_b1) "a" 5 sample_messages sample_arrivals) as (A2 & sent0 & E2 & H).
  - reflexivity.
  - reflexivity.
  - by vm_compute.
  - by vm_compute.
  - reflexivity.
  - apply ran_one. by vm_compute.
  - apply ran_one. by vm_compute.
  - by vm_compute.
  - repeat constructor; by vm_compute.
  - by vm_compute.
  - assert (EA : A2 = sample_a2.1) by (unfold sample_a2, sample_run; by rewrite E2). subst A2.
    destruct (ran_three "b" (ApStream "b" 5 :: stream_sends 0 sample_messages) sample_a2.1) as [E3 (d0 & e1 & e2 & H3)]; [by vm_compute|].
    apply (H sample_a3.1 sample_a3.2).
    + exact E3.
    + unfold sample_a3. by rewrite H3.
    + unfold sample_arrivals, sample_datagram, sample_a3. rewrite H3. repeat constructor.
Defined.

(** [y] holds marks of "a" and "c" when a HELLO of a new epoch from "a" is queued. *)
Definition sample_marks : StreamSide :=
  mkStreamSide [] 0 (mkStreamHub ∅ {[("a", 5%Z) := 900%Z; ("c", 5%Z) := 4%Z]}) ∅ [].
Definition sample_hello_packet : Inbound :=
  mkInbound "a" (mkHeader [] Control 0 3) (env_to_vec TYPE_HELLO (hello_to_value (mkHello "x" [] [] 5))).
Definition sample_restarting : Band := with_control_in [sample_hello_packet] (with_stream sample_marks (sample_band "y")).

Lemma restart_accepted_witness :
  ∃ B' sent, band_run (λ _ _, true) [EvControl; EvStreamRebase; EvChannelRebase] sample_restarting = Ret (B', sent)
    ∧ stream_mark "a" 5 B' = None ∧ stream_mark "c" 5 B' = Some 4%Z.
Proof.
  destruct (restart_accepted (λ _ _, true) sample_restarting sample_hello_packet [] TYPE_HELLO (hello_to_value (mkHello "x" [] [] 5))
    (EHello "a" "x" [] []) 5 "x" [] BASELINE_CIPHER) as (B' & sent & E & _ & Hs & _).
  - destruct (bind_inv sample_psk "y" (sample_options ["aes256-gcm"]) 0 sample_random) as [H1 H2 H3 H4 H5 H6].
    split; [exact H1|by repeat constructor| |exact H4|exact H5|exact H6]. split; simpl; [done|by intros k e ?%lookup_empty_Some|done|done].
  - reflexivity.
  - reflexivity.
  - by vm_compute.
  - by left.
  - unfold hello_body. rewrite (proj2 (hello_roundtrip (mkHello "x" [] [] 5) ltac:(by vm_compute) TYPE_HELLO ltac:(by vm_compute))). reflexivity.
  - exact I.
  - exact (le_n _).
  - exact (le_n _).
  - simpl. unfold REBASE_CAP. lia.
  - simpl. unfold REBASE_CAP. lia.
  - exists B', sent. split; [exact E|]. split; rewrite Hs.
    + by rewrite decide_True by (by left).
    + rewrite decide_False; [reflexivity|]. simpl. by intros ?%list_elem_of_singleton.
Defined.

Lemma ret_inj {A B} (x y : A) (z w : B) : Ret (x, z) = Ret (y, w) → x = y ∧ z = w.
Proof. by intros [= -> ->]. Qed.

Lemma sample_session :
  talks "a" "b" (band_transport sample_a2.1) (band_transport sample_b1.1) ∧ talks "b" "a" (band_transport sample_b1.1) (band_transport sample_a2.1).
Proof.
  destruct (band_handshake sample_psk "x" "y" (sample_options ["aes256-gcm"]) (sample_options ["aes256-gcm"]) 0 0
    sample_random sample_random "a" "b" (λ _ _, true) (λ _ _, true) 7 9 Aes256Gcm sample_a1.1 (first_sent sample_a1)
    sample_b1.1 "a" (first_sent sample_b1)) as (A2 & sent0 & E2 & Tab & Tba & _).
  - reflexivity.
  - reflexivity.
  - by vm_compute.
  - by vm_compute.
  - reflexivity.
  - apply ran_one. by vm_compute.
  - apply ran_one. by vm_compute.
  - assert (EA : A2 = sample_a2.1) by (unfold sample_a2, sample_run; by rewrite E2). subst A2. split; [exact Tab|exact Tba].
Qed.

(** [x] has written a topic on board 3, [y] has not: a probe, the request it draws and
    the snapshot that answers it. *)
Definition sample_with (task : BoardTask) (b : Band) : Band :=
  with_board (mkBoardSide [] {[3%Z := 0]} [mkBoardEp 3 task [] 0 [] Runs]) b.
Definition sample_pa : Band := sample_with (mkTask (mkShared sample_board []) ∅ ∅) sample_a2.1.
Definition sample_pb : Band := sample_with sample_task sample_b1.1.
Definition sample_probe := sample_run [ApBoardCall 0 (BSendDigest (Some "b"))] sample_pa.
Definition sample_request := sample_run (board_arrival_events "a" 11 (first_sent sample_probe) [] 0) sample_pb.
Definition sample_answer := sample_run (board_arrival_events "b" 12 (first_sent sample_request) sample_fid 0) sample_probe.1.
Definition sample_times : list Z := replicate (length sample_snapshot_wires) 13%Z.

Lemma sample_with_transport task b : band_transport (sample_with task b) = band_transport b.
Proof. done. Qed.
Lemma sample_with_idle task b : idle_board 3 0 task [] (sample_with task b).
Proof. split; [done|reflexivity|by exists 0]. Qed.

Lemma board_anti_entropy_witness :
  ∃ d1 d2 sent2 B2 task, sample_probe.2 = [("b", d1)] ∧ sample_request.2 = [("a", d2)] ∧ sample_answer.2 = sent2 ∧ length sent2 = length sample_snapshot_wires
    ∧ band_run (λ _ _, true) (board_arrivals "a" sample_fid 0 (zip sample_times (sent2.*2))) sample_request.1 = Ret (B2, [])
    ∧ idle_board 3 0 task [mkChange "topic" 3%positive false] B2 ∧ b_entries (sh_core (t_shared task)) = b_entries sample_board.
Proof.
  destruct sample_session as [Tab Tba].
  destruct (board_anti_entropy sample_pa sample_pb "a" "b" 3 0 0 (mkTask (mkShared sample_board []) ∅ ∅) sample_task [] []
    (λ _ _, true) (λ _ _, true) 11 12 [] sample_fid sample_times 13 sample_snapshot_wires [] [])
    as (A1 & d1 & B1 & sent1 & E0 & E1 & H).
  - unfold sample_pa, sample_pb. rewrite !sample_with_transport. exact Tab.
  - unfold sample_pa, sample_pb. rewrite !sample_with_transport. exact Tba.
  - intros d to. reflexivity.
  - intros d to. reflexivity.
  - by vm_compute.
  - by vm_compute.
  - apply sample_with_idle.
  - apply sample_with_idle.
  - by vm_compute.
  - by vm_compute.
  - by vm_compute.
  - by vm_compute.
  - by vm_compute.
  - reflexivity.
  - reflexivity.
  - by vm_compute.
  - exact I.
  - exact I.
  - exact I.
  - by repeat constructor.
  - by vm_compute.
  - reflexivity.
  - by vm_compute.
  - reflexivity.
  - reflexivity.
  - reflexivity.
  - by vm_compute.
  - by vm_compute.
  - repeat constructor; by vm_compute.
  - rewrite decide_False in H by (by vm_compute). destruct H as (d2 & A2 & sent2 & B2 & task & -> & E2 & L2 & E3 & I2 & Ec).
    assert (P0 : sample_probe = (A1, [("b", d1)])) by (unfold sample_probe, sample_run; by rewrite E0).
    assert (F0 : first_sent sample_probe = d1) by (by rewrite P0).
    assert (P1 : sample_request = (B1, [("a", d2)])) by (unfold sample_request, sample_run; rewrite F0; by rewrite E1).
    assert (F1 : first_sent sample_request = d2) by (by rewrite P1).
    assert (P2 : sample_answer = (A2, sent2)) by (unfold sample_answer, sample_run; rewrite F1, P0; cbn [fst]; by rewrite E2).
    exists d1, d2, sent2, B2, task. rewrite P0, P1, P2. split_and!; [done..|exact L2|exact E3|exact I2|]. by rewrite Ec.
Defined.
