(* ===== verification/Lifecycle.v ===== *)
(** Who keeps a Band's tasks and its socket alive ([rust/telesthete/src/band.rs] and the hubs
    and endpoints it owns): the handles an application holds, the tasks they spawn, what
    each of them keeps a reference to, what dropping a handle aborts, and when a task
    ends because a channel it reads was closed. *)

From S2P Require Import Prelude.

(** * Handles and tasks *)

Inductive HubKind := StreamHub | ChannelHub | BoardHub | DropHub.

Inductive EpKind := StreamEndpoint | ChannelEndpoint | BoardEndpoint | DropSender | DropReceiver.

(** What an application owns; the [ControlChannel] is a field of the Band until it is taken. *)
Inductive Handle := HBand | HControl | HEp (e : nat).

(** [TEp e] is the task of endpoint [e]: [run_connection], [run_board_task] or the task of
    a Drop endpoint. *)
Inductive Task := TRecv | TKeepalive | TControl | TDemux (h : HubKind) | TEp (e : nat).

#[global] Instance Hub_eq_dec : EqDecision HubKind.
Proof. solve_decision. Defined.
#[global] Instance EpKind_eq_dec : EqDecision EpKind.
Proof. solve_decision. Defined.
#[global] Instance Handle_eq_dec : EqDecision Handle.
Proof. solve_decision. Defined.
#[global] Instance Task_eq_dec : EqDecision Task.
Proof. solve_decision. Defined.

Definition Hub_code (h : HubKind) : nat := match h with StreamHub => 0 | ChannelHub => 1 | BoardHub => 2 | DropHub => 3 end.
Definition Hub_of_code (n : nat) : option HubKind :=
  match n with 0 => Some StreamHub | 1 => Some ChannelHub | 2 => Some BoardHub | 3 => Some DropHub | _ => None end.

#[global] Instance Hub_countable : Countable HubKind.
Proof. apply (inj_countable Hub_code Hub_of_code). by intros []. Defined.

#[global] Instance Handle_countable : Countable Handle.
Proof.
  apply (inj_countable' (λ h, match h with HBand => inl false | HControl => inl true | HEp e => inr e end)
    (λ x, match x with inl false => HBand | inl true => HControl | inr e => HEp e end)). by intros [].
Defined.

#[global] Instance Task_countable : Countable Task.
Proof.
  apply (inj_countable' (λ t, match t with TRecv => inl (inl 0) | TKeepalive => inl (inl 1) | TControl => inl (inl 2) | TDemux h => inl (inr h) | TEp e => inr e end)
    (λ x, match x with inl (inl 0) => TRecv | inl (inl 1) => TKeepalive | inl (inl _) => TControl | inl (inr h) => TDemux h | inr e => TEp e end)).
  by intros [].
Defined.

(** The key of an endpoint in its hub's table of senders: a Channel by peer and id, the
    others by id alone. *)
Abbreviation RouteKey := (HubKind * (option string * Z))%type.

Definition kind_hub (k : EpKind) : HubKind :=
  match k with
  | StreamEndpoint => StreamHub
  | ChannelEndpoint => ChannelHub
  | BoardEndpoint => BoardHub
  | DropSender | DropReceiver => DropHub
  end.

Definition route_key (k : EpKind) (peer : string) (id : Z) : RouteKey :=
  (kind_hub k, (match k with ChannelEndpoint => Some peer | _ => None end, id)).

(** Opening one spawns a task, except for a Stream. *)
Definition has_task (k : EpKind) : bool := match k with StreamEndpoint => false | _ => true end.

(** The endpoints that are an [Arc<Transport>] themselves. *)
Definition ep_transport (k : EpKind) : bool :=
  match k with StreamEndpoint | BoardEndpoint | DropSender => true | ChannelEndpoint | DropReceiver => false end.

(** [Drop] of an endpoint aborts its task; that of a Channel sees its commands closed. *)
Definition ep_aborts (k : EpKind) : bool :=
  match k with BoardEndpoint | DropSender | DropReceiver => true | StreamEndpoint | ChannelEndpoint => false end.

(** The tasks that captured an [Arc<Transport>]; the receive loop has the socket and the
    route table instead, the demultiplexers have neither. *)
Definition task_transport (t : Task) : bool :=
  match t with TKeepalive | TControl | TEp _ => true | TRecv | TDemux _ => false end.

(** [lf_dead] are the endpoints whose task was stopped by a panic. *)
Record Life := mkLife {
  lf_handles : gset Handle;
  lf_taken : bool;
  lf_eps : gmap nat (EpKind * RouteKey);
  lf_routes : gmap RouteKey nat;
  lf_running : gset Task;
  lf_aborted : gset Task;
  lf_next : nat;
  lf_dead : gset nat;
}.

(** ** What is still referred to *)

Definition handle_transport (l : Life) (h : Handle) : bool :=
  match h with
  | HBand | HControl => true
  | HEp e => match lf_eps l !! e with Some (k, _) => ep_transport k | None => false end
  end.

Definition transport_alive (l : Life) : bool :=
  bool_decide (set_Exists (λ h, handle_transport l h = true) (lf_handles l))
  || bool_decide (set_Exists (λ t, task_transport t = true) (lf_running l)).

(** The socket and the table of inbound routes: the transport's, and the receive loop's. *)
Definition socket_alive (l : Life) : bool := transport_alive l || bool_decide (TRecv ∈ lf_running l).

(** A sender of the restart broadcast: in the Board and Drop hubs, and in the control task. *)
Definition rebase_open (l : Life) : bool := bool_decide (HBand ∈ lf_handles l) || bool_decide (TControl ∈ lf_running l).

(** A hub's table of senders: the hub's, and its demultiplexer's. *)
Definition senders_alive (h : HubKind) (l : Life) : bool := bool_decide (HBand ∈ lf_handles l) || bool_decide (TDemux h ∈ lf_running l).

(** The sender that feeds endpoint [e]; opening the key again replaces it. *)
Definition inbound_open (e : nat) (key : RouteKey) (l : Life) : bool :=
  senders_alive key.1 l && bool_decide (lf_routes l !! key = Some e).

(** A task that finds itself aborted, or one of its channels closed. *)
Definition ends (l : Life) (t : Task) : bool :=
  bool_decide (t ∈ lf_aborted l)
  || match t with
     | TRecv | TKeepalive => false
     | TControl => negb (socket_alive l)
     | TDemux (StreamHub | ChannelHub) => negb (socket_alive l) || negb (rebase_open l)
     | TDemux (BoardHub | DropHub) => negb (socket_alive l)
     | TEp e =>
         match lf_eps l !! e with
         | Some (ChannelEndpoint, key) => bool_decide (HEp e ∉ lf_handles l) || negb (inbound_open e key l)
         | Some (_, key) => negb (inbound_open e key l) || negb (rebase_open l)
         | None => false
         end
     end.

(** * Operations *)

Definition demux_tasks : gset Task := {[TDemux StreamHub; TDemux ChannelHub; TDemux BoardHub; TDemux DropHub]}.

(** [bind_with_options]. *)
Definition Life_bind (auto_keepalive : bool) : Life :=
  mkLife {[HBand; HControl]} false ∅ ∅
    ({[TRecv; TControl]} ∪ demux_tasks ∪ (if auto_keepalive then {[TKeepalive]} else ∅)) ∅ 0 ∅.

(** The [open] of a hub, through the Band. *)
Definition life_open (k : EpKind) (peer : string) (id : Z) (l : Life) : Life :=
  let e := lf_next l in
  let key := route_key k peer id in
  mkLife ({[HEp e]} ∪ lf_handles l) (lf_taken l) (<[e := (k, key)]> (lf_eps l)) (<[key := e]> (lf_routes l))
    (if has_task k then {[TEp e]} ∪ lf_running l else lf_running l) (lf_aborted l) (S e) (lf_dead l).

Definition life_take_control (l : Life) : Life :=
  mkLife (lf_handles l) true (lf_eps l) (lf_routes l) (lf_running l) (lf_aborted l) (lf_next l) (lf_dead l).

Definition drop_handles (hs : gset Handle) (ts : gset Task) (l : Life) : Life :=
  mkLife (lf_handles l ∖ hs) (lf_taken l) (lf_eps l) (lf_routes l) (lf_running l) (ts ∪ lf_aborted l) (lf_next l) (lf_dead l).

(** [Band::drop], then the drops of its hubs and of the control channel if it is there. *)
Definition Band_drop (l : Life) : Life :=
  drop_handles ({[HBand]} ∪ (if lf_taken l then ∅ else {[HControl]}))
    ({[TRecv; TKeepalive]} ∪ demux_tasks ∪ (if lf_taken l then ∅ else {[TControl]})) l.

Definition ControlChannel_drop (l : Life) : Life := drop_handles {[HControl]} {[TControl]} l.

Definition endpoint_drop (e : nat) (l : Life) : Life :=
  drop_handles {[HEp e]} (match lf_eps l !! e with Some (k, _) => if ep_aborts k then {[TEp e]} else ∅ | None => ∅ end) l.

Definition mark_dead (e : nat) (l : Life) : Life :=
  mkLife (lf_handles l) (lf_taken l) (lf_eps l) (lf_routes l) (lf_running l) (lf_aborted l) (lf_next l) ({[e]} ∪ lf_dead l).

Definition end_task (t : Task) (l : Life) : Life :=
  mkLife (lf_handles l) (lf_taken l) (lf_eps l) (lf_routes l) (lf_running l ∖ {[t]}) (lf_aborted l) (lf_next l) (lf_dead l).

(** Opens and takes go through the Band; a handle is dropped once, the control channel on
    its own only once taken; a task runs up to its next wait; a connection may die; the
    task of a Board or Drop endpoint, or the keepalive task, may panic. *)
Inductive life_event :=
| LOpen (k : EpKind) (peer : string) (id : Z)
| LTakeControl
| LDrop (h : Handle)
| LTurn (t : Task)
| LDead (e : nat)
| LKeepalivePanic.

Definition life_step (ev : life_event) (l : Life) : Life :=
  match ev with
  | LOpen k peer id => if decide (HBand ∈ lf_handles l) then life_open k peer id l else l
  | LTakeControl => if decide (HBand ∈ lf_handles l) then life_take_control l else l
  | LDrop h =>
      if decide (h ∈ lf_handles l) then
        match h with
        | HBand => Band_drop l
        | HControl => if lf_taken l then ControlChannel_drop l else l
        | HEp e => endpoint_drop e l
        end
      else l
  | LTurn t => if ends l t then end_task t l else l
  | LDead e =>
      if decide (TEp e ∈ lf_running l) then
        match lf_eps l !! e with
        | Some (ChannelEndpoint, _) => end_task (TEp e) l
        | Some ((BoardEndpoint | DropSender | DropReceiver), _) => end_task (TEp e) (mark_dead e l)
        | _ => l
        end
      else l
  | LKeepalivePanic => end_task TKeepalive l
  end.

Fixpoint life_run (evs : list life_event) (l : Life) : Life :=
  match evs with [] => l | ev :: evs' => life_run evs' (life_step ev l) end.

(** * The invariant *)

Record LifeInv (l : Life) : Prop := {
  li_next : ∀ e, lf_next l ≤ e → lf_eps l !! e = None ∧ HEp e ∉ lf_handles l ∧ TEp e ∉ lf_running l ∧ TEp e ∉ lf_aborted l ∧ e ∉ lf_dead l;
  li_routes : ∀ key e, lf_routes l !! key = Some e → e < lf_next l;
  li_eps : ∀ e, TEp e ∈ lf_running l → ∃ k key, lf_eps l !! e = Some (k, key) ∧ key.1 = kind_hub k;
  li_band : HBand ∈ lf_handles l → TRecv ∈ lf_running l ∧ demux_tasks ⊆ lf_running l
    ∧ TRecv ∉ lf_aborted l ∧ TKeepalive ∉ lf_aborted l ∧ ∀ h, TDemux h ∉ lf_aborted l;
  li_dropped : HBand ∉ lf_handles l → {[TRecv; TKeepalive]} ∪ demux_tasks ⊆ lf_aborted l;
  li_control : if decide (HControl ∈ lf_handles l) then TControl ∈ lf_running l ∧ TControl ∉ lf_aborted l else TControl ∈ lf_aborted l;
  li_taken : lf_taken l = false → (HBand ∈ lf_handles l ↔ HControl ∈ lf_handles l);
  li_ended : ∀ e k key, lf_eps l !! e = Some (k, key) → HEp e ∉ lf_handles l → ep_aborts k = true → TEp e ∈ lf_aborted l;
  li_serving : ∀ e, HEp e ∈ lf_handles l → TEp e ∉ lf_aborted l;
  li_fed : ∀ e k key, lf_eps l !! e = Some (k, key) → HBand ∈ lf_handles l → HEp e ∈ lf_handles l → lf_routes l !! key = Some e →
    ep_aborts k = true → e ∉ lf_dead l → TEp e ∈ lf_running l;
}.

Lemma elem_of_demux h : TDemux h ∈ demux_tasks.
Proof. unfold demux_tasks. destruct h; set_solver. Qed.

Lemma band_transport_alive l : HBand ∈ lf_handles l → transport_alive l = true.
Proof. intros H. unfold transport_alive. rewrite (bool_decide_true (set_Exists _ (lf_handles l))); [done|]. by exists HBand. Qed.

Lemma control_transport_alive l : TControl ∈ lf_running l → transport_alive l = true.
Proof. intros H. unfold transport_alive. rewrite (bool_decide_true (set_Exists _ (lf_running l))); [by rewrite orb_true_r|]. by exists TControl. Qed.

Lemma Life_bind_inv auto : LifeInv (Life_bind auto).
Proof.
  split; cbn.
  - intros e _. split_and!; [done|set_solver| |set_solver|set_solver]. unfold demux_tasks. destruct auto; set_solver.
  - done.
  - intros e. unfold demux_tasks. destruct auto; set_solver.
  - intros _. split_and!; set_solver.
  - set_solver.
  - rewrite decide_True by set_solver. set_solver.
  - set_solver.
  - done.
  - set_solver.
  - done.
Qed.

Lemma open_inv k peer id l : LifeInv l → HBand ∈ lf_handles l → LifeInv (life_open k peer id l).
Proof.
  intros I HB. destruct (li_next _ I (lf_next l)) as (N1 & N2 & N3 & N4 & N5); [done|]. split; cbn.
  - intros e He. destruct (li_next _ I e) as (M1 & M2 & M3 & M4 & M5); [lia|]. split_and!; [rewrite lookup_insert_ne by lia; done|set_solver by lia| |done|done].
    destruct (has_task k); set_solver by lia.
  - intros key e He. destruct (decide (route_key k peer id = key)) as [<-|Hne]; [rewrite lookup_insert_eq in He; injection He; lia|].
    rewrite lookup_insert_ne in He by done. apply (li_routes _ I) in He. lia.
  - intros e He. destruct (decide (lf_next l = e)) as [<-|Hne]; [rewrite lookup_insert_eq; by eexists _, _|]. rewrite lookup_insert_ne by done.
    apply (li_eps _ I). destruct (has_task k); set_solver.
  - intros _. destruct (li_band _ I HB) as (? & ? & ? & ? & ?). destruct (has_task k); set_solver.
  - intros H. exfalso. set_solver.
  - pose proof (li_control _ I) as HC. destruct (decide (HControl ∈ lf_handles l)); [rewrite decide_True by set_solver|rewrite decide_False by set_solver; done].
    destruct (has_task k); set_solver.
  - intros Ht. pose proof (li_taken _ I Ht). set_solver.
  - intros e k' key. destruct (decide (lf_next l = e)) as [<-|Hne]; [set_solver|]. rewrite lookup_insert_ne by done. intros E H. apply (li_ended _ I _ _ _ E). set_solver.
  - intros e. destruct (decide (lf_next l = e)) as [<-|Hne]; [done|]. intros H. apply (li_serving _ I). set_solver.
  - intros e k' key. destruct (decide (lf_next l = e)) as [<-|Hne].
    + rewrite lookup_insert_eq. intros [= <- <-] _ _ _ Ha _. destruct k; set_solver.
    + rewrite lookup_insert_ne by done. intros E _ H Hr Ha Hd. assert (Hk : route_key k peer id ≠ key) by (intros <-; rewrite lookup_insert_eq in Hr; congruence).
      rewrite lookup_insert_ne in Hr by done. assert (TEp e ∈ lf_running l) by (eapply li_fed; [done..|set_solver|done|done|done]). destruct (has_task k); set_solver.
Qed.

(** A task that no live handle relies on may end. *)
Definition free_task (l : Life) (t : Task) : Prop :=
  match t with
  | TRecv | TDemux _ => HBand ∉ lf_handles l
  | TKeepalive => True
  | TControl => HControl ∉ lf_handles l
  | TEp e => ∀ k key, lf_eps l !! e = Some (k, key) → HBand ∈ lf_handles l → HEp e ∈ lf_handles l → lf_routes l !! key = Some e →
      e ∉ lf_dead l → ep_aborts k = false
  end.

Lemma end_task_inv t l : LifeInv l → free_task l t → LifeInv (end_task t l).
Proof.
  intros I Ht. destruct I as [I1 I2 I3 I4 I5 I6 I7 I8 I9 I10]. split; cbn; try done.
  - intros e He. destruct (I1 e He) as (? & ? & ? & ? & ?). set_solver.
  - intros e He. apply I3. set_solver.
  - intros HB. destruct (I4 HB) as (R & D & ? & ? & ?). split_and!; try done.
    + apply elem_of_difference. split; [done|]. by intros <-%elem_of_singleton.
    + intros x Hx. apply elem_of_difference. split; [by apply D|]. intros ->%elem_of_singleton. unfold demux_tasks in Hx. destruct t; try done; set_solver.
  - destruct (decide (HControl ∈ lf_handles l)) as [Hc|]; [|done]. split; [|apply I6]. apply elem_of_difference. split; [apply I6|].
    by intros <-%elem_of_singleton.
  - intros e k key E HB He Hr Ha Hd. apply elem_of_difference. split; [by eapply I10|]. intros <-%elem_of_singleton. pose proof (Ht k key E HB He Hr Hd). congruence.
Qed.

Lemma ends_free l t : LifeInv l → ends l t = true → t ∈ lf_running l → free_task l t.
Proof.
  intros I E Hr. unfold ends in E. apply orb_true_iff in E as [E|E].
  - apply bool_decide_eq_true in E. destruct t as [| | |h|e]; cbn; try done.
    + intros HB. by apply (li_band _ I) in HB as (_ & _ & ? & _).
    + intros Hc. pose proof (li_control _ I) as HC. rewrite decide_True in HC by done. by destruct HC.
    + intros HB. apply (li_band _ I) in HB as (_ & _ & _ & _ & HD). by apply (HD h).
    + intros k key Ek _ He. by apply (li_serving _ I) in He.
  - assert (Hsock : HBand ∈ lf_handles l → socket_alive l = true) by (intros HB; unfold socket_alive; by rewrite band_transport_alive).
    assert (Hreb : HBand ∈ lf_handles l → rebase_open l = true) by (intros HB; unfold rebase_open; by rewrite bool_decide_true).
    destruct t as [| | |h|e]; cbn; try done.
    + unfold socket_alive in E. by rewrite (control_transport_alive l Hr) in E.
    + intros HB. rewrite Hsock, Hreb in E by done. by destruct h.
    + intros k key Ek HB He Hk Hd. rewrite Ek in E. unfold inbound_open, senders_alive in E.
      rewrite Hreb, (bool_decide_true (HBand ∈ _)), (bool_decide_true (lf_routes l !! key = _)), (bool_decide_false (HEp e ∉ _)) in E by auto. by destruct k.
Qed.

Lemma mark_dead_inv e l : LifeInv l → e < lf_next l → LifeInv (mark_dead e l).
Proof.
  intros [I1 I2 I3 I4 I5 I6 I7 I8 I9 I10] He. split; cbn; try done.
  - intros e' Hle. destruct (I1 e' Hle) as (? & ? & ? & ? & ?). split_and!; try done. set_solver by lia.
  - intros e' k key E HB H Hr Ha Hd. eapply I10; [done..|set_solver].
Qed.

Lemma end_task_id t l : t ∉ lf_running l → end_task t l = l.
Proof. intros H. destruct l. unfold end_task. cbn in *. f_equal. set_solver. Qed.

Lemma take_inv l : LifeInv l → LifeInv (life_take_control l).
Proof. intros []. by split. Qed.

Lemma endpoint_drop_inv e l : LifeInv l → HEp e ∈ lf_handles l → LifeInv (endpoint_drop e l).
Proof.
  intros I He. unfold endpoint_drop. set (ts := match lf_eps l !! e with Some (k, _) => _ | None => ∅ end).
  assert (Hts : ∀ t, t ∈ ts → t = TEp e) by (unfold ts; destruct (lf_eps l !! e) as [[k key]|]; [destruct (ep_aborts k)|]; set_solver).
  assert (Hlt : e < lf_next l) by (destruct (decide (lf_next l ≤ e)) as [H|]; [by destruct (li_next _ I e H) as (_ & ? & _)|lia]).
  destruct I as [I1 I2 I3 I4 I5 I6 I7 I8 I9 I10]. split; cbn; try done.
  - intros e' Hle. destruct (I1 e' Hle) as (? & ? & ? & ? & ?). split_and!; [done|set_solver|done| |done]. intros [Hx|Hx]%elem_of_union; [|done]. apply Hts in Hx as [= ->]. lia.
  - intros HB. destruct I4 as (R & D & N1 & N2 & N3); [set_solver|].
    split_and!; [done..|by intros [Hx%Hts|Hx]%elem_of_union|by intros [Hx%Hts|Hx]%elem_of_union|intros h [Hx%Hts|Hx]%elem_of_union; [done|by apply (N3 h)]].
  - intros HB. etrans; [apply I5; clear -HB; set_solver|]. clear. set_solver.
  - destruct (decide (HControl ∈ lf_handles l)) as [Hc|Hc]; [rewrite decide_True by set_solver|rewrite decide_False by set_solver; set_solver].
    split; [apply I6|]. intros [H%Hts|H]%elem_of_union; [done|]. by destruct I6.
  - intros Ht. pose proof (I7 Ht) as E. clear -E. set_solver.
  - intros e' k key E Hn Ha. apply elem_of_union. destruct (decide (e = e')) as [<-|Hne].
    + left. unfold ts. rewrite E, Ha. set_solver.
    + right. eapply I8; [done| |done]. clear -Hn Hne. set_solver.
  - intros e' H. apply elem_of_difference in H as [H Hn]. intros [Hx%Hts|Hx]%elem_of_union; [|by eapply I9]. injection Hx as ->. set_solver.
  - intros e' k key E HB H. eapply I10; [done|set_solver..].
Qed.

Lemma control_drop_inv l : LifeInv l → lf_taken l = true → LifeInv (ControlChannel_drop l).
Proof.
  intros [I1 I2 I3 I4 I5 I6 I7 I8 I9 I10] Ht. split; cbn; try done.
  - intros e He. destruct (I1 e He) as (? & ? & ? & ? & ?). set_solver.
  - intros HB. destruct I4 as (? & ? & ? & ? & N); [set_solver|]. split_and!; [set_solver..|]. intros h. specialize (N h). set_solver.
  - intros HB. etrans; [apply I5; clear -HB; set_solver|]. clear. set_solver.
  - rewrite decide_False by set_solver. set_solver.
  - congruence.
  - intros e k key E Hn Ha. apply elem_of_union_r. eapply I8; [done| |done]. clear -Hn. set_solver.
  - intros e H. pose proof (I9 e). set_solver.
  - intros e k key E HB H. eapply I10; [done|set_solver..].
Qed.

Lemma band_drop_inv l : LifeInv l → LifeInv (Band_drop l).
Proof.
  intros [I1 I2 I3 I4 I5 I6 I7 I8 I9 I10]. unfold Band_drop. set (hs := if lf_taken l then ∅ else {[HControl]}).
  set (ts := if lf_taken l then ∅ else {[TControl]} : gset Task).
  assert (Hhs : ∀ e, HEp e ∉ hs) by (unfold hs; destruct (lf_taken l); set_solver).
  assert (Hts : ∀ e, TEp e ∉ {[TRecv; TKeepalive]} ∪ demux_tasks ∪ ts) by (unfold ts, demux_tasks; destruct (lf_taken l); set_solver).
  split; cbn; try done.
  - intros e He. destruct (I1 e He) as (? & ? & ? & ? & ?). split_and!; [done|set_solver|done| |done]. intros [Hx|Hx]%elem_of_union; [by eapply Hts|done].
  - set_solver.
  - set_solver.
  - destruct (lf_taken l) eqn:Et; cbn in *.
    + destruct (decide (HControl ∈ lf_handles l)) as [Hc|Hc]; [rewrite decide_True by set_solver|rewrite decide_False by set_solver; set_solver].
      split; [apply I6|]. unfold ts, demux_tasks. set_solver.
    + rewrite decide_False by set_solver. set_solver.
  - intros Ht. unfold hs. rewrite Ht. set_solver.
  - intros e k key E Hn Ha. apply elem_of_union_r. eapply I8; [done| |done]. specialize (Hhs e). clear -Hn Hhs. set_solver.
  - intros e H. pose proof (I9 e). specialize (Hts e). set_solver.
  - set_solver.
Qed.

Lemma life_step_inv ev l : LifeInv l → LifeInv (life_step ev l).
Proof.
  intros I. destruct ev as [k peer id| |h|t|e|]; cbn.
  - case_decide; [by apply open_inv|done].
  - case_decide; [by apply take_inv|done].
  - case_decide; [|done]. destruct h as [| |e]; [by apply band_drop_inv| |by apply endpoint_drop_inv].
    destruct (lf_taken l) eqn:Et; [by apply control_drop_inv|done].
  - destruct (ends l t) eqn:E; [|done]. destruct (decide (t ∈ lf_running l)); [|by rewrite end_task_id]. apply end_task_inv; [done|]. by apply ends_free.
  - case_decide as Hr; [|done]. assert (He : e < lf_next l) by (destruct (decide (lf_next l ≤ e)) as [H|]; [by destruct (li_next _ I e H) as (_ & _ & ? & _)|lia]).
    assert (HM : LifeInv (end_task (TEp e) (mark_dead e l))) by (apply end_task_inv; [by apply mark_dead_inv|cbn; set_solver]).
    destruct (lf_eps l !! e) as [[[] key]|] eqn:E; try done. apply end_task_inv; [done|]. cbn. intros k' key'. rewrite E. by intros [= <- _].
  - by apply end_task_inv.
Qed.

Lemma life_run_inv evs l : LifeInv l → LifeInv (life_run evs l).
Proof. revert l. induction evs as [|ev evs IH]; intros l I; [done|]. cbn. by apply IH, life_step_inv. Qed.

(** * After the Band is gone *)

(** Nothing is opened any more. *)
Record shrinks (l l' : Life) : Prop := {
  sk_handles : lf_handles l' ⊆ lf_handles l;
  sk_running : lf_running l' ⊆ lf_running l;
  sk_aborted : lf_aborted l ⊆ lf_aborted l';
  sk_eps : lf_eps l' = lf_eps l;
  sk_routes : lf_routes l' = lf_routes l;
}.

#[global] Instance shrinks_preorder : PreOrder shrinks.
Proof. split; [by split|]. intros x y z [] []. split; try congruence; by etrans. Qed.

Lemma life_step_shrinks ev l : HBand ∉ lf_handles l → shrinks l (life_step ev l).
Proof.
  intros HB. assert (Hend : ∀ t, shrinks l (end_task t l)) by (intros t; split; cbn; set_solver).
  assert (Hdrop : ∀ hs ts, shrinks l (drop_handles hs ts l)) by (intros hs ts; split; cbn; set_solver).
  destruct ev as [k peer id| |h|t|e|]; cbn.
  - by rewrite decide_False.
  - by rewrite decide_False.
  - case_decide; [|done]. destruct h; [apply Hdrop| |apply Hdrop]. destruct (lf_taken l); [apply Hdrop|done].
  - by destruct (ends l t).
  - case_decide; [|done]. assert (HM : shrinks l (end_task (TEp e) (mark_dead e l))) by (split; cbn; set_solver).
    destruct (lf_eps l !! e) as [[[] key]|]; done.
  - apply Hend.
Qed.

Lemma life_run_shrinks evs l : HBand ∉ lf_handles l → shrinks l (life_run evs l).
Proof.
  revert l. induction evs as [|ev evs IH]; intros l HB; [done|]. cbn. pose proof (life_step_shrinks ev l HB) as S1.
  etrans; [exact S1|]. apply IH. destruct S1. set_solver.
Qed.

(** What is not referred to stays so. *)
Lemma exists_mono {A} `{Countable A} (P : A → Prop) `{∀ x, Decision (P x)} (X Y : gset A) :
  X ⊆ Y → bool_decide (set_Exists P X) = true → bool_decide (set_Exists P Y) = true.
Proof. intros Hs [x [Hx Px]]%bool_decide_eq_true. apply bool_decide_eq_true. exists x. set_solver. Qed.

Lemma alive_mono l l' : shrinks l l' → socket_alive l' = true → socket_alive l = true.
Proof.
  intros [Hh Hr _ He _]. unfold socket_alive, transport_alive, handle_transport. rewrite He, !orb_true_iff. intros [[E|E]|E].
  - left; left. by eapply exists_mono.
  - left; right. by eapply exists_mono.
  - right. apply bool_decide_eq_true in E. apply bool_decide_eq_true. set_solver.
Qed.

Lemma member_mono {A} `{Countable A} (x : A) (X Y : gset A) : X ⊆ Y → bool_decide (x ∈ X) = true → bool_decide (x ∈ Y) = true.
Proof. intros Hs E%bool_decide_eq_true. apply bool_decide_eq_true. set_solver. Qed.

Lemma rebase_mono l l' : shrinks l l' → rebase_open l' = true → rebase_open l = true.
Proof. intros [Hh Hr _ _ _]. unfold rebase_open. rewrite !orb_true_iff. intros [E|E]; [left|right]; by eapply member_mono. Qed.

Lemma inbound_mono e key l l' : shrinks l l' → inbound_open e key l' = true → inbound_open e key l = true.
Proof.
  intros [Hh Hr _ _ Hk]. unfold inbound_open, senders_alive. rewrite Hk, !andb_true_iff, !orb_true_iff.
  intros [[E|E] ?]; (split; [|done]); [left|right]; by eapply member_mono.
Qed.

Lemma negb_mono (b b' : bool) : (b' = true → b = true) → negb b = true → negb b' = true.
Proof. destruct b, b'; auto. Qed.

(** A task that is to end stays so. *)
Lemma ends_mono l l' t : shrinks l l' → ends l t = true → ends l' t = true.
Proof.
  intros Sh. pose proof Sh as [Hh Hr Ha He Hk]. pose proof (negb_mono _ _ (alive_mono l l' Sh)) as closed_alive.
  pose proof (negb_mono _ _ (rebase_mono l l' Sh)) as closed_rebase. pose proof (λ e key, negb_mono _ _ (inbound_mono e key l l' Sh)) as closed_inbound. unfold ends. rewrite !orb_true_iff. intros [E|E].
  - left. by eapply member_mono.
  - right. rewrite He. destruct t as [| | |h|e]; try done.
    + by apply closed_alive.
    + destruct h; rewrite ?orb_true_iff in *; try (destruct E as [E|E]; [left|right]); auto.
    + destruct (lf_eps l !! e) as [[k key]|]; [|done].
      assert (Hgone : bool_decide (HEp e ∉ lf_handles l) = true → bool_decide (HEp e ∉ lf_handles l') = true).
      { intros G%bool_decide_eq_true. apply bool_decide_eq_true. set_solver. }
      destruct k; rewrite orb_true_iff in *; (destruct E as [E|E]; [left|right]); auto.
Qed.

Lemma turn_ends evs l t : HBand ∉ lf_handles l → ends l t = true → LTurn t ∈ evs → t ∉ lf_running (life_run evs l).
Proof.
  revert l. induction evs as [|ev evs IH]; intros l HB E Hin; [by apply not_elem_of_nil in Hin|]. cbn.
  pose proof (life_step_shrinks ev l HB) as S1. assert (HB' : HBand ∉ lf_handles (life_step ev l)) by (destruct S1; set_solver).
  apply elem_of_cons in Hin as [<-|Hin]; [|apply IH; [done|by eapply ends_mono|done]].
  pose proof (life_run_shrinks evs _ HB') as [_ Hr _ _ _]. intros H. apply Hr in H. cbn in H. rewrite E in H. cbn in H. set_solver.
Qed.

Lemma life_run_app a b l : life_run (a ++ b) l = life_run b (life_run a l).
Proof. revert l. induction a as [|ev a IH]; intros l; [done|]. cbn. apply IH. Qed.

(** Two turns of each task end all but the control task. *)
Lemma two_turns evs1 evs2 l :
  LifeInv l → HBand ∉ lf_handles l → (∀ t, t ∈ lf_running l → LTurn t ∈ evs1 ∧ LTurn t ∈ evs2) →
  ∀ t, t ∈ lf_running (life_run evs2 (life_run evs1 l)) → t = TControl.
Proof.
  intros I HB Ht t Hr. set (l1 := life_run evs1 l) in *. pose proof (life_run_shrinks evs1 l HB) as S1. fold l1 in S1.
  assert (HB1 : HBand ∉ lf_handles l1) by (destruct S1; set_solver). pose proof (life_run_inv evs1 l I) as I1. fold l1 in I1.
  pose proof (life_run_shrinks evs2 l1 HB1) as S2.
  assert (Ht1 : t ∈ lf_running l1) by (by apply (sk_running _ _ S2)). assert (Ht0 : t ∈ lf_running l) by (by apply (sk_running _ _ S1)).
  destruct (Ht t Ht0) as [Hin1 Hin2]. pose proof (li_dropped _ I HB) as Hab.
  assert (Hno : t ∈ {[TRecv; TKeepalive]} ∪ demux_tasks → False).
  { intros Hx. apply (turn_ends evs1 l t HB); [|done|done]. unfold ends. by rewrite (bool_decide_true (t ∈ lf_aborted l)) by (by apply Hab). }
  destruct t as [| | |h|e]; [exfalso; apply Hno; set_solver..|done|exfalso; apply Hno, elem_of_union_r, elem_of_demux|].
  exfalso. apply (turn_ends evs2 l1 (TEp e) HB1); [|done|done]. destruct (li_eps _ I1 e Ht1) as (k & key & Ek & Hh).
  assert (Hclosed : inbound_open e key l1 = false).
  { unfold inbound_open, senders_alive. rewrite bool_decide_false by done. rewrite (bool_decide_false (TDemux _ ∈ _)); [done|]. intros Hd.
    assert (Hd0 : TDemux key.1 ∈ lf_running l) by (by apply (sk_running _ _ S1)).
    apply (turn_ends evs1 l (TDemux key.1) HB); [|by apply Ht|done]. unfold ends.
    by rewrite (bool_decide_true (TDemux _ ∈ lf_aborted l)) by (apply Hab, elem_of_union_r, elem_of_demux). }
  unfold ends. rewrite Ek, Hclosed. destruct k; by rewrite !orb_true_r.
Qed.

(** ** Properties *)

(** C6: a live Band is served. Whatever was opened, dropped, taken and run since it was
    bound, while a Band is there its receive loop and the demultiplexers of its four hubs
    run, the socket and the restart broadcast are open and the control task runs exactly
    as long as its channel is held; every Board and Drop endpoint whose id was not opened
    again has its task, unless a panic has stopped that task, and no task of these ends
    in its next turn. A panic of one of them stops no other task. *)
Theorem band_is_served (auto : bool) (evs : list life_event) :
  let l := life_run evs (Life_bind auto) in
  HBand ∈ lf_handles l →
  socket_alive l = true ∧ rebase_open l = true
  ∧ (∀ t, t = TRecv ∨ (∃ h, t = TDemux h) ∨ (t = TControl ∧ HControl ∈ lf_handles l)
       ∨ (∃ e k key, t = TEp e ∧ HEp e ∈ lf_handles l ∧ lf_eps l !! e = Some (k, key) ∧ lf_routes l !! key = Some e ∧ ep_aborts k = true
            ∧ e ∉ lf_dead l) →
     t ∈ lf_running l ∧ ends l t = false)
  ∧ (HControl ∉ lf_handles l → ends l TControl = true)
  ∧ ∀ e t, t ≠ TEp e → t ∈ lf_running (life_step (LDead e) l) ↔ t ∈ lf_running l.
Proof.
  intros l HB. pose proof (life_run_inv evs _ (Life_bind_inv auto)) as I. fold l in I.
  split_and!; [unfold socket_alive; by rewrite band_transport_alive|unfold rebase_open; by rewrite bool_decide_true| | |].
  - intros t Ht. assert (Hr : t ∈ lf_running l ∧ ¬ free_task l t).
    { destruct (li_band _ I HB) as (R & D & _). destruct Ht as [-> |[[h ->]|[[-> Hc]|(e & k & key & -> & He & Ek & Hk & Ha & Hd)]]]; cbn.
      - by split; [|intros ?].
      - split; [apply D, elem_of_demux|by intros ?].
      - pose proof (li_control _ I) as HC. rewrite decide_True in HC by done. split; [apply HC|by intros ?].
      - split; [by eapply li_fed|]. intros Hf. rewrite (Hf k key) in Ha by done. done. }
    destruct Hr as [Hr Hf]. split; [done|]. apply not_true_iff_false. intros E. apply Hf. by apply ends_free.
  - intros Hc. pose proof (li_control _ I) as HC. rewrite decide_False in HC by done. unfold ends. by rewrite bool_decide_true.
  - intros e t Hne. cbn. case_decide; [|done]. destruct (lf_eps l !! e) as [[[] key]|]; cbn; set_solver.
Qed.

(** C7: dropping a Band stops its tasks. Once it has been dropped, whatever is dropped
    after it, each task that still runs is over after two turns of every task, the
    control task excepted: it is over too unless its channel was taken out of the Band
    and is still held, and as long as it is held it runs and keeps the socket. With the
    tasks over, the socket is open exactly as long as a Stream or Board endpoint or a
    sender of a Drop is held; when no handle is left it is closed. *)
Theorem band_drop_stops_tasks (auto : bool) (evs evs1 evs2 : list life_event) :
  let l := life_run evs (Life_bind auto) in
  let l' := life_run (evs1 ++ evs2) l in
  HBand ∉ lf_handles l → (∀ t, t ∈ lf_running l → LTurn t ∈ evs1 ∧ LTurn t ∈ evs2) →
  lf_running l' ⊆ {[TControl]}
  ∧ (HControl ∈ lf_handles l' → TControl ∈ lf_running l' ∧ socket_alive l' = true)
  ∧ (HControl ∉ lf_handles l → lf_running l' = ∅
     ∧ (socket_alive l' = true ↔ ∃ e k key, HEp e ∈ lf_handles l' ∧ lf_eps l' !! e = Some (k, key) ∧ ep_transport k = true)).
Proof.
  intros l l' HB Ht. pose proof (life_run_inv evs _ (Life_bind_inv auto)) as I. fold l in I. unfold l'. rewrite life_run_app.
  pose proof (two_turns evs1 evs2 l I HB Ht) as Hgone. rewrite <- life_run_app in *. fold l' in Hgone |- *.
  pose proof (life_run_inv (evs1 ++ evs2) l I) as I'. fold l' in I'. pose proof (life_run_shrinks (evs1 ++ evs2) l HB) as Sh. fold l' in Sh.
  split_and!; [set_solver| |].
  - intros Hc. pose proof (li_control _ I') as HC. rewrite decide_True in HC by done. split; [apply HC|].
    unfold socket_alive. by rewrite (control_transport_alive l') by apply HC.
  - intros Hc. pose proof (li_control _ I) as HC. rewrite decide_False in HC by done.
    assert (Hrun : lf_running l' = ∅).
    { apply set_eq. intros t. split; [|set_solver]. intros Hr. pose proof (Hgone t Hr) as ->. exfalso.
      apply (turn_ends (evs1 ++ evs2) l TControl HB); [unfold ends; by rewrite bool_decide_true| |done].
      apply elem_of_app. left. apply Ht. by apply (sk_running _ _ Sh). }
    split; [done|]. unfold socket_alive, transport_alive. rewrite Hrun, !orb_true_iff, !bool_decide_eq_true. split.
    + intros [[(h & Hh & E)|(t & H & _)]|H]; [|set_solver..]. destruct Sh as [S1 _ _ _ _]. destruct h as [| |e]; [set_solver..|].
      cbn in E. destruct (lf_eps l' !! e) as [[k key]|] eqn:Ek; [|done]. by exists e, k, key.
    + intros (e & k & key & He & Ek & Ek'). left; left. exists (HEp e). split; [done|]. cbn. by rewrite Ek.
Qed.

(** A Band with one endpoint of each kind, a Channel opened twice. *)
Definition sample_life : list life_event :=
  [LOpen StreamEndpoint "b" 1; LOpen ChannelEndpoint "b" 2; LOpen BoardEndpoint "b" 3; LOpen DropSender "b" 4; LOpen DropReceiver "b" 5;
   LOpen ChannelEndpoint "b" 2; LTurn (TEp 1); LTurn (TDemux BoardHub); LDead 4].

Definition all_turns : list life_event :=
  [LTurn TRecv; LTurn TKeepalive; LTurn TControl; LTurn (TEp 5); LTurn (TEp 4); LTurn (TEp 3); LTurn (TEp 2); LTurn (TEp 1);
   LTurn (TDemux StreamHub); LTurn (TDemux ChannelHub); LTurn (TDemux BoardHub); LTurn (TDemux DropHub)].

Lemma band_is_served_witness :
  let l := life_run sample_life (Life_bind true) in
  HBand ∈ lf_handles l ∧ socket_alive l = true ∧ TDemux BoardHub ∈ lf_running l ∧ ends l (TEp 3) = false ∧ TEp 1 ∉ lf_running l
  ∧ TEp 4 ∉ lf_running l.
Proof.
  cbv zeta. assert (HB : HBand ∈ lf_handles (life_run sample_life (Life_bind true))) by (refine (bool_decide_unpack _ _); vm_compute; exact I).
  destruct (band_is_served true sample_life HB) as (H1 & _ & H3 & _). split_and!; [exact HB|exact H1| | | |].
  - apply H3. right; left. by exists BoardHub.
  - apply H3. do 3 right. exists 3, DropSender, (route_key DropSender "b" 4). split_and!; [reflexivity|refine (bool_decide_unpack _ _); vm_compute; exact I|vm_compute; reflexivity|vm_compute; reflexivity|reflexivity|].
    refine (bool_decide_unpack _ _). vm_compute. exact I.
  - refine (bool_decide_unpack _ _). vm_compute. exact I.
  - refine (bool_decide_unpack _ _). vm_compute. exact I.
Defined.

(** The Band and a Board endpoint dropped, the other endpoints held. *)
Definition sample_drops : list life_event := sample_life ++ [LDrop (HEp 2); LDrop HBand].

#[local] Instance life_event_eq_dec : EqDecision life_event.
Proof. solve_decision. Defined.

Lemma covered (l : Life) (evs : list life_event) :
  bool_decide (set_Forall (λ t, LTurn t ∈ evs) (lf_running l)) = true → ∀ t, t ∈ lf_running l → LTurn t ∈ evs ∧ LTurn t ∈ evs.
Proof. intros H%bool_decide_eq_true t Ht. split; by apply H. Qed.

Lemma band_drop_stops_tasks_witness :
  let l' := life_run (all_turns ++ all_turns) (life_run sample_drops (Life_bind true)) in
  lf_running l' = ∅ ∧ socket_alive l' = true ∧ HEp 0 ∈ lf_handles l'.
Proof.
  cbv zeta. destruct (band_drop_stops_tasks true sample_drops all_turns all_turns) as (_ & _ & H3).
  - refine (bool_decide_unpack _ _). vm_compute. exact I.
  - apply covered. vm_compute. reflexivity.
  - destruct H3 as [Hr Hs]; [refine (bool_decide_unpack _ _); vm_compute; exact I|]. split_and!; [exact Hr| |refine (bool_decide_unpack _ _); vm_compute; exact I].
    apply Hs. exists 0, StreamEndpoint, (route_key StreamEndpoint "b" 1). split_and!; [refine (bool_decide_unpack _ _); vm_compute; exact I|by vm_compute|done].
Defined.

(** With the control channel taken and held, the tasks do not all stop and the socket is
    not released. *)
Lemma taken_control_outlives_band :
  let l' := life_run (LTakeControl :: LDrop HBand :: all_turns ++ all_turns) (Life_bind true) in
  lf_running l' = {[TControl]} ∧ socket_alive l' = true
  ∧ socket_alive (life_run [LDrop HControl; LTurn TControl] l') = false.
Proof. cbv zeta. split_and!; [refine (bool_decide_unpack _ _); vm_compute; exact I|by vm_compute..]. Qed.

(** The test of [band.rs] that a dropped Band releases its socket: every kind of hub is
    opened, the endpoints are dropped at once and the Band after them, and each task has a
    turn twice. *)
Definition dropped_band_releases_its_socket : bool :=
  negb (socket_alive (life_run
    ([LOpen StreamEndpoint "a" 1; LDrop (HEp 0); LOpen ChannelEndpoint "a" 2; LDrop (HEp 1); LOpen BoardEndpoint "" 3; LDrop (HEp 2); LDrop HBand]
     ++ all_turns ++ all_turns) (Life_bind true))).

Lemma dropped_band_test_passes : dropped_band_releases_its_socket = true.
Proof. by vm_compute. Qed.
