(* ===== verification/Discovery.v ===== *)
(** LAN discovery ([rust/telesthete/src/discovery.rs]): the announce datagram
    and the bounded set of peers already reported. Hostnames are the bytes of
    Rust strings, checked as [std::str::from_utf8] does. *)

From S2P Require Import Prelude Framing.

Definition MAGIC : bytes := str_bytes "TELE".
Definition DISCOVERY_PORT : Z := 9998.
Definition BROADCAST_INTERVAL : Z := from_secs 5.
Definition MAX_SEEN : nat := 4096.

(** Well-formed UTF-8. *)
Definition in_range (lo hi : Z) (b : byte) : bool := (lo <=? b2z b)%Z && (b2z b <=? hi)%Z.
Definition cont (b : byte) : bool := in_range 0x80 0xBF b.

Fixpoint valid_utf8 (l : bytes) : bool :=
  match l with
  | [] => true
  | b :: l1 =>
      if in_range 0x00 0x7F b then valid_utf8 l1 else
      match l1 with
      | [] => false
      | b1 :: l2 =>
          if in_range 0xC2 0xDF b then cont b1 && valid_utf8 l2 else
          match l2 with
          | [] => false
          | b2 :: l3 =>
              let second :=
                if in_range 0xE0 0xE0 b then in_range 0xA0 0xBF b1
                else if in_range 0xED 0xED b then in_range 0x80 0x9F b1
                else in_range 0xE1 0xEF b && cont b1 in
              if in_range 0xE0 0xEF b then second && cont b2 && valid_utf8 l3 else
              match l3 with
              | [] => false
              | b3 :: l4 =>
                  let second :=
                    if in_range 0xF0 0xF0 b then in_range 0x90 0xBF b1
                    else if in_range 0xF4 0xF4 b then in_range 0x80 0x8F b1
                    else in_range 0xF1 0xF3 b && cont b1 in
                  second && cont b2 && cont b3 && valid_utf8 l4
              end
          end
      end
  end.

(** ** The announce *)

Definition pack_announce (hostname : bytes) (port : Z) : bytes :=
  let hb := take 255 hostname in
  MAGIC ++ [z2b PROTOCOL_VERSION] ++ [z2b (len hb)] ++ hb ++ to_be_bytes 2 port.

Definition parse_announce (data : bytes) : option (bytes * Z) :=
  if decide (length data < 8 ∨ slice 0 4 data ≠ MAGIC ∨ slice 4 5 data ≠ [z2b PROTOCOL_VERSION]) then None else
  let hostname_len := Z.to_nat (from_be_bytes (slice 5 6 data)) in
  let end_ := 6 + hostname_len in
  if decide (length data < end_ + 2) then None else
  let hostname := slice 6 end_ data in
  if valid_utf8 hostname then Some (hostname, from_be_bytes (slice end_ (end_ + 2) data)) else None.

(** ** The receive task *)

Record DiscoveredPeer := mkDiscovered {
  dp_hostname : bytes;
  dp_ip : string;
  dp_port : Z;
}.

#[global] Instance DiscoveredPeer_eq_dec : EqDecision DiscoveredPeer.
Proof. solve_decision. Defined.

#[global] Instance DiscoveredPeer_countable : Countable DiscoveredPeer.
Proof.
  refine (inj_countable' (λ p, (dp_hostname p, dp_ip p, dp_port p)) (λ x, mkDiscovered x.1.1 x.1.2 x.2) _).
  by intros [].
Defined.

Record Discovery := mkDiscovery { seen : gset DiscoveredPeer; order : list DiscoveredPeer }.

(** [while order.len() > MAX_SEEN]: drop the oldest. *)
Fixpoint evict_oldest (fuel : nat) (d : Discovery) : Discovery :=
  match fuel, order d with
  | S fuel', old :: rest =>
      if decide (MAX_SEEN < length (order d)) then evict_oldest fuel' (mkDiscovery (seen d ∖ {[old]}) rest) else d
  | _, _ => d
  end.

(** One datagram from [ip]: the peer reported, if it is a new one. *)
Definition discovery_packet (own : bytes) (ip : string) (data : bytes) (d : Discovery)
    : Discovery * option DiscoveredPeer :=
  match parse_announce data with
  | None => (d, None)
  | Some (hostname, port) =>
      if decide (hostname = own) then (d, None) else
      let peer := mkDiscovered hostname ip port in
      if decide (peer ∈ seen d) then (d, None) else
      let d := mkDiscovery ({[peer]} ∪ seen d) (order d ++ [peer]) in
      (evict_oldest (length (order d)) d, Some peer)
  end.

Fixpoint discovery_run (own : bytes) (evs : list (string * bytes)) (d : Discovery)
    : Discovery * list DiscoveredPeer :=
  match evs with
  | [] => (d, [])
  | (ip, data) :: evs' =>
      let '(d, p) := discovery_packet own ip data d in
      let '(d, ps) := discovery_run own evs' d in
      (d, match p with Some p => p :: ps | None => ps end)
  end.

(** ** The service *)

(** A [Discovery]: its host's name and announce, what its receive task remembers, the
    peers its application has not taken yet, and whether its tasks run. *)
Record DiscoveryTask := mkDiscoveryTask {
  dt_own : bytes;
  dt_announce : bytes;
  dt_memory : Discovery;
  dt_found : list DiscoveredPeer;
  dt_running : bool;
}.

Definition BROADCAST_TARGET : string * Z := ("255.255.255.255", DISCOVERY_PORT).

(** [bind] once the socket is there. *)
Definition discovery_bind (hostname : bytes) (listen_port : Z) : DiscoveryTask :=
  mkDiscoveryTask hostname (pack_announce hostname listen_port) (mkDiscovery ∅ []) [] true.

(** The broadcast task, each [BROADCAST_INTERVAL]. *)
Definition broadcast_tick (t : DiscoveryTask) : option (bytes * (string * Z)) :=
  if dt_running t then Some (dt_announce t, BROADCAST_TARGET) else None.

(** The receive task: a datagram is cut to its buffer. *)
Definition receive_round (ip : string) (data : bytes) (t : DiscoveryTask) : DiscoveryTask :=
  if negb (dt_running t) then t else
  let '(d, p) := discovery_packet (dt_own t) ip (take 1024 data) (dt_memory t) in
  mkDiscoveryTask (dt_own t) (dt_announce t) d (dt_found t ++ option_list p) true.

Definition discovery_recv (t : DiscoveryTask) : DiscoveryTask * option DiscoveredPeer :=
  match dt_found t with
  | p :: rest => (mkDiscoveryTask (dt_own t) (dt_announce t) (dt_memory t) rest (dt_running t), Some p)
  | [] => (t, None)
  end.

Definition discovery_drop (t : DiscoveryTask) : DiscoveryTask :=
  mkDiscoveryTask (dt_own t) (dt_announce t) (dt_memory t) (dt_found t) false.

Inductive discovery_event := DTick | DDatagram (ip : string) (data : bytes) | DRecv.

(** A run: what was broadcast and what the application got. *)
Fixpoint discovery_service (evs : list discovery_event) (t : DiscoveryTask)
    : DiscoveryTask * list (bytes * (string * Z)) * list DiscoveredPeer :=
  match evs with
  | [] => (t, [], [])
  | ev :: evs' =>
      let '(t, out, got) := match ev with
        | DTick => (t, option_list (broadcast_tick t), [])
        | DDatagram ip data => (receive_round ip data t, [], [])
        | DRecv => let '(t, p) := discovery_recv t in (t, [], option_list p)
        end in
      let '(t, out', got') := discovery_service evs' t in (t, out ++ out', got ++ got')
  end.

(** ** Lemmas *)

Lemma parse_pack hostname port rest :
  length hostname ≤ 255 → is_u16 port → valid_utf8 hostname = true →
  parse_announce (pack_announce hostname port ++ rest) = Some (hostname, port).
Proof.
  intros Hl Hp Hv. unfold pack_announce. rewrite take_ge by lia. set (n := length hostname).
  set (pre := MAGIC ++ [z2b PROTOCOL_VERSION] ++ [z2b (len hostname)]).
  assert (Epre : (MAGIC ++ [z2b PROTOCOL_VERSION] ++ [z2b (len hostname)] ++ hostname ++ to_be_bytes 2 port) ++ rest
    = pre ++ hostname ++ to_be_bytes 2 port ++ rest) by (unfold pre; by rewrite <- !app_assoc).
  rewrite Epre. assert (Lpre : length pre = 6) by done.
  assert (Hlen : Z.to_nat (from_be_bytes [z2b (len hostname)]) = n).
  { rewrite from_be_bytes_1, b2z_z2b. unfold len. rewrite Z.mod_small by lia. lia. }
  assert (Hd : length (pre ++ hostname ++ to_be_bytes 2 port ++ rest) = 8 + n + length rest)
    by (rewrite !length_app, length_to_be_bytes, Lpre; fold n; lia).
  unfold parse_announce. rewrite decide_False.
  - replace (slice 5 6 (pre ++ hostname ++ to_be_bytes 2 port ++ rest)) with [z2b (len hostname)] by done.
    rewrite Hlen. rewrite decide_False by lia.
    rewrite !(slice_skip _ _ pre) by (rewrite Lpre; lia). rewrite Lpre.
    replace (6 - 6) with 0 by lia. rewrite (slice_head (6 + n - 6) hostname) by (fold n; lia).
    rewrite (slice_skip _ _ hostname) by (fold n; lia). fold n. replace (6 + n - 6 - n) with 0 by lia.
    rewrite slice_head by (rewrite length_to_be_bytes; lia).
    by rewrite Hv, from_to_be_u16.
  - intros [?|[H|H]]; [lia| |]; by apply H.
Qed.

(** A set and the order it was filled in. *)
Definition Discovery_wf (d : Discovery) : Prop :=
  seen d = list_to_set (order d) ∧ NoDup (order d) ∧ length (order d) ≤ MAX_SEEN.

(** One too many: the oldest goes. *)
Lemma evict_one old rest s :
  s = list_to_set (old :: rest) → NoDup (old :: rest) → length (old :: rest) = S MAX_SEEN →
  evict_oldest (length (old :: rest)) (mkDiscovery s (old :: rest)) = mkDiscovery (list_to_set rest) rest.
Proof.
  intros -> [Ho Hn]%NoDup_cons Hl. cbn [length evict_oldest order seen] in *.
  rewrite decide_True by (simpl; lia). replace (list_to_set (old :: rest) ∖ {[old]}) with (list_to_set rest : gset DiscoveredPeer).
  - destruct rest as [|x rest]; [done|]. cbn [length evict_oldest order] in *. rewrite decide_False by (simpl; lia). done.
  - apply set_eq. intros x. rewrite elem_of_difference, list_to_set_cons, elem_of_union, !elem_of_list_to_set, elem_of_singleton.
    split; [intros H; split; [by right|by intros ->]|naive_solver].
Qed.

Lemma discovery_packet_wf own ip data d :
  Discovery_wf d →
  Discovery_wf (discovery_packet own ip data d).1
  ∧ ∀ p, (discovery_packet own ip data d).2 = Some p →
      p ∉ seen d ∧ dp_hostname p ≠ own ∧ dp_ip p = ip
      ∧ order (discovery_packet own ip data d).1
        = if decide (length (order d) = MAX_SEEN) then tail (order d ++ [p]) else order d ++ [p].
Proof.
  intros (Hs & Hn & Hl). unfold discovery_packet.
  destruct (parse_announce data) as [[hostname port]|]; [|by split].
  case_decide; [by split|]. case_decide as Hin; [by split|]. cbn [fst snd].
  set (p := mkDiscovered hostname ip port) in *.
  assert (Hnew : NoDup (order d ++ [p])).
  { apply NoDup_app. split_and!; [done| |apply NoDup_singleton]. intros x Hx Hp%list_elem_of_singleton. subst x.
    apply Hin. rewrite Hs. by apply elem_of_list_to_set. }
  assert (Hset : {[p]} ∪ seen d = list_to_set (order d ++ [p])) by (rewrite Hs, list_to_set_app_L; set_solver).
  destruct (decide (length (order d) = MAX_SEEN)) as [Hfull|Hroom].
  - assert (E : ∃ old rest, order d ++ [p] = old :: rest) by (destruct (order d); simpl; eauto).
    destruct E as (old & rest & E). cbn [order]. rewrite E in *. rewrite Hset, (evict_one old rest) by
      (try done; by rewrite <- E, length_app, Hfull, Nat.add_1_r).
    split; [|intros q Hq; injection Hq as <-; fold p; rewrite E; by split_and!]. apply NoDup_cons in Hnew as [_ Hnew]. split_and!; [done|done|].
    apply (f_equal length) in E. rewrite length_app in E. simpl in *. lia.
  - assert (E : evict_oldest (length (order (mkDiscovery ({[p]} ∪ seen d) (order d ++ [p]))))
       (mkDiscovery ({[p]} ∪ seen d) (order d ++ [p])) = mkDiscovery ({[p]} ∪ seen d) (order d ++ [p])).
    { cbn [order]. destruct (order d ++ [p]) as [|x l] eqn:El; [done|]. cbn [length evict_oldest order].
      rewrite decide_False; [done|]. apply (f_equal length) in El. rewrite length_app in El. simpl in *. lia. }
    rewrite E. split; [|intros q Hq; injection Hq as <-; by split_and!]. split_and!; [done|done|]. simpl. rewrite length_app. simpl. lia.
Qed.

(** The peers of a run of datagrams, each the first time it is heard of. *)
Definition announced (own : bytes) (ev : discovery_event) : option DiscoveredPeer :=
  match ev with
  | DDatagram ip data => parse_announce (take 1024 data) ≫= λ x, if decide (x.1 = own) then None else Some (mkDiscovered x.1 ip x.2)
  | _ => None
  end.

Fixpoint firsts (before : list DiscoveredPeer) (l : list DiscoveredPeer) : list DiscoveredPeer :=
  match l with
  | [] => []
  | p :: l' => if decide (p ∈ before) then firsts before l' else p :: firsts (before ++ [p]) l'
  end.

Lemma firsts_cons before p l : firsts before (p :: l) = if decide (p ∈ before) then firsts before l else p :: firsts (before ++ [p]) l.
Proof. done. Qed.

Lemma omap_announced own ev evs :
  omap (announced own) (ev :: evs) = match announced own ev with Some p => p :: omap (announced own) evs | None => omap (announced own) evs end.
Proof. done. Qed.

(** Below the cap the memory is everything reported so far. *)
Lemma receive_announced ip data t :
  Discovery_wf (dt_memory t) → dt_running t = true →
  let before := order (dt_memory t) in
  let new := option_list (announced (dt_own t) (DDatagram ip data) ≫= λ p, if decide (p ∈ before) then None else Some p) in
  length before < MAX_SEEN ∨ new = [] →
  let t' := receive_round ip data t in
  order (dt_memory t') = before ++ new ∧ dt_found t' = dt_found t ++ new ∧ Discovery_wf (dt_memory t')
  ∧ dt_running t' = true ∧ dt_own t' = dt_own t.
Proof.
  intros W Hr. cbn zeta. intros Hroom. unfold receive_round. rewrite Hr. cbn [negb announced] in *.
  pose proof (discovery_packet_wf (dt_own t) ip (take 1024 data) (dt_memory t) W) as [W' Hnew].
  unfold discovery_packet in *. destruct (parse_announce (take 1024 data)) as [[hostname port]|]; cbn [mbind option_bind fst snd] in *;
    [|cbn; by rewrite !app_nil_r].
  destruct (decide (hostname = dt_own t)); [cbn; by rewrite !app_nil_r|]. cbn [mbind option_bind] in *.
  set (p := mkDiscovered hostname ip port) in *. destruct W as (Hs & Hn & Hl).
  assert (Hin : p ∈ seen (dt_memory t) ↔ p ∈ order (dt_memory t)) by (rewrite Hs; apply elem_of_list_to_set).
  destruct (decide (p ∈ seen (dt_memory t))) as [Hp|Hp]; cbn [fst snd] in *.
  - rewrite decide_True by (by apply Hin). cbn. by rewrite !app_nil_r.
  - rewrite decide_False in * by (by rewrite <- Hin). destruct (Hnew p eq_refl) as (_ & _ & _ & Ho). cbn [option_list] in *.
    destruct Hroom as [Hroom|]; [|done]. rewrite decide_False in Ho by lia. split_and!; [exact Ho|done|exact W'|done|done].
Qed.

Lemma service_found evs : ∀ t,
  Discovery_wf (dt_memory t) → dt_running t = true →
  let new := firsts (order (dt_memory t)) (omap (announced (dt_own t)) evs) in
  length (order (dt_memory t) ++ new) ≤ MAX_SEEN →
  let '(t', _, got) := discovery_service evs t in got ++ dt_found t' = dt_found t ++ new.
Proof.
  induction evs as [|ev evs IH]; intros t W Hr new Hl; [cbn; by rewrite app_nil_r|]. unfold new in *. clear new. cbn [discovery_service].
  destruct ev as [|ip data|].
  - specialize (IH t W Hr Hl). by destruct (discovery_service evs t) as [[t' out] got].
  - rewrite omap_announced in Hl |- *. pose proof (receive_announced ip data t W Hr) as HR. cbn zeta in HR.
    destruct (announced (dt_own t) (DDatagram ip data)) as [p|]; cbn [mbind option_bind] in HR.
    + rewrite firsts_cons in Hl |- *. destruct (decide (p ∈ order (dt_memory t))) as [Hp|Hp].
      * destruct HR as (Ho & Hf & W' & Hr' & Eo); [by right|]. cbn in Ho, Hf. rewrite app_nil_r in Ho, Hf.
        specialize (IH (receive_round ip data t) W' Hr'). cbn zeta in IH. rewrite Ho, Hf, Eo in IH. specialize (IH Hl).
        by destruct (discovery_service evs _) as [[t' out] got].
      * rewrite length_app in Hl. cbn [length] in Hl. destruct HR as (Ho & Hf & W' & Hr' & Eo); [left; lia|]. change (option_list (Some p)) with [p] in Ho, Hf.
        specialize (IH (receive_round ip data t) W' Hr'). cbn zeta in IH. rewrite Ho, Hf, Eo in IH. rewrite !length_app in IH. cbn [length] in IH.
        specialize (IH ltac:(lia)). destruct (discovery_service evs _) as [[t' out] got]. cbn. rewrite IH, <- app_assoc. done.
    + destruct HR as (Ho & Hf & W' & Hr' & Eo); [by right|]. cbn in Ho, Hf. rewrite app_nil_r in Ho, Hf.
      specialize (IH (receive_round ip data t) W' Hr'). cbn zeta in IH. rewrite Ho, Hf, Eo in IH. specialize (IH Hl).
      by destruct (discovery_service evs _) as [[t' out] got].
  - unfold discovery_recv. destruct (dt_found t) as [|p rest] eqn:Ef.
    + specialize (IH t W Hr Hl). destruct (discovery_service evs t) as [[t' out] got]. cbn. by rewrite IH, Ef.
    + specialize (IH (mkDiscoveryTask (dt_own t) (dt_announce t) (dt_memory t) rest (dt_running t)) W Hr Hl).
      destruct (discovery_service evs _) as [[t' out] got]. cbn in *. by rewrite IH.
Qed.

Lemma service_sends evs : ∀ t, Forall (λ x, x.2 = BROADCAST_TARGET ∧ x.1 = dt_announce t) (discovery_service evs t).1.2.
Proof.
  induction evs as [|ev evs IH]; intros t; [constructor|]. cbn [discovery_service].
  destruct ev as [|ip data|]; [|set (t1 := receive_round ip data t)|set (t1 := (discovery_recv t).1)].
  - specialize (IH t). destruct (discovery_service evs t) as [[t' out] got]. cbn in *. unfold broadcast_tick.
    destruct (dt_running t); [|done]. by constructor.
  - assert (E1 : dt_announce t1 = dt_announce t).
    { unfold t1, receive_round. destruct (negb _); [done|]. by destruct (discovery_packet _ _ _ _). }
    specialize (IH t1). rewrite E1 in IH. by destruct (discovery_service evs t1) as [[t' out] got].
  - assert (E1 : dt_announce t1 = dt_announce t) by (unfold t1, discovery_recv; by destruct (dt_found t)).
    specialize (IH t1). rewrite E1 in IH. unfold t1 in IH. destruct (discovery_recv t) as [t2 p]. cbn in IH |- *.
    by destruct (discovery_service evs t2) as [[t' out] got].
Qed.

(** ** Properties *)

(** An announce round-trips, trailing bytes and all, for every hostname of
    at most 255 bytes. *)
Theorem announce_roundtrip hostname port rest :
  length hostname ≤ 255 → is_u16 port → valid_utf8 hostname = true →
  parse_announce (pack_announce hostname port ++ rest) = Some (hostname, port).
Proof. apply parse_pack. Qed.

(** The truncation of a longer hostname can cut a character in two, and
    the announce is then one that no peer accepts. *)
Theorem truncated_hostname_unparsable :
  ∃ hostname, valid_utf8 hostname = true ∧ ∀ port, parse_announce (pack_announce hostname port) = None.
Proof.
  exists (replicate 254 Byte.x61 ++ [Byte.xc3; Byte.xa9]). split; [by vm_compute|].
  intros port. unfold parse_announce. case_decide; [done|]. cbv zeta.
  replace (Z.to_nat (from_be_bytes (slice 5 6 (pack_announce (replicate 254 Byte.x61 ++ [Byte.xc3; Byte.xa9]) port))))
    with 255 by done.
  case_decide; [done|]. replace (valid_utf8 _) with false; [done|]. by vm_compute.
Qed.

(** Discovery reports a peer once. After any run of datagrams the memory
    holds at most 4096 distinct peers, and a datagram is reported only for a
    peer that is neither this host nor in that memory. *)
Theorem discovery_reports_new own evs ip data :
  let d := (discovery_run own evs (mkDiscovery ∅ [])).1 in
  Discovery_wf d
  ∧ ∀ p, (discovery_packet own ip data d).2 = Some p →
      p ∉ order d ∧ dp_hostname p ≠ own ∧ p ∈ order (discovery_packet own ip data d).1.
Proof.
  cbv zeta. assert (W : ∀ d, Discovery_wf d → Discovery_wf (discovery_run own evs d).1).
  { induction evs as [|[ip' data'] evs IH]; intros d W; simpl; [done|].
    pose proof (proj1 (discovery_packet_wf own ip' data' d W)) as W1. destruct (discovery_packet _ _ _ d) as [d1 p].
    specialize (IH d1 W1). by destruct (discovery_run own evs d1). }
  assert (W0 : Discovery_wf (mkDiscovery ∅ [])) by (split_and!; [done|apply NoDup_nil_2|simpl; lia]).
  specialize (W _ W0). split; [done|]. intros p Hp. destruct (discovery_packet_wf own ip data _ W) as [W' Hnew].
  destruct (Hnew p Hp) as (H1 & H2 & H3 & H4). split_and!; [|done|].
  - destruct W as (Es & _). rewrite Es in H1. by rewrite elem_of_list_to_set in H1.
  - rewrite H4. case_decide as Hd; [|set_solver].
    destruct (order (discovery_run own evs (mkDiscovery ∅ [])).1); [done|]. simpl. set_solver.
Qed.

(** C31: discovery finds the hosts of the network. Whatever datagrams arrive, between
    whatever broadcasts and whenever the application asks, the peers it has been given
    and those still waiting for it are exactly the other hosts that announced
    themselves, in the order they were first heard of and each once, as long as they
    are no more than 4096; and every broadcast is an announce the others can read. *)
Theorem lan_discovery (own : bytes) (port : Z) (evs : list discovery_event) :
  length own ≤ 255 → is_u16 port → valid_utf8 own = true →
  let '(t, sent, got) := discovery_service evs (discovery_bind own port) in
  let heard := firsts [] (omap (announced own) evs) in
  (length heard ≤ MAX_SEEN → got ++ dt_found t = heard)
  ∧ Forall (λ x, x.2 = BROADCAST_TARGET ∧ ∀ other ip, other ≠ own → announced other (DDatagram ip x.1) = Some (mkDiscovered own ip port)) sent.
Proof.
  intros Ho Hp Hv. pose proof (service_found evs (discovery_bind own port)) as H. cbn zeta in H. cbn [discovery_bind dt_memory order dt_own dt_running dt_found] in H.
  pose proof (service_sends evs (discovery_bind own port)) as Hout. cbn [discovery_bind dt_announce] in Hout.
  destruct (discovery_service evs (discovery_bind own port)) as [[t sent] got]. split.
  - intros Hl. apply H; [|done|done]. split_and!; [done|apply NoDup_nil_2|simpl; lia].
  - eapply Forall_impl; [exact Hout|]. intros [d target] [-> Hd]. cbn in Hd. subst d. split; [done|]. intros other ip Hne. cbn [announced fst].
    pose proof (parse_pack own port [] Ho Hp Hv) as E. rewrite app_nil_r in E.
    assert (Hlen : length (pack_announce own port) ≤ 263)
      by (unfold pack_announce; cbv zeta; rewrite !length_app, length_to_be_bytes, length_take; change (length MAGIC) with 4; cbn [length]; lia).
    rewrite (take_ge (pack_announce own port)) by (etrans; [exact Hlen|]; apply Nat.leb_le; reflexivity). rewrite E. cbn.
    by rewrite decide_False.
Qed.

(** A host whose name is longer than an announce can carry reports itself. *)
Lemma long_hostname_discovers_itself :
  ∃ own, valid_utf8 own = true ∧ ∀ ip, announced own (DDatagram ip (dt_announce (discovery_bind own 9000))) = Some (mkDiscovered (take 255 own) ip 9000).
Proof. exists (replicate 256 Byte.x61). split; [by vm_compute|]. intros ip. by vm_compute. Qed.

Lemma announce_roundtrip_witness :
  parse_announce (pack_announce (str_bytes "cafe") 9000 ++ [Byte.x01]) = Some (str_bytes "cafe", 9000%Z).
Proof.
  apply (announce_roundtrip (str_bytes "cafe") 9000 [Byte.x01]).
  - simpl. lia.
  - by vm_compute.
  - reflexivity.
Defined.

Lemma lan_discovery_witness :
  let d := DDatagram "10.0.0.2" (pack_announce (str_bytes "bob") 7) in
  (discovery_service [DTick; d; DRecv; d; DRecv] (discovery_bind (str_bytes "alice") 9)).2 = [mkDiscovered (str_bytes "bob") "10.0.0.2" 7].
Proof.
  cbv zeta. pose proof (lan_discovery (str_bytes "alice") 9
    (let d := DDatagram "10.0.0.2" (pack_announce (str_bytes "bob") 7) in [DTick; d; DRecv; d; DRecv])) as H.
  assert (E : dt_found (discovery_service
    (let d := DDatagram "10.0.0.2" (pack_announce (str_bytes "bob") 7) in [DTick; d; DRecv; d; DRecv]) (discovery_bind (str_bytes "alice") 9)).1.1 = [])
    by (by vm_compute). cbv zeta in H, E.
  destruct (discovery_service _ _) as [[t sent] got]. cbn in E |- *. destruct H as [H _].
  - simpl. lia.
  - by vm_compute.
  - reflexivity.
  - rewrite E, app_nil_r in H. rewrite H; [by vm_compute|]. apply Nat.leb_le. by vm_compute.
Defined.
