(* ===== verification/PacketTests.v ===== *)
(** The tests of [crypto.rs], [framing.rs], [transport.rs], [unix_transport.rs] and
    [discovery.rs] of [rust/telesthete/src], and those of the choice of cipher in
    [control.rs], replayed against the model with a fast stand-in for the primitives.
    They exercise what the code does around the primitives; the tests that pin the values
    of the real ones, and those that parse literal JSON, are left out. *)

From S2P Require Import Prelude Crypto Framing StreamWire Transport UnixTransport Discovery WireTests.

(** A keyed checksum as the tag. *)
Definition loop_sum (h : Z) (m : bytes) : Z := foldl (λ h b, Z.land (h * 33 + b2z b + 1) (2 ^ 32 - 1))%Z h m.
Definition loop_tag (k n a m : bytes) : bytes := to_be_bytes 16 (loop_sum 0 (k ++ n ++ a) + foldl (λ h b, h + b2z b) 0 m)%Z.
Definition loop_seal (k n a m : bytes) : option bytes := Some (m ++ loop_tag k n a m).
Definition loop_open (k n a c : bytes) : option bytes :=
  let m := take (length c - 16) c in
  if bool_decide (drop (length c - 16) c = loop_tag k n a m) then Some m else None.

(** The checksum at both ends of the hash. *)
Definition loop_hash (n : nat) (m : bytes) : bytes := let h := loop_sum 0 m in to_be_bytes n (h * 2 ^ (Z.of_nat n * 8 - 32) + h)%Z.

Definition loop_crates : Crates := {|
  chacha_encrypt := loop_seal;
  chacha_decrypt := loop_open;
  aes_new_from_slice k := Nat.eqb (length k) 32;
  aes_encrypt := loop_seal;
  aes_decrypt := loop_open;
  sha256 := loop_hash 32;
  hkdf_sha256 salt ikm info n := loop_hash n (salt ++ ikm ++ info);
|}.
#[local] Existing Instance loop_crates.

Definition fails {A E} (r : result A E) : outcome () := assert (match r with Ok _ => false | Err _ => true end).
Definition differ {A} `{EqDecision A} (x y : A) : outcome () := assert (bool_decide (x ≠ y)).

(** * Keys and the AEAD *)

Definition TEST_PSK : bytes := str_bytes "my-secret-key".

Definition band_id_deterministic : bool := passes (
  assert_eq (derive_band_id TEST_PSK) (derive_band_id TEST_PSK);;
  differ (derive_band_id TEST_PSK) (derive_band_id (str_bytes "different-psk"))).

Definition key_deterministic_and_different_from_band_id : bool := passes (
  let key := derive_key TEST_PSK in
  assert_eq key (derive_key TEST_PSK);;
  differ (take BAND_ID_LEN key) (derive_band_id TEST_PSK)).

Definition crypto_round_trip : bool := passes (
  let key := derive_key TEST_PSK in
  let aad := build_aad 1 0xBEEF in
  let plaintext := str_bytes "hello world" in
  ct ← ok (encrypt key 1 aad plaintext);
  assert_eq (length ct) (length plaintext + TAG_LEN);;
  pt ← ok (decrypt key 1 aad ct);
  assert_eq pt plaintext).

Definition wrong_seq_fails : bool := passes (
  let key := derive_key TEST_PSK in
  ct ← ok (encrypt key 1 (build_aad 1 0) (str_bytes "abc"));
  fails (decrypt key 2 (build_aad 1 0) ct)).

Definition wrong_aad_fails : bool := passes (
  let key := derive_key TEST_PSK in
  ct ← ok (encrypt key 1 (build_aad 1 0) (str_bytes "abc"));
  fails (decrypt key 1 (build_aad 2 0) ct)).

Definition wrong_key_fails : bool := passes (
  ct ← ok (encrypt (derive_key (str_bytes "psk-a")) 1 (build_aad 1 0) (str_bytes "abc"));
  fails (decrypt (derive_key (str_bytes "psk-b")) 1 (build_aad 1 0) ct)).

(** * Packets *)

Definition header_round_trip : bool := passes (
  let h := mkHeader (replicate BAND_ID_LEN Byte.x07) Stream 0xBEEF 0x0123456789ABCDEF in
  '(buf, off) ← Header_write h (replicate HEADER_LEN Byte.x00);
  assert_eq off HEADER_LEN;;
  parsed ← ok (Header_parse buf);
  assert_eq parsed h).

Definition header_unknown_channel_type : bool := passes (
  let buf := <[16 := Byte.xff]> (replicate HEADER_LEN Byte.x00) in
  assert (match Header_parse buf with Err (UnknownChannelType b) => (b =? 0xFF)%Z | _ => false end)).

Definition PSK : bytes := str_bytes "telesthete-test-psk".

Definition packet_round_trip : bool := passes (
  let key := derive_key PSK in
  let band := derive_band_id PSK in
  let payload := str_bytes "hello, telesthete" in
  pkt ← encode_packet key band Stream 1 42 payload;
  pkt ← ok pkt;
  assert_eq (length pkt) (HEADER_LEN + length payload + TAG_LEN);;
  '(header, recovered) ← ok (decode_packet key pkt);
  assert_eq header (mkHeader band Stream 1 42);;
  assert_eq recovered payload).

(** [pkt\[i\] ^= x]. *)
Definition flip (i : nat) (x : Z) (pkt : bytes) : bytes := alter (λ b, z2b (Z.lxor (b2z b) x)) i pkt.

Definition tampered (i : bytes → nat) (x : Z) : outcome () :=
  let key := derive_key PSK in
  pkt ← encode_packet key (derive_band_id PSK) Stream 1 1 (str_bytes "x");
  pkt ← ok pkt;
  fails (decode_packet key (flip (i pkt) x pkt)).

Definition tampered_header_rejected : bool := passes (tampered (λ _, 18) 0xFF).
Definition tampered_ciphertext_rejected : bool := passes (tampered (λ pkt, length pkt - 1) 1).

Definition route_type_round_trips : bool := passes (
  assert_eq (ChannelType_from_u8 5) (Some Route);; assert_eq (ChannelType_to_u8 Route) 5%Z;;
  assert_eq (ChannelType_from_u8 6) (Some Addressed);; assert_eq (ChannelType_to_u8 Addressed) 6%Z;;
  assert_eq (ChannelType_from_u8 7) None).

(** * The choice of a cipher *)

Definition aes : string := "aes256-gcm".
Definition cha : string := "chacha20-poly1305".

Definition select_cipher_normalizes_missing_baseline : bool := passes (
  assert_eq (select_cipher [cha] [aes]) cha;; assert_eq (select_cipher [aes] [aes; cha]) aes).

Definition select_cipher_matches_spec : bool := passes (
  assert_eq (select_cipher [aes; cha] [cha; aes]) aes;;
  assert_eq (select_cipher [cha; aes] [cha; aes]) cha;;
  assert_eq (select_cipher [aes] [cha]) cha).

(** * The transports *)

Definition random : bytes := replicate 8 Byte.x11.
Definition bind_udp (psk : string) : Transport := Transport_bind (derive_key (str_bytes psk)) (derive_band_id (str_bytes psk)) random.
Definition to_bob (data : string) : Outbound := mkOutbound "bob" Stream 1 (str_bytes data) 0 false.

(** The datagram one sends, at the other's receive loop with a Stream route. *)
Definition pass_udp (alice bob : Transport) (out : Outbound) : outcome (option Inbound) :=
  '(_, r) ← transport_send (λ _ _, true) out alice;
  d ← ok r;
  Ret (transport_recv 0 "alice" d (transport_route Stream bob)).2.

Definition loopback_send_recv : bool := passes (
  got ← pass_udp (bind_udp "loop-test") (bind_udp "loop-test") (to_bob "hello bob");
  got ← unwrap got;
  assert_eq (in_payload got) (str_bytes "hello bob");;
  assert_eq (channel_id (in_header got)) 1%Z;; assert_eq (channel_type (in_header got)) Stream).

Definition foreign_band_dropped : bool := passes (
  got ← pass_udp (bind_udp "band-a") (bind_udp "band-b") (to_bob "foreign");
  assert (match got with None => true | Some _ => false end)).

Definition bind_unix (path psk : string) : outcome UnixTransport :=
  ok (unix_bind (str_bytes path) (derive_key (str_bytes psk)) (derive_band_id (str_bytes psk)) random NotFound true).

(** What [sendmsg] took arrives with descriptors of the receiver's. *)
Definition pass_unix (bob : UnixTransport) (r : result (bytes * list fd) UnixTransportError) (fds : list fd) : outcome RecvOut :=
  d ← ok r;
  Ret (unix_recv (λ _, true) (Received (mkRecvMsg d.1 (Some (Some (str_bytes "alice.sock"))) (match fds with [] => [] | _ => [ScmRights fds] end) false))
         (unix_route Stream bob).1).

Definition unix_out (id : Z) (data : string) (fds : list fd) : UnixOutbound := mkUnixOutbound (str_bytes "bob.sock") Stream id (str_bytes data) 0 fds.

Definition unix_passes (psk_a psk_b : string) (out : UnixOutbound) (fds : list fd) : outcome RecvOut :=
  alice ← bind_unix "alice.sock" psk_a; bob ← bind_unix "bob.sock" psk_b;
  '(_, r) ← unix_send (λ _, true) (λ _ _ _, true) out alice;
  pass_unix bob r fds.

Definition unix_loopback_no_fds : bool := passes (
  got ← unix_passes "local-test" "local-test" (unix_out 7 "hello unix" []) [];
  got ← unwrap (ro_delivered got);
  assert_eq (ui_payload got.2) (str_bytes "hello unix");;
  assert_eq (channel_id (ui_header got.2)) 7%Z;; assert_eq (channel_type (ui_header got.2)) Stream;;
  assert_eq (ui_fds got.2) []).

(** The pipe itself, and what is written through it, are the kernel's. *)
Definition unix_loopback_with_fd : bool := passes (
  got ← unix_passes "local-test-fd" "local-test-fd" (unix_out 1 "with fd" [5%Z]) [9%Z];
  d ← unwrap (ro_delivered got);
  assert_eq (ui_payload d.2) (str_bytes "with fd");;
  assert_eq (length (ui_fds d.2)) 1;; assert_eq (ro_closed got) []).

Definition unix_foreign_band_dropped : bool := passes (
  got ← unix_passes "band-a" "band-b" (unix_out 1 "foreign" []) [];
  assert (match ro_delivered got with None => true | Some _ => false end)).

(** The listener echoes the bytes it reads. *)
Definition seqpacket_client_reaches_seqpacket_listener : bool := passes (
  let psk := str_bytes "seqpacket-hub" in
  client ← ok (seq_connect (λ _, true) (str_bytes "hub.sock") (derive_key psk) (derive_band_id psk) random true Connected);
  '(client, r) ← seq_send (λ _ _, true) (mkUnixOutbound (str_bytes "hub.sock") Stream 3 (str_bytes "to-the-hub") 0 []) (unix_route Stream client).1;
  d ← ok r;
  got ← unwrap (ro_delivered (seq_recv (λ _, true) (Received (mkRecvMsg d.1 None [] false)) client));
  assert_eq (ui_payload got.2) (str_bytes "to-the-hub");;
  assert_eq (channel_id (ui_header got.2)) 3%Z).

Definition unix_too_many_fds_rejected : bool := passes (
  t ← bind_unix "a.sock" "x";
  '(_, r) ← unix_send (λ _, true) (λ _ _ _, true) (unix_out 0 "" (seqZ 10 (MAX_FDS_PER_PACKET + 1))) t;
  assert (match r with Err (TooManyFds n) => (n =? MAX_FDS_PER_PACKET + 1)%Z | _ => false end)).

(** * Discovery *)

Definition announce_layout_matches_spec : bool := passes (
  let pkt := pack_announce (str_bytes "alice") 20001 in
  assert_eq (take 4 pkt) (str_bytes "TELE");;
  assert_eq (pkt !! 4) (Some (z2b PROTOCOL_VERSION));; assert_eq (pkt !! 5) (Some Byte.x05);;
  assert_eq (slice 6 11 pkt) (str_bytes "alice");;
  assert_eq (slice 11 13 pkt) (to_be_bytes 2 20001);; assert_eq (length pkt) 13).

Definition announce_round_trip_and_bounds : bool := passes (
  let host := str_bytes "héllo-host" in
  assert_eq (parse_announce (pack_announce host 65535)) (Some (host, 65535%Z));;
  assert_eq (parse_announce (pack_announce [] 1)) (Some ([], 1%Z));;
  assert_eq (parse_announce (pack_announce (replicate 300 Byte.x61) 9)) (Some (replicate 255 Byte.x61, 9%Z))).

Definition parse_rejects_foreign_stale_truncated : bool := passes (
  assert_eq (parse_announce (str_bytes "NOPE" ++ [Byte.x03; Byte.x00; Byte.x00; Byte.x00])) None;;
  let pkt := pack_announce (str_bytes "x") 1 in
  assert_eq (parse_announce (<[4 := z2b (PROTOCOL_VERSION + 1)]> pkt)) None;;
  assert_eq (parse_announce (take (length pkt - 1) pkt)) None;;
  assert_eq (parse_announce []) None;;
  assert_eq (parse_announce (pack_announce (str_bytes "h") 7 ++ str_bytes "future")) (Some (str_bytes "h", 7%Z))).

Definition hears (own : string) (lp : Z) (announces : list bytes) : DiscoveryTask :=
  foldl (λ t a, receive_round "127.0.0.1" a t) (discovery_bind (str_bytes own) lp) announces.

Definition discovery_surfaces_directly_delivered_announce : bool := passes (
  let announce := pack_announce (str_bytes "other-host") 5555 in
  let '(d, got) := discovery_recv (hears "me" 4242 [announce; announce]) in
  peer ← unwrap got;
  assert_eq (dp_hostname peer) (str_bytes "other-host");; assert_eq (dp_port peer) 5555%Z;;
  assert_eq (discovery_recv d).2 None).

Definition own_hostname_is_ignored : bool := passes (
  assert_eq (discovery_recv (hears "self-host" 1 [pack_announce (str_bytes "self-host") 1])).2 None).

(** * They pass *)

Definition packet_tests : list bool :=
  [band_id_deterministic; key_deterministic_and_different_from_band_id; crypto_round_trip; wrong_seq_fails; wrong_aad_fails; wrong_key_fails;
   header_round_trip; header_unknown_channel_type; packet_round_trip; tampered_header_rejected; tampered_ciphertext_rejected;
   route_type_round_trips; select_cipher_normalizes_missing_baseline; select_cipher_matches_spec].

Definition transport_tests : list bool :=
  [loopback_send_recv; foreign_band_dropped; unix_loopback_no_fds; unix_loopback_with_fd; unix_foreign_band_dropped;
   seqpacket_client_reaches_seqpacket_listener; unix_too_many_fds_rejected; announce_layout_matches_spec; announce_round_trip_and_bounds;
   parse_rejects_foreign_stale_truncated; discovery_surfaces_directly_delivered_announce; own_hostname_is_ignored].

Lemma packet_tests_pass : forallb id packet_tests = true.
Proof. by vm_compute. Qed.

Lemma transport_tests_pass : forallb id transport_tests = true.
Proof. by vm_compute. Qed.
