(* ===== verification/BandTests.v ===== *)
(** The tests of [rust/telesthete/src/band.rs] and those of the endpoints in [board.rs],
    replayed on two Bands and the loopback
    network between them. The network keeps datagrams in order and loses none; after each
    call of the application the tasks of both Bands run until nothing is under way, which
    is what a test waits for. A failed assertion, an [unwrap] of a call that failed and a
    timeout are panics. [dropped_band_releases_its_socket] is in [Lifecycle]. *)

From stdpp Require Import pretty.
From S2P Require Import Prelude Crypto Framing Fragment Channel Board Drop Transport Control Band BandNet WireTests PacketTests.

#[local] Existing Instance loop_crates.
#[local] Existing Instance sample_control_json.
#[local] Existing Instance sample_serde.
#[local] Existing Instance sample_json.
#[local] Existing Instance sample_hash_order.

(** * Two Bands on a loopback network *)

Record Net := mkNet {
  nt_bands : gmap string Band;
  nt_wire : list (string * string * bytes);
  nt_now : Z;
}.

Definition N (A : Type) : Type := Net → outcome (Net * A).

#[local] Instance N_ret : MRet N := λ _ a w, Ret (w, a).
#[local] Instance N_bind : MBind N := λ _ _ k m w, '(w, a) ← m w; k a w.

Definition lift {A} (x : outcome A) : N A := λ w, a ← x; Ret (w, a).
Definition now : N Z := λ w, Ret (w, nt_now w).
Definition pass_time (ms : Z) : N () := λ w, Ret (mkNet (nt_bands w) (nt_wire w) (nt_now w + ms), ()).

(** What a socket takes goes on the wire. *)
Definition post (from : string) (sent : list (string * bytes)) : N () :=
  λ w, Ret (mkNet (nt_bands w) (nt_wire w ++ ((λ x, (from, x.1, x.2)) <$> sent)) (nt_now w), ()).

Definition the_band (a : string) : N Band := λ w, b ← unwrap (nt_bands w !! a); Ret (w, b).
Definition put_band (a : string) (b : Band) : N () := λ w, Ret (mkNet (<[a := b]> (nt_bands w)) (nt_wire w) (nt_now w), ()).
Definition drop_band (a : string) : N () := λ w, Ret (mkNet (delete a (nt_bands w)) (nt_wire w) (nt_now w), ()).

Definition steps (a : string) (evs : list band_event) : N () :=
  b ← the_band a; x ← lift (band_run (λ _ _, true) evs b); put_band a x.1;; post a x.2.

(** One turn of every task of a Band. *)
Definition turns (t : Z) (b : Band) : list band_event :=
  [EvControl; EvStreamRebase; EvChannelRebase; EvStream; EvChannel; EvBoardDemux; EvDropDemux]
  ++ (List.seq 0 (length (cs_eps (bd_channel b))) ≫= λ e, [EvConn t (ArmCommand FID) e; EvConn t ArmFrame e])
  ++ (List.seq 0 (length (bs_eps (bd_board b))) ≫= λ e, [EvBoardRebase e; EvBoard t FID e])
  ++ (List.seq 0 (length (ds_eps (bd_drop b))) ≫= λ e, [EvDropRebase e; EvDrop t e]).

Definition turn (a : string) : N () :=
  λ w, match nt_bands w !! a with Some b => steps a (turns (nt_now w) b) w | None => Ret (w, ()) end.

(** The next datagram, lost when nobody has its address. *)
Definition arrive (from to : string) (d : bytes) : N () :=
  λ w, match nt_bands w !! to with Some _ => (steps to [EvDatagram (nt_now w) from d];; turn to) w | None => Ret (w, ()) end.

Fixpoint settle_for (fuel : nat) : N () :=
  match fuel with
  | O => lift Panic
  | S fuel' => λ w,
      match nt_wire w with
      | [] => Ret (w, ())
      | (from, to, d) :: rest => (arrive from to d;; settle_for fuel') (mkNet (nt_bands w) rest (nt_now w))
      end
  end.

Definition settle : N () := turn "alice";; turn "bob";; settle_for 100.

(** A call of the application, and what follows from it. *)
Definition app (a : string) (evs : list band_event) : N () := steps a evs;; settle.

(** A call that takes what is waiting, [None] for one that would wait on. *)
Definition taking {A} (a : string) (f : Band → Band * option A) : N (option A) :=
  b ← the_band a; let '(b, x) := f b in put_band a b;; mret x.
Definition next {A} (a : string) (f : Band → Band * option A) : N A := x ← taking a f; lift (unwrap x).

Definition binds (psk a : string) (opts : BandOptions) : N () :=
  t ← now; put_band a (bind_with_options (str_bytes psk) a opts t sample_random).
Definition bind_both (psk : string) (opts : BandOptions) : N () := binds psk "alice" opts;; binds psk "bob" opts.
Definition run_net (t : N ()) : bool := passes ('(_, r) ← t (mkNet ∅ [] 1000); Ret r).
Definition asserts (b : bool) : N () := lift (assert b).
Definition asserts_eq {A} `{EqDecision A} (x y : A) : N () := lift (assert_eq x y).

Definition hello_pair : N () :=
  app "alice" [ApConnectPeer "bob"];;
  _ ← next "bob" control_recv; mret ().

Definition peers_of (a : string) : N (gmap string PeerState) := b ← the_band a; mret (band_peers b).

(** * The tests *)

Definition band_loopback_hello : bool := run_net (
  bind_both "loopback-psk" BandOptions_default;;
  app "alice" [ApConnectPeer "bob"];;
  e ← next "bob" control_recv;
  asserts (match e with EHello _ hostname _ _ => bool_decide (hostname = "alice"%string) | _ => false end)).

Definition negotiates_aes_and_streams_under_it : bool := run_net (
  bind_both "aes-psk" (mkOptions None ["aes256-gcm"; "chacha20-poly1305"]%string [] 5000 15000 true);;
  app "alice" [ApConnectPeer "bob"];;
  hello ← next "bob" control_recv;
  asserts (match hello with EHello _ _ _ _ => true | _ => false end);;
  ack ← next "alice" control_recv;
  asserts (match ack with EHelloAck _ hostname _ _ cipher => bool_decide (hostname = "bob" ∧ cipher = "aes256-gcm")%string | _ => false end);;
  pa ← peers_of "alice"; pb ← peers_of "bob";
  asserts_eq (ps_cipher <$> pa !! "bob"%string) (Some "aes256-gcm"%string);;
  asserts_eq (ps_cipher <$> pb !! "alice"%string) (Some "aes256-gcm"%string);;
  app "bob" [ApStream "alice" 9];; app "alice" [ApStream "bob" 9];;
  app "alice" [ApStreamSend 0 0 (str_bytes "under-aes")];;
  msg ← next "bob" (stream_recv 0);
  asserts_eq (sm_data msg) (str_bytes "under-aes")).

(** [n] rounds of 50 milliseconds, each with a tick of the keepalive loops there are. *)
Definition keepalive_of (a : string) : N () :=
  λ w, match nt_bands w !! a with Some _ => app a [EvKeepalive (nt_now w)] w | None => Ret (w, ()) end.
Fixpoint keepalives (n : nat) : N () :=
  match n with O => mret () | S n' => pass_time 50;; keepalive_of "alice";; keepalive_of "bob";; keepalives n' end.

Definition keepalives_sustain_then_dead_peer_evicted : bool := run_net (
  bind_both "ka-psk" (mkOptions None [BASELINE_CIPHER] [] 50 250 true);;
  hello_pair;; _ ← next "alice" control_recv;
  keepalives 10;;
  pa ← peers_of "alice"; asserts (bool_decide (is_Some (pa !! "bob"%string)));;
  drop_band "bob";;
  keepalives 12;;
  pa ← peers_of "alice"; asserts (bool_decide (pa !! "bob"%string = None))).

Definition band_stream_roundtrip : bool := run_net (
  bind_both "stream-psk" BandOptions_default;; hello_pair;;
  app "bob" [ApStream "alice" 7];; app "alice" [ApStream "bob" 7];;
  app "alice" [ApStreamSend 0 0 (str_bytes "hello world")];;
  msg ← next "bob" (stream_recv 0);
  asserts_eq (sm_stream_id msg) 7%Z;; asserts_eq (sm_data msg) (str_bytes "hello world");; asserts_eq (sm_priority msg) 0%Z).

(** Receives until nothing is waiting. *)
Fixpoint drain_stream (fuel : nat) (a : string) (e : nat) : N nat :=
  match fuel with
  | O => lift Panic
  | S fuel' => x ← taking a (stream_recv e); match x with Some _ => n ← drain_stream fuel' a e; mret (S n) | None => mret 0 end
  end.

Definition band_stream_drops_stale : bool := run_net (
  bind_both "stale-psk" BandOptions_default;; hello_pair;;
  app "bob" [ApStream "alice" 1];; app "alice" [ApStream "bob" 1];;
  app "alice" (replicate 3 (ApStreamSend 0 0 (str_bytes "frame")));;
  count ← drain_stream 10 "bob" 0;
  asserts_eq count 3).

(** A raw Transport in alice's place. *)
Definition raw_send (out : Outbound) (t : Transport) : N Transport :=
  x ← lift (transport_send (λ _ _, true) out t);
  d ← lift (ok x.2); post "alice" [(out_to out, d)];; settle;; mret x.1.

Definition restart_rekeys_peer_and_accepts_new_session : bool := run_net (
  let psk := str_bytes "restart-rekey-psk" in
  let hello epoch := mkOutbound "bob" Framing.Control 0
    (Control.env_to_vec 1 (hello_to_value (mkHello "alice" [] ["chacha20-poly1305"%string] epoch))) 0 true in
  let strm s := mkOutbound "bob" Stream 5 (Byte.x00 :: str_bytes s) 0 false in
  binds "restart-rekey-psk" "bob" BandOptions_default;;
  let alice := Transport_bind (derive_key psk) (derive_band_id psk) sample_random in
  let alice := set_session_key (derive_session_key psk BASELINE_CIPHER 1000) alice in
  alice ← raw_send (hello 1000%Z) alice;
  _ ← next "bob" control_recv;
  app "bob" [ApStream "alice" 5];;
  alice ← raw_send (strm "s1") alice;
  m ← next "bob" (stream_recv 0); asserts_eq (sm_data m) (str_bytes "s1");;
  let alice := set_session_key (derive_session_key psk BASELINE_CIPHER 2000) alice in
  alice ← raw_send (hello 2000%Z) alice;
  _ ← next "bob" control_recv;
  alice ← raw_send (strm "s2") alice;
  m ← next "bob" (stream_recv 0); asserts_eq (sm_data m) (str_bytes "s2")).

(** [connect] has returned once the task has reported the connection. *)
Definition connects_channel (a : string) (e : nat) : N () :=
  app a [ApChannelCommand e CConnect];;
  b ← the_band a; asserts (match cs_eps (bd_channel b) !! e with Some ep => negb (ce_connected ep =? 0)%nat | None => false end).

Definition band_channel_handshake_and_message : bool := run_net (
  bind_both "chan-psk" BandOptions_default;; hello_pair;;
  app "bob" [ApChannel "alice" 9];; app "alice" [ApChannel "bob" 9];;
  connects_channel "alice" 0;;
  app "alice" [ApChannelCommand 0 (CSend (str_bytes "reliable hello"))];;
  got ← next "bob" (channel_recv 0);
  asserts_eq (cm_data got) (str_bytes "reliable hello")).

Definition band_channel_large_message_fragments : bool := run_net (
  bind_both "chan-frag-psk" BandOptions_default;; hello_pair;;
  app "bob" [ApChannel "alice" 3];; app "alice" [ApChannel "bob" 3];;
  connects_channel "alice" 0;;
  app "alice" [ApChannelCommand 0 (CSend (cycle 251 5000))];;
  got ← next "bob" (channel_recv 0);
  asserts_eq (cm_data got) (cycle 251 5000)).

Definition band_board_set_replicates : bool := run_net (
  bind_both "board-band-psk" BandOptions_default;; hello_pair;;
  app "alice" [ApBoard 3];; app "bob" [ApBoard 3];;
  app "alice" [ApBoardCall 0 (BAddDestination "bob")];;
  app "alice" [ApBoardCall 0 (BSet "cursor" 42%positive)];;
  change ← next "bob" (board_changed 0);
  asserts_eq (ch_key change) "cursor"%string;;
  b ← the_band "bob"; asserts_eq (board_handle_get 0 "cursor" b) (Some 42%positive)).

Definition drop_side (a : string) (e : nat) : N (DropSender + DropReceiver) :=
  b ← the_band a; lift (unwrap (de_side <$> ds_eps (bd_drop b) !! e)).

Definition band_drop_small_file_transfer : bool := run_net (
  bind_both "drop-band-psk" BandOptions_default;; hello_pair;;
  pa ← peers_of "alice"; asserts (bool_decide (is_Some (pa !! "bob"%string)));;
  let data := cycle 251 3000 in
  app "alice" [ApDropSend 5 "blob.bin" data];; app "bob" [ApDropRecv 5 ∅];;
  app "alice" [ApOffer 0 "bob"];;
  got ← next "bob" (recv_file 0);
  asserts_eq got (data, true);;
  r ← drop_side "bob" 0; asserts (match r with inr d => bool_decide (r_verified (dr_core d) = Some true) | inl _ => false end);;
  v ← next "alice" (recv_verdict 0);
  asserts_eq v ("bob"%string, true);;
  x ← drop_side "alice" 0; asserts (match x with inl d => bool_decide (s_completed (ds_core d) !! "bob"%string = Some true) | inr _ => false end)).

(** * The endpoint tests of [board.rs] *)

(** A hub on a transport of its own, with the base key and no peer known: a Band of which
    only the receive loop and the Board hub are used. *)
Definition board_host (psk a : string) : N () :=
  let key := derive_key (str_bytes psk) in
  let t := transport_route Framing.Board (Transport_bind key (derive_band_id (str_bytes psk)) sample_random) in
  binds psk a BandOptions_default;;
  b ← the_band a; put_band a (with_node (set_transport t (bd_node b)) b).

Definition endpoint_pair (psk : string) : N () :=
  board_host psk "alice";; board_host psk "bob";;
  app "alice" [ApBoard 3];; app "bob" [ApBoard 3].

Definition on_board {A} (a : string) (f : Band → A) : N A := b ← the_band a; mret (f b).

Definition endpoint_set_replicates_over_loopback : bool := run_net (
  endpoint_pair "board-endpoint-psk";;
  app "alice" [ApBoardCall 0 (BAddDestination "bob")];;
  app "alice" [ApBoardCall 0 (BSet "cursor" 42%positive)];;
  change ← next "bob" (board_changed 0);
  asserts_eq (ch_key change) "cursor"%string;; asserts (negb (ch_deleted change));;
  v ← on_board "bob" (board_handle_get 0 "cursor"); asserts_eq v (Some 42%positive);;
  items ← on_board "bob" (board_handle_items 0); asserts_eq (size <$> items) (Some 1)).

Definition digest_mismatch_triggers_sync_req_then_snapshot_converges : bool := run_net (
  endpoint_pair "board-sync-psk";;
  app "alice" [ApBoardCall 0 (BSet "only-on-a" 7%positive)];;
  x ← on_board "alice" (board_handle_digest 0); y ← on_board "bob" (board_handle_digest 0);
  asserts (bool_decide (x ≠ y));;
  app "alice" [ApBoardCall 0 (BSendDigest (Some "bob"))];;
  v ← on_board "bob" (board_handle_get 0 "only-on-a"); asserts_eq v (Some 7%positive);;
  x ← on_board "alice" (board_handle_digest 0); y ← on_board "bob" (board_handle_digest 0);
  asserts_eq x y).

Definition key_name (i : Z) : string := "key-" ++ pretty i.

Definition large_snapshot_fragments_and_reassembles : bool := run_net (
  endpoint_pair "board-frag-psk";;
  app "alice" ((λ i, ApBoardCall 0 (BSet (key_name i) 7%positive)) <$> seqZ 0 50);;
  core ← on_board "alice" (λ b, (λ ep, sh_core (t_shared (be_task ep))) <$> bs_eps (bd_board b) !! 0);
  core ← lift (unwrap core);
  asserts (MAX_CHUNK_PAYLOAD <? len (Board.env_to_vec TYPE_SNAPSHOT (entries_to_value (snapshot core))))%Z;;
  app "alice" [ApBoardCall 0 (BSendSnapshot "bob" FID)];;
  x ← on_board "alice" (board_handle_items 0); y ← on_board "bob" (board_handle_items 0);
  asserts_eq x y;; asserts_eq (size <$> y) (Some 50)).

(** The same packet twice, from a third socket. *)
Definition replayed_set_is_dropped_by_watermark : bool := run_net (
  let psk := str_bytes "board-replay-psk" in
  endpoint_pair "board-replay-psk";;
  let env := Board.env_to_vec TYPE_SET (set_to_value (mkSet "k" 1%positive (1%Z, "alice"%string) false)) in
  pkt ← lift (encode_packet (derive_key psk) (derive_band_id psk) Framing.Board 3 42 env);
  pkt ← lift (ok pkt);
  post "sock" [("bob"%string, pkt); ("bob"%string, pkt)];; settle;;
  first ← next "bob" (board_changed 0); asserts_eq (ch_key first) "k"%string;;
  replay ← taking "bob" (board_changed 0);
  asserts (match replay with None => true | Some _ => false end)).

Definition session_tests : list bool :=
  [band_loopback_hello; negotiates_aes_and_streams_under_it; keepalives_sustain_then_dead_peer_evicted; band_stream_roundtrip;
   band_stream_drops_stale; restart_rekeys_peer_and_accepts_new_session].

Definition hub_tests : list bool :=
  [band_channel_handshake_and_message; band_channel_large_message_fragments; band_board_set_replicates; band_drop_small_file_transfer].

Definition board_endpoint_tests : list bool :=
  [endpoint_set_replicates_over_loopback; digest_mismatch_triggers_sync_req_then_snapshot_converges;
   large_snapshot_fragments_and_reassembles; replayed_set_is_dropped_by_watermark].

Lemma session_tests_pass : forallb id session_tests = true.
Proof. by vm_compute. Qed.

Lemma hub_tests_pass : forallb id hub_tests = true.
Proof. by vm_compute. Qed.

Lemma board_endpoint_tests_pass : forallb id board_endpoint_tests = true.
Proof. by vm_compute. Qed.
