(* ===== verification/Producer.v ===== *)
(** The C producer library ([rust/telesthete-c/src/lib.rs]): opening a producer and
    sending a dmabuf-backed frame, which puts a Stream header and a dmabuf
    descriptor in one packet of the AF_UNIX transport. A handle that may be NULL is
    an [option]; arrays are lists whose lengths the caller vouches for. *)

From S2P Require Import Prelude Text Crypto Framing StreamWire Transport Discovery UnixTransport.

Definition TLT_OK : Z := 0.
Definition TLT_ERR_NULL_HANDLE : Z := -1.
Definition TLT_ERR_HEADER_WRITE : Z := -2.
Definition TLT_ERR_DESCRIPTOR_WRITE : Z := -3.
Definition TLT_ERR_PLANE_COUNT : Z := -4.
Definition TLT_ERR_FD_COUNT : Z := -5.
Definition TLT_ERR_SEND : Z := -10.
Definition TLT_MAX_PLANES : Z := 4.
Definition TLT_MAX_FDS : Z := 5.

Definition LOCAL_PSK : bytes := str_bytes "telesthete-local".
Definition SOCKET_DIR_ENV : string := "XDG_RUNTIME_DIR".
Definition SOCKET_DIR_FALLBACK : bytes := str_bytes "/tmp".

Record TltPlane := mkTltPlane { tp_offset : Z; tp_stride : Z; tp_fd_index : Z }.

Record TltProducer := mkProducer { tlt_transport : UnixTransport; tlt_target : bytes }.

Section Producer.
Context {crates : Crates} (unix_addr_ok : bytes → bool).

Definition default_target_for (psk : bytes) (env : string → option bytes) (exists_ : bytes → bool) : bytes :=
  let name := to_hex (derive_band_id psk) ++ str_bytes ".sock" in
  let xdg_path := (λ dir, path_join (path_join dir (str_bytes "telesthete")) name) <$> env SOCKET_DIR_ENV in
  let tmp_path := path_join (path_join SOCKET_DIR_FALLBACK (str_bytes "telesthete")) name in
  match xdg_path with
  | Some p => if exists_ p then p else if exists_ tmp_path then tmp_path else p
  | None => tmp_path
  end.

Definition producer_socket_path (env : string → option bytes) (pid : Z) : bytes :=
  let dir := default SOCKET_DIR_FALLBACK (env SOCKET_DIR_ENV) in
  path_join (path_join dir (str_bytes "telesthete")) (str_bytes "tlt-c-" ++ dec_text pid ++ str_bytes ".sock").

(** [open_internal], given whether the runtime starts and what binding answers. *)
Definition open_internal (psk : bytes) (target_override : option bytes) (env : string → option bytes) (exists_ : bytes → bool) (pid : Z)
    (runtime_ok : bool) (remove : RemoveResult) (bind_ok : bool) (random : bytes) : option TltProducer :=
  if negb runtime_ok then None else
  match unix_bind (producer_socket_path env pid) (derive_key psk) (derive_band_id psk) random remove bind_ok with
  | Err _ => None
  | Ok t => Some (mkProducer t (default (default_target_for psk env exists_) target_override))
  end.

(** A C string: NULL, or its bytes, which must be UTF-8. *)
Definition target_of (target_path : option bytes) : option (option bytes) :=
  match target_path with None => Some None | Some s => if valid_utf8 s then Some (Some s) else None end.

Definition tlt_open_with_psk (psk : option bytes) (psk_len : Z) (target_path : option bytes) env exists_ pid runtime_ok remove bind_ok random
    : option TltProducer :=
  psk_slice ← (if (psk_len =? 0)%Z then Some [] else (λ p, take (Z.to_nat psk_len) p) <$> psk);
  target_override ← target_of target_path;
  open_internal psk_slice target_override env exists_ pid runtime_ok remove bind_ok random.

Definition tlt_open (target_path : option bytes) env exists_ pid runtime_ok remove bind_ok random : option TltProducer :=
  target_override ← target_of target_path;
  open_internal LOCAL_PSK target_override env exists_ pid runtime_ok remove bind_ok random.

(** [tlt_close]: the handle's transport is dropped. *)
Definition tlt_close (handle : option TltProducer) (dir : socket_files) : socket_files :=
  match handle with Some p => UnixTransport_drop (tlt_transport p) dir | None => dir end.

(** The flags on the wire: the DMABUF flag is forced on. *)
Definition wire_flags (flags : Z) : Z := default FLAG_DMABUF (StreamFlags_from_bits (Z.lor (Z.land flags 255) FLAG_DMABUF)).

(** [tlt_send_dmabuf]: the code, and the packet and descriptors handed to the
    kernel. *)
Definition tlt_send_dmabuf (sendmsg : bytes → bytes → list fd → bool) (handle : option TltProducer) (channel_id frame_id flags width height
    fourcc modifier : Z) (planes : list TltPlane) (plane_count : Z) (fds : list fd) (fd_count : Z)
    : outcome (option TltProducer * Z * option (bytes * list fd)) :=
  match handle with
  | None => Ret (None, TLT_ERR_NULL_HANDLE, None)
  | Some h =>
      if (plane_count =? 0)%Z || (TLT_MAX_PLANES <? plane_count)%Z then Ret (Some h, TLT_ERR_PLANE_COUNT, None) else
      if (TLT_MAX_FDS <? fd_count)%Z then Ret (Some h, TLT_ERR_FD_COUNT, None) else
      let descriptor_planes := (λ p, mkPlane (tp_offset p) (tp_stride p) (tp_fd_index p)) <$> take (Z.to_nat plane_count) planes in
      let descriptor := mkDmabuf width height fourcc modifier descriptor_planes fd_count in
      let payload := replicate (STREAM_HEADER_LEN + encoded_len (Z.to_nat plane_count)) Byte.x00 in
      match StreamHeader_write (mkStreamHeader (wire_flags flags) frame_id) payload with
      | Err _ => Ret (Some h, TLT_ERR_HEADER_WRITE, None)
      | Ok (payload, _) =>
          match Dmabuf_write descriptor (drop STREAM_HEADER_LEN payload) with
          | Err _ => Ret (Some h, TLT_ERR_DESCRIPTOR_WRITE, None)
          | Ok (body, _) =>
              let payload := take STREAM_HEADER_LEN payload ++ body in
              '(t, r) ← unix_send unix_addr_ok sendmsg
                (mkUnixOutbound (tlt_target h) Stream channel_id payload 0 (take (Z.to_nat fd_count) fds)) (tlt_transport h);
              let h := mkProducer t (tlt_target h) in
              Ret (match r with Ok sent => (Some h, TLT_OK, Some sent) | Err _ => (Some h, TLT_ERR_SEND, None) end)
          end
      end
  end.
End Producer.

(** ** Lemmas *)

Lemma open_path {crates : Crates} psk target env exists_ pid rt remove ok random p :
  open_internal psk target env exists_ pid rt remove ok random = Some p → u_bind_path (tlt_transport p) = producer_socket_path env pid.
Proof. unfold open_internal, unix_bind. destruct rt, remove, ok; simpl; intros [= <-]; done. Qed.

(** A handle that was opened alone leaves the directory as it found it, its own path
    apart. The path is one per process: the socket of a second handle takes the place of
    the first one's, and closing either handle removes it. *)
Lemma two_producers_one_path {crates : Crates} psk1 psk2 target1 target2 env there1 there2 pid remove1 remove2
    random1 random2 p1 p2 (dir : socket_files) :
  open_internal psk1 target1 env there1 pid true remove1 true random1 = Some p1 →
  open_internal psk2 target2 env there2 pid true remove2 true random2 = Some p2 →
  let path := producer_socket_path env pid in
  tlt_close (Some p1) (bind_file path 1 dir) = delete path (dir : gmap bytes nat)
  ∧ (bind_file path 2 (bind_file path 1 dir) : gmap bytes nat) !! path = Some 2
  ∧ (tlt_close (Some p1) (bind_file path 2 (bind_file path 1 dir)) : gmap bytes nat) !! path = None.
Proof.
  intros E1%open_path E2%open_path path. unfold tlt_close, UnixTransport_drop, bind_file. rewrite E1. fold path.
  split_and!; [by rewrite delete_insert_eq, delete_delete_eq|by rewrite lookup_insert_eq|by rewrite lookup_delete_eq].
Qed.

Lemma wire_flags_dmabuf flags : is_u32 flags → is_u8 (wire_flags flags) ∧ wire_flags flags = Z.lor (Z.land flags 255) FLAG_DMABUF
  ∧ flags_contains (wire_flags flags) FLAG_DMABUF = true.
Proof.
  intros Hf. assert (E : Z.land flags 255 = (flags mod 2 ^ 8)%Z) by (apply (Z.land_ones flags 8); lia).
  pose proof (Z.mod_pos_bound flags (2 ^ 8) ltac:(lia)) as Hr. unfold wire_flags. rewrite E.
  assert (H : forallb (λ x, bool_decide (StreamFlags_from_bits (Z.lor x FLAG_DMABUF) = Some (Z.lor x FLAG_DMABUF))
    && (0 <=? Z.lor x FLAG_DMABUF)%Z && (Z.lor x FLAG_DMABUF <? 256)%Z && flags_contains (Z.lor x FLAG_DMABUF) FLAG_DMABUF) (seqZ 0 256) = true)
    by (vm_compute; reflexivity).
  pose proof (u8_forall _ H (flags mod 2 ^ 8) Hr) as Hx. cbv beta in Hx. rewrite !andb_true_iff, bool_decide_eq_true, Z.leb_le, Z.ltb_lt in Hx.
  destruct Hx as (((-> & H1) & H2) & H3). cbn [default from_option]. unfold is_u8. split_and!; (done || lia).
Qed.

Lemma chacha_encrypt_ok {crates : Crates} {tot : AeadTotal} key seq aad pt :
  length key = KEY_LEN → (len pt <= u32_max)%Z → ∃ ct, encrypt_suite ChaCha20Poly1305 key seq aad pt = Ok ct.
Proof.
  intros Hk Hl. unfold encrypt_suite. destruct (chacha_total key (nonce_bytes seq) aad pt) as [ct E]; [done|done|lia|]. rewrite E. by exists ct.
Qed.

(** Arguments within their types that describe a frame a reader accepts. *)
Record frame_args (channel_id frame_id flags width height fourcc modifier : Z) (planes : list TltPlane) (fds : list fd) : Prop := {
  fa_channel : is_u16 channel_id;
  fa_frame : is_u32 frame_id;
  fa_flags : is_u32 flags;
  fa_width : is_u32 width;
  fa_height : is_u32 height;
  fa_fourcc : is_u32 fourcc;
  fa_modifier : is_u64 modifier;
  fa_planes : Forall (λ p, is_u32 (tp_offset p) ∧ is_u32 (tp_stride p) ∧ is_u8 (tp_fd_index p)
    ∧ ((0 < len fds)%Z → (tp_fd_index p < len fds)%Z)) planes;
  fa_plane_count : (1 <= len planes <= TLT_MAX_PLANES)%Z;
  fa_fd_count : (len fds <= TLT_MAX_FDS)%Z;
}.

Definition wire_planes (planes : list TltPlane) : list DmabufPlane := (λ p, mkPlane (tp_offset p) (tp_stride p) (tp_fd_index p)) <$> planes.

(** The payload [tlt_send_dmabuf] builds and how a reader takes it apart. *)
Lemma frame_payload channel_id frame_id flags width height fourcc modifier planes fds :
  frame_args channel_id frame_id flags width height fourcc modifier planes fds →
  let d := mkDmabuf width height fourcc modifier (wire_planes planes) (len fds) in
  let h := mkStreamHeader (wire_flags flags) frame_id in
  ∃ p1 n1 body n2,
    StreamHeader_write h (replicate (STREAM_HEADER_LEN + encoded_len (length planes)) Byte.x00) = Ok (p1, n1)
    ∧ Dmabuf_write d (drop STREAM_HEADER_LEN p1) = Ok (body, n2)
    ∧ StreamHeader_parse (take STREAM_HEADER_LEN p1 ++ body) = Ok (h, body) ∧ Dmabuf_parse body = Ok d
    ∧ length (take STREAM_HEADER_LEN p1 ++ body) = STREAM_HEADER_LEN + encoded_len (length planes).
Proof.
  intros [H1 H2 H3 H4 H5 H6 H7 H8 H9 H10] d h. destruct (wire_flags_dmabuf flags H3) as (Hf & _ & _).
  assert (Lh : length (stream_header_bytes h) = STREAM_HEADER_LEN) by done.
  assert (Lp : length (db_planes d) = length planes) by (cbn; unfold wire_planes; by rewrite length_fmap).
  assert (Lpz : (1 <= len (db_planes d) <= MAX_PLANES)%Z) by (unfold len; rewrite Lp; exact H9).
  rewrite StreamHeader_write_layout by (rewrite length_replicate; lia). set (tail := drop STREAM_HEADER_LEN (replicate _ _)).
  assert (Lt : length tail = encoded_len (length planes)) by (unfold tail; rewrite length_drop, length_replicate; lia).
  eexists _, _, (dmabuf_bytes d), _. split; [done|].
  rewrite drop_app_length' by done. rewrite Dmabuf_write_layout by (done || rewrite Lp; lia).
  rewrite Lp, drop_ge, app_nil_r by lia. split; [done|]. rewrite take_app_length' by done. split_and!.
  - destruct (stream_header_roundtrip h (stream_header_bytes h ++ dmabuf_bytes d) [] ) as [(out' & E1 & E2) _]; [by split|rewrite length_app; lia|].
    rewrite StreamHeader_write_layout, drop_app_length' in E1 by (done || (rewrite length_app; lia)). assert (Eo : out' = stream_header_bytes h ++ dmabuf_bytes d) by congruence.
    rewrite Eo, drop_app_length' in E2 by done. exact E2.
  - pose proof (Dmabuf_parse_layout d []) as E. rewrite app_nil_r in E. rewrite E; [|split_and!; try done|done|exact H10].
    + replace (first_bad_plane (db_fd_count d) (db_planes d)) with (@None DmabufPlane); [done|]. symmetry. apply first_bad_plane_None.
      cbn. unfold wire_planes. apply Forall_fmap. eapply Forall_impl; [exact H8|]. intros p (_ & _ & _ & Hi). unfold fds_ok. cbn.
      destruct (decide (0 < len fds)%Z); [right; auto|left; pose proof (len_nonneg fds); lia].
    + cbn. pose proof (len_nonneg fds). unfold is_u8, TLT_MAX_FDS in *. lia.
    + cbn. unfold wire_planes. apply Forall_fmap. eapply Forall_impl; [exact H8|]. by intros p (? & ? & ? & _).
  - by rewrite length_app, length_dmabuf_bytes, Lp, Lh.
Qed.

(** * Claims *)

(** A dmabuf frame sent through the C library arrives as described: with
    arguments in range, planes that name given descriptors and a socket that takes
    the packet, the call succeeds, and a receiver of the same band reads back
    the frame id, the flags with DMABUF set, the whole descriptor, and the file
    descriptors the kernel passed on. *)
Theorem producer_frame_arrives {crates : Crates} {spec : CratesSpec} {tot : AeadTotal} (unix_addr_ok : bytes → bool)
    (sendmsg : bytes → bytes → list fd → bool) (h : TltProducer) (channel_id frame_id flags width height fourcc modifier : Z) (planes : list TltPlane) (fds : list fd) :
  frame_args channel_id frame_id flags width height fourcc modifier planes fds →
  length (u_key (tlt_transport h)) = KEY_LEN → length (u_band_id (tlt_transport h)) = BAND_ID_LEN → is_u64 (u_seq (tlt_transport h)) →
  unix_addr_ok (tlt_target h) = true → (∀ pkt, sendmsg (tlt_target h) pkt fds = true) →
  ∃ h' pkt, tlt_send_dmabuf unix_addr_ok sendmsg (Some h) channel_id frame_id flags width height fourcc modifier
      planes (len planes) fds (len fds) = Ret (Some h', TLT_OK, Some (pkt, fds))
    ∧ tlt_target h' = tlt_target h
    ∧ ∀ live m t sub, rm_bytes m = pkt → rm_truncated m = false → u_key t = u_key (tlt_transport h) →
        u_band_id t = u_band_id (tlt_transport h) → u_routes t !! Stream = Some sub → live sub = true →
        ∃ i body, unix_recv live (Received m) t = mkRecvOut true (Some (sub, i)) [] ∧ ui_fds i = collect_fds (rm_cmsgs m)
          ∧ Framing.channel_id (ui_header i) = channel_id
          ∧ StreamHeader_parse (ui_payload i) = Ok (mkStreamHeader (Z.lor (Z.land flags 255) FLAG_DMABUF) frame_id, body)
          ∧ Dmabuf_parse body = Ok (mkDmabuf width height fourcc modifier (wire_planes planes) (len fds)).
Proof.
  intros Ha Hk Hb Hq Ho Hsend. destruct (frame_payload _ _ _ _ _ _ _ _ _ Ha) as (p1 & n1 & body & n2 & E1 & E2 & E3 & E4 & E5).
  pose proof Ha as [H1 _ H3 _ _ _ _ _ H9 H10]. destruct (wire_flags_dmabuf flags H3) as (_ & Ef & _).
  unfold tlt_send_dmabuf. destruct (Z.eqb_spec (len planes) 0); [lia|]. destruct (Z.ltb_spec TLT_MAX_PLANES (len planes)); [lia|].
  destruct (Z.ltb_spec TLT_MAX_FDS (len fds)); [lia|]. cbn [orb]. cbv zeta.
  replace (Z.to_nat (len planes)) with (length planes) by (unfold len; lia). replace (Z.to_nat (len fds)) with (length fds) by (unfold len; lia).
  rewrite !firstn_all. fold (wire_planes planes). rewrite E1, E2. set (payload := take STREAM_HEADER_LEN p1 ++ body) in *.
  destruct (chacha_encrypt_ok (u_key (tlt_transport h)) (u_seq (tlt_transport h)) (build_aad (ChannelType_to_u8 Stream) channel_id) payload Hk) as (ct & Ec).
  { unfold len. rewrite E5. unfold STREAM_HEADER_LEN, encoded_len, DMABUF_HEADER_BYTES, PLANE_BYTES, TLT_MAX_PLANES, len, u32_max in *. lia. }
  unfold unix_send. cbn [uo_fds uo_to uo_channel_type uo_channel_id uo_plaintext SequenceCounter_next].
  rewrite decide_False by (unfold MAX_FDS_PER_PACKET, TLT_MAX_FDS in *; lia). cbn [u_key u_band_id set_useq].
  unfold encode_packet. rewrite encode_packet_suite_eq, Ec by done. cbn [mbind outcome_bind]. rewrite Ho, Hsend. cbn [negb].
  eexists _, _. split; [reflexivity|]. split; [done|]. intros live m t sub Hm Ht Ek Eb Hr Hl.
  destruct (unix_recv_sealed live m t sub Stream channel_id (u_seq (tlt_transport h)) payload) as [HR _]; try done.
  - rewrite Eb. by split_and!.
  - unfold encode_packet. rewrite encode_packet_suite_eq, Ek by (by rewrite Eb). rewrite Ec, Eb, Hm. done.
  - eexists _, body. split; [exact HR|]. cbn [ui_fds ui_header ui_payload Framing.channel_id]. unfold fds_of. rewrite Ht, <- Ef. by split_and!.
Qed.

(** ** Witness *)

Lemma producer_frame_arrives_witness :
  ∃ h' pkt, @tlt_send_dmabuf sample_crates (λ _, true) (λ _ _ _, true) (Some (mkProducer sample_unix (str_bytes "/run/b.sock"))) 3 77 4 640 480
      875713112 0 [mkTltPlane 0 2560 0] (len [mkTltPlane 0 2560 0]) [9%Z] (len [9%Z]) = Ret (Some h', TLT_OK, Some (pkt, [9%Z])).
Proof.
  destruct (@producer_frame_arrives sample_crates sample_crates_spec sample_total (λ _, true) (λ _ _ _, true) (mkProducer sample_unix (str_bytes "/run/b.sock")) 3 77 4
    640 480 875713112 0 [mkTltPlane 0 2560 0] [9%Z]) as (h' & pkt & E & _).
  - split; unfold is_u8, is_u16, is_u32, is_u64, TLT_MAX_PLANES, TLT_MAX_FDS, len; cbn; try lia. repeat constructor; cbn; lia.
  - reflexivity.
  - reflexivity.
  - unfold is_u64. cbn. lia.
  - reflexivity.
  - reflexivity.
  - exists h', pkt. exact E.
Defined.
