(* ===== verification/Programs.v ===== *)
(** The example programs: the reference consumer of video frames
    ([rust/examples/consumer-rs/src/main.rs]) and the interoperability peer
    ([rust/telesthete/examples/interop_peer.rs]), each as a program over the library it
    is written against. *)

From S2P Require Import Prelude Text Crypto Framing StreamWire Fragment Channel Board Drop Transport Discovery UnixTransport Producer Control Band BandNet.

(** * The consumer *)

Inductive ConsumerError := DirError | BindError (e : UnixTransportError) | ShortPayload (n : Z) | HeaderError (e : StreamHeaderError)
  | DescriptorError (e : DmabufError).

(** The lines it prints. *)
Inductive ConsumerLine := BindingLine (path : bytes) | StreamLine (channel_id : Z) (hdr : StreamHeader) | FdsLine (n : Z)
  | DmabufLine (desc : DmabufDescriptor).

(** Waiting for its first packet, with the receive loop still running or not, or
    returned from [main]. *)
Inductive Consumer := Listening (t : UnixTransport) (loop_running : bool) | Returned (r : result unit ConsumerError) (printed : list ConsumerLine).

Section Consumer.
Context {crates : Crates}.

Definition consumer_path (env : string → option bytes) : bytes :=
  let dir := default SOCKET_DIR_FALLBACK (env SOCKET_DIR_ENV) in
  path_join (path_join dir (str_bytes "telesthete")) (to_hex (derive_band_id LOCAL_PSK) ++ str_bytes ".sock").

(** [main] up to its wait, given whether the directory can be made and what binding
    answers. *)
Definition consumer_start (env : string → option bytes) (create_dir_ok : bool) (remove : RemoveResult) (bind_ok : bool) (random : bytes) : Consumer :=
  let path := consumer_path env in
  if negb create_dir_ok then Returned (Err DirError) [] else
  match unix_bind path (derive_key LOCAL_PSK) (derive_band_id LOCAL_PSK) random remove bind_ok with
  | Err e => Returned (Err (BindError e)) [BindingLine path]
  | Ok t => Listening (unix_route Stream t).1 true
  end.

(** [main] once it has a packet. *)
Definition consumer_print (path : bytes) (inbound : UnixInbound) : Consumer :=
  let payload := ui_payload inbound in
  let lines := [BindingLine path] in
  if decide (length payload < STREAM_HEADER_LEN) then Returned (Err (ShortPayload (len payload))) lines else
  match StreamHeader_parse payload with
  | Err e => Returned (Err (HeaderError e)) lines
  | Ok (hdr, rest) =>
      let lines := lines ++ [StreamLine (channel_id (ui_header inbound)) hdr; FdsLine (len (ui_fds inbound))] in
      if flags_contains (sh_flags hdr) FLAG_DMABUF then
        match Dmabuf_parse rest with
        | Err e => Returned (Err (DescriptorError e)) lines
        | Ok desc => Returned (Ok tt) (lines ++ [DmabufLine desc])
        end
      else Returned (Ok tt) lines
  end.

(** A round of the receive loop. When the loop has ended the route still holds the
    sender [main] waits on, as [main] owns the transport. *)
Definition consumer_step (c : Consumer) (e : RecvEvent) : Consumer :=
  match c with
  | Listening t true =>
      let o := unix_recv (λ _, true) e t in
      match ro_delivered o with
      | Some (_, inbound) => consumer_print (u_bind_path t) inbound
      | None => Listening t (ro_running o)
      end
  | _ => c
  end.

Definition consumer_run (es : list RecvEvent) (c : Consumer) : Consumer := foldl consumer_step c es.

(** ** Lemmas *)

(** An event of which nothing reaches the consumer. *)
Definition refused (t : UnixTransport) (e : RecvEvent) : Prop :=
  ro_delivered (unix_recv (λ _, true) e t) = None ∧ ro_running (unix_recv (λ _, true) e t) = true.

Lemma consumer_run_refused t es rest : Forall (refused t) es → consumer_run (es ++ rest) (Listening t true) = consumer_run rest (Listening t true).
Proof.
  induction 1 as [|e es [Hd Hr] _ IH]; [done|]. unfold consumer_run in *. cbn [app foldl consumer_step]. by rewrite Hd, Hr.
Qed.

Lemma consumer_started env remove bind_ok random t :
  consumer_start env true remove bind_ok random = Listening t true →
  u_bind_path t = consumer_path env ∧ u_key t = derive_key LOCAL_PSK ∧ u_band_id t = derive_band_id LOCAL_PSK ∧ u_routes t !! Stream = Some 0.
Proof. unfold consumer_start, unix_bind. cbn. destruct remove, bind_ok; try done; by intros [= <-]. Qed.

(** The default target of a producer is the consumer's socket once that exists. *)
Lemma producer_finds_consumer env exists_ :
  exists_ (consumer_path env) = true → default_target_for LOCAL_PSK env exists_ = consumer_path env.
Proof. unfold default_target_for, consumer_path. destruct (env SOCKET_DIR_ENV); cbn; [|done]. by intros ->. Qed.

Lemma producer_opened env exists_ pid runtime_ok remove bind_ok random h :
  tlt_open None env exists_ pid runtime_ok remove bind_ok random = Some h →
  tlt_target h = default_target_for LOCAL_PSK env exists_ ∧ u_key (tlt_transport h) = derive_key LOCAL_PSK
  ∧ u_band_id (tlt_transport h) = derive_band_id LOCAL_PSK ∧ u_seq (tlt_transport h) = SequenceCounter_random random.
Proof. unfold tlt_open, open_internal, unix_bind. cbn. destruct runtime_ok, remove, bind_ok; try done; by intros [= <-]. Qed.
End Consumer.

(** When the receive loop has ended, nothing makes the consumer return. *)
Lemma consumer_misses_close {crates : Crates} t es :
  consumer_run (ReadableError :: es) (Listening t true) = Listening t false.
Proof. unfold consumer_run. cbn. by induction es. Qed.

(** * The interoperability peer *)

(** [String::from_utf8_lossy]: each maximal part that is not UTF-8 becomes U+FFFD. *)
Definition REPLACEMENT : bytes := [Byte.xef; Byte.xbf; Byte.xbd].

Fixpoint from_utf8_lossy (l : bytes) : bytes :=
  match l with
  | [] => []
  | b :: l1 =>
      if in_range 0x00 0x7F b then b :: from_utf8_lossy l1
      else if in_range 0xC2 0xDF b then
        match l1 with
        | b1 :: l2 => if cont b1 then b :: b1 :: from_utf8_lossy l2 else REPLACEMENT ++ from_utf8_lossy l1
        | [] => REPLACEMENT
        end
      else if in_range 0xE0 0xEF b then
        match l1 with
        | b1 :: l2 =>
            if (if in_range 0xE0 0xE0 b then in_range 0xA0 0xBF b1 else if in_range 0xED 0xED b then in_range 0x80 0x9F b1 else cont b1) then
              match l2 with
              | b2 :: l3 => if cont b2 then b :: b1 :: b2 :: from_utf8_lossy l3 else REPLACEMENT ++ from_utf8_lossy l2
              | [] => REPLACEMENT
              end
            else REPLACEMENT ++ from_utf8_lossy l1
        | [] => REPLACEMENT
        end
      else if in_range 0xF0 0xF4 b then
        match l1 with
        | b1 :: l2 =>
            if (if in_range 0xF0 0xF0 b then in_range 0x90 0xBF b1 else if in_range 0xF4 0xF4 b then in_range 0x80 0x8F b1 else cont b1) then
              match l2 with
              | b2 :: l3 =>
                  if cont b2 then
                    match l3 with
                    | b3 :: l4 => if cont b3 then b :: b1 :: b2 :: b3 :: from_utf8_lossy l4 else REPLACEMENT ++ from_utf8_lossy l3
                    | [] => REPLACEMENT
                    end
                  else REPLACEMENT ++ from_utf8_lossy l2
              | [] => REPLACEMENT
              end
            else REPLACEMENT ++ from_utf8_lossy l1
        | [] => REPLACEMENT
        end
      else REPLACEMENT ++ from_utf8_lossy l1
  end.

Definition INTEROP_PSK : bytes := str_bytes "interop-psk".
Definition INTEROP_STREAM : Z := 9.
Definition INTEROP_TIMEOUT : Z := from_secs 5.

(** Where [main] is: in the loop for a HELLO or at the stream's [recv], since when, or
    out of the process with a code. *)
Inductive InteropPhase := AwaitHello (since : Z) | AwaitStream (since : Z) (e : nat) | Exited (code : Z).

Section Interop.
Context {crates : Crates} {serde : Serde} {dj : DropJson} {cj : ControlJson} {ho : HashOrder}.

Record Interop := mkInterop { ip_band : Band; ip_phase : InteropPhase; ip_printed : list bytes }.

(** The tasks of its Band run, or [main] does: it looks at what it waits for, or its
    timeout is over. *)
Inductive interop_event := IBand (ev : band_event) | IPoll (now : Z) | ITimeout (now : Z).

Definition interop_start (now_ms : Z) (random : bytes) : Interop :=
  mkInterop (bind INTEROP_PSK "rust-peer" now_ms random) (AwaitHello now_ms) [].

Definition interop_poll (now : Z) (p : Interop) : Interop :=
  match ip_phase p with
  | AwaitHello _ =>
      match control_recv (ip_band p) with
      | (b, Some (EHello from _ _ _)) | (b, Some (EHelloAck from _ _ _ _)) =>
          let '(b, e) := band_stream from INTEROP_STREAM b in
          mkInterop b (AwaitStream now e) (ip_printed p ++ [str_bytes "HELLO"])
      | (b, Some _) => mkInterop b (AwaitHello now) (ip_printed p)
      | (_, None) => p
      end
  | AwaitStream _ e =>
      match stream_recv e (ip_band p) with
      | (b, Some msg) => mkInterop b (Exited 0) (ip_printed p ++ [str_bytes "STREAM " ++ from_utf8_lossy (sm_data msg)])
      | (_, None) => p
      end
  | Exited _ => p
  end.

(** A timeout polls what it guards once more before it elapses. *)
Definition interop_ready (p : Interop) : bool :=
  match ip_phase p with
  | AwaitHello _ => bool_decide (is_Some (control_recv (ip_band p)).2)
  | AwaitStream _ e => bool_decide (is_Some (stream_recv e (ip_band p)).2)
  | Exited _ => false
  end.

Definition interop_timeout (now : Z) (p : Interop) : Interop :=
  match ip_phase p with
  | AwaitHello since | AwaitStream since _ =>
      if (since + INTEROP_TIMEOUT <=? now)%Z && negb (interop_ready p) then mkInterop (ip_band p) (Exited 1) (ip_printed p) else p
  | Exited _ => p
  end.

Fixpoint interop_run (send_to : bytes → string → bool) (evs : list interop_event) (p : Interop) : outcome Interop :=
  match evs with
  | [] => Ret p
  | ev :: evs' =>
      match ip_phase p with
      | Exited _ => Ret p
      | _ =>
          p ← match ev with
              | IBand ev => '(b, _) ← band_step send_to ev (ip_band p); Ret (mkInterop b (ip_phase p) (ip_printed p))
              | IPoll now => Ret (interop_poll now p)
              | ITimeout now => Ret (interop_timeout now p)
              end;
          interop_run send_to evs' p
      end
  end.

(** ** Lemmas *)

Lemma interop_run_app send_to evs1 evs2 p :
  interop_run send_to (evs1 ++ evs2) p = (p ← interop_run send_to evs1 p; interop_run send_to evs2 p).
Proof.
  revert p. induction evs1 as [|ev evs1 IH]; intros p; [done|]. cbn [app interop_run]. destruct (ip_phase p) eqn:Ep.
  3: { cbn [mbind outcome_bind]. destruct evs2; cbn [interop_run]; [done|]. by rewrite Ep. }
  all: destruct ev as [ev|now|now]; cbn [mbind outcome_bind]; [|apply IH..];
    destruct (band_step send_to ev (ip_band p)) as [|[b sent]]; cbn [mbind outcome_bind]; [done|apply IH].
Qed.

(** While [main] waits, the tasks of its Band run as they do alone. *)
Lemma interop_run_band send_to evs b b' sent ph pr :
  match ph with Exited _ => False | _ => True end → band_run send_to evs b = Ret (b', sent) →
  interop_run send_to (IBand <$> evs) (mkInterop b ph pr) = Ret (mkInterop b' ph pr).
Proof.
  intros Hph. revert b sent. induction evs as [|ev evs IH]; intros b sent; cbn [band_run interop_run fmap list_fmap]; [by intros [= <- _]|].
  cbn [ip_phase ip_band ip_printed]. destruct (band_step send_to ev b) as [|[b1 s1]]; cbn [mbind outcome_bind]; [done|].
  destruct (band_run send_to evs b1) as [|[b2 s2]] eqn:E; cbn [mbind outcome_bind]; [done|]. intros [= <- _].
  specialize (IH b1 s2 E). destruct ph; done.
Qed.
End Interop.

(** Text is printed as it is. *)
Lemma from_utf8_lossy_valid l : valid_utf8 l = true → from_utf8_lossy l = l.
Proof.
  induction l as [l IH] using (induction_ltof1 _ length). unfold ltof in IH.
  destruct l as [|b l1]; [done|]. cbn [valid_utf8 from_utf8_lossy]. destruct (in_range 0 127 b) eqn:H7; [intros H; by rewrite IH by (done || simpl; lia)|].
  destruct l1 as [|b1 l2]; [done|]. destruct (in_range 194 223 b) eqn:H2.
  { intros [-> H]%andb_true_iff. by rewrite IH by (done || simpl; lia). }
  destruct l2 as [|b2 l3]; [done|]. destruct (in_range 224 239 b) eqn:H3.
  { intros [[Hs Hc]%andb_true_iff H]%andb_true_iff.
    assert (Hs' : (if in_range 224 224 b then in_range 160 191 b1 else if in_range 237 237 b then in_range 128 159 b1 else cont b1) = true).
    { destruct (in_range 224 224 b); [done|]. destruct (in_range 237 237 b); [done|]. by apply andb_true_iff in Hs as [_ ?]. }
    rewrite Hs', Hc. by rewrite IH by (done || simpl; lia). }
  destruct l3 as [|b3 l4]; [done|]. intros [[[Hs Hc2]%andb_true_iff Hc3]%andb_true_iff H]%andb_true_iff.
  assert (Hf : in_range 240 244 b = true).
  { unfold in_range in *. repeat case_match; rewrite ?andb_true_iff, ?andb_false_iff, ?Z.leb_le, ?Z.leb_gt in *; lia. }
  assert (Hs' : (if in_range 240 240 b then in_range 144 191 b1 else if in_range 244 244 b then in_range 128 143 b1 else cont b1) = true).
  { destruct (in_range 240 240 b); [done|]. destruct (in_range 244 244 b); [done|]. by apply andb_true_iff in Hs as [_ ?]. }
  rewrite Hf, Hs', Hc2, Hc3. by rewrite IH by (done || simpl; lia).
Qed.

(** ** Properties *)

(** C34: the C library and the consumer meet. A producer opened with its defaults after
    the consumer has bound its socket sends to that socket, whatever the environment;
    a frame with arguments in range is accepted; and the consumer, whatever else
    arrived before that was not for it, prints the frame's channel, flags, id and
    descriptor with the number of file descriptors passed on, and returns. *)
Theorem consumer_reads_producer {crates : Crates} {spec : CratesSpec} {tot : AeadTotal} (unix_addr_ok : bytes → bool)
    env exists_ pid runtime_ok remove bind_ok random remove' bind_ok' random' (t : UnixTransport) (h : TltProducer)
    (channel_id frame_id flags width height fourcc modifier : Z) (planes : list TltPlane) (fds : list fd) :
  consumer_start env true remove' bind_ok' random' = Listening t true →
  exists_ (consumer_path env) = true → tlt_open None env exists_ pid runtime_ok remove bind_ok random = Some h →
  length random = 8 → unix_addr_ok (consumer_path env) = true →
  frame_args channel_id frame_id flags width height fourcc modifier planes fds →
  ∃ h' pkt, tlt_send_dmabuf unix_addr_ok (λ to _ _, bool_decide (to = u_bind_path t)) (Some h) channel_id frame_id flags width height fourcc
      modifier planes (len planes) fds (len fds) = Ret (Some h', TLT_OK, Some (pkt, fds))
    ∧ ∀ before m after, Forall (refused t) before → rm_bytes m = pkt → rm_truncated m = false →
        consumer_run (before ++ Received m :: after) (Listening t true)
        = Returned (Ok tt) [BindingLine (consumer_path env); StreamLine channel_id (mkStreamHeader (Z.lor (Z.land flags 255) FLAG_DMABUF) frame_id);
            FdsLine (len (collect_fds (rm_cmsgs m))); DmabufLine (mkDmabuf width height fourcc modifier (wire_planes planes) (len fds))].
Proof.
  intros Hc He Ho Hr Ha Hargs. destruct (consumer_started _ _ _ _ _ Hc) as (C1 & C2 & C3 & C4).
  destruct (producer_opened _ _ _ _ _ _ _ _ Ho) as (P1 & P2 & P3 & P4). rewrite (producer_finds_consumer _ _ He) in P1.
  pose proof (SequenceCounter_random_range random Hr) as Hq. pose proof (wire_flags_dmabuf flags (fa_flags _ _ _ _ _ _ _ _ _ Hargs)) as (_ & Ef & Hf).
  destruct (producer_frame_arrives unix_addr_ok (λ to _ _, bool_decide (to = u_bind_path t)) h channel_id frame_id flags width height fourcc modifier planes fds Hargs)
    as (h' & pkt & E & _ & Hrecv); [rewrite P2; apply hkdf_len|by rewrite P3, length_derive_band_id|rewrite P4; unfold is_u64; lia|by rewrite P1| |].
  { intros pkt. apply bool_decide_eq_true. congruence. }
  exists h', pkt. split; [exact E|]. intros before m after Hb Hm Ht. rewrite consumer_run_refused by done.
  destruct (Hrecv (λ _, true) m t 0 Hm Ht) as (i & body & Ei & Hfd & Hch & Hh & Hd); [congruence..|done|done|].
  unfold consumer_run. cbn [foldl consumer_step]. rewrite Ei. cbn [ro_delivered]. unfold consumer_print.
  rewrite decide_False by (unfold StreamHeader_parse in Hh; by case_decide). rewrite Hh. cbn [sh_flags]. rewrite <- Ef, Hf, Hd, Hch, Hfd, C1.
  cbn [app]. by induction after.
Qed.

(** The interoperability peer does what its caller waits for. When a Band of its key
    greets it and then streams to it, whatever of that arrives, in whatever order, it
    prints HELLO, then the data of the first message that arrived, and exits with
    success. *)
Theorem interop_peer_receives {crates : Crates} {cspec : CratesSpec} {serde : Serde} {dj : DropJson} {cj : ControlJson} {jspec : ControlJsonSpec cj}
    {ho : HashOrder} ha oa ma mb ra rb a b send_a send_b now1 now2 t1 t2 suite A1 d1 B1 d2 to (ms : list (Z * bytes)) :
  let A := bind_with_options INTEROP_PSK ha oa ma ra in
  let P := interop_start mb rb in
  length ra = 8 → length rb = 8 → is_u64 (c_session (n_config (bd_node A))) → is_u64 (c_session (n_config (bd_node (ip_band P)))) →
  Suite_from_id (select_cipher (c_ciphers (n_config (bd_node A))) (c_ciphers (n_config (bd_node (ip_band P))))) = Some suite →
  band_run send_a [ApConnectPeer b] A = Ret (A1, [(b, d1)]) →
  band_run send_b [EvDatagram now1 a d1; EvControl] (ip_band P) = Ret (B1, [(to, d2)]) →
  Forall (λ m, is_u8 m.1) ms → (len ms < 2 ^ 62)%Z →
  ∃ A2 sent0, band_run send_a [EvDatagram now2 b d2; EvControl] A1 = Ret (A2, sent0)
    ∧ ∀ A3 sent i now d arrivals m, band_run send_a (ApStream b INTEROP_STREAM :: stream_sends 0 ms) A2 = Ret (A3, sent) → length sent = length ms →
      Forall (λ x, sent !! x.1.1 = Some (b, x.2)) ((i, now, d) :: arrivals) → ms !! i = Some m →
      ∃ B3, interop_run send_b ((IBand <$> [EvDatagram now1 a d1; EvControl]) ++ [IPoll t1]
              ++ (IBand <$> stream_arrivals a ((i, now, d) :: arrivals)) ++ [IPoll t2]) P
            = Ret (mkInterop B3 (Exited 0) [str_bytes "HELLO"; str_bytes "STREAM " ++ from_utf8_lossy m.2]).
Proof.
  intros A P Hra Hrb Hsa Hsb Hsuite HA1 HB1 Hms Hn. unfold P, interop_start, bind in HB1, Hsb, Hsuite. cbn [ip_band] in HB1, Hsb, Hsuite.
  destruct (band_handshake INTEROP_PSK ha "rust-peer" oa BandOptions_default ma mb ra rb a b send_a send_b now1 now2 suite A1 d1 B1 to d2
    Hra Hrb Hsa Hsb Hsuite HA1 HB1) as (A2 & sent0 & E2 & Tab & _ & FA & FB & _ & _ & ev & Hev & Hg).
  exists A2, sent0. split; [done|]. intros A3 sent i now d arrivals m Hrun Hlen Harr Hm.
  set (B2 := with_events [] B1).
  assert (FB2 : fresh_band B2) by (destruct FB; by split).
  destruct (stream_between a b A2 B2 send_a send_b INTEROP_STREAM ms ((i, now, d) :: arrivals) A3 sent) as (B3 & E3 & Hq);
    [done|done|done|by vm_compute|done|done|done|done|done|].
  cbn [band_run band_step mbind outcome_bind] in E3. destruct (band_run send_b (stream_arrivals a _) _) as [|[B3' s3]] eqn:E3'; [done|]. injection E3 as -> ->.
  rewrite interop_run_app. unfold P, interop_start. erewrite interop_run_band by done. cbn [mbind outcome_bind].
  rewrite interop_run_app. cbn [interop_run ip_phase mbind outcome_bind].
  assert (Ep : interop_poll t1 (mkInterop B1 (AwaitHello mb) []) = mkInterop (band_stream a INTEROP_STREAM B2).1 (AwaitStream t1 0) [str_bytes "HELLO"]).
  { unfold interop_poll, control_recv. cbn [ip_phase ip_band ip_printed]. rewrite Hev. fold B2.
    assert (El : (band_stream a INTEROP_STREAM B2).2 = 0) by (unfold band_stream; cbn; by rewrite (fb_stream _ FB)).
    destruct (band_stream a INTEROP_STREAM B2) as [b2 e2] eqn:Eb. cbn in El. subst e2. destruct ev; cbn in Hg; try done; subst; rewrite Eb; done. }
  rewrite Ep, interop_run_app. erewrite interop_run_band by done. cbn [mbind outcome_bind interop_run ip_phase].
  cbn [fmap list_fmap fst freshest messages_at omap list_omap] in Hq. rewrite Hm in Hq.
  destruct (ss_eps (bd_stream B3) !! 0) as [ep|] eqn:Eep; [|done]. cbn in Hq. injection Hq as Hq.
  unfold interop_poll, stream_recv. cbn [ip_phase ip_band ip_printed]. rewrite Eep, Hq. by eexists.
Qed.

(** ** Witnesses *)

Definition sample_planes : list TltPlane := [mkTltPlane 0 2560 0].

Lemma consumer_reads_producer_witness :
  ∃ h t h' pkt, @tlt_open sample_crates None (λ _, None) (λ _, true) 7 true NotFound true sample_random = Some h
    ∧ @consumer_start sample_crates (λ _, None) true Removed true sample_random = Listening t true
    ∧ @tlt_send_dmabuf sample_crates (λ _, true) (λ to _ _, bool_decide (to = u_bind_path t)) (Some h) 3 77 4 640 480 875713112 0
        sample_planes (len sample_planes) [9%Z] (len [9%Z]) = Ret (Some h', TLT_OK, Some (pkt, [9%Z]))
    ∧ @consumer_run sample_crates [RecvError; Received (mkRecvMsg pkt None [ScmRights [11%Z]] false)] (Listening t true)
      = Returned (Ok tt) [BindingLine (@consumer_path sample_crates (λ _, None)); StreamLine 3 (mkStreamHeader 20 77); FdsLine 1;
          DmabufLine (mkDmabuf 640 480 875713112 0 (wire_planes sample_planes) 1)].
Proof.
  eexists _, _.
  destruct (@consumer_reads_producer sample_crates sample_crates_spec sample_total (λ _, true) (λ _, None) (λ _, true) 7 true NotFound true sample_random
    Removed true sample_random _ _ 3 77 4 640 480 875713112 0 sample_planes [9%Z] eq_refl eq_refl eq_refl) as (h' & pkt & E & H).
  - reflexivity.
  - reflexivity.
  - split; unfold is_u8, is_u16, is_u32, is_u64, TLT_MAX_PLANES, TLT_MAX_FDS, len; cbn; try lia. repeat constructor; cbn; lia.
  - exists h', pkt. split; [reflexivity|]. split; [reflexivity|]. split; [exact E|].
    apply (H [RecvError] (mkRecvMsg pkt None [ScmRights [11%Z]] false) []); [by repeat constructor|done|done].
Defined.

#[local] Existing Instance sample_crates.
#[local] Existing Instance sample_control_json.
#[local] Existing Instance sample_control_json_spec.
#[local] Existing Instance sample_serde.
#[local] Existing Instance sample_serde_spec.
#[local] Existing Instance sample_json.
#[local] Existing Instance sample_hash_order.

(** A caller at address "a" greets the program at "b" and sends three messages, of which
    the second arrives first. *)
Definition sample_caller : Band := bind_with_options INTEROP_PSK "x" (sample_options ["aes256-gcm"]) 0 sample_random.
Definition caller_1 := sample_run [ApConnectPeer "b"] sample_caller.
Definition peer_1 := sample_run [EvDatagram 7 "a" (first_sent caller_1); EvControl] (ip_band (interop_start 5 sample_random)).
Definition caller_2 := sample_run [EvDatagram 9 "b" (first_sent peer_1); EvControl] caller_1.1.
Definition caller_messages : list (Z * bytes) := [(1%Z, str_bytes "one"); (2%Z, str_bytes "two"); (3%Z, str_bytes "three")].
Definition caller_3 := sample_run (ApStream "b" INTEROP_STREAM :: stream_sends 0 caller_messages) caller_2.1.
Definition caller_datagram (i : nat) : bytes := default [] (caller_3.2.*2 !! i).

Lemma interop_peer_receives_witness :
  ∃ B3, interop_run (λ _ _, true) ((IBand <$> [EvDatagram 7 "a" (first_sent caller_1); EvControl]) ++ [IPoll 10]
      ++ (IBand <$> stream_arrivals "a" [(1, 20%Z, caller_datagram 1); (0, 21%Z, caller_datagram 0)]) ++ [IPoll 30]) (interop_start 5 sample_random)
    = Ret (mkInterop B3 (Exited 0) [str_bytes "HELLO"; str_bytes "STREAM two"]).
Proof.
  destruct (interop_peer_receives "x" (sample_options ["aes256-gcm"]) 0 5 sample_random sample_random "a" "b" (λ _ _, true) (λ _ _, true) 7 9 10 30
    ChaCha20Poly1305 caller_1.1 (first_sent caller_1) peer_1.1 (first_sent peer_1) "a" caller_messages) as (A2 & sent0 & E2 & H).
  - reflexivity.
  - reflexivity.
  - by vm_compute.
  - by vm_compute.
  - reflexivity.
  - apply ran_one. by vm_compute.
  - apply ran_one. by vm_compute.
  - repeat constructor; by vm_compute.
  - by vm_compute.
  - assert (EA : A2 = caller_2.1) by (unfold caller_2, sample_run; by rewrite E2). subst A2.
    destruct (ran_three "b" (ApStream "b" INTEROP_STREAM :: stream_sends 0 caller_messages) caller_2.1) as [E3 (d0 & e1 & e2 & H3)]; [by vm_compute|].
    apply (H caller_3.1 caller_3.2 1 20%Z (caller_datagram 1) [(0, 21%Z, caller_datagram 0)] (2%Z, str_bytes "two")).
    + exact E3.
    + unfold caller_3. by rewrite H3.
    + unfold caller_datagram, caller_3. rewrite H3. repeat constructor.
    + reflexivity.
Defined.
