(* ===== verification/Registry.v ===== *)
(** The hub's band registry ([rust/telesthitium/src/registry.rs]) and its UDP
    transport ([rust/telesthitium/src/udp.rs]): admission under caps, relay to
    the other peers of a band, addressed routing, bounded egress queues and the
    hub-wide byte budget. Queues live in a store of their own, named by number,
    because several places hold the two ends of each. *)

From S2P Require Import Prelude Framing HubFrame.

(** * Queues and the byte budget *)

Record Limits := mkLimits {
  max_bands : nat;
  max_peers_per_band : nat;
  udp_validation_packets : Z;
}.

Definition Limits_default : Limits := mkLimits 4096 256 2.

Record ByteBudget := mkBudget { used : Z; limit : Z }.

Definition ByteBudget_new (limit : Z) : ByteBudget := mkBudget 0 limit.
Definition ByteBudget_unlimited : ByteBudget := ByteBudget_new 0.

(** [fetch_update] with [checked_add] and the limit. *)
Definition try_reserve (n : Z) (b : ByteBudget) : option ByteBudget :=
  let t := (used b + n)%Z in
  if (t <=? u64_max)%Z && ((limit b =? 0)%Z || (t <=? limit b)%Z) then Some (mkBudget t (limit b)) else None.

(** [fetch_sub], which wraps around. *)
Definition release (n : Z) (b : ByteBudget) : ByteBudget := mkBudget (wrap 64 (used b - n)) (limit b).

(** A bounded channel: what is queued, its depth, and whether the receiver is
    still there. [q_udp] marks the queues that draw on the budget. *)
Record Queue := mkQueue { q_items : list bytes; q_cap : nat; q_open : bool; q_udp : bool }.

Record Store := mkStore { queues : gmap nat Queue; next_queue : nat; budget : ByteBudget }.

Inductive SendDrop := Full | Budget | ClosedDrop.

(** [mpsc::Sender::try_send]. *)
Definition queue_try_send (tx : nat) (frame : bytes) (s : Store) : result Store SendDrop :=
  match queues s !! tx with
  | None => Err ClosedDrop
  | Some q =>
      if negb (q_open q) then Err ClosedDrop
      else if decide (q_cap q ≤ length (q_items q)) then Err Full
      else Ok (mkStore (<[tx := mkQueue (q_items q ++ [frame]) (q_cap q) true (q_udp q)]> (queues s)) (next_queue s) (budget s))
  end.

(** * The registry *)

Record SocketAddr := mkAddr { ip : string; port : Z }.

#[global] Instance SocketAddr_eq_dec : EqDecision SocketAddr.
Proof. solve_decision. Defined.

#[global] Instance SocketAddr_countable : Countable SocketAddr.
Proof.
  refine (inj_countable' (λ a, (ip a, port a)) (λ x, mkAddr x.1 x.2) _). by intros [].
Defined.

Inductive Sink := SinkUdp (tx : nat) (addr : SocketAddr) | SinkConn (tx : nat).

Inductive PeerKey := Udp (addr : SocketAddr) | Conn (id : Z).

#[global] Instance PeerKey_eq_dec : EqDecision PeerKey.
Proof. solve_decision. Defined.

#[global] Instance PeerKey_countable : Countable PeerKey.
Proof.
  refine (inj_countable' (λ k, match k with Udp a => inl a | Conn i => inr i end)
            (λ x, match x with inl a => Udp a | inr i => Conn i end) _).
  by intros [].
Defined.

Definition sink_queue (s : Sink) : nat := match s with SinkUdp tx _ => tx | SinkConn tx => tx end.

(** [Sink::try_send]: UDP frames are charged to the budget first and refunded
    when they are not queued. *)
Definition sink_try_send (sink : Sink) (frame : bytes) (s : Store) : Store * option SendDrop :=
  match sink with
  | SinkUdp tx _ =>
      let n := len frame in
      match try_reserve n (budget s) with
      | None => (s, Some Budget)
      | Some b =>
          match queue_try_send tx frame (mkStore (queues s) (next_queue s) b) with
          | Ok s => (s, None)
          | Err e => (mkStore (queues s) (next_queue s) (release n b), Some e)
          end
      end
  | SinkConn tx =>
      match queue_try_send tx frame s with
      | Ok s => (s, None)
      | Err e => (s, Some e)
      end
  end.

Record Peer := mkPeerEntry {
  p_sink : option Sink;
  p_first_seen : Z;
  p_last_seen : Z;
  p_eligible : bool;
  p_seen : Z;
  p_route : option Z;
}.

Inductive RegError := BandCap | PeerCap.

Abbreviation Peers := (gmap PeerKey Peer).

Record Registry := mkRegistry {
  bands : gmap bytes Peers;
  limits : Limits;
  next_conn : Z;
  fed : option (list (bytes * bytes));
}.

Definition FED_QUEUE : nat := 4096.

Definition Registry_new (limits : Limits) : Registry := mkRegistry ∅ limits 1 None.

Definition with_bands (bs : gmap bytes Peers) (r : Registry) : Registry := mkRegistry bs (limits r) (next_conn r) (fed r).
Definition with_fed (f : option (list (bytes * bytes))) (r : Registry) : Registry :=
  mkRegistry (bands r) (limits r) (next_conn r) f.

Definition set_federation (r : Registry) : Registry := with_fed (Some []) r.
Definition next_conn_id (r : Registry) : Registry * Z :=
  (mkRegistry (bands r) (limits r) (wrap 64 (next_conn r + 1)) (fed r), next_conn r).
Definition local_bands (r : Registry) : list bytes := (map_to_list (bands r)).*1.

(** What the registry can be asked. *)
Definition band_count (r : Registry) : nat := size (bands r).
Definition band_list (r : Registry) : list bytes := (map_to_list (bands r)).*1.
Definition peer_count (band : bytes) (r : Registry) : nat := match bands r !! band with Some p => size p | None => 0 end.
Definition contains (band : bytes) (key : PeerKey) (r : Registry) : bool :=
  match bands r !! band with Some p => bool_decide (is_Some (p !! key)) | None => false end.
Definition route_of (band : bytes) (key : PeerKey) (r : Registry) : option Z := bands r !! band ≫= λ p, p !! key ≫= p_route.
Definition is_eligible (band : bytes) (key : PeerKey) (r : Registry) : option bool :=
  bands r !! band ≫= λ p, p_eligible <$> p !! key.

Definition saturating_inc (n : Z) : Z := Z.min u32_max (n + 1).

(** The iteration order of a band's peers. *)
Class PeerOrder := peer_iter : Peers → list (PeerKey * Peer).
Class PeerOrderSpec {po : PeerOrder} := peer_iter_perm m : peer_iter m ≡ₚ map_to_list m.
Arguments PeerOrderSpec po : clear implicits.

(** [Registry::insert]; [make_sink] runs only for an eligible peer. *)
Definition registry_insert (band : bytes) (key : PeerKey) (make_sink : Store → Store * Sink) (conn : bool) (now : Z)
    (r : Registry) (s : Store) : Registry * Store * result unit RegError :=
  let is_new_band := bool_decide (bands r !! band = None) in
  if is_new_band && bool_decide (max_bands (limits r) ≤ size (bands r)) then (r, s, Err BandCap) else
  let peers := default ∅ (bands r !! band) in
  if decide (max_peers_per_band (limits r) ≤ size peers) then (r, s, Err PeerCap) else
  let eligible := conn || (udp_validation_packets (limits r) <=? 1)%Z in
  let '(s, sink) := if eligible then (let '(s, k) := make_sink s in (s, Some k)) else (s, None) in
  (with_bands (<[band := <[key := mkPeerEntry sink now now eligible 1 None]> peers]> (bands r)) r, s, Ok tt).

Definition connect (band : bytes) (key : PeerKey) (sink : Sink) (now : Z) (r : Registry) (s : Store)
    : Registry * Store * result unit RegError :=
  registry_insert band key (λ s, (s, sink)) true now r s.

(** [supersede_rebound]. *)
Definition rebound (addr : SocketAddr) (id born : Z) (k : PeerKey) (q : Peer) : bool :=
  match k with
  | Udp a => bool_decide (a ≠ addr) && bool_decide (ip a = ip addr) && bool_decide (p_route q = Some id)
             && (p_last_seen q <? born)%Z
  | Conn _ => false
  end.

Definition set_route (route : option Z) (p : Peer) : Peer :=
  mkPeerEntry (p_sink p) (p_first_seen p) (p_last_seen p) (p_eligible p) (p_seen p) route.

Definition supersede_rebound (key : PeerKey) (peers : Peers) : Peers :=
  match key, peers !! key with
  | Udp addr, Some p =>
      match p_route p, p_eligible p with
      | Some id, true =>
          map_imap (λ k q, Some (if rebound addr id (p_first_seen p) k q then set_route None q else q)) peers
      | _, _ => peers
      end
  | _, _ => peers
  end.

Definition refresh (now : Z) (p : Peer) : Peer :=
  mkPeerEntry (p_sink p) (p_first_seen p) now (p_eligible p) (saturating_inc (p_seen p)) (p_route p).

Definition make_eligible (sink : Sink) (p : Peer) : Peer :=
  mkPeerEntry (Some sink) (p_first_seen p) (p_last_seen p) true (p_seen p) (p_route p).

Definition observe_udp (band : bytes) (addr : SocketAddr) (make_sink : Store → Store * Sink) (now : Z)
    (r : Registry) (s : Store) : Registry * Store * result unit RegError :=
  let key := Udp addr in
  match bands r !! band ≫= λ peers, (peers,.) <$> peers !! key with
  | Some (peers, p) =>
      let p := refresh now p in
      if negb (p_eligible p) && (udp_validation_packets (limits r) <=? p_seen p)%Z then
        let '(s, sink) := make_sink s in
        let peers := supersede_rebound key (<[key := make_eligible sink p]> peers) in
        (with_bands (<[band := peers]> (bands r)) r, s, Ok tt)
      else (with_bands (<[band := <[key := p]> peers]> (bands r)) r, s, Ok tt)
  | None => registry_insert band key make_sink false now r s
  end.

Definition touch (band : bytes) (key : PeerKey) (now : Z) (r : Registry) : Registry :=
  match bands r !! band ≫= λ peers, (peers,.) <$> peers !! key with
  | Some (peers, p) => with_bands (<[band := <[key := refresh now p]> peers]> (bands r)) r
  | None => r
  end.

Definition declared (from : option PeerKey) (id : Z) (k : PeerKey) (p : Peer) : bool :=
  bool_decide (Some k ≠ from) && p_eligible p && bool_decide (p_route p = Some id).

Section Relay.
Context {po : PeerOrder}.

(** The sinks a frame should reach. *)
Definition targets (peers : Peers) (from : option PeerKey) (info : RouteInfo) : list Sink :=
  let id := ri_channel_id info in
  let addressed := bool_decide (ri_channel_type info = Some Addressed) && negb (id =? 0)%Z
                   && existsb (λ x, declared from id x.1 x.2) (peer_iter peers) in
  omap (λ x, p_sink x.2)
    (filter (λ x, negb addressed || declared from id x.1 x.2 = true)
       (filter (λ x, Some x.1 ≠ from ∧ p_eligible x.2 = true) (peer_iter peers))).

(** Handing a frame to each of the sinks in turn; a dropped frame is lost. *)
Fixpoint send_all (sinks : list Sink) (frame : bytes) (s : Store) : Store :=
  match sinks with
  | [] => s
  | k :: sinks' => send_all sinks' frame (sink_try_send k frame s).1
  end.

(** The federation tail: [try_send] on the egress channel, if there is one. *)
Definition federate (band frame : bytes) (r : Registry) : Registry :=
  match fed r with
  | Some q => if decide (FED_QUEUE ≤ length q) then r else with_fed (Some (q ++ [(band, frame)])) r
  | None => r
  end.

Definition forward (band : bytes) (from : PeerKey) (frame : bytes) (r : Registry) (s : Store) : Registry * Store :=
  match route_info frame with
  | None => (r, s)
  | Some info =>
      match bands r !! band with
      | None => (r, s)
      | Some peers =>
          if decide (ri_channel_type info = Some Route) then
            let peers := match peers !! from with
                         | Some p => <[from := set_route (if (ri_channel_id info =? 0)%Z then None
                                                          else Some (ri_channel_id info)) p]> peers
                         | None => peers
                         end in
            (with_bands (<[band := supersede_rebound from peers]> (bands r)) r, s)
          else (federate band frame r, send_all (targets peers (Some from) info) frame s)
      end
  end.

Definition inject_from_link (band frame : bytes) (r : Registry) (s : Store) : Store :=
  match route_info frame with
  | None => s
  | Some info =>
      if decide (ri_channel_type info = Some Route) then s else
      match bands r !! band with
      | None => s
      | Some peers => send_all (targets peers None info) frame s
      end
  end.
End Relay.

Definition disconnect (band : bytes) (key : PeerKey) (r : Registry) : Registry :=
  match bands r !! band with
  | Some peers =>
      let peers := delete key peers in
      with_bands (if decide (peers = ∅) then delete band (bands r) else <[band := peers]> (bands r)) r
  | None => r
  end.

(** [prune]: idle UDP peers go, empty bands are reaped. *)
Definition keeps (now ttl : Z) (k : PeerKey) (p : Peer) : bool :=
  match k with Conn _ => true | Udp _ => (duration_since now (p_last_seen p) <=? ttl)%Z end.

Definition prune_peers (now ttl : Z) (peers : Peers) : Peers := filter (λ kv, keeps now ttl kv.1 kv.2 = true) peers.

Definition prune (now ttl : Z) (r : Registry) : Registry * (nat * nat) :=
  let kept := prune_peers now ttl <$> bands r in
  let evicted := map_sum (λ peers, Z.of_nat (size peers - size (prune_peers now ttl peers))) (bands r) in
  let bs := filter (λ kv, kv.2 ≠ ∅) kept in
  (with_bands bs r, (Z.to_nat evicted, size bs)).

(** * The UDP transport *)

(** [peer_sink]: a new queue of the given depth. *)
Definition peer_sink (addr : SocketAddr) (depth : nat) (s : Store) : Store * Sink :=
  (mkStore (<[next_queue s := mkQueue [] depth true true]> (queues s)) (S (next_queue s)) (budget s),
   SinkUdp (next_queue s) addr).

(** [peer_writer]: the frame it takes off the queue and refunds. *)
Definition peer_writer (tx : nat) (s : Store) : Store * option bytes :=
  match queues s !! tx with
  | Some q =>
      match q_items q with
      | packet :: rest =>
          (mkStore (<[tx := mkQueue rest (q_cap q) (q_open q) (q_udp q)]> (queues s)) (next_queue s)
             (if q_udp q then release (len packet) (budget s) else budget s), Some packet)
      | [] => (s, None)
      end
  | None => (s, None)
  end.

(** One datagram of the receive loop of [serve_with_budget]. *)
Definition udp_datagram {po : PeerOrder} (peer_queue : nat) (src : SocketAddr) (d : bytes) (now : Z)
    (r : Registry) (s : Store) : Registry * Store :=
  match route_info d with
  | None => (r, s)
  | Some info =>
      let depth := Nat.max peer_queue 64 in
      match observe_udp (ri_band_id info) src (peer_sink src depth) now r s with
      | (r, s, Err _) => (r, s)
      | (r, s, Ok _) => forward (ri_band_id info) (Udp src) d r s
      end
  end.

(** * Connection transports *)

(** A WebSocket connection: its egress queue and, after the first frame, the
    band and key it is registered under ([rust/telesthitium/src/ws.rs]).
    WebTransport sessions and AF_UNIX connections know their band from the
    start ([wt.rs], [unix.rs]). *)
Record ConnState := mkConnState { cs_queue : nat; cs_registered : option (bytes * PeerKey) }.

Definition conn_accept (conn_queue : nat) (s : Store) : Store * nat :=
  (mkStore (<[next_queue s := mkQueue [] (Nat.max conn_queue 64) true false]> (queues s)) (S (next_queue s)) (budget s),
   next_queue s).

(** The receiving end goes away: later sends find the channel closed. *)
Definition conn_drop (tx : nat) (s : Store) : Store :=
  match queues s !! tx with
  | Some q => if q_udp q then s
              else mkStore (<[tx := mkQueue [] (q_cap q) false false]> (queues s)) (next_queue s) (budget s)
  | None => s
  end.

(** A frame of a connection registered for [band]: refused when it names
    another band. *)
Definition pinned_frame {po : PeerOrder} (band : bytes) (key : PeerKey) (frame : bytes) (now : Z)
    (r : Registry) (s : Store) : Registry * Store :=
  match route_info frame with
  | Some info => if decide (ri_band_id info = band) then forward band key frame (touch band key now r) s else (r, s)
  | None => (r, s)
  end.

(** A binary message of a WebSocket; [false] ends the connection. *)
Definition ws_message {po : PeerOrder} (data : bytes) (now : Z) (c : ConnState) (r : Registry) (s : Store)
    : Registry * Store * ConnState * bool :=
  match route_info data with
  | None => (r, s, c, true)
  | Some info =>
      match cs_registered c with
      | Some (band, k) =>
          if decide (ri_band_id info ≠ band) then (r, s, c, true)
          else let '(r, s) := forward (ri_band_id info) k data (touch band k now r) s in (r, s, c, true)
      | None =>
          let '(r, id) := next_conn_id r in
          match connect (ri_band_id info) (Conn id) (SinkConn (cs_queue c)) now r s with
          | (r, s, Err _) => (r, s, c, false)
          | (r, s, Ok _) =>
              let '(r, s) := forward (ri_band_id info) (Conn id) data r s in
              (r, s, mkConnState (cs_queue c) (Some (ri_band_id info, Conn id)), true)
          end
      end
  end.

(** A connection whose band is known when it is accepted. *)
Definition conn_open (band : bytes) (tx : nat) (now : Z) (r : Registry) (s : Store)
    : Registry * Store * option ConnState :=
  let '(r, id) := next_conn_id r in
  match connect band (Conn id) (SinkConn tx) now r s with
  | (r, s, Err _) => (r, s, None)
  | (r, s, Ok _) => (r, s, Some (mkConnState tx (Some (band, Conn id))))
  end.

Definition conn_close (c : ConnState) (r : Registry) (s : Store) : Registry * Store :=
  (match cs_registered c with Some (band, key) => disconnect band key r | None => r end, conn_drop (cs_queue c) s).

(** ** Store lemmas *)

Definition frame_bytes (l : list bytes) : Z := foldr (λ f n, len f + n)%Z 0%Z l.
Definition charge (q : Queue) : Z := if q_udp q then frame_bytes (q_items q) else 0%Z.

Record StoreInv (s : Store) : Prop := {
  si_fresh : ∀ i, next_queue s ≤ i → queues s !! i = None;
  si_depth : ∀ i q, queues s !! i = Some q → length (q_items q) ≤ q_cap q;
  si_used : used (budget s) = map_sum charge (queues s);
  si_range : (0 <= used (budget s) <= u64_max)%Z;
  si_limit : limit (budget s) = 0%Z ∨ (used (budget s) <= limit (budget s))%Z;
}.

(** Queues are never removed, nor change kind. *)
Definition store_ext (s s' : Store) : Prop :=
  next_queue s ≤ next_queue s' ∧ limit (budget s') = limit (budget s)
  ∧ ∀ i q, queues s !! i = Some q → ∃ q', queues s' !! i = Some q' ∧ q_udp q' = q_udp q.

#[export] Instance store_ext_po : PreOrder store_ext.
Proof.
  split.
  - intros s. split_and!; eauto.
  - intros s1 s2 s3 (A1 & A2 & A3) (B1 & B2 & B3). split_and!; [lia|congruence|].
    intros i q H. destruct (A3 i q H) as (q' & H' & E'). destruct (B3 i q' H') as (q'' & H'' & E''). eauto with congruence.
Qed.

Lemma frame_bytes_app a b : frame_bytes (a ++ b) = (frame_bytes a + frame_bytes b)%Z.
Proof. induction a as [|x a IH]; simpl; [done|]. rewrite IH. lia. Qed.

Lemma frame_bytes_nonneg l : (0 <= frame_bytes l)%Z.
Proof. induction l as [|x l IH]; simpl; [lia|]. pose proof (len_nonneg x). lia. Qed.

Lemma charge_nonneg q : (0 <= charge q)%Z.
Proof. unfold charge. case_match; [apply frame_bytes_nonneg|lia]. Qed.

Lemma wrap_u64_small z : (0 <= z <= u64_max)%Z → wrap 64 z = z.
Proof. intros. unfold wrap, u64_max in *. apply Z.mod_small. lia. Qed.

(** Replacing a queue by one of the same kind. *)
Lemma store_update s i q q' b :
  StoreInv s → queues s !! i = Some q → q_udp q' = q_udp q → length (q_items q') ≤ q_cap q' →
  used b = (used (budget s) - charge q + charge q')%Z → (0 <= used b <= u64_max)%Z →
  limit b = limit (budget s) → (limit b = 0%Z ∨ (used b <= limit b)%Z) →
  StoreInv (mkStore (<[i := q']> (queues s)) (next_queue s) b)
  ∧ store_ext s (mkStore (<[i := q']> (queues s)) (next_queue s) b).
Proof.
  intros [I1 I2 I3 I4 I5] Hi Hu Hl Hb Hr Hlim Hle. split.
  - split; simpl; try done.
    + intros j Hj. destruct (decide (i = j)) as [<-|Hne]; [by rewrite (I1 i Hj) in Hi|]. rewrite lookup_insert_ne by done. auto.
    + intros j qj [[<- <-]|[_ Hj]]%lookup_insert_Some; [done|eauto].
    + rewrite Hb, I3. erewrite (map_sum_update charge (queues s) i q q' Hi). lia.
  - split_and!; [done|done|]. intros j qj Hj. simpl. destruct (decide (i = j)) as [<-|Hne].
    + rewrite lookup_insert_eq. exists q'. split; [done|]. congruence.
    + exists qj. by rewrite lookup_insert_ne.
Qed.

Lemma queue_try_send_Ok tx frame s s' :
  queue_try_send tx frame s = Ok s' →
  ∃ q, queues s !! tx = Some q ∧ q_open q = true ∧ length (q_items q) < q_cap q
    ∧ s' = mkStore (<[tx := mkQueue (q_items q ++ [frame]) (q_cap q) true (q_udp q)]> (queues s)) (next_queue s) (budget s).
Proof.
  unfold queue_try_send. destruct (queues s !! tx) as [q|]; [|done]. destruct (q_open q) eqn:Eo; [|done]. simpl.
  case_decide; [done|]. intros [= <-]. exists q. split_and!; [done|done|lia|done].
Qed.

Lemma try_reserve_Some n b b' :
  try_reserve n b = Some b' →
  b' = mkBudget (used b + n) (limit b) ∧ (used b + n <= u64_max)%Z ∧ (limit b = 0%Z ∨ (used b + n <= limit b)%Z).
Proof.
  unfold try_reserve. destruct (_ && _)%bool eqn:E; [|done]. intros [= <-].
  apply andb_true_iff in E as [E1 E2]. apply Z.leb_le in E1. apply orb_true_iff in E2.
  rewrite Z.eqb_eq, Z.leb_le in E2. done.
Qed.

(** A sink whose queue exists and is of its kind. *)
Definition sink_ok (s : Store) (k : Sink) : Prop :=
  match k with
  | SinkUdp tx _ => ∃ q, queues s !! tx = Some q ∧ q_udp q = true
  | SinkConn tx => ∃ q, queues s !! tx = Some q ∧ q_udp q = false
  end.

Lemma sink_ok_ext s s' k : store_ext s s' → sink_ok s k → sink_ok s' k.
Proof.
  intros (_ & _ & H). destruct k; intros (q & Hq & Eu); destruct (H _ _ Hq) as (q' & Hq' & E'); exists q'; split; congruence.
Qed.

Lemma sink_try_send_inv k frame s :
  StoreInv s → sink_ok s k → StoreInv (sink_try_send k frame s).1 ∧ store_ext s (sink_try_send k frame s).1.
Proof.
  intros I Hk. pose proof (len_nonneg frame). unfold sink_try_send. destruct k as [tx addr|tx].
  - destruct (try_reserve (len frame) (budget s)) as [b|] eqn:Er; [|by split].
    apply try_reserve_Some in Er as (-> & Hu & Hlim).
    destruct (queue_try_send tx frame _) as [s'|e] eqn:Eq.
    + apply queue_try_send_Ok in Eq as (q & Hq & Ho & Hl & ->). simpl in *.
      destruct Hk as (q0 & Hq0 & Eu). rewrite Hq in Hq0. injection Hq0 as <-.
      apply (store_update s tx q); try done; simpl.
      * rewrite length_app. simpl. lia.
      * unfold charge. simpl. rewrite Eu, frame_bytes_app. simpl. lia.
      * destruct I. lia.
    + simpl. unfold release. simpl. destruct I as [I1 I2 I3 I4 I5]. rewrite wrap_u64_small by lia.
      split; [split; simpl; try done; [by rewrite <- I3; lia|lia|destruct I5; [by left|right; lia]]|].
      split_and!; simpl; try done. eauto.
  - destruct (queue_try_send tx frame s) as [s'|e] eqn:Eq; [|by split].
    apply queue_try_send_Ok in Eq as (q & Hq & Ho & Hl & ->).
    destruct Hk as (q0 & Hq0 & Eu). rewrite Hq in Hq0. injection Hq0 as <-.
    apply (store_update s tx q); try done; simpl.
    + rewrite length_app. simpl. lia.
    + unfold charge. simpl. rewrite Eu. lia.
    + apply I.
    + apply I.
Qed.

Lemma send_all_inv sinks frame s :
  StoreInv s → Forall (sink_ok s) sinks → StoreInv (send_all sinks frame s) ∧ store_ext s (send_all sinks frame s).
Proof.
  revert s. induction sinks as [|k sinks IH]; intros s I H; simpl; [by split|].
  apply Forall_cons in H as [Hk H]. destruct (sink_try_send_inv k frame s I Hk) as [I1 E1].
  destruct (IH _ I1) as [I2 E2]; [eapply Forall_impl; [done|intros ? ?; by eapply sink_ok_ext]|].
  split; [done|]. by etrans.
Qed.

Lemma new_queue_inv s depth udp :
  StoreInv s →
  let s' := mkStore (<[next_queue s := mkQueue [] depth true udp]> (queues s)) (S (next_queue s)) (budget s) in
  StoreInv s' ∧ store_ext s s' ∧ queues s' !! next_queue s = Some (mkQueue [] depth true udp).
Proof.
  intros [I1 I2 I3 I4 I5] s'. pose proof (I1 (next_queue s) ltac:(lia)) as Hn. split_and!.
  - split; simpl; try done.
    + intros i Hi. rewrite lookup_insert_ne by lia. apply I1. lia.
    + intros i q [[<- <-]|[_ Hi]]%lookup_insert_Some; [simpl; lia|eauto].
    + rewrite map_sum_insert by done. rewrite I3. unfold charge. simpl. destruct udp; lia.
  - split_and!; simpl; [lia|done|]. intros i q Hi. exists q. rewrite lookup_insert_ne; [done|]. intros E. rewrite <- E in Hi. congruence.
  - apply lookup_insert_eq.
Qed.

Lemma peer_writer_inv tx s : StoreInv s → StoreInv (peer_writer tx s).1 ∧ store_ext s (peer_writer tx s).1.
Proof.
  intros I. unfold peer_writer. destruct (queues s !! tx) as [q|] eqn:Eq; [|by split].
  destruct (q_items q) as [|p rest] eqn:Ei; [by split|]. simpl.
  assert (Hc : (charge q <= map_sum charge (queues s))%Z)
    by (eapply map_sum_lookup_le; [|exact Eq]; intros; apply charge_nonneg).
  pose proof (si_used _ I). pose proof (si_range _ I). pose proof (len_nonneg p). pose proof (frame_bytes_nonneg rest).
  pose proof (si_depth _ I _ _ Eq) as Hd. rewrite Ei in Hd. simpl in Hd.
  destruct (q_udp q) eqn:Eu.
  - assert (Eq' : charge q = (len p + frame_bytes rest)%Z) by (unfold charge; by rewrite Eu, Ei).
    apply (store_update s tx q); try done; simpl.
    + lia.
    + rewrite wrap_u64_small by lia. rewrite Eq'. unfold charge. simpl. lia.
    + rewrite wrap_u64_small by lia. lia.
    + rewrite wrap_u64_small by lia. destruct (si_limit _ I); [by left|right; lia].
  - apply (store_update s tx q); try done; simpl; [lia| |apply I].
    unfold charge. simpl. rewrite Eu. lia.
Qed.

Lemma conn_drop_inv tx s : StoreInv s → StoreInv (conn_drop tx s) ∧ store_ext s (conn_drop tx s).
Proof.
  intros I. unfold conn_drop. destruct (queues s !! tx) as [q|] eqn:Eq; [|by split].
  destruct (q_udp q) eqn:Eu; [by split|]. apply (store_update s tx q); try done; simpl; [lia| |apply I|apply I].
  unfold charge. simpl. rewrite Eu. lia.
Qed.

(** ** Registry invariant *)

(** The entry of a peer: it has a sink exactly when it is eligible, a
    connection is eligible, a UDP peer once enough packets were seen of it, and
    no entry declares the broadcast id. *)
Definition peer_ok (l : Limits) (s : Store) (k : PeerKey) (p : Peer) : Prop :=
  (is_Some (p_sink p) ↔ p_eligible p = true)
  ∧ (1 <= p_seen p <= u32_max)%Z
  ∧ match k with
    | Conn _ => p_eligible p = true
    | Udp _ => p_eligible p = true ↔ (udp_validation_packets l <= p_seen p)%Z
    end
  ∧ p_route p ≠ Some 0%Z
  ∧ ∀ sink, p_sink p = Some sink → sink_ok s sink.

Definition peers_ok (l : Limits) (s : Store) (peers : Peers) : Prop :=
  peers ≠ ∅ ∧ size peers ≤ max_peers_per_band l ∧ map_Forall (peer_ok l s) peers.

Record RegInv (r : Registry) (s : Store) : Prop := {
  rg_bands : size (bands r) ≤ max_bands (limits r);
  rg_peers : map_Forall (λ _ peers, peers_ok (limits r) s peers) (bands r);
  rg_fed : match fed r with Some q => length q ≤ FED_QUEUE | None => True end;
  rg_limits : is_u32 (udp_validation_packets (limits r));
}.

Lemma peer_ok_ext l s s' k p : store_ext s s' → peer_ok l s k p → peer_ok l s' k p.
Proof.
  intros E (H1 & H2 & H3 & H4 & H5). split; [exact H1|]. split; [exact H2|]. split; [exact H3|]. split; [exact H4|].
  intros sink Hs. eapply sink_ok_ext; eauto.
Qed.

Lemma RegInv_ext r s s' : store_ext s s' → RegInv r s → RegInv r s'.
Proof.
  intros E [R1 R2 R3 R4]. split; try done. eapply map_Forall_impl; [exact R2|].
  intros b peers (H1 & H2 & H3). split_and!; [done|done|]. eapply map_Forall_impl; [exact H3|].
  intros k p. by apply peer_ok_ext.
Qed.

(** Changing the peers of one band. *)
Lemma with_band_inv r s band peers :
  RegInv r s → peers_ok (limits r) s peers → (is_Some (bands r !! band) ∨ size (bands r) < max_bands (limits r)) →
  RegInv (with_bands (<[band := peers]> (bands r)) r) s.
Proof.
  intros [R1 R2 R3 R4] Hp Hb. split; simpl; try done.
  - rewrite map_size_insert. destruct Hb as [[x ->]|Hb]; [done|]. destruct (bands r !! band); cbv [id]; lia.
  - by apply map_Forall_insert_2.
Qed.

Lemma insert_inv band key make_sink conn now r s :
  RegInv r s → StoreInv s →
  (StoreInv (make_sink s).1 ∧ store_ext s (make_sink s).1 ∧ sink_ok (make_sink s).1 (make_sink s).2) →
  (match key with Conn _ => conn = true | Udp _ => conn = false end) →
  let '(r', s', res) := registry_insert band key make_sink conn now r s in
  RegInv r' s' ∧ StoreInv s' ∧ store_ext s s'.
Proof.
  intros R I Hm Hc. unfold registry_insert.
  destruct (_ && _)%bool eqn:Eb; [by split; [|split]|].
  destruct (decide (max_peers_per_band (limits r) ≤ size (default ∅ (bands r !! band)))) as [Hp|Hp]; [by split; [|split]|].
  set (eligible := (conn || _)%bool).
  assert (Hroom : is_Some (bands r !! band) ∨ size (bands r) < max_bands (limits r)).
  { destruct (bands r !! band); [by left; eauto|]. right. rewrite bool_decide_true in Eb by done. simpl in Eb.
    apply bool_decide_eq_false in Eb. lia. }
  assert (Hpeers : map_Forall (peer_ok (limits r) s) (default ∅ (bands r !! band))).
  { destruct (bands r !! band) as [peers|] eqn:E; [|apply map_Forall_empty]. by apply (rg_peers _ _ R) in E as (_ & _ & ?). }
  assert (Hgen : ∀ s' sink, store_ext s s' → StoreInv s' → (is_Some sink ↔ eligible = true) → (∀ k, sink = Some k → sink_ok s' k) →
    RegInv (with_bands (<[band := <[key := mkPeerEntry sink now now eligible 1 None]> (default ∅ (bands r !! band))]> (bands r)) r) s').
  { intros s' sink He I' Hs Hok. apply with_band_inv; [by eapply RegInv_ext| |done]. split_and!.
    - apply insert_non_empty.
    - pose proof (size_insert_le (default ∅ (bands r !! band)) key (mkPeerEntry sink now now eligible 1 None)). lia.
    - apply map_Forall_insert_2; [|eapply map_Forall_impl; [exact Hpeers|]; intros ? ?; by apply peer_ok_ext].
      split_and!; simpl; [done|lia|unfold u32_max; lia| |done|done].
      destruct key; unfold eligible; rewrite Hc; simpl; [by rewrite Z.leb_le|done]. }
  destruct eligible eqn:Ee.
  - destruct Hm as (I' & He & Hk). destruct (make_sink s) as [s' k]. simpl in *. split_and!; [|done|done].
    apply Hgen; try done. by intros ? [= <-].
  - split_and!; [|done|done]. apply Hgen; try done.
Qed.

Lemma peer_sink_ok addr depth s :
  StoreInv s → StoreInv (peer_sink addr depth s).1 ∧ store_ext s (peer_sink addr depth s).1
  ∧ sink_ok (peer_sink addr depth s).1 (peer_sink addr depth s).2.
Proof.
  intros I. destruct (new_queue_inv s depth true I) as (I' & E & Hq). split_and!; [done|done|]. simpl.
  eexists. split; [exact Hq|done].
Qed.

(** Changing one peer of a band, and rewriting declarations. *)
Lemma with_peer_inv r s band peers key p :
  RegInv r s → bands r !! band = Some peers → is_Some (peers !! key) → peer_ok (limits r) s key p →
  RegInv (with_bands (<[band := <[key := p]> peers]> (bands r)) r) s.
Proof.
  intros R Hb Hk Hp. destruct (rg_peers _ _ R _ _ Hb) as (H1 & H2 & H3). apply with_band_inv; [done| |by left; eauto].
  split_and!; [apply insert_non_empty| |by apply map_Forall_insert_2].
  rewrite map_size_insert. destruct Hk as [x ->]. done.
Qed.

Lemma supersede_lookup key peers k :
  supersede_rebound key peers !! k = (λ q, match key, peers !! key with
    | Udp addr, Some p =>
        match p_route p, p_eligible p with
        | Some id, true => if rebound addr id (p_first_seen p) k q then set_route None q else q
        | _, _ => q
        end
    | _, _ => q
    end) <$> (peers !! k).
Proof.
  unfold supersede_rebound. destruct key as [addr|]; [|by rewrite option_fmap_id].
  destruct (peers !! Udp addr) as [p|]; [|by rewrite option_fmap_id].
  destruct (p_route p) as [id|]; [|by rewrite option_fmap_id].
  destruct (p_eligible p); [|by rewrite option_fmap_id].
  rewrite map_lookup_imap. by destruct (peers !! k).
Qed.

Lemma peer_ok_set_route l s k p route : route ≠ Some 0%Z → peer_ok l s k p → peer_ok l s k (set_route route p).
Proof. intros Hr (H1 & H2 & H3 & H4 & H5). exact (conj H1 (conj H2 (conj H3 (conj Hr H5)))). Qed.

Lemma supersede_inv l s key peers : peers_ok l s peers → peers_ok l s (supersede_rebound key peers).
Proof.
  intros (H1 & H2 & H3).
  assert (Hd : dom (supersede_rebound key peers) = dom peers).
  { apply set_eq. intros k. rewrite !elem_of_dom, supersede_lookup, fmap_is_Some. done. }
  split_and!.
  - intros E. apply H1. apply dom_empty_inv_L. by rewrite <- Hd, E, dom_empty_L.
  - by rewrite <- size_dom, Hd, size_dom.
  - intros k q Hq. rewrite supersede_lookup in Hq. apply fmap_Some in Hq as (q0 & Hq0 & ->). specialize (H3 _ _ Hq0).
    repeat case_match; try done. by apply peer_ok_set_route.
Qed.

Lemma refresh_ok l s k p now :
  is_u32 (udp_validation_packets l) → peer_ok l s k p →
  match k with Conn _ => True | Udp _ => p_eligible p = true ∨ (p_seen p + 1 < udp_validation_packets l)%Z end →
  peer_ok l s k (refresh now p).
Proof.
  intros Hl (H1 & H2 & H3 & H4 & H5) Hk. unfold saturating_inc, is_u32, u32_max in *.
  split; [exact H1|]. split; [simpl; unfold saturating_inc, u32_max; lia|]. split; [|exact (conj H4 H5)].
  destruct k; simpl; [|done]. unfold saturating_inc, u32_max. rewrite H3 in *. destruct Hk; lia.
Qed.

(** ** Who has which queue *)

Definition sink_of (r : Registry) (band : bytes) (k : PeerKey) : option Sink :=
  bands r !! band ≫= λ peers, peers !! k ≫= p_sink.

Lemma sink_of_insert r band peers b k :
  sink_of (with_bands (<[band := peers]> (bands r)) r) b k
  = if decide (b = band) then peers !! k ≫= p_sink else sink_of r b k.
Proof.
  unfold sink_of. simpl. destruct (decide (b = band)) as [->|].
  - by rewrite lookup_insert_eq.
  - by rewrite lookup_insert_ne.
Qed.

Lemma sink_of_band r band peers k : bands r !! band = Some peers → sink_of r band k = peers !! k ≫= p_sink.
Proof. intros H. unfold sink_of. by rewrite H. Qed.

(** Replacing the peers of a band by ones with the same sinks. *)
Lemma sink_of_same r band peers peers' :
  bands r !! band = Some peers → (∀ k, peers' !! k ≫= p_sink = peers !! k ≫= p_sink) →
  ∀ b k, sink_of (with_bands (<[band := peers']> (bands r)) r) b k = sink_of r b k.
Proof.
  intros Hb H b k. rewrite sink_of_insert. destruct (decide (b = band)) as [->|]; [|done].
  by rewrite H, (sink_of_band _ _ _ _ Hb).
Qed.

Lemma insert_same_sink (peers : Peers) key p p' :
  peers !! key = Some p → p_sink p' = p_sink p → ∀ k, <[key := p']> peers !! k ≫= p_sink = peers !! k ≫= p_sink.
Proof.
  intros Hp E k. destruct (decide (key = k)) as [<-|]; [by rewrite lookup_insert_eq, Hp|by rewrite lookup_insert_ne].
Qed.

Lemma supersede_same_sink key (peers : Peers) k : supersede_rebound key peers !! k ≫= p_sink = peers !! k ≫= p_sink.
Proof. rewrite supersede_lookup. destruct (peers !! k) as [q|]; simpl; [|done]. by repeat case_match. Qed.

Lemma sink_of_lookup r band k sink :
  sink_of r band k = Some sink → ∃ peers p, bands r !! band = Some peers ∧ peers !! k = Some p ∧ p_sink p = Some sink.
Proof.
  unfold sink_of. intros H. apply bind_Some in H as (peers & H1 & H). apply bind_Some in H as (p & H2 & H3). eauto.
Qed.

Lemma sink_of_ok r s band k sink : RegInv r s → sink_of r band k = Some sink → sink_ok s sink.
Proof.
  intros R (peers & p & Hb & Hp & Hs)%sink_of_lookup. destruct (rg_peers _ _ R _ _ Hb) as (_ & _ & H).
  destruct (H _ _ Hp) as (_ & _ & _ & _ & H5). auto.
Qed.

(** What one step may do to the sinks: keep them, or give one absent peer a
    sink of its own. *)
Definition adds_sink (r r' : Registry) (band : bytes) (key : PeerKey) (sink : Sink) : Prop :=
  sink_of r band key = None ∧ ∀ b k, sink_of r' b k = if decide ((b, k) = (band, key)) then Some sink else sink_of r b k.

Lemma adds_sink_insert r band key p sink peers :
  default ∅ (bands r !! band) = peers → peers !! key ≫= p_sink = None → p_sink p = Some sink →
  adds_sink r (with_bands (<[band := <[key := p]> peers]> (bands r)) r) band key sink.
Proof.
  intros Hb Hn Hs.
  assert (Hsink : ∀ k, sink_of r band k = peers !! k ≫= p_sink)
    by (intros k; unfold sink_of; subst peers; by destruct (bands r !! band)).
  split; [by rewrite Hsink|].
  intros b k. rewrite sink_of_insert. destruct (decide (b = band)) as [->|].
  - destruct (decide (key = k)) as [<-|].
    + by rewrite lookup_insert_eq, decide_True.
    + rewrite lookup_insert_ne, decide_False by congruence. by rewrite Hsink.
  - by rewrite decide_False by congruence.
Qed.

Definition same_meta (r r' : Registry) : Prop :=
  limits r' = limits r ∧ fed r' = fed r ∧ next_conn r' = next_conn r.

(** The effect of admitting or refreshing a peer on the sinks and the store. *)
Definition grows (band : bytes) (key : PeerKey) (make : Store → Store * Sink) (r : Registry) (s : Store) (r' : Registry) (s' : Store) : Prop :=
  (s' = s ∧ ∀ b k, sink_of r' b k = sink_of r b k)
  ∨ (s' = (make s).1 ∧ adds_sink r r' band key (make s).2).

Lemma insert_grows band key make conn now r s :
  bands r !! band ≫= (.!! key) = None →
  let '(r', s', _) := registry_insert band key make conn now r s in
  same_meta r r' ∧ grows band key make r s r' s'.
Proof.
  intros Hn. unfold registry_insert.
  destruct (_ && _)%bool; [by split; [|left]|].
  destruct (decide _); [by split; [|left]|].
  assert (Hn' : default ∅ (bands r !! band) !! key = None) by (by destruct (bands r !! band)).
  destruct (conn || _)%bool.
  - destruct (make s) as [s' k] eqn:Em. split; [done|]. right. split; [by rewrite Em|]. rewrite Em.
    by apply adds_sink_insert; [|rewrite Hn'|].
  - split; [done|]. left. split; [done|]. intros b k. rewrite sink_of_insert.
    destruct (decide (b = band)) as [->|]; [|done]. unfold sink_of.
    destruct (decide (key = k)) as [<-|].
    + rewrite lookup_insert_eq. simpl. destruct (bands r !! band) as [ps|]; simpl in *; [by rewrite Hn'|done].
    + rewrite lookup_insert_ne by done. by destruct (bands r !! band).
Qed.

(** The sink of a still validating peer is made when it becomes eligible. *)
Lemma eligible_sink l s k p : peer_ok l s k p → p_eligible p = false → p_sink p = None.
Proof. intros (H1 & _) H. destruct (p_sink p) eqn:E; [|done]. destruct H1 as [H1 _]. rewrite H1 in H by eauto. done. Qed.

Lemma observe_udp_spec band addr depth now r s :
  RegInv r s → StoreInv s →
  let '(r', s', _) := observe_udp band addr (peer_sink addr depth) now r s in
  RegInv r' s' ∧ StoreInv s' ∧ store_ext s s' ∧ same_meta r r' ∧ grows band (Udp addr) (peer_sink addr depth) r s r' s'.
Proof.
  intros R I. unfold observe_udp.
  destruct (bands r !! band ≫= _) as [[peers p]|] eqn:E.
  - apply bind_Some in E as (ps & Hb & E). apply fmap_Some in E as (p0 & Hp & [= <- <-]).
    destruct (rg_peers _ _ R _ _ Hb) as (N1 & N2 & N3). pose proof (N3 _ _ Hp) as Hok.
    destruct (negb (p_eligible (refresh now p)) && _)%bool eqn:Ev.
    + apply andb_true_iff in Ev as [Ev1 Ev2]. apply negb_true_iff in Ev1. apply Z.leb_le in Ev2.
      destruct (peer_sink_ok addr depth s I) as (I' & Ex & Hk). destruct (peer_sink addr depth s) as [s' sink] eqn:Ek.
      cbn [fst snd] in *. split_and!; try done.
      * assert (R' := RegInv_ext _ _ _ Ex R). apply with_band_inv; [done| |by left; eauto]. apply supersede_inv.
        split_and!; [apply insert_non_empty|rewrite map_size_insert, Hp; done|].
        apply map_Forall_insert_2; [|by destruct (rg_peers _ _ R' _ _ Hb) as (_ & _ & ?)].
        destruct Hok as (_ & H2 & _ & H4 & _). simpl in *. unfold saturating_inc in *.
        split_and!; simpl; [done|unfold saturating_inc, u32_max in *; lia..|done|by intros ? [= <-]].
      * right. rewrite Ek. split; [done|]. cbn [fst snd]. simpl in Ev1. pose proof (eligible_sink _ _ _ _ Hok Ev1) as Hs.
        destruct (adds_sink_insert r band (Udp addr) (make_eligible sink (refresh now p)) sink peers) as [A1 A2];
          [by rewrite Hb|by rewrite Hp|done|].
        split; [done|]. intros b k. rewrite <- A2; rewrite !sink_of_insert. destruct (decide (b = band)); [|done].
        by rewrite supersede_same_sink.
    + split_and!; try done.
      * apply with_peer_inv; [done|done|by eauto|]. apply refresh_ok; [apply R|done|].
        apply andb_false_iff in Ev as [Ev|Ev]; [left; by apply negb_false_iff in Ev|].
        apply Z.leb_gt in Ev. simpl in Ev. unfold saturating_inc in Ev. pose proof (rg_limits _ _ R) as HL.
        unfold is_u32, u32_max in *. right. lia.
      * left. split; [done|]. apply (sink_of_same _ _ _ _ Hb). by eapply insert_same_sink.
  - assert (Hn : bands r !! band ≫= (.!! Udp addr) = None)
      by (destruct (bands r !! band) as [ps|]; simpl in *; [by destruct (ps !! Udp addr)|done]).
    pose proof (insert_inv band (Udp addr) (peer_sink addr depth) false now r s R I (peer_sink_ok addr depth s I) eq_refl) as Hi.
    pose proof (insert_grows band (Udp addr) (peer_sink addr depth) false now r s Hn) as Hg.
    destruct (registry_insert _ _ _ _ _ _ _) as [[r' s'] res]. naive_solver.
Qed.

(** A connection registers under a fresh key. *)
Lemma connect_spec band id tx now r s :
  RegInv r s → StoreInv s → (∃ q, queues s !! tx = Some q ∧ q_udp q = false) → sink_of r band (Conn id) = None →
  let '(r', s', res) := connect band (Conn id) (SinkConn tx) now r s in
  s' = s ∧ RegInv r' s ∧ same_meta r r'
  ∧ match res with Ok _ => adds_sink r r' band (Conn id) (SinkConn tx) | Err _ => r' = r end.
Proof.
  intros R I Hq Hn. unfold connect.
  assert (Hn' : bands r !! band ≫= (.!! Conn id) = None).
  { destruct (bands r !! band) as [peers|] eqn:Hb; [|done]. simpl. destruct (peers !! Conn id) as [p|] eqn:Hp; [|done].
    destruct (rg_peers _ _ R _ _ Hb) as (_ & _ & N3). destruct (N3 _ _ Hp) as (H1 & _ & H3 & _). simpl in H3.
    rewrite (sink_of_band _ _ _ _ Hb), Hp in Hn. simpl in Hn. rewrite Hn in H1. apply H1 in H3 as [? ?]. done. }
  pose proof (insert_inv band (Conn id) (λ s, (s, SinkConn tx)) true now r s R I) as Hi.
  pose proof (insert_grows band (Conn id) (λ s, (s, SinkConn tx)) true now r s Hn') as Hg.
  unfold registry_insert in *. cbn [orb] in *.
  destruct (_ && _)%bool; [done|]. destruct (decide _); [done|].
  destruct Hg as [Hm [[_ Hg]|[_ Hg]]].
  - specialize (Hg band (Conn id)). by rewrite sink_of_insert, decide_True, lookup_insert_eq, Hn in Hg.
  - split_and!; try done. by apply Hi.
Qed.

Lemma touch_spec band id now r s :
  RegInv r s → RegInv (touch band (Conn id) now r) s ∧ same_meta r (touch band (Conn id) now r)
  ∧ ∀ b k, sink_of (touch band (Conn id) now r) b k = sink_of r b k.
Proof.
  intros R. unfold touch. destruct (bands r !! band ≫= _) as [[peers p]|] eqn:E; [|done].
  apply bind_Some in E as (ps & Hb & E). apply fmap_Some in E as (p0 & Hp & [= <- <-]).
  destruct (rg_peers _ _ R _ _ Hb) as (_ & _ & N3). split_and!; try done.
  - apply with_peer_inv; [done|done|by eauto|]. apply refresh_ok; [apply R|by apply N3|done].
  - apply (sink_of_same _ _ _ _ Hb). by eapply insert_same_sink.
Qed.

Lemma disconnect_spec band key r s :
  RegInv r s → RegInv (disconnect band key r) s ∧ same_meta r (disconnect band key r)
  ∧ ∀ b k, sink_of (disconnect band key r) b k = if decide ((b, k) = (band, key)) then None else sink_of r b k.
Proof.
  intros R. unfold disconnect. destruct (bands r !! band) as [peers|] eqn:Hb.
  2: { split_and!; try done. intros b k. destruct (decide _) as [[= -> ->]|]; [|done]. unfold sink_of. by rewrite Hb. }
  destruct (rg_peers _ _ R _ _ Hb) as (N1 & N2 & N3).
  assert (Hdel : ∀ k, delete key peers !! k ≫= p_sink = if decide (k = key) then None else sink_of r band k).
  { intros k. rewrite (sink_of_band _ _ _ _ Hb). destruct (decide (k = key)) as [->|]; [by rewrite lookup_delete_eq|by rewrite lookup_delete_ne]. }
  destruct (decide (delete key peers = ∅)) as [E|E]; split_and!; try done.
  - destruct R as [R1 R2 R3 R4]. split; simpl; try done; [pose proof (size_delete_le (bands r) band); lia|by apply map_Forall_delete].
  - intros b k. unfold sink_of at 1. simpl. destruct (decide (b = band)) as [->|].
    + rewrite lookup_delete_eq. simpl. specialize (Hdel k). rewrite E, lookup_empty in Hdel. simpl in Hdel.
      repeat case_decide; congruence.
    + rewrite lookup_delete_ne, decide_False by congruence. done.
  - apply with_band_inv; [done| |by left; eauto]. split_and!; [done| |by apply map_Forall_delete].
    pose proof (size_delete_le peers key). lia.
  - intros b k. rewrite sink_of_insert. destruct (decide (b = band)) as [->|]; [|by rewrite decide_False by congruence].
    rewrite Hdel. repeat case_decide; congruence.
Qed.

Lemma prune_lookup now ttl r b k :
  bands (prune now ttl r).1 !! b ≫= (.!! k)
  = bands r !! b ≫= λ peers, peers !! k ≫= λ p, if keeps now ttl k p then Some p else None.
Proof.
  unfold prune. cbn [fst bands with_bands]. rewrite map_lookup_filter, lookup_fmap.
  destruct (bands r !! b) as [peers|]; [|done]. simpl.
  assert (H : prune_peers now ttl peers !! k = peers !! k ≫= λ p, if keeps now ttl k p then Some p else None).
  { unfold prune_peers. rewrite map_lookup_filter. destruct (peers !! k) as [p|]; [|done]. simpl.
    destruct (keeps now ttl k p) eqn:E; repeat case_guard; try done. }
  rewrite <- H. case_guard as Hg; simpl; [done|]. destruct (decide (prune_peers now ttl peers = ∅)) as [E|]; [by rewrite E|done].
Qed.

Lemma prune_spec now ttl r s :
  RegInv r s → RegInv (prune now ttl r).1 s ∧ same_meta r (prune now ttl r).1
  ∧ (∀ b k sink, sink_of (prune now ttl r).1 b k = Some sink → sink_of r b k = Some sink)
  ∧ ∀ b id, sink_of (prune now ttl r).1 b (Conn id) = sink_of r b (Conn id).
Proof.
  intros R.
  assert (Hs : ∀ b k, sink_of (prune now ttl r).1 b k
      = bands r !! b ≫= λ peers, peers !! k ≫= λ p, if keeps now ttl k p then p_sink p else None).
  { intros b k. pose proof (prune_lookup now ttl r b k) as H. unfold sink_of.
    destruct (bands (prune now ttl r).1 !! b) as [ps|]; simpl in *; [rewrite H|];
      destruct (bands r !! b) as [qs|]; simpl in *; try done; destruct (qs !! k) as [q|]; simpl in *; try done;
      destruct (keeps now ttl k q); done. }
  split_and!; try done.
  - destruct R as [R1 R2 R3 R4]. split; simpl; try done.
    + etrans; [apply map_size_filter|]. by rewrite map_size_fmap.
    + intros b peers Hb. rewrite map_lookup_filter, lookup_fmap in Hb. destruct (bands r !! b) as [ps|] eqn:Eb; [|done].
      simpl in Hb. case_guard as Hne; [|done]. injection Hb as <-. destruct (R2 _ _ Eb) as (N1 & N2 & N3).
      split_and!; [done|etrans; [apply map_size_filter|done]|]. by intros k p [Hk _]%map_lookup_filter_Some; apply N3.
  - intros b k sink. rewrite Hs. unfold sink_of. destruct (bands r !! b) as [ps|]; [|done]. simpl.
    destruct (ps !! k) as [p|]; [|done]. simpl. by destruct (keeps now ttl k p).
Qed.

(** ** Queues of a band hold frames of that band

    A frame of a peer is relayed in the band its header names. A frame from a link is
    relayed in the band the link names, whatever its header says: [injected] are the
    pairs of a band and a frame that came over links. *)

Class Injected := injected : bytes → bytes → Prop.

Definition of_band (band frame : bytes) : Prop :=
  ∃ info, route_info frame = Some info ∧ ri_band_id info = band ∧ ri_channel_type info ≠ Some Route.

Section Isolation.
Context {inj : Injected}.

Definition carries (band frame : bytes) : Prop := of_band band frame ∨ injected band frame.

(** Each queue belongs to one peer of one band, and what waits in it is a relayable frame
    of that band or came over a link under that band; what waits to be federated is a
    frame of its band. *)
Record SinkInv (r : Registry) (s : Store) : Prop := {
  sv_unique : ∀ b k b' k' x x', sink_of r b k = Some x → sink_of r b' k' = Some x' →
    sink_queue x = sink_queue x' → b = b' ∧ k = k';
  sv_items : ∀ b k x q, sink_of r b k = Some x → queues s !! sink_queue x = Some q → Forall (carries b) (q_items q);
  sv_fed : Forall (λ bf, of_band bf.1 bf.2) (default [] (fed r));
}.

(** No frame appears in a queue. *)
Definition no_new_frames (s s' : Store) : Prop :=
  ∀ i q' f, queues s' !! i = Some q' → f ∈ q_items q' → ∃ q, queues s !! i = Some q ∧ f ∈ q_items q.

Lemma no_new_frames_refl s : no_new_frames s s.
Proof. intros i q' f. eauto. Qed.

Lemma no_new_frames_insert s i q' n b :
  (∀ f, f ∈ q_items q' → ∃ q, queues s !! i = Some q ∧ f ∈ q_items q) →
  no_new_frames s (mkStore (<[i := q']> (queues s)) n b).
Proof. intros H j qj f Hj Hf. cbn [queues] in Hj. apply lookup_insert_Some in Hj as [[<- <-]|[_ Hj]]; eauto. Qed.

Lemma sinks_sub r s r' s' :
  SinkInv r s → (∀ b k x, sink_of r' b k = Some x → sink_of r b k = Some x) →
  (∀ f, f ∈ default [] (fed r') → f ∈ default [] (fed r)) → no_new_frames s s' → SinkInv r' s'.
Proof.
  intros [V1 V2 V3] Hs Hf Hn. split; [eauto| |].
  - intros b k x q Hx Hq. apply Forall_forall. intros f Hi. destruct (Hn _ _ _ Hq Hi) as (q0 & Hq0 & Hi0).
    specialize (V2 _ _ _ _ (Hs _ _ _ Hx) Hq0). by eapply Forall_forall in V2.
  - apply Forall_forall. intros f Hi. by eapply Forall_forall in V3; [|apply Hf].
Qed.

Lemma sinks_add r s r' s' band key sink :
  SinkInv r s → adds_sink r r' band key sink → fed r' = fed r →
  (∀ b k x, sink_of r b k = Some x → sink_queue x ≠ sink_queue sink) → no_new_frames s s' →
  (∀ q, queues s' !! sink_queue sink = Some q → q_items q = []) → SinkInv r' s'.
Proof.
  intros V [_ Ha] Hf Hfresh Hn He. split.
  - intros b k b' k' x x'. rewrite !Ha.
    destruct (decide _) as [[= -> ->]|]; destruct (decide _) as [[= -> ->]|]; intros; simplify_eq; try done.
    + exfalso. by eapply Hfresh.
    + exfalso. by eapply Hfresh.
    + by eapply sv_unique.
  - intros b k x q. rewrite Ha. destruct (decide _) as [[= -> ->]|].
    + intros [= <-] Hq. by rewrite (He _ Hq).
    + intros Hx Hq. apply Forall_forall. intros f Hi. destruct (Hn _ _ _ Hq Hi) as (q0 & Hq0 & Hi0).
      pose proof (sv_items _ _ V _ _ _ _ Hx Hq0) as V2. by eapply Forall_forall in V2.
  - rewrite Hf. apply V.
Qed.

(** A queue after [n] frames were appended. *)
Definition push (n : nat) (frame : bytes) (q : Queue) : Queue :=
  mkQueue (q_items q ++ replicate n frame) (q_cap q) (q_open q) (q_udp q).

Lemma push_0 frame q : push 0 frame q = q.
Proof. destruct q. unfold push. simpl. by rewrite app_nil_r. Qed.

(** One send leaves the other queues alone and appends to its own when there
    is room for the frame. *)
Definition admits (s : Store) (sink : Sink) (frame : bytes) : bool :=
  match queues s !! sink_queue sink with
  | Some q => q_open q && bool_decide (length (q_items q) < q_cap q)
              && match sink with SinkUdp _ _ => bool_decide (is_Some (try_reserve (len frame) (budget s))) | SinkConn _ => true end
  | None => false
  end.

Lemma sink_try_send_queues sink frame s tx :
  queues (sink_try_send sink frame s).1 !! tx
  = (λ q, if decide (tx = sink_queue sink) then push (if admits s sink frame then 1 else 0) frame q else q) <$> (queues s !! tx).
Proof.
  assert (Hid : ∀ b, queues s !! tx
      = (λ q, if decide (tx = b) then push 0 frame q else q) <$> (queues s !! tx)).
  { intros b. destruct (queues s !! tx); simpl; [|done]. case_decide; by rewrite ?push_0. }
  assert (Hsend : ∀ i bu, match queue_try_send i frame (mkStore (queues s) (next_queue s) bu) with
      | Ok s' => ∃ q, queues s !! i = Some q ∧ q_open q = true ∧ length (q_items q) < q_cap q
                 ∧ queues s' = <[i := push 1 frame q]> (queues s)
      | Err _ => match queues s !! i with Some q => q_open q && bool_decide (length (q_items q) < q_cap q) = false | None => True end
      end).
  { intros i bu. unfold queue_try_send. simpl. destruct (queues s !! i) as [q|]; [|done].
    destruct (q_open q) eqn:Eo; [|done]. simpl. case_decide; [rewrite bool_decide_false by lia; done|].
    exists q. split_and!; [done|done|lia|]. unfold push. simpl. by rewrite Eo. }
  unfold sink_try_send, admits. destruct sink as [i addr|i]; cbn [sink_queue].
  - destruct (try_reserve (len frame) (budget s)) as [b|] eqn:Er.
    + specialize (Hsend i b). destruct (queue_try_send i frame _) as [s'|e] eqn:Eq; cbn [fst queues].
      * destruct Hsend as (q & Hq & Ho & Hl & ->). rewrite Hq, Ho, bool_decide_true by done. simpl.
        destruct (decide (tx = i)) as [->|]; [by rewrite lookup_insert_eq, Hq|rewrite lookup_insert_ne by done].
        by destruct (queues s !! tx).
      * etrans; [exact (Hid i)|]. destruct (queues s !! i) as [q|] eqn:Ei; [by rewrite Hsend|done].
    + etrans; [exact (Hid i)|]. destruct (queues s !! i) as [q|]; [|done].
      rewrite (bool_decide_false (is_Some None)) by (by intros [? ?]). by rewrite andb_false_r.
  - specialize (Hsend i (budget s)). destruct s as [qs nq bu]. simpl in *. destruct (queue_try_send i frame _) as [s'|e] eqn:Eq; cbn [fst queues].
    + destruct Hsend as (q & Hq & Ho & Hl & ->). rewrite Hq, Ho, bool_decide_true by done. simpl.
      destruct (decide (tx = i)) as [->|]; [by rewrite lookup_insert_eq, Hq|rewrite lookup_insert_ne by done].
      by destruct (qs !! tx).
    + etrans; [exact (Hid i)|]. destruct (qs !! i) as [q|] eqn:Ei; [by rewrite andb_true_r, Hsend|done].
Qed.

Lemma push_push n m frame q : push n frame (push m frame q) = push (m + n) frame q.
Proof. unfold push. simpl. by rewrite <- app_assoc, <- replicate_add. Qed.

Lemma send_all_queues sinks frame s tx q' :
  queues (send_all sinks frame s) !! tx = Some q' →
  ∃ q n, queues s !! tx = Some q ∧ q' = push n frame q ∧ (tx ∉ sink_queue <$> sinks → n = 0).
Proof.
  revert s. induction sinks as [|k sinks IH]; intros s H; simpl in H.
  - exists q', 0. by rewrite push_0.
  - destruct (IH _ H) as (q1 & n & H1 & -> & Hn). rewrite sink_try_send_queues in H1.
    apply fmap_Some in H1 as (q & Hq & ->). exists q. case_decide as Hd.
    + eexists. split_and!; [done|by rewrite push_push|]. intros Hi. exfalso. apply Hi. rewrite Hd. by left.
    + exists n. split_and!; [done|done|]. intros Hi. apply Hn. intros Hi'. apply Hi. by right.
Qed.

Definition has_room (q : Queue) : bool := q_open q && bool_decide (length (q_items q) < q_cap q).

(** The budget admits [n] more copies of the frame. *)
Definition budget_room (s : Store) (frame : bytes) (n : nat) : Prop :=
  let t := (used (budget s) + len frame * Z.of_nat n)%Z in
  (t <= u64_max)%Z ∧ (limit (budget s) = 0%Z ∨ (t <= limit (budget s))%Z).

Lemma budget_room_mono s frame n m : (n ≤ m)%nat → budget_room s frame m → budget_room s frame n.
Proof.
  intros Hle [B1 B2]. pose proof (len_nonneg frame).
  assert (Hm : (len frame * Z.of_nat n <= len frame * Z.of_nat m)%Z) by (apply Z.mul_le_mono_nonneg_l; lia).
  split; [lia|destruct B2; [by left|right; lia]].
Qed.

Lemma budget_room_reserve s frame n : budget_room s frame (S n) → try_reserve (len frame) (budget s)
  = Some (mkBudget (used (budget s) + len frame) (limit (budget s))).
Proof.
  intros [H1 H2]. unfold try_reserve. pose proof (len_nonneg frame).
  assert (E : ((used (budget s) + len frame <=? u64_max)%Z
    && ((limit (budget s) =? 0)%Z || (used (budget s) + len frame <=? limit (budget s))%Z))%bool = true).
  { apply andb_true_iff. split; [apply Z.leb_le; nia|]. apply orb_true_iff.
    destruct H2; [left; by apply Z.eqb_eq|right; apply Z.leb_le; nia]. }
  by rewrite E.
Qed.

Lemma sink_try_send_budget k frame s n :
  (0 <= used (budget s))%Z → budget_room s frame (S n) →
  budget_room (sink_try_send k frame s).1 frame n ∧ (0 <= used (budget (sink_try_send k frame s).1))%Z.
Proof.
  intros H0 Hb. pose proof (len_nonneg frame). pose proof (budget_room_reserve _ _ _ Hb) as Hr. destruct Hb as [H1 H2].
  assert (Hkeep : budget_room s frame n) by (split; [nia|destruct H2; [by left|right; nia]]).
  assert (Hadd : ∀ s', budget s' = mkBudget (used (budget s) + len frame) (limit (budget s)) →
    budget_room s' frame n ∧ (0 <= used (budget s'))%Z).
  { intros s' E. unfold budget_room. rewrite E. simpl. split; [split; [nia|destruct H2; [by left|right; nia]]|lia]. }
  unfold sink_try_send. destruct k as [tx addr|tx].
  - rewrite Hr. destruct (queue_try_send tx frame _) as [s'|e] eqn:Eq; simpl.
    + apply Hadd. by apply queue_try_send_Ok in Eq as (q & _ & _ & _ & ->).
    + unfold budget_room, release. simpl. rewrite wrap_u64_small by nia.
      replace (used (budget s) + len frame - len frame)%Z with (used (budget s)) by lia. done.
  - destruct (queue_try_send tx frame s) as [s'|e] eqn:Eq; simpl; [|done].
    apply queue_try_send_Ok in Eq as (q & _ & _ & _ & ->). done.
Qed.

(** Each queue of the list gets the frame once when it has room, the others
    are left alone. *)
Lemma send_all_exact sinks frame s tx :
  NoDup (sink_queue <$> sinks) → (0 <= used (budget s))%Z → budget_room s frame (length sinks) →
  queues (send_all sinks frame s) !! tx
  = (λ q, if decide (tx ∈ sink_queue <$> sinks) then push (if has_room q then 1 else 0) frame q else q) <$> (queues s !! tx).
Proof.
  revert s. induction sinks as [|k sinks IH]; intros s Hn H0 Hb.
  - simpl. rewrite option_fmap_id. done.
  - cbn [send_all length] in *. rewrite fmap_cons in *. apply NoDup_cons in Hn as [Hk Hn].
    destruct (sink_try_send_budget k frame s _ H0 Hb) as [Hb' H0']. rewrite IH by done. rewrite sink_try_send_queues.
    destruct (queues s !! tx) as [q|] eqn:Eq; [|done]. simpl. f_equal.
    destruct (decide (tx = sink_queue k)) as [->|Hne].
    + rewrite decide_False by done. rewrite decide_True by (by left). unfold admits. rewrite Eq. f_equal.
      rewrite (budget_room_reserve _ _ _ Hb), (bool_decide_true (is_Some _)) by eauto. fold (has_room q).
      by destruct k; rewrite andb_true_r.
    + destruct (decide (tx ∈ sink_queue <$> sinks)); [rewrite decide_True by (by right)|rewrite decide_False by set_solver]; done.
Qed.

(** ** Delivery *)

(** The frame is addressed to an id that another eligible peer declared. *)
Definition narrowed (peers : Peers) (from : option PeerKey) (info : RouteInfo) : Prop :=
  ri_channel_type info = Some Addressed ∧ ri_channel_id info ≠ 0%Z
  ∧ ∃ k p, peers !! k = Some p ∧ Some k ≠ from ∧ p_eligible p = true ∧ p_route p = Some (ri_channel_id info).

(** Who is meant to receive a frame. *)
Definition receives (peers : Peers) (from : option PeerKey) (info : RouteInfo) (k : PeerKey) (p : Peer) : Prop :=
  Some k ≠ from ∧ p_eligible p = true ∧ (narrowed peers from info → p_route p = Some (ri_channel_id info)).

Section Delivery.
Context {po : PeerOrder} {pos : PeerOrderSpec po}.

Lemma elem_of_peer_iter peers k p : (k, p) ∈ peer_iter peers ↔ peers !! k = Some p.
Proof. by rewrite (peer_iter_perm peers), elem_of_map_to_list. Qed.

Lemma declared_true from id k p : declared from id k p = true ↔ Some k ≠ from ∧ p_eligible p = true ∧ p_route p = Some id.
Proof. unfold declared. rewrite !andb_true_iff, !bool_decide_eq_true. naive_solver. Qed.

Lemma narrowed_true peers from info :
  (bool_decide (ri_channel_type info = Some Addressed) && negb (ri_channel_id info =? 0)%Z
     && existsb (λ x, declared from (ri_channel_id info) x.1 x.2) (peer_iter peers))%bool = true ↔ narrowed peers from info.
Proof.
  unfold narrowed. rewrite !andb_true_iff, bool_decide_eq_true, negb_true_iff, Z.eqb_neq, existsb_exists.
  split.
  - intros [[H1 H2] [[k p] [Hin Hd]]]. apply declared_true in Hd. rewrite <- list_elem_of_In, elem_of_peer_iter in Hin. naive_solver.
  - intros (H1 & H2 & k & p & Hp & H). split_and!; [done|done|]. exists (k, p). rewrite <- list_elem_of_In, elem_of_peer_iter.
    split; [done|]. by apply declared_true.
Qed.

Lemma elem_of_targets peers from info sink :
  sink ∈ targets peers from info ↔ ∃ k p, peers !! k = Some p ∧ receives peers from info k p ∧ p_sink p = Some sink.
Proof.
  unfold targets. cbv zeta. set (a := (_ && _ && _)%bool).
  assert (Ha : a = true ↔ narrowed peers from info) by apply narrowed_true.
  rewrite list_elem_of_omap. unfold receives. split.
  - intros ([k p] & Hin & Hs). rewrite !list_elem_of_filter, elem_of_peer_iter in Hin. destruct Hin as (Hd & [H1 H2] & Hp).
    simpl in *. exists k, p. split_and!; try done. intros N. apply Ha in N. rewrite N in Hd. simpl in Hd.
    by apply declared_true in Hd as (_ & _ & ?).
  - intros (k & p & Hp & (H1 & H2 & H3) & Hs). exists (k, p). split; [|done].
    rewrite !list_elem_of_filter, elem_of_peer_iter. simpl. split; [|done].
    destruct a eqn:E; [|done]. simpl. apply declared_true. split_and!; [done|done|]. by apply H3, Ha.
Qed.
(** The peers of a band have queues of their own. *)
Lemma targets_NoDup r s band peers from info :
  SinkInv r s → bands r !! band = Some peers → NoDup (sink_queue <$> targets peers from info).
Proof.
  intros V Hb. unfold targets. cbv zeta. set (l := filter _ _).
  assert (Hl : NoDup l.*1 ∧ ∀ k p, (k, p) ∈ l → sink_of r band k = p_sink p).
  { split.
    - subst l. eapply (sublist_NoDup _ (peer_iter peers).*1).
      + rewrite (peer_iter_perm peers). apply NoDup_fst_map_to_list.
      + apply fmap_sublist. etrans; apply sublist_filter.
    - intros k p Hk. subst l. rewrite !list_elem_of_filter, elem_of_peer_iter in Hk.
      rewrite (sink_of_band _ _ _ _ Hb). destruct Hk as (_ & _ & ->). done. }
  clearbody l. destruct Hl as [Hnd Hl]. induction l as [|[k p] l IH]; [constructor|].
  rewrite fmap_cons in Hnd. apply NoDup_cons in Hnd as [Hk Hnd]. simpl. specialize (IH Hnd ltac:(intros; apply Hl; by right)).
  destruct (p_sink p) as [x|] eqn:Ex; [|done]. rewrite fmap_cons. apply NoDup_cons. split; [|done].
  rewrite list_elem_of_fmap. intros (x' & Eq & Hx'). apply list_elem_of_omap in Hx' as ([k' p'] & Hin & Ep). simpl in Ep.
  destruct (sv_unique _ _ V band k band k' x x') as [_ Ek]; [rewrite (Hl k p); [done|by left]|rewrite (Hl k' p'); [done|by right]|done|].
  apply Hk. rewrite Ek. apply list_elem_of_fmap. by exists (k', p').
Qed.

Lemma targets_ok r s band peers from info : RegInv r s → bands r !! band = Some peers → Forall (sink_ok s) (targets peers from info).
Proof.
  intros R Hb. apply Forall_forall. intros x Hx. apply elem_of_targets in Hx as (k & p & Hp & _ & Hs).
  apply (sink_of_ok r s band k x R). by rewrite (sink_of_band _ _ _ _ Hb), Hp.
Qed.

(** The queue is that of a peer. *)
Definition owned (r : Registry) (tx : nat) : Prop := ∃ b k x, sink_of r b k = Some x ∧ sink_queue x = tx.

(** Relaying a frame of a band to peers of that band. *)
Lemma relay_inv r s band peers from info frame :
  RegInv r s → StoreInv s → SinkInv r s → bands r !! band = Some peers → carries band frame →
  let s' := send_all (targets peers from info) frame s in
  StoreInv s' ∧ store_ext s s' ∧ RegInv r s' ∧ SinkInv r s'.
Proof.
  intros R I V Hb Hc s'. destruct (send_all_inv _ frame s I (targets_ok r s band peers from info R Hb)) as [I' E].
  split_and!; [done|done|by eapply RegInv_ext|]. split; [apply V| |apply V].
  intros b k x q Hx Hq. apply send_all_queues in Hq as (q0 & n & Hq0 & -> & Hn). simpl. apply Forall_app.
  split; [by eapply sv_items|]. destruct n as [|n]; [constructor|]. apply Forall_replicate.
  destruct (decide (sink_queue x ∈ sink_queue <$> targets peers from info)) as [Hi|Hi]; [|by apply Hn in Hi].
  apply list_elem_of_fmap in Hi as (x' & Eq & Hi). apply elem_of_targets in Hi as (k' & p' & Hp' & _ & Hs').
  destruct (sv_unique _ _ V b k band k' x x') as [-> _]; try done. by rewrite (sink_of_band _ _ _ _ Hb), Hp'.
Qed.

Lemma relay_unowned r s band peers from info frame tx :
  RegInv r s → bands r !! band = Some peers → ¬ owned r tx →
  queues (send_all (targets peers from info) frame s) !! tx = queues s !! tx.
Proof.
  intros R Hb Ho.
  assert (Hi : tx ∉ sink_queue <$> targets peers from info).
  { rewrite list_elem_of_fmap. intros (x & -> & Hx). apply elem_of_targets in Hx as (k & p & Hp & _ & Hs).
    apply Ho. exists band, k, x. by rewrite (sink_of_band _ _ _ _ Hb), Hp. }
  assert (Hkeep : ∀ sinks s0, tx ∉ sink_queue <$> sinks → queues (send_all sinks frame s0) !! tx = queues s0 !! tx).
  { induction sinks as [|k sinks IH]; intros s0 H; simpl; [done|]. rewrite fmap_cons in H.
    rewrite IH by set_solver. rewrite sink_try_send_queues. destruct (queues s0 !! tx); simpl; [|done].
    by rewrite decide_False by set_solver. }
  by apply Hkeep.
Qed.

(** What relaying one frame keeps. *)
Record relays (r : Registry) (s : Store) (r' : Registry) (s' : Store) : Prop := {
  rl_reg : RegInv r' s';
  rl_store : StoreInv s';
  rl_sinks : SinkInv r' s';
  rl_ext : store_ext s s';
  rl_next : next_conn r' = next_conn r;
  rl_same : ∀ b k, sink_of r' b k = sink_of r b k;
  rl_unowned : ∀ tx, ¬ owned r tx → queues s' !! tx = queues s !! tx;
}.

Lemma relays_refl r s : RegInv r s → StoreInv s → SinkInv r s → relays r s r s.
Proof. intros R I V. by split. Qed.

Lemma federate_relays band frame r s :
  RegInv r s → StoreInv s → SinkInv r s → of_band band frame → relays r s (federate band frame r) s.
Proof.
  intros R I V Hc. unfold federate. destruct (fed r) as [q|] eqn:Ef; [|by apply relays_refl].
  destruct (decide (FED_QUEUE ≤ length q)) as [|Hq]; [by apply relays_refl|].
  assert (V' : SinkInv (with_fed (Some (q ++ [(band, frame)])) r) s).
  { destruct V as [V1 V2 V3]. split; [exact V1|exact V2|]. simpl. rewrite Ef in V3. apply Forall_app. by split; [|constructor]. }
  assert (R' : RegInv (with_fed (Some (q ++ [(band, frame)])) r) s).
  { destruct R as [R1 R2 R3 R4]. split; try done. simpl. rewrite length_app. cbn [length]. lia. }
  by split.
Qed.

Lemma forward_relays band from frame info r s :
  RegInv r s → StoreInv s → SinkInv r s → route_info frame = Some info → ri_band_id info = band →
  let '(r', s') := forward band from frame r s in relays r s r' s'.
Proof.
  intros R I V Hi Hband. unfold forward. rewrite Hi. destruct (bands r !! band) as [peers|] eqn:Hb; [|by apply relays_refl].
  destruct (decide (ri_channel_type info = Some Route)) as [Ht|Ht].
  - set (peers' := match peers !! from with Some p => _ | None => _ end).
    destruct (rg_peers _ _ R _ _ Hb) as (N1 & N2 & N3).
    assert (Hp : peers_ok (limits r) s peers' ∧ ∀ k, peers' !! k ≫= p_sink = peers !! k ≫= p_sink).
    { subst peers'. destruct (peers !! from) as [p|] eqn:Ep; [|done]. split; [|by eapply insert_same_sink].
      split_and!; [apply insert_non_empty|by rewrite map_size_insert, Ep|]. apply map_Forall_insert_2; [|done].
      apply peer_ok_set_route; [|by apply N3]. destruct (ri_channel_id info =? 0)%Z eqn:E0; [done|].
      apply Z.eqb_neq in E0. congruence. }
    destruct Hp as [Hp Hs].
    assert (Hsame : ∀ b k, sink_of (with_bands (<[band := supersede_rebound from peers']> (bands r)) r) b k = sink_of r b k).
    { apply (sink_of_same _ _ _ _ Hb). intros k. by rewrite supersede_same_sink. }
    assert (R' := with_band_inv r s band _ R (supersede_inv _ s from _ Hp) ltac:(left; eauto)).
    assert (V' : SinkInv (with_bands (<[band := supersede_rebound from peers']> (bands r)) r) s).
    { eapply sinks_sub; [exact V|intros b k x; by rewrite Hsame|done|apply no_new_frames_refl]. }
    by split.
  - assert (Hc : of_band band frame) by (by exists info).
    destruct (relay_inv r s band peers (Some from) info frame R I V Hb (or_introl Hc)) as (I' & E & R' & V').
    destruct (federate_relays band frame r _ R' I' V' Hc) as [R'' I'' V'' _ Hn Hs _].
    split; try done. intros tx. by apply (relay_unowned _ _ _ _ _ _ _ _ R Hb).
Qed.

Lemma inject_relays band frame r s :
  RegInv r s → StoreInv s → SinkInv r s → carries band frame → relays r s r (inject_from_link band frame r s).
Proof.
  intros R I V Hi. unfold inject_from_link. destruct (route_info frame) as [info|] eqn:E; [|by apply relays_refl].
  destruct (decide _); [by apply relays_refl|]. destruct (bands r !! band) as [peers|] eqn:Hb; [|by apply relays_refl].
  destruct (relay_inv r s band peers None info frame R I V Hb Hi) as (I' & Ex & R' & V').
  split; try done. intros tx. by apply (relay_unowned _ _ _ _ _ _ _ _ R Hb).
Qed.
(** [s'] is [s] with the frame in the queues of the peers meant to receive it, once each,
    where there is room, and nothing else changed. *)
Definition delivered (peers : Peers) (from : option PeerKey) (info : RouteInfo) (frame : bytes) (s s' : Store) : Prop :=
  (∀ k p x q, peers !! k = Some p → p_sink p = Some x → queues s !! sink_queue x = Some q →
     (receives peers from info k p → has_room q = true → queues s' !! sink_queue x = Some (push 1 frame q))
     ∧ (¬ receives peers from info k p ∨ has_room q = false → queues s' !! sink_queue x = Some q))
  ∧ (∀ tx, (∀ k p x, peers !! k = Some p → p_sink p = Some x → sink_queue x ≠ tx) → queues s' !! tx = queues s !! tx).

Lemma targets_delivered r s band peers from info frame :
  StoreInv s → SinkInv r s → bands r !! band = Some peers → budget_room s frame (size peers) →
  delivered peers from info frame s (send_all (targets peers from info) frame s).
Proof.
  intros I V Hb Hroom.
  assert (Hlen : length (targets peers from info) ≤ size peers).
  { unfold targets. etrans; [apply omap_length_le|]. do 2 (etrans; [apply length_filter|]).
    by rewrite (peer_iter_perm peers), length_map_to_list. }
  assert (Hroom' : budget_room s frame (length (targets peers from info))).
  { by eapply budget_room_mono. }
  pose proof (send_all_exact (targets peers from info) frame s) as HX.
  specialize (λ tx, HX tx (targets_NoDup _ _ _ _ _ _ V Hb) ltac:(apply I) Hroom').
  assert (Hmem : ∀ k p x, peers !! k = Some p → p_sink p = Some x →
    (sink_queue x ∈ sink_queue <$> targets peers from info ↔ receives peers from info k p)).
  { intros k p x Hp Hx. rewrite list_elem_of_fmap. split.
    - intros (x' & Eq & Hx'). apply elem_of_targets in Hx' as (k' & p' & Hp' & Hr & Hs').
      destruct (sv_unique _ _ V band k band k' x x') as [_ <-]; rewrite ?(sink_of_band _ _ _ _ Hb), ?Hp, ?Hp'; try done.
      congruence.
    - intros Hr. exists x. split; [done|]. apply elem_of_targets. eauto. }
  split.
  - intros k p x q Hp Hx Hq. rewrite HX, Hq. simpl. specialize (Hmem _ _ _ Hp Hx). split.
    + intros Hr Hm. rewrite decide_True by (by apply Hmem). by rewrite Hm.
    + intros Hor. destruct (decide _) as [Hin|]; [|done]. destruct Hor as [Hr|Hm]; [by apply Hmem in Hin|]. by rewrite Hm, push_0.
  - intros tx Htx. rewrite HX. destruct (queues s !! tx) as [q|]; [|done]. simpl. rewrite decide_False; [done|].
    rewrite list_elem_of_fmap. intros (x & -> & Hx). apply elem_of_targets in Hx as (k & p & Hp & _ & Hs). by eapply Htx.
Qed.
End Delivery.

(** * The running hub *)

(** The registry and the queues, and the connections being served, by the
    number of their egress queue. *)
Record HubState := mkHubState { hub_reg : Registry; hub_store : Store; hub_conns : gmap nat ConnState }.

Record HubConfig := mkHubConfig { hc_peer_queue : nat; hc_conn_queue : nat }.

Definition HubState_new (l : Limits) (queue_bytes : Z) (federated : bool) : HubState :=
  let r := Registry_new l in
  mkHubState (if federated then set_federation r else r) (mkStore ∅ 0 (ByteBudget_new queue_bytes)) ∅.

Inductive hub_event :=
| HDatagram (src : SocketAddr) (d : bytes)
| HWsAccept
| HWsMessage (c : nat) (data : bytes)
| HOpen (band : bytes)
| HFrame (c : nat) (frame : bytes)
| HClose (c : nat)
| HLeave (c : nat)
| HDrop (tx : nat)
| HLate (band : bytes) (id : Z) (frame : bytes)
| HWrite (tx : nat)
| HPrune (ttl : Z)
| HInject (band frame : bytes)
| HFederate.

(** [fan_egress] takes the oldest frame of the egress channel. *)
Definition take_federated (r : Registry) : Registry * option (bytes * bytes) :=
  match fed r with
  | Some (bf :: rest) => (with_fed (Some rest) r, Some bf)
  | _ => (r, None)
  end.

(** The reader of a connection has ended; its writer may still hold the queue. *)
Definition hub_leave (c : nat) (cs : ConnState) (h : HubState) : HubState :=
  mkHubState (match cs_registered cs with Some (band, key) => disconnect band key (hub_reg h) | None => hub_reg h end) (hub_store h)
    (delete c (hub_conns h)).

Definition hub_close (c : nat) (cs : ConnState) (h : HubState) : HubState :=
  let '(r, s) := conn_close cs (hub_reg h) (hub_store h) in
  mkHubState r s (delete c (hub_conns h)).

Definition hub_step {po : PeerOrder} (cfg : HubConfig) (now : Z) (e : hub_event) (h : HubState) : HubState :=
  let r := hub_reg h in
  let s := hub_store h in
  match e with
  | HDatagram src d =>
      let '(r, s) := udp_datagram (hc_peer_queue cfg) src d now r s in mkHubState r s (hub_conns h)
  | HWsAccept =>
      let '(s, c) := conn_accept (hc_conn_queue cfg) s in
      mkHubState r s (<[c := mkConnState c None]> (hub_conns h))
  | HWsMessage c data =>
      match hub_conns h !! c with
      | Some cs =>
          let '(r, s, cs, alive) := ws_message data now cs r s in
          let h := mkHubState r s (<[c := cs]> (hub_conns h)) in
          if alive then h else hub_leave c cs h
      | None => h
      end
  | HOpen band =>
      let '(s, c) := conn_accept (hc_conn_queue cfg) s in
      match conn_open band c now r s with
      | (r, s, Some cs) => mkHubState r s (<[c := cs]> (hub_conns h))
      | (r, s, None) => mkHubState r (conn_drop c s) (hub_conns h)
      end
  | HFrame c frame =>
      match hub_conns h !! c with
      | Some (mkConnState _ (Some (band, key))) =>
          let '(r, s) := pinned_frame band key frame now r s in mkHubState r s (hub_conns h)
      | _ => h
      end
  | HClose c =>
      match hub_conns h !! c with
      | Some cs => hub_close c cs h
      | None => h
      end
  | HLeave c =>
      match hub_conns h !! c with
      | Some cs => hub_leave c cs h
      | None => h
      end
  | HDrop tx => mkHubState r (conn_drop tx s) (hub_conns h)
  | HLate band id frame =>
      let '(r, s) := pinned_frame band (Conn id) frame now r s in mkHubState r s (hub_conns h)
  | HWrite tx => mkHubState r (peer_writer tx s).1 (hub_conns h)
  | HPrune ttl => mkHubState (prune now ttl r).1 s (hub_conns h)
  | HInject band frame => mkHubState r (inject_from_link band frame r s) (hub_conns h)
  | HFederate => mkHubState (take_federated r).1 s (hub_conns h)
  end.

(** Events with the instants at which they are handled. *)
Fixpoint hub_run {po : PeerOrder} (cfg : HubConfig) (es : list (Z * hub_event)) (h : HubState) : HubState :=
  match es with
  | [] => h
  | (now, e) :: es' => hub_run cfg es' (hub_step cfg now e h)
  end.

(** What comes over a link is accounted for. *)
Definition link_known (e : hub_event) : Prop := match e with HInject band frame => injected band frame | _ => True end.

(** Connections and registry entries correspond: a registered connection is in
    the registry with its own queue, and every connection entry belongs to a
    connection being served. *)
Record HubInv (h : HubState) : Prop := {
  hv_reg : RegInv (hub_reg h) (hub_store h);
  hv_store : StoreInv (hub_store h);
  hv_sinks : SinkInv (hub_reg h) (hub_store h);
  hv_next : (1 <= next_conn (hub_reg h) <= u64_max)%Z;
  hv_conns : ∀ c cs, hub_conns h !! c = Some cs → cs_queue cs = c
    ∧ (∃ q, queues (hub_store h) !! c = Some q ∧ q_udp q = false ∧ (cs_registered cs = None → q_items q = []))
    ∧ ∀ band key, cs_registered cs = Some (band, key) →
        ∃ id, key = Conn id ∧ sink_of (hub_reg h) band key = Some (SinkConn c);
  hv_entries : ∀ band id x, sink_of (hub_reg h) band (Conn id) = Some x →
    (id < next_conn (hub_reg h))%Z ∧ ∃ c, x = SinkConn c ∧ hub_conns h !! c = Some (mkConnState c (Some (band, Conn id)));
  hv_udp : ∀ band addr x, sink_of (hub_reg h) band (Udp addr) = Some x → ∃ tx, x = SinkUdp tx addr;
}.

Section HubSteps.
Context {po : PeerOrder} {pos : PeerOrderSpec po}.

(** The queue of a connection that did not register yet has no sender. *)
Lemma unregistered_unowned h c cs :
  HubInv h → hub_conns h !! c = Some cs → cs_registered cs = None → ¬ owned (hub_reg h) c.
Proof.
  intros H Hc Hn (b & k & x & Hx & Hq). destruct (hv_conns _ H _ _ Hc) as (_ & (q & Hcq & Hu & _) & _).
  destruct k as [addr|id].
  - destruct (hv_udp _ H _ _ _ Hx) as [tx ->]. destruct (sink_of_ok _ _ _ _ _ (hv_reg _ H) Hx) as (q' & Hq' & Hu').
    simpl in *. congruence.
  - destruct (hv_entries _ H _ _ _ Hx) as (_ & c' & -> & Hc'). simpl in Hq. subst c'. rewrite Hc in Hc'. by injection Hc' as ->.
Qed.

(** A step that keeps the connections. *)
Lemma hub_keep h r' s' :
  HubInv h → RegInv r' s' → StoreInv s' → SinkInv r' s' → store_ext (hub_store h) s' → next_conn r' = next_conn (hub_reg h) →
  (∀ b id, sink_of r' b (Conn id) = sink_of (hub_reg h) b (Conn id)) →
  (∀ b addr x, sink_of r' b (Udp addr) = Some x → ∃ tx, x = SinkUdp tx addr) →
  (∀ c q q', ¬ owned (hub_reg h) c → queues (hub_store h) !! c = Some q → q_items q = [] → queues s' !! c = Some q' → q_items q' = []) →
  HubInv (mkHubState r' s' (hub_conns h)).
Proof.
  intros H R I V (_ & _ & E) Hn Hs Hu Hq. split; simpl; try done.
  - rewrite Hn. apply H.
  - intros c cs Hc. destruct (hv_conns _ H _ _ Hc) as (H1 & (q & Hcq & Hudp & He) & H3).
    destruct (E _ _ Hcq) as (q' & Hq' & Eu). split_and!; [done| |].
    + exists q'. split_and!; [done|congruence|]. intros Hr. eapply Hq; eauto using unregistered_unowned.
    + intros band key Hr. destruct (H3 _ _ Hr) as (id & -> & Hx). exists id. by rewrite Hs.
  - intros band id x. rewrite Hs, Hn. apply H.
Qed.

Lemma hub_relays h r' s' :
  HubInv h → relays (hub_reg h) (hub_store h) r' s' → HubInv (mkHubState r' s' (hub_conns h)).
Proof.
  intros H [R I V E Hn Hs Ho]. apply hub_keep; try done.
  - intros b addr x. rewrite Hs. apply H.
  - intros c q q' Hc Hq He. rewrite Ho by done. congruence.
Qed.

Lemma hub_store_step h s' :
  HubInv h → StoreInv s' → store_ext (hub_store h) s' → no_new_frames (hub_store h) s' →
  HubInv (mkHubState (hub_reg h) s' (hub_conns h)).
Proof.
  intros H I E Hn. apply hub_keep; try done.
  - eapply RegInv_ext, H. done.
  - eapply sinks_sub; [apply H|done..].
  - apply H.
  - intros c q q' _ Hq He Hq'. destruct (q_items q') as [|f l] eqn:El; [done|].
    destruct (Hn c q' f Hq') as (q0 & Hq0 & Hf); [rewrite El; by left|]. rewrite Hq in Hq0. injection Hq0 as <-.
    rewrite He in Hf. set_solver.
Qed.

Lemma conn_drop_frames tx s : no_new_frames s (conn_drop tx s).
Proof.
  unfold conn_drop. destruct (queues s !! tx) as [q|]; [|apply no_new_frames_refl]. destruct (q_udp q); [apply no_new_frames_refl|].
  apply no_new_frames_insert. simpl. set_solver.
Qed.

Lemma peer_writer_frames tx s : no_new_frames s (peer_writer tx s).1.
Proof.
  unfold peer_writer. destruct (queues s !! tx) as [q|] eqn:Eq; [|apply no_new_frames_refl].
  destruct (q_items q) as [|f rest] eqn:El; [apply no_new_frames_refl|].
  apply no_new_frames_insert. simpl. intros g Hg. exists q. split; [done|]. rewrite El. by right.
Qed.

(** Connections come and go. *)
Lemma hub_accept cfg h :
  HubInv h → hub_conns h !! next_queue (hub_store h) = None
  ∧ HubInv (mkHubState (hub_reg h) (conn_accept (hc_conn_queue cfg) (hub_store h)).1
      (<[next_queue (hub_store h) := mkConnState (next_queue (hub_store h)) None]> (hub_conns h))).
Proof.
  intros H. pose proof (si_fresh _ (hv_store _ H) (next_queue (hub_store h)) ltac:(lia)) as Hf.
  assert (Hnone : hub_conns h !! next_queue (hub_store h) = None).
  { destruct (hub_conns h !! _) as [cs|] eqn:Hc; [|done]. destruct (hv_conns _ H _ _ Hc) as (_ & (q & Hq & _) & _). congruence. }
  split; [done|]. unfold conn_accept.
  destruct (new_queue_inv (hub_store h) (Nat.max (hc_conn_queue cfg) 64) false (hv_store _ H)) as (I' & E & Hq).
  assert (H' := hub_store_step h _ H I' E ltac:(apply no_new_frames_insert; simpl; set_solver)).
  destruct H' as [R I V Hn Hc He Hu]. split; try done; cbn [hub_conns hub_reg hub_store fst] in *.
  - intros c cs [[<- <-]|[_ Hc']]%lookup_insert_Some; [|eauto]. split_and!; [done| |done].
    eexists. split; [exact Hq|done].
  - intros band id x Hx. destruct (He _ _ _ Hx) as (Hid & c & -> & Hc'). split; [done|]. exists c. split; [done|]. simpl.
    rewrite lookup_insert_ne; [done|]. simpl in Hc'. congruence.
Qed.

Lemma hub_leave_inv h c cs : HubInv h → hub_conns h !! c = Some cs → HubInv (hub_leave c cs h).
Proof.
  intros H Hc. destruct (hv_conns _ H _ _ Hc) as (Hcq & _ & Hreg). unfold hub_leave.
  set (r' := match cs_registered cs with Some _ => _ | None => _ end).
  assert (Hr : RegInv r' (hub_store h) ∧ same_meta (hub_reg h) r' ∧ ∀ b k, sink_of r' b k
      = if decide (cs_registered cs = Some (b, k)) then None else sink_of (hub_reg h) b k).
  { subst r'. destruct (cs_registered cs) as [[band key]|] eqn:Er; [|split_and!; [apply H|done|done]].
    destruct (disconnect_spec band key _ _ (hv_reg _ H)) as (R & M & S). split_and!; [done|done|]. intros b k. rewrite S.
    repeat case_decide; congruence. }
  clearbody r'. destruct Hr as (R & M & S).
  assert (Hsub : ∀ b k x, sink_of r' b k = Some x → sink_of (hub_reg h) b k = Some x).
  { intros b k x. rewrite S. by case_decide. }
  split; simpl; [done|apply H| | | | |].
  - eapply sinks_sub; [apply H|done| |apply no_new_frames_refl]. destruct M as (_ & -> & _). done.
  - destruct M as (_ & _ & ->). apply H.
  - intros c' cs' [Hne Hc']%lookup_delete_Some. destruct (hv_conns _ H _ _ Hc') as (H1 & H2 & H3). split_and!; [done|done|].
    intros band key Hr. destruct (H3 _ _ Hr) as (id & -> & Hx). exists id. split; [done|]. rewrite S.
    rewrite decide_False; [done|]. intros Hcs. destruct (Hreg _ _ Hcs) as (_ & _ & Hx'). congruence.
  - intros band id x Hx. destruct M as (_ & _ & ->). destruct (hv_entries _ H _ _ _ (Hsub _ _ _ Hx)) as (Hid & c' & -> & Hc').
    split; [done|]. exists c'. split; [done|]. rewrite lookup_delete_ne; [done|]. intros <-. rewrite Hc in Hc'. injection Hc' as ->.
    rewrite S in Hx. by rewrite decide_True in Hx.
  - intros band addr x Hx. eapply hv_udp; eauto.
Qed.

Lemma hub_drop_inv h tx : HubInv h → HubInv (mkHubState (hub_reg h) (conn_drop tx (hub_store h)) (hub_conns h)).
Proof.
  intros H. destruct (conn_drop_inv tx _ (hv_store _ H)) as [I E]. apply hub_store_step; [done|done|done|apply conn_drop_frames].
Qed.

Lemma hub_close_leave h c cs : cs_queue cs = c →
  hub_close c cs h = mkHubState (hub_reg (hub_leave c cs h)) (conn_drop c (hub_store (hub_leave c cs h))) (hub_conns (hub_leave c cs h)).
Proof. intros <-. unfold hub_close, conn_close, hub_leave. by destruct (cs_registered cs) as [[]|]. Qed.

Lemma hub_close_inv h c cs : HubInv h → hub_conns h !! c = Some cs → HubInv (hub_close c cs h).
Proof.
  intros H Hc. rewrite hub_close_leave by (by destruct (hv_conns _ H _ _ Hc)). by apply hub_drop_inv, hub_leave_inv.
Qed.

Lemma bump_sinks r b k : sink_of (next_conn_id r).1 b k = sink_of r b k.
Proof. done. Qed.

(** Registering a connection under a fresh id. *)
Lemma hub_register h band c now :
  HubInv h → hub_conns h !! c = Some (mkConnState c None) → (next_conn (hub_reg h) < u64_max)%Z →
  let '(r, s, res) := connect band (Conn (next_conn (hub_reg h))) (SinkConn c) now (next_conn_id (hub_reg h)).1 (hub_store h) in
  match res with
  | Ok _ => HubInv (mkHubState r s (<[c := mkConnState c (Some (band, Conn (next_conn (hub_reg h))))]> (hub_conns h)))
  | Err _ => HubInv (mkHubState r s (hub_conns h))
  end.
Proof.
  intros H Hc Hn. set (id := next_conn (hub_reg h)). set (r0 := (next_conn_id (hub_reg h)).1).
  destruct (hv_conns _ H _ _ Hc) as (_ & (q & Hq & Hu & He) & _). specialize (He eq_refl).
  assert (Hw : wrap 64 (id + 1) = (id + 1)%Z) by (apply wrap_u64_small; pose proof (hv_next _ H); lia).
  assert (R0 : RegInv r0 (hub_store h)) by (destruct (hv_reg _ H); by split).
  assert (Hnone : sink_of r0 band (Conn id) = None).
  { destruct (sink_of r0 band (Conn id)) as [x|] eqn:Ex; [|done]. apply (hv_entries _ H) in Ex as (Hlt & _). subst id. lia. }
  pose proof (connect_spec band id c now r0 (hub_store h) R0 (hv_store _ H) ltac:(eauto) Hnone) as HC.
  destruct (connect _ _ _ _ _ _) as [[r s] res]. destruct HC as (-> & R & M & Hres).
  assert (Hnext : next_conn r = (id + 1)%Z) by (destruct M as (_ & _ & ->); exact Hw).
  destruct res as [u|e].
  - destruct Hres as [_ Ha]. split; cbn [hub_reg hub_store hub_conns]; try done.
    + apply H.
    + eapply (sinks_add r0 (hub_store h)); [destruct (hv_sinks _ H); by split|split; done|by destruct M as (_ & -> & _)| |apply no_new_frames_refl|].
      * intros b k x Hx Eq. eapply unregistered_unowned; [exact H|exact Hc|done|]. by exists b, k, x.
      * simpl. intros q'. congruence.
    + rewrite Hnext. pose proof (hv_next _ H). lia.
    + intros c' cs' [[<- <-]|[Hne Hc']]%lookup_insert_Some.
      * split_and!; [done|by eauto|]. intros b k [= <- <-]. exists id. split; [done|]. by rewrite Ha, decide_True.
      * destruct (hv_conns _ H _ _ Hc') as (H1 & H2 & H3). split_and!; [done|done|].
        intros b k Hr. destruct (H3 _ _ Hr) as (i & -> & Hx). exists i. split; [done|]. rewrite Ha.
        rewrite decide_False; [done|]. intros [= -> ->]. unfold r0 in Hnone. rewrite bump_sinks in Hnone. congruence.
    + intros b i x. rewrite Ha, Hnext. destruct (decide _) as [[= -> ->]|].
      * intros [= <-]. split; [lia|]. exists c. by rewrite lookup_insert_eq.
      * intros Hx. destruct (hv_entries _ H _ _ _ Hx) as (Hlt & c' & -> & Hc'). split; [subst id; lia|]. exists c'.
        split; [done|]. rewrite lookup_insert_ne; [done|]. congruence.
    + intros b addr x. rewrite Ha, decide_False by congruence. apply H.
  - subst r. destruct H as [R' I V Hnx Hcs Hen Hud]. split; cbn [hub_reg hub_store hub_conns]; try done.
    + destruct V; by split.
    + rewrite Hnext. subst id. lia.
    + intros b i x Hx. destruct (Hen _ _ _ Hx) as (Hlt & Hc'). split; [rewrite Hnext; subst id; lia|done].
Qed.

Lemma hub_frame_inv h band id frame info now :
  HubInv h → route_info frame = Some info → ri_band_id info = band →
  let '(r, s) := forward band (Conn id) frame (touch band (Conn id) now (hub_reg h)) (hub_store h) in
  HubInv (mkHubState r s (hub_conns h)).
Proof.
  intros H Hi Hb. destruct (touch_spec band id now _ _ (hv_reg _ H)) as (R & (M1 & M2 & M3) & S).
  assert (V : SinkInv (touch band (Conn id) now (hub_reg h)) (hub_store h)).
  { eapply sinks_sub; [apply H|intros b k x; by rewrite S|by rewrite M2|apply no_new_frames_refl]. }
  pose proof (forward_relays band (Conn id) frame info _ _ R (hv_store _ H) V Hi Hb) as HR.
  destruct (forward _ _ _ _ _) as [r s]. destruct HR as [R' I' V' E Hn Hs Ho].
  apply hub_relays; [done|]. split; try done.
  - by rewrite Hn.
  - intros b k. by rewrite Hs.
  - intros tx Htx. apply Ho. intros (b & k & x & Hx & Eq). apply Htx. exists b, k, x. by rewrite <- S.
Qed.

Lemma hub_datagram h peer_queue src d now :
  HubInv h →
  let '(r, s) := udp_datagram peer_queue src d now (hub_reg h) (hub_store h) in
  HubInv (mkHubState r s (hub_conns h)) ∧ next_conn r = next_conn (hub_reg h).
Proof.
  intros H. unfold udp_datagram. destruct (route_info d) as [info|] eqn:Ei; [|by destruct h].
  set (depth := Nat.max peer_queue 64).
  pose proof (observe_udp_spec (ri_band_id info) src depth now _ _ (hv_reg _ H) (hv_store _ H)) as HO.
  destruct (observe_udp _ _ _ _ _ _) as [[r s] res]. destruct HO as (R & I & E & (M1 & M2 & M3) & HG).
  assert (H1 : HubInv (mkHubState r s (hub_conns h))).
  { destruct HG as [[-> Hs]|[-> [Hnone Ha]]].
    - apply hub_keep; try done; [eapply sinks_sub; [apply H|intros b k x; by rewrite Hs|by rewrite M2|apply no_new_frames_refl]| |].
      + intros b a x. rewrite Hs. apply H.
      + intros c q q' _. congruence.
    - pose proof (si_fresh _ (hv_store _ H) (next_queue (hub_store h)) ltac:(lia)) as Hf.
      assert (Hnew : no_new_frames (hub_store h) (peer_sink src depth (hub_store h)).1)
        by (apply no_new_frames_insert; simpl; set_solver).
      apply hub_keep; try done.
      + eapply sinks_add; [apply H|by split|done| |done|].
        * intros b k x Hx Eq. pose proof (sink_of_ok _ _ _ _ _ (hv_reg _ H) Hx) as Hok. simpl in Eq.
          destruct x; simpl in *; destruct Hok as (q & Hq & _); congruence.
        * simpl. intros q. rewrite lookup_insert_eq. by intros [= <-].
      + intros b i. by rewrite Ha, decide_False by congruence.
      + intros b a x. rewrite Ha. destruct (decide _) as [[= -> ->]|]; [intros [= <-]; by eexists|apply H].
      + intros c q q' _ Hq He Hq'. simpl in Hq'. rewrite lookup_insert_ne in Hq' by congruence. congruence. }
  destruct res as [u|e]; [|done].
  pose proof (forward_relays (ri_band_id info) (Udp src) d info _ _ R I (hv_sinks _ H1) Ei eq_refl) as HR.
  destruct (forward _ _ _ _ _) as [r' s']. split; [exact (hub_relays _ _ _ H1 HR)|]. by rewrite (rl_next _ _ _ _ HR).
Qed.

(** Connection ids are only handed out by [next_conn_id]. *)
Lemma federate_next band frame r : next_conn (federate band frame r) = next_conn r.
Proof. unfold federate. destruct (fed r); [|done]. by case_decide. Qed.

Lemma forward_next band from frame r s : next_conn (forward band from frame r s).1 = next_conn r.
Proof.
  unfold forward. destruct (route_info frame); [|done]. destruct (bands r !! band); [|done]. case_decide; [done|].
  simpl. apply federate_next.
Qed.

Lemma touch_next band key now r : next_conn (touch band key now r) = next_conn r.
Proof. unfold touch. by destruct (bands r !! band ≫= _) as [[]|]. Qed.

Lemma connect_next band key sink now r s : next_conn (connect band key sink now r s).1.1 = next_conn r.
Proof. unfold connect, registry_insert. destruct (_ && _)%bool; [done|]. by case_decide. Qed.

Lemma disconnect_next band key r : next_conn (disconnect band key r) = next_conn r.
Proof. unfold disconnect. by destruct (bands r !! band). Qed.

Lemma hub_close_next c cs h : next_conn (hub_reg (hub_close c cs h)) = next_conn (hub_reg h).
Proof. unfold hub_close, conn_close. simpl. destruct (cs_registered cs) as [[band key]|]; [apply disconnect_next|done]. Qed.

Lemma hub_leave_next c cs h : next_conn (hub_reg (hub_leave c cs h)) = next_conn (hub_reg h).
Proof. unfold hub_leave. simpl. destruct (cs_registered cs) as [[band key]|]; [apply disconnect_next|done]. Qed.

(** A message on a WebSocket. *)
Lemma hub_ws_message h c cs data now :
  HubInv h → hub_conns h !! c = Some cs → (next_conn (hub_reg h) < u64_max)%Z →
  let '(r, s, cs', _) := ws_message data now cs (hub_reg h) (hub_store h) in
  HubInv (mkHubState r s (<[c := cs']> (hub_conns h))) ∧ (next_conn (hub_reg h) <= next_conn r <= next_conn (hub_reg h) + 1)%Z.
Proof.
  intros H Hc Hn. assert (Hsame : HubInv (mkHubState (hub_reg h) (hub_store h) (<[c := cs]> (hub_conns h))))
    by (rewrite insert_id by done; by destruct h).
  unfold ws_message. destruct (route_info data) as [info|] eqn:Ei; [|split; [done|lia]].
  destruct (hv_conns _ H _ _ Hc) as (Hq & _ & Hreg). destruct cs as [c' reg]. simpl in Hq. subst c'. cbn [cs_registered cs_queue] in *.
  destruct reg as [[band key]|].
  - destruct (decide _) as [|Hb]; [split; [done|lia]|]. apply dec_stable in Hb.
    destruct (Hreg _ _ eq_refl) as (id & -> & _).
    pose proof (hub_frame_inv h band id data info now H Ei Hb) as HF. rewrite Hb.
    pose proof (forward_next band (Conn id) data (touch band (Conn id) now (hub_reg h)) (hub_store h)) as Hx.
    destruct (forward _ _ _ _ _) as [r s]. rewrite insert_id by done. split; [done|]. simpl in Hx. rewrite Hx, touch_next. lia.
  - pose proof (hub_register h (ri_band_id info) c now H Hc Hn) as HR.
    pose proof (connect_next (ri_band_id info) (Conn (next_conn (hub_reg h))) (SinkConn c) now (next_conn_id (hub_reg h)).1 (hub_store h)) as Hx.
    cbn [next_conn_id fst] in *. destruct (connect _ _ _ _ _ _) as [[r s] res]. cbn [fst] in Hx.
    assert (Hw : next_conn r = (next_conn (hub_reg h) + 1)%Z).
    { rewrite Hx. apply wrap_u64_small. pose proof (hv_next _ H). lia. }
    destruct res as [u|e]; [|rewrite insert_id by done; split; [done|lia]].
    pose proof (forward_relays (ri_band_id info) (Conn (next_conn (hub_reg h))) data info r s
      (hv_reg _ HR) (hv_store _ HR) (hv_sinks _ HR) Ei eq_refl) as HF.
    destruct (forward _ _ _ _ _) as [r' s']. split; [exact (hub_relays _ _ _ HR HF)|]. rewrite (rl_next _ _ _ _ HF). lia.
Qed.

(** A session whose band is known. *)
Lemma hub_open_inv cfg h band now :
  HubInv h → (next_conn (hub_reg h) < u64_max)%Z →
  HubInv (hub_step cfg now (HOpen band) h)
  ∧ (next_conn (hub_reg (hub_step cfg now (HOpen band) h)) <= next_conn (hub_reg h) + 1)%Z.
Proof.
  intros H Hn. destruct (hub_accept cfg h H) as [Hnone H1]. cbn [hub_step]. unfold conn_accept in *. cbn [fst] in H1.
  unfold conn_open. cbn [next_conn_id].
  pose proof (hub_register _ band (next_queue (hub_store h)) now H1 ltac:(apply lookup_insert_eq) Hn) as HR.
  cbn [hub_reg hub_store hub_conns next_conn_id fst] in HR.
  pose proof (connect_next band (Conn (next_conn (hub_reg h))) (SinkConn (next_queue (hub_store h))) now (next_conn_id (hub_reg h)).1
    (mkStore (<[next_queue (hub_store h) := mkQueue [] (Nat.max (hc_conn_queue cfg) 64) true false]> (queues (hub_store h)))
       (S (next_queue (hub_store h))) (budget (hub_store h)))) as Hx.
  cbn [next_conn_id fst] in Hx. destruct (connect _ _ _ _ _ _) as [[r s] res]. cbn [fst] in Hx.
  assert (Hw : next_conn r = (next_conn (hub_reg h) + 1)%Z).
  { rewrite Hx. apply wrap_u64_small. pose proof (hv_next _ H). lia. }
  destruct res as [u|e].
  - rewrite insert_insert_eq in HR. split; [done|]. simpl. lia.
  - pose proof (hub_close_inv _ _ _ HR ltac:(apply lookup_insert_eq)) as HC.
    unfold hub_close, conn_close in HC. cbn [hub_reg hub_store hub_conns cs_registered cs_queue] in HC.
    rewrite delete_insert_id in HC by done. split; [done|]. simpl. lia.
Qed.

Lemma hub_pinned_inv h band id frame now :
  HubInv h →
  let '(r, s) := pinned_frame band (Conn id) frame now (hub_reg h) (hub_store h) in
  HubInv (mkHubState r s (hub_conns h)) ∧ next_conn r = next_conn (hub_reg h).
Proof.
  intros H. unfold pinned_frame. destruct (route_info frame) as [info|] eqn:Ei; [|by destruct h].
  destruct (decide _) as [Hb|]; [|by destruct h]. pose proof (hub_frame_inv h band id frame info now H Ei Hb) as HF.
  pose proof (forward_next band (Conn id) frame (touch band (Conn id) now (hub_reg h)) (hub_store h)) as Hx.
  destruct (forward _ _ _ _ _) as [r s]. split; [done|]. simpl in Hx. by rewrite Hx, touch_next.
Qed.

(** One event: the invariant is kept, and at most one connection id is used. *)
Lemma hub_step_inv cfg now e h :
  HubInv h → link_known e → (next_conn (hub_reg h) < u64_max)%Z →
  HubInv (hub_step cfg now e h) ∧ (next_conn (hub_reg (hub_step cfg now e h)) <= next_conn (hub_reg h) + 1)%Z.
Proof.
  intros H Hl Hn. destruct e as [src d| |c data|band|c frame|c|c|tx|band id frame|tx|ttl|band frame|].
  - pose proof (hub_datagram h (hc_peer_queue cfg) src d now H) as HD. cbn [hub_step].
    destruct (udp_datagram _ _ _ _ _ _) as [r s]. destruct HD as [HD Hx]. split; [done|]. simpl. lia.
  - destruct (hub_accept cfg h H) as [_ H1]. split; [done|]. simpl. lia.
  - cbn [hub_step]. destruct (hub_conns h !! c) as [cs|] eqn:Hc; [|split; [done|lia]].
    pose proof (hub_ws_message h c cs data now H Hc Hn) as HM.
    destruct (ws_message _ _ _ _ _) as [[[r s] cs'] alive]. destruct HM as [HM Hx].
    destruct alive; [by split; [|simpl; lia]|]. rewrite hub_leave_next. split; [|simpl; lia].
    apply hub_leave_inv; [done|]. apply lookup_insert_eq.
  - by apply hub_open_inv.
  - cbn [hub_step]. destruct (hub_conns h !! c) as [[c' [[band key]|]]|] eqn:Hc; [|split; [done|lia]..].
    destruct (hv_conns _ H _ _ Hc) as (Hq & _ & Hreg). simpl in Hq. subst c'. destruct (Hreg _ _ eq_refl) as (id & -> & _).
    pose proof (hub_pinned_inv h band id frame now H) as HF. destruct (pinned_frame _ _ _ _ _ _) as [r s]. destruct HF as [HF Hx].
    split; [done|]. simpl. lia.
  - cbn [hub_step]. destruct (hub_conns h !! c) as [cs|] eqn:Hc; [|split; [done|lia]].
    rewrite hub_close_next. split; [by apply hub_close_inv|lia].
  - cbn [hub_step]. destruct (hub_conns h !! c) as [cs|] eqn:Hc; [|split; [done|lia]].
    rewrite hub_leave_next. split; [by apply hub_leave_inv|lia].
  - split; [by apply hub_drop_inv|simpl; lia].
  - cbn [hub_step]. pose proof (hub_pinned_inv h band id frame now H) as HF. destruct (pinned_frame _ _ _ _ _ _) as [r s].
    destruct HF as [HF Hx]. split; [done|]. simpl. lia.
  - destruct (peer_writer_inv tx _ (hv_store _ H)) as [I E]. split; [|simpl; lia].
    apply hub_store_step; [done|done|done|apply peer_writer_frames].
  - destruct (prune_spec now ttl _ _ (hv_reg _ H)) as (R & (M1 & M2 & M3) & S1 & S2). split; [|simpl; lia].
    cbn [hub_step]. apply hub_keep; try done; try apply H.
    + eapply sinks_sub; [apply H|done|by rewrite M2|apply no_new_frames_refl].
    + intros b a x Hx. eapply hv_udp; eauto.
    + intros c q q' _. congruence.
  - split; [|simpl; lia]. cbn [hub_step]. apply hub_relays; [done|]. apply inject_relays; [apply H..|by right].
  - split; [|cbn [hub_step hub_reg]; unfold take_federated; destruct (fed _) as [[]|]; simpl; lia].
    cbn [hub_step]. unfold take_federated. destruct (fed (hub_reg h)) as [[|bf rest]|] eqn:Ef; [by destruct h| |by destruct h].
    apply hub_keep; try done; try apply H.
    + destruct (hv_reg _ H) as [R1 R2 R3 R4]. rewrite Ef in R3. split; try done. simpl in *. lia.
    + eapply sinks_sub; [apply H|done| |apply no_new_frames_refl]. simpl. rewrite Ef. simpl. set_solver.
    + intros c q q' _. congruence.
Qed.
End HubSteps.
End Isolation.

(** * Claims *)

Lemma HubState_new_inv {inj : Injected} l queue_bytes federated :
  is_u32 (udp_validation_packets l) → (0 <= queue_bytes <= u64_max)%Z → HubInv (HubState_new l queue_bytes federated).
Proof.
  intros Hl Hb.
  assert (He : ∀ b k, sink_of (hub_reg (HubState_new l queue_bytes federated)) b k = None).
  { intros b k. unfold HubState_new, sink_of. simpl. by destruct federated; simpl; rewrite lookup_empty. }
  split.
  - unfold HubState_new. split; simpl.
    + destruct federated; simpl; rewrite map_size_empty; lia.
    + destruct federated; simpl; apply map_Forall_empty.
    + destruct federated; simpl; [lia|done].
    + by destruct federated.
  - split; simpl; try done. right. lia.
  - split; [intros *; by rewrite He|intros *; by rewrite He|]. unfold HubState_new. simpl. by destruct federated; simpl.
  - unfold HubState_new. simpl. destruct federated; simpl; unfold u64_max; lia.
  - intros c cs. unfold HubState_new. simpl. by rewrite lookup_empty.
  - intros b i x. by rewrite He.
  - intros b a x. by rewrite He.
Qed.

Lemma hub_run_inv {inj : Injected} {po : PeerOrder} {pos : PeerOrderSpec po} cfg es h :
  HubInv h → Forall (λ e, link_known e.2) es → (next_conn (hub_reg h) + Z.of_nat (length es) <= u64_max)%Z →
  HubInv (hub_run cfg es h).
Proof.
  revert h. induction es as [|[now e] es IH]; intros h H He Hx; simpl in *; [done|].
  apply Forall_cons in He as [He Hes]. destruct (hub_step_inv cfg now e h H He) as [H' Hx']; [lia|].
  apply IH; [done|done|]. lia.
Qed.

(** The frames a run has injected. *)
Definition injected_by (es : list (Z * hub_event)) : Injected := λ band frame, ∃ now, (now, HInject band frame) ∈ es.

(** With links that relay a frame under the band it names, queues hold frames of their
    band only. *)
Lemma carries_honest (es : list (Z * hub_event)) band frame :
  (∀ now b f, (now, HInject b f) ∈ es → of_band b f) → carries (inj := injected_by es) band frame → of_band band frame.
Proof. intros H [?|[now Hi]]; [done|]. by eapply H. Qed.

(** C2: whatever datagrams, connections, messages, closes, writers, prunes and
    relays from linked hubs a hub handles, in whatever order, the caps on
    bands and on peers of a band hold, the bytes charged to the budget are
    exactly the bytes waiting in the UDP queues and stay within the limit, no
    queue exceeds its depth, a queue belongs to one peer of one band and holds
    only frames of that band and frames that a linked hub relayed under that band,
    and the connections being served are exactly the connection entries of the
    registry. What a linked hub relays is not checked against the frame's own band:
    see [link_crosses_bands]. *)
Theorem hub_invariant {po : PeerOrder} {pos : PeerOrderSpec po} (cfg : HubConfig) (l : Limits) (queue_bytes : Z) (federated : bool)
    (es : list (Z * hub_event)) :
  is_u32 (udp_validation_packets l) → (0 <= queue_bytes <= u64_max)%Z → (Z.of_nat (length es) < u64_max)%Z →
  HubInv (inj := injected_by es) (hub_run cfg es (HubState_new l queue_bytes federated)).
Proof.
  intros Hl Hq Hn. apply hub_run_inv; [by apply HubState_new_inv| |].
  - apply Forall_forall. intros [now e] He. destruct e; try done. by exists now.
  - unfold HubState_new. simpl. destruct federated; simpl; lia.
Qed.

(** A finite order for the examples. *)
Definition sample_order : PeerOrder := λ m, map_to_list m.

Lemma sample_order_spec : PeerOrderSpec sample_order.
Proof. intros m. done. Qed.

Definition sample_band (b : byte) : bytes := replicate 16 b.
Definition sample_frame (band : bytes) (t : ChannelType) (id : Z) : bytes :=
  band ++ to_be_bytes 1 (ChannelType_to_u8 t) ++ to_be_bytes 2 id ++ replicate 24 Byte.x2a.

Definition sample_limits : Limits := mkLimits 2 3 2.
Definition sample_addr (port : Z) : SocketAddr := mkAddr "10.0.0.1" port.

(** Two validated UDP peers and a WebSocket in one band, one of them
    declaring an id that a frame is then addressed to. *)
Definition sample_events : list (Z * hub_event) :=
  let b := sample_band Byte.x01 in
  [(0, HDatagram (sample_addr 1) (sample_frame b Stream 0)); (1, HDatagram (sample_addr 1) (sample_frame b Stream 0));
   (2, HDatagram (sample_addr 2) (sample_frame b Stream 0)); (3, HDatagram (sample_addr 2) (sample_frame b Route 7));
   (4, HWsAccept); (5, HWsMessage 2 (sample_frame b Addressed 7)); (6, HDatagram (sample_addr 1) (sample_frame b Stream 0))]%Z.

Definition sample_hub : HubState :=
  @hub_run sample_order (mkHubConfig 64 64) sample_events (HubState_new sample_limits 1000 true).

Definition queue_lengths (h : HubState) : list (nat * nat) :=
  map_to_list ((λ q, length (q_items q)) <$> queues (hub_store h)).

(** A linked hub that relays a frame of one band under another puts it into the queues of
    that other band's peers. *)
Lemma link_crosses_bands :
  let frame := sample_frame (sample_band Byte.x02) Stream 0 in
  let h := @hub_run sample_order (mkHubConfig 64 64) (sample_events ++ [(7%Z, HInject (sample_band Byte.x01) frame)]) (HubState_new sample_limits 1000 true) in
  sink_of (hub_reg h) (sample_band Byte.x01) (Udp (sample_addr 1)) = Some (SinkUdp 0 (sample_addr 1))
  ∧ (last ∘ q_items) <$> queues (hub_store h) !! 0 = Some (Some frame).
Proof. by vm_compute. Qed.

Lemma hub_invariant_witness :
  HubInv (inj := injected_by sample_events) sample_hub ∧ queue_lengths sample_hub = [(2, 1); (1, 2); (0, 1)]
  ∧ used (budget (hub_store sample_hub)) = 129%Z.
Proof.
  split; [|by vm_compute].
  apply (@hub_invariant sample_order sample_order_spec (mkHubConfig 64 64) sample_limits 1000 true sample_events).
  - by vm_compute.
  - by vm_compute.
  - by vm_compute.
Defined.

(** C13: a frame relayed by a peer (or, with no sender, injected from a link)
    reaches exactly the eligible peers of its band other than the sender, and
    when it is an ADDRESSED frame for an id such a peer declared, exactly the peers
    that declared it; a frame of any other type, CHANNEL included, is not narrowed.
    Given room in the byte budget, each of their queues that is open and not full gets it once,
    every other queue of the hub is left as it was. A declaration never sends
    a frame nowhere: if some other peer is eligible, some peer is meant to
    receive. *)
Theorem relay_delivers {inj : Injected} {po : PeerOrder} {pos : PeerOrderSpec po} (h : HubState) (band frame : bytes) (from : option PeerKey)
    (info : RouteInfo) (peers : Peers) :
  HubInv h → bands (hub_reg h) !! band = Some peers → route_info frame = Some info → ri_channel_type info ≠ Some Route →
  budget_room (hub_store h) frame (size peers) →
  let s := hub_store h in
  let s' := match from with
            | Some k => (forward band k frame (hub_reg h) s).2
            | None => inject_from_link band frame (hub_reg h) s
            end in
  (∀ k p x q, peers !! k = Some p → p_sink p = Some x → queues s !! sink_queue x = Some q →
     (receives peers from info k p → has_room q = true → queues s' !! sink_queue x = Some (push 1 frame q))
     ∧ (¬ receives peers from info k p ∨ has_room q = false → queues s' !! sink_queue x = Some q))
  ∧ (∀ tx, (∀ k p x, peers !! k = Some p → p_sink p = Some x → sink_queue x ≠ tx) → queues s' !! tx = queues s !! tx)
  ∧ ((∃ k p, peers !! k = Some p ∧ Some k ≠ from ∧ p_eligible p = true) → ∃ k p, peers !! k = Some p ∧ receives peers from info k p).
Proof.
  intros H Hb Hi Ht Hroom s s'.
  assert (Es : s' = send_all (targets peers from info) frame s).
  { subst s'. unfold forward, inject_from_link. rewrite Hi, Hb. destruct from; by rewrite decide_False by done. }
  clearbody s'. subst s'.
  destruct (targets_delivered _ _ _ _ from info frame (hv_store _ H) (hv_sinks _ H) Hb Hroom) as [HD HE].
  split_and!; [exact HD|exact HE|].
  intros (k & p & Hp & Hk & He). pose proof (narrowed_true peers from info) as HN.
  destruct (_ && _ && _)%bool; [destruct HN as [(T1 & T2 & k' & p' & Hp' & Hk' & He' & Hr') _]; [done|]|].
  - exists k', p'. by split.
  - exists k, p. split; [done|]. split_and!; [done|done|]. intros N. by apply HN in N.
Qed.

Lemma sample_hub_inv : HubInv (inj := λ _ _, False) sample_hub.
Proof.
  apply (@hub_run_inv (λ _ _, False) sample_order sample_order_spec); [by apply HubState_new_inv; vm_compute|repeat constructor|by vm_compute].
Qed.

Lemma relay_delivers_witness :
  ∃ q, queues (hub_store sample_hub) !! 1 = Some q
    ∧ queues (@forward sample_order (sample_band Byte.x01) (Udp (sample_addr 1)) (sample_frame (sample_band Byte.x01) Addressed 7)
                (hub_reg sample_hub) (hub_store sample_hub)).2 !! 1
      = Some (push 1 (sample_frame (sample_band Byte.x01) Addressed 7) q).
Proof.
  set (p := mkPeerEntry (Some (SinkUdp 1 (sample_addr 2))) 2 3 true 2 (Some 7%Z)).
  assert (Ep : bands (hub_reg sample_hub) !! sample_band Byte.x01 ≫= (.!! Udp (sample_addr 2)) = Some p) by (vm_compute; reflexivity).
  assert (En : size <$> (bands (hub_reg sample_hub) !! sample_band Byte.x01) = Some 3) by (vm_compute; reflexivity).
  assert (Er : has_room <$> (queues (hub_store sample_hub) !! 1) = Some true) by (vm_compute; reflexivity).
  assert (Eb : budget_room (hub_store sample_hub) (sample_frame (sample_band Byte.x01) Addressed 7) 3)
    by (split; [vm_compute; discriminate|right; vm_compute; discriminate]).
  pose proof sample_hub_inv as Hinv. revert Hinv Ep En Er Eb. generalize sample_hub. intros h Hinv Ep En Er Eb.
  destruct (bands (hub_reg h) !! sample_band Byte.x01) as [peers|] eqn:Hb; [|discriminate].
  destruct (queues (hub_store h) !! 1) as [q|] eqn:Eq; [|discriminate].
  injection En as En. injection Er as Er. exists q. split; [done|].
  destruct (@relay_delivers (λ _ _, False) sample_order sample_order_spec h (sample_band Byte.x01)
    (sample_frame (sample_band Byte.x01) Addressed 7) (Some (Udp (sample_addr 1)))
    (mkRouteInfo (sample_band Byte.x01) (Some Addressed) 7) peers Hinv Hb eq_refl) as (HD & _);
    [discriminate|rewrite En; exact Eb|].
  apply (HD (Udp (sample_addr 2)) p (SinkUdp 1 (sample_addr 2)) q Ep eq_refl Eq); [by split_and!|exact Er].
Defined.

(** A CHANNEL frame from a link, for an id a local peer declared, goes to every peer of the
    band: here to the queues of both UDP peers, of which the second declared 7. *)
Lemma channel_frames_are_broadcast :
  let frame := sample_frame (sample_band Byte.x01) Channel 7 in
  let s' := @inject_from_link sample_order (sample_band Byte.x01) frame (hub_reg sample_hub) (hub_store sample_hub) in
  route_of (sample_band Byte.x01) (Udp (sample_addr 1)) (hub_reg sample_hub) = None
  ∧ route_of (sample_band Byte.x01) (Udp (sample_addr 2)) (hub_reg sample_hub) = Some 7%Z
  ∧ (last ∘ q_items) <$> queues s' !! 0 = Some (Some frame) ∧ (last ∘ q_items) <$> queues s' !! 1 = Some (Some frame).
Proof. by vm_compute. Qed.

Lemma rebound_spec addr id born k q :
  rebound addr id born k q = true
  ↔ ∃ a, k = Udp a ∧ a ≠ addr ∧ ip a = ip addr ∧ p_route q = Some id ∧ (p_last_seen q < born)%Z.
Proof.
  unfold rebound. destruct k as [a|]; [|naive_solver].
  rewrite !andb_true_iff, !bool_decide_eq_true, Z.ltb_lt. naive_solver.
Qed.

(** A UDP entry that shares the declarer's address but not its port, holds the
    id it now declares, and has been silent since the declarer first appeared. *)
Definition rebind_loses (from : PeerKey) (p : Peer) (id : Z) (k : PeerKey) (q : Peer) : Prop :=
  ∃ addr a, from = Udp addr ∧ k = Udp a ∧ a ≠ addr ∧ ip a = ip addr ∧ p_eligible p = true ∧ id ≠ 0%Z
    ∧ p_route q = Some id ∧ (p_last_seen q < p_first_seen p)%Z.

(** A ROUTE frame is consumed: no queue and no linked hub sees it. It sets
    the sender's declared id (0 withdraws it), and takes the id from exactly
    those other entries that look like the sender before its NAT mapping
    changed; every other entry, and every other band, is left as it was. *)
Theorem route_declaration {po : PeerOrder} (r : Registry) (s : Store) (band frame : bytes) (from : PeerKey) (info : RouteInfo)
    (peers : Peers) (p : Peer) :
  route_info frame = Some info → ri_channel_type info = Some Route → bands r !! band = Some peers → peers !! from = Some p →
  let id := ri_channel_id info in
  ∃ peers', forward band from frame r s = (with_bands (<[band := peers']> (bands r)) r, s)
    ∧ peers' !! from = Some (set_route (if (id =? 0)%Z then None else Some id) p)
    ∧ (∀ k, peers !! k = None → peers' !! k = None)
    ∧ ∀ k q, k ≠ from → peers !! k = Some q →
        (rebind_loses from p id k q → peers' !! k = Some (set_route None q))
        ∧ (¬ rebind_loses from p id k q → peers' !! k = Some q).
Proof.
  intros Hi Ht Hb Hp id. unfold forward. rewrite Hi, Hb, decide_True, Hp by done. fold id.
  set (p' := set_route _ p). eexists. split; [reflexivity|]. rewrite !supersede_lookup. split_and!.
  - rewrite lookup_insert_eq. simpl. f_equal. destruct from as [addr|]; [|done]. rewrite lookup_insert_eq.
    destruct (p_route p') as [i|]; [|done]. destruct (p_eligible p'); [|done].
    unfold rebound. by rewrite bool_decide_false by (intros H; by apply H).
  - intros k Hk. rewrite supersede_lookup, lookup_insert_ne, Hk by congruence. done.
  - intros k q Hne Hq. rewrite supersede_lookup, lookup_insert_ne, Hq by done. cbn [fmap option_fmap option_map].
    destruct from as [addr|i].
    + rewrite lookup_insert_eq. subst p'. cbn [set_route p_route p_eligible p_first_seen].
      destruct (id =? 0)%Z eqn:E0; [apply Z.eqb_eq in E0; split; [intros (? & ? & _ & _ & _ & _ & _ & Hid & _); destruct (Hid E0)|done]|]. apply Z.eqb_neq in E0.
      destruct (p_eligible p) eqn:Ee; [|split; [intros (? & ? & _ & _ & _ & _ & He & _); rewrite He in Ee; discriminate|done]].
      pose proof (rebound_spec addr id (p_first_seen p) k q) as HR. destruct (rebound _ _ _ _ _).
      * split; [done|]. intros Hno. exfalso. apply Hno. destruct HR as [(a & ?) _]; [done|]. exists addr, a. naive_solver.
      * split; [|done]. intros (addr' & a & [= <-] & ?). destruct HR as [_ HR]. exfalso. assert (false = true) by (apply HR; naive_solver). done.
    + split; [by intros (? & ? & ? & _)|done].
Qed.

Definition rebound_peers : Peers :=
  {[ Udp (sample_addr 1) := mkPeerEntry (Some (SinkUdp 0 (sample_addr 1))) 0 5 true 9 (Some 7%Z);
     Udp (sample_addr 2) := mkPeerEntry (Some (SinkUdp 1 (sample_addr 2))) 6 8 true 2 None ]}.

Lemma route_declaration_witness :
  ∃ peers', @forward sample_order (sample_band Byte.x01) (Udp (sample_addr 2)) (sample_frame (sample_band Byte.x01) Route 7)
      (with_bands {[ sample_band Byte.x01 := rebound_peers ]} (Registry_new sample_limits)) (hub_store sample_hub)
    = (with_bands (<[sample_band Byte.x01 := peers']> {[ sample_band Byte.x01 := rebound_peers ]}) (Registry_new sample_limits),
       hub_store sample_hub)
    ∧ (peers' !! Udp (sample_addr 1) ≫= p_route) = None ∧ (peers' !! Udp (sample_addr 2) ≫= p_route) = Some 7%Z.
Proof.
  destruct (@route_declaration sample_order (with_bands {[ sample_band Byte.x01 := rebound_peers ]} (Registry_new sample_limits))
    (hub_store sample_hub) (sample_band Byte.x01) (sample_frame (sample_band Byte.x01) Route 7) (Udp (sample_addr 2))
    (mkRouteInfo (sample_band Byte.x01) (Some Route) 7) rebound_peers
    (mkPeerEntry (Some (SinkUdp 1 (sample_addr 2))) 6 8 true 2 None)) as (peers' & E & H1 & _ & H2); try reflexivity.
  exists peers'. split; [exact E|]. split; [|by rewrite H1].
  destruct (H2 (Udp (sample_addr 1)) (mkPeerEntry (Some (SinkUdp 0 (sample_addr 1))) 0 5 true 9 (Some 7%Z))) as [HL _];
    [done|reflexivity|]. rewrite HL; [done|]. exists (sample_addr 2), (sample_addr 1). by split_and!.
Defined.

Definition total_peers (r : Registry) : Z := map_sum (λ peers, Z.of_nat (size peers)) (bands r).

(** Pruning removes exactly the UDP peers silent for longer than the TTL:
    connections and recent UDP peers keep their entries unchanged, no empty
    band is left, and the counts reported are the number of peers removed and
    of bands remaining. *)
Theorem prune_evicts (now ttl : Z) (r : Registry) :
  let '(r', (evicted, remaining)) := prune now ttl r in
  (∀ b k, bands r' !! b ≫= (.!! k) = bands r !! b ≫= λ peers, peers !! k ≫= λ p,
     match k with
     | Udp _ => if decide (duration_since now (p_last_seen p) <= ttl)%Z then Some p else None
     | Conn _ => Some p
     end)
  ∧ map_Forall (λ _ peers, peers ≠ ∅) (bands r')
  ∧ remaining = size (bands r')
  ∧ (Z.of_nat evicted + total_peers r' = total_peers r)%Z.
Proof.
  destruct (prune now ttl r) as [r' [evicted remaining]] eqn:E. split_and!.
  - intros b k. pose proof (prune_lookup now ttl r b k) as H. rewrite E in H. simpl in H. rewrite H.
    destruct (bands r !! b) as [peers|]; [|done]. simpl. destruct (peers !! k) as [p|]; [|done]. simpl.
    destruct k; simpl; [|done]. destruct (Z.leb_spec (duration_since now (p_last_seen p)) ttl); case_decide; try done; lia.
  - injection E as <- _ _. intros b peers [_ H]%map_lookup_filter_Some. done.
  - by injection E as <- <- <-.
  - injection E as <- <- _. unfold total_peers. simpl.
    rewrite map_sum_filter by (intros b peers _ He; apply dec_stable in He; simpl in He; rewrite He; by rewrite map_size_empty).
    rewrite Z2Nat.id by (apply map_sum_nonneg; intros; lia).
    induction (bands r) as [|b peers m Hn IH] using map_ind; [done|].
    rewrite fmap_insert, !map_sum_insert by (by rewrite ?lookup_fmap, ?Hn).
    pose proof (map_size_filter (λ kv, keeps now ttl kv.1 kv.2 = true) peers). fold (prune_peers now ttl peers) in *. lia.
Qed.
