(* ===== verification/RegistryTests.v ===== *)
(** The unit tests of the hub's registry ([mod tests] of
    [rust/telesthitium/src/registry.rs]), replayed against the model of the registry: each
    test is the sequence of calls and assertions of the function it is named after. *)

From S2P Require Import Prelude Framing HubFrame Registry.

(** * The harness *)

(** The registry under test, the channels it was given, the clock, and whether every
    assertion held so far. *)
Record World := mkWorld { w_reg : Registry; w_store : Store; w_now : Z; w_ok : bool }.

Definition M (A : Type) : Type := World → World * A.

#[export] Instance M_ret : MRet M := λ _ a w, (w, a).
#[export] Instance M_bind : MBind M := λ _ _ k m w, let '(w, a) := m w in k a w.

#[local] Existing Instance sample_order.

(** [assert!], and [unwrap] of a result. *)
Definition check (b : bool) : M () := λ w, (mkWorld (w_reg w) (w_store w) (w_now w) (w_ok w && b), ()).
Definition asks {A} (f : Registry → A) : M A := λ w, (w, f (w_reg w)).
Definition on_reg (f : Registry → Registry) : M () := λ w, (mkWorld (f (w_reg w)) (w_store w) (w_now w) (w_ok w), ()).
Definition on_store {A} (f : Store → Store * A) : M A := λ w, let '(s, a) := f (w_store w) in (mkWorld (w_reg w) s (w_now w) (w_ok w), a).
Definition sleep (ms : Z) : M () := λ w, (mkWorld (w_reg w) (w_store w) (w_now w + ms)%Z (w_ok w), ()).

Definition passes_with (l : Limits) (queue_bytes : Z) (t : M ()) : bool :=
  w_ok (t (mkWorld (Registry_new l) (mkStore ∅ 0 (ByteBudget_new queue_bytes)) 0 true)).1.

Definition band (n : byte) : bytes := replicate 16 n.
Definition band1 : bytes := band Byte.x01.
Definition band2 : bytes := band Byte.x02.

Definition frame (b : bytes) : bytes := b ++ replicate 27 Byte.x00.

Definition new_queue (cap : nat) (open udp : bool) (s : Store) : Store * nat :=
  (mkStore (<[next_queue s := mkQueue [] cap open udp]> (queues s)) (S (next_queue s)) (budget s), next_queue s).

(** [conn(cap)], whose receiver is kept, and [conn(cap).0], whose receiver is not. *)
Definition conn (cap : nat) : M nat := on_store (new_queue cap true false).
Definition conn_0 (cap : nat) : M nat := on_store (new_queue cap false false).

(** [udp(cap, addr)]: the queue of a sink not yet handed to the registry. *)
Definition udp (cap : nat) : M nat := on_store (new_queue cap true true).

Definition big : Limits := mkLimits 1024 1024 2.
Definition validate_one : Limits := mkLimits 1024 1024 1.

Definition connects (b : bytes) (id : Z) (tx : nat) : M (result () RegError) :=
  λ w, let '(r, s, e) := connect b (Conn id) (SinkConn tx) (w_now w) (w_reg w) (w_store w) in (mkWorld r s (w_now w) (w_ok w), e).
Definition is_ok {E} (r : result () E) : bool := match r with Ok _ => true | Err _ => false end.
Definition connect_ok (b : bytes) (id : Z) (tx : nat) : M () := e ← connects b id tx; check (is_ok e).

(** [observe_udp] with a factory that counts its calls by the queue numbers it takes. *)
Definition observes (b : bytes) (addr : SocketAddr) (make : Store → Store * Sink) : M (result () RegError * bool) :=
  λ w, let '(r, s, e) := observe_udp b addr make (w_now w) (w_reg w) (w_store w) in
       (mkWorld r s (w_now w) (w_ok w), (e, bool_decide (next_queue s ≠ next_queue (w_store w)))).

(** [|| s.take().unwrap()]: the one sink there is; the answer is whether it is still there. *)
Definition take_sink (addr : SocketAddr) (tx : nat) (s : Store) : Store * Sink :=
  (mkStore (queues s) (S (next_queue s)) (budget s), SinkUdp tx addr).
Definition observe_once (b : bytes) (addr : SocketAddr) (tx : nat) (there : bool) : M bool :=
  '(e, built) ← observes b addr (take_sink addr tx);
  check (is_ok e && (there || negb built));;
  mret (there && negb built).

(** [|| udp(cap, addr).0]: a new sink each time, nobody reading. *)
Definition observe_new (b : bytes) (addr : SocketAddr) : M () :=
  '(e, _) ← observes b addr (λ s, let '(s, tx) := new_queue 8 false true s in (s, SinkUdp tx addr));
  check (is_ok e).

Definition validated_udp (b : bytes) (addr : SocketAddr) : M nat :=
  tx ← udp 64;
  there ← observe_once b addr tx true;
  there ← (if there : bool then observe_once b addr tx true else mret false);
  check (negb there);;
  mret tx.

Definition forwards (b : bytes) (from : PeerKey) (f : bytes) : M () :=
  λ w, let '(r, s) := forward b from f (w_reg w) (w_store w) in (mkWorld r s (w_now w) (w_ok w), ()).
Definition injects (b f : bytes) : M () :=
  λ w, (mkWorld (w_reg w) (inject_from_link b f (w_reg w) (w_store w)) (w_now w) (w_ok w), ()).
Definition prunes (ttl : Z) : M (nat * nat) :=
  λ w, let '(r, n) := prune (w_now w) ttl (w_reg w) in (mkWorld r (w_store w) (w_now w) (w_ok w), n).

(** [try_recv], which refunds nothing. *)
Definition try_recv (tx : nat) : M (option bytes) :=
  on_store (λ s, match queues s !! tx with
                 | Some (mkQueue (f :: fs) cap open u) => (mkStore (<[tx := mkQueue fs cap open u]> (queues s)) (next_queue s) (budget s), Some f)
                 | _ => (s, None)
                 end).
Definition drain_count (tx : nat) : M nat :=
  on_store (λ s, match queues s !! tx with
                 | Some q => (mkStore (<[tx := mkQueue [] (q_cap q) (q_open q) (q_udp q)]> (queues s)) (next_queue s) (budget s), length (q_items q))
                 | None => (s, 0)
                 end).

Fixpoint drain_counts (txs : list nat) : M (list nat) :=
  match txs with [] => mret [] | tx :: txs' => n ← drain_count tx; ns ← drain_counts txs'; mret (n :: ns) end.

Definition expect {A} `{EqDecision A} (x y : A) : M () := check (bool_decide (x = y)).
Definition gets (txs ns : list nat) : M () := got ← drain_counts txs; expect got ns.

Fixpoint repeats (n : nat) (m : M ()) : M () := match n with 0 => mret () | S n' => m;; repeats n' m end.
Fixpoint for_each {A} (xs : list A) (f : A → M ()) : M () := match xs with [] => mret () | x :: xs' => f x;; for_each xs' f end.

Definition local (p : Z) : SocketAddr := mkAddr "127.0.0.1" p.

(** * The relay, caps and eviction *)

Definition forward_excludes_sender : bool := passes_with big 0 (
  q1 ← conn 8; q2 ← conn 8;
  connect_ok band1 1 q1;; connect_ok band1 2 q2;;
  forwards band1 (Conn 1) (frame band1);;
  a ← try_recv q1; b ← try_recv q2;
  expect a None;; check (bool_decide (is_Some b))).

Definition bands_are_isolated : bool := passes_with big 0 (
  q1 ← conn 8; q2 ← conn 8;
  connect_ok band1 1 q1;; connect_ok band2 2 q2;;
  forwards band1 (Conn 99) (frame band1);;
  a ← try_recv q1; b ← try_recv q2;
  check (bool_decide (is_Some a));; expect b None).

Definition relay_is_byte_exact : bool := passes_with big 0 (
  q ← conn 8;
  connect_ok band1 1 q;;
  let f := band1 ++ replicate 34 Byte.x07 in
  forwards band1 (Conn 2) f;;
  got ← try_recv q;
  expect got (Some f)).

Definition mixed_transport_keys_distinct : bool := passes_with big 0 (
  c ← conn 8;
  u ← validated_udp band1 (local 6000);
  connect_ok band1 1 c;;
  n ← asks (peer_count band1); expect n 2;;
  forwards band1 (Conn 99) (frame band1);;
  a ← try_recv u; b ← try_recv c;
  check (bool_decide (is_Some a) && bool_decide (is_Some b))).

Definition conn_peer_eligible_immediately : bool := passes_with big 0 (
  q ← conn 8;
  connect_ok band1 1 q;;
  e ← asks (is_eligible band1 (Conn 1)); expect e (Some true)).

Definition udp_dest_requires_validation : bool := passes_with big 0 (
  observe_new band1 (local 6001);;
  e ← asks (is_eligible band1 (Udp (local 6001))); expect e (Some false);;
  observe_new band1 (local 6001);;
  e ← asks (is_eligible band1 (Udp (local 6001))); expect e (Some true)).

Definition udp_validation_disabled_when_one : bool := passes_with validate_one 0 (
  observe_new band1 (local 6002);;
  e ← asks (is_eligible band1 (Udp (local 6002))); expect e (Some true)).

Definition slow_peer_queue_bounded : bool := passes_with big 0 (
  q ← conn 2;
  connect_ok band1 1 q;;
  repeats 5 (forwards band1 (Conn 99) (frame band1));;
  got ← drain_count q;
  check (bool_decide (got ≤ 2))).

Definition band_cap_enforced : bool := passes_with (mkLimits 1 1024 2) 0 (
  a ← conn_0 8; b ← conn_0 8;
  connect_ok band1 1 a;;
  e ← connects band2 2 b;
  check (match e with Err BandCap => true | _ => false end);;
  n ← asks band_count; expect n 1).

Definition peer_cap_enforced : bool := passes_with (mkLimits 1024 1 2) 0 (
  a ← conn_0 8; b ← conn_0 8;
  connect_ok band1 1 a;;
  e ← connects band1 2 b;
  check (match e with Err PeerCap => true | _ => false end);;
  n ← asks (peer_count band1); expect n 1).

Definition send_registers_peer : bool := passes_with big 0 (
  a ← asks (contains band1 (Udp (local 6003))); expect a false;;
  observe_new band1 (local 6003);;
  b ← asks (contains band1 (Udp (local 6003))); expect b true).

Definition prune_evicts_stale_udp_and_reaps : bool := passes_with validate_one 0 (
  observe_new band1 (local 6100);;
  n ← asks (peer_count band1); expect n 1;;
  sleep 20;;
  '(evicted, remaining) ← prunes 5;
  expect evicted 1;; expect remaining 0;;
  n ← asks band_count; expect n 0).

Definition active_udp_peer_survives_prune : bool := passes_with validate_one 0 (
  observe_new band1 (local 6101);;
  sleep 20;;
  observe_new band1 (local 6101);;
  '(evicted, _) ← prunes 50;
  expect evicted 0;;
  a ← asks (contains band1 (Udp (local 6101))); expect a true).

Definition conn_peer_survives_prune_while_connected : bool := passes_with big 0 (
  q ← conn_0 8;
  connect_ok band1 1 q;;
  sleep 20;;
  '(evicted, remaining) ← prunes 1;
  expect evicted 0;; expect remaining 1;;
  a ← asks (contains band1 (Conn 1)); expect a true).

Definition remove_on_disconnect : bool := passes_with big 0 (
  q ← conn_0 8;
  connect_ok band1 1 q;;
  on_reg (disconnect band1 (Conn 1));;
  a ← asks (contains band1 (Conn 1)); expect a false;;
  n ← asks band_count; expect n 0).

Definition relay_tests : list bool :=
  [forward_excludes_sender; bands_are_isolated; relay_is_byte_exact; mixed_transport_keys_distinct; conn_peer_eligible_immediately;
   udp_dest_requires_validation; udp_validation_disabled_when_one; slow_peer_queue_bounded; band_cap_enforced; peer_cap_enforced;
   send_registers_peer; prune_evicts_stale_udp_and_reaps; active_udp_peer_survives_prune; conn_peer_survives_prune_while_connected;
   remove_on_disconnect].

Lemma relay_tests_pass : Forall (eq true) relay_tests.
Proof. vm_compute. repeat constructor. Qed.

(** * Addressed routing *)

Definition typed (b : bytes) (ct : byte) (cid : Z) : bytes := b ++ [ct] ++ to_be_bytes 2 cid ++ replicate 24 Byte.x00.

Definition ROUTE : byte := Byte.x05.
Definition CHANNEL : byte := Byte.x02.
Definition ADDRESSED : byte := Byte.x06.

(** [band_of(&r, n)]: conn peers 1..=n of band 1. *)
Fixpoint peers_from (i : Z) (n : nat) : M (list nat) :=
  match n with
  | 0 => mret []
  | S n' => q ← conn 64; connect_ok band1 i q;; qs ← peers_from (i + 1) n'; mret (q :: qs)
  end.
Definition band_of (n : nat) : M (list nat) := peers_from 1 n.

Definition from_conn (i : Z) (ct : byte) (cid : Z) : M () := forwards band1 (Conn i) (typed band1 ct cid).
Definition route_is (key : PeerKey) (want : option Z) : M () := x ← asks (route_of band1 key); expect x want.

Definition route_frame_is_consumed_and_recorded : bool := passes_with big 0 (
  rx ← band_of 3;
  from_conn 1 ROUTE 7;;
  route_is (Conn 1) (Some 7%Z);; route_is (Conn 2) None;;
  gets rx [0; 0; 0]).

Definition fed_len (r : Registry) : option nat := length <$> fed r.

Definition route_frame_is_not_federated : bool := passes_with big 0 (
  on_reg set_federation;;
  _ ← band_of 2;
  from_conn 1 ROUTE 7;;
  n ← asks fed_len; expect n (Some 0);;
  from_conn 1 ADDRESSED 0;;
  n ← asks fed_len; expect n (Some 1)).

Definition addressed_frame_reaches_only_declarers : bool := passes_with big 0 (
  rx ← band_of 4;
  from_conn 1 ROUTE 7;; from_conn 2 ROUTE 9;; from_conn 3 ROUTE 7;;
  from_conn 4 ADDRESSED 7;;
  gets rx [1; 0; 1; 0];;
  from_conn 4 ADDRESSED 9;;
  gets rx [0; 1; 0; 0]).

Definition library_channel_ids_are_never_addressed : bool := passes_with big 0 (
  rx ← band_of 3;
  from_conn 1 ROUTE 7;; from_conn 3 CHANNEL 7;;
  gets rx [1; 1; 0]).

Definition undeclared_or_zero_or_non_addressed_broadcasts : bool := passes_with big 0 (
  rx ← band_of 3;
  from_conn 1 ROUTE 7;;
  for_each [(ADDRESSED, 0%Z); (ADDRESSED, 42%Z); (Byte.x00, 7%Z); (Byte.x01, 7%Z); (CHANNEL, 7%Z); (Byte.x03, 7%Z); (Byte.x04, 7%Z); (Byte.x7f, 7%Z)]
    (λ f, from_conn 3 f.1 f.2;; gets rx [1; 1; 0])).

Definition addressed_never_echoes_and_sole_self_declarer_falls_back : bool := passes_with big 0 (
  rx ← band_of 3;
  from_conn 1 ROUTE 7;; from_conn 1 ADDRESSED 7;;
  gets rx [0; 1; 1];;
  from_conn 2 ROUTE 7;; from_conn 1 ADDRESSED 7;;
  gets rx [0; 1; 0]).

Definition unvalidated_declarer_is_inert : bool := passes_with big 0 (
  let addr := local 6200 in
  u ← udp 8;
  there ← observe_once band1 addr u true;
  forwards band1 (Udp addr) (typed band1 ROUTE 7);;
  route_is (Udp addr) (Some 7%Z);;
  rx ← band_of 2;
  let rx1 := default 0 (rx !! 1) in
  from_conn 1 ADDRESSED 7;;
  gets [rx1] [1];;
  _ ← observe_once band1 addr u there;
  from_conn 1 ADDRESSED 7;;
  gets [u; rx1] [1; 0]).

Definition spoofed_declaration_cannot_black_hole_an_id : bool := passes_with big 0 (
  rx ← band_of 2;
  let rx0 := default 0 (rx !! 0) in
  from_conn 1 ROUTE 7;;
  let spoof := mkAddr "198.51.100.7" 4000 in
  s ← udp 8;
  there ← observe_once band1 spoof s true;
  forwards band1 (Udp spoof) (typed band1 ROUTE 7);;
  from_conn 2 ADDRESSED 7;;
  gets [rx0] [1];;
  from_conn 1 ROUTE 0;; from_conn 2 ADDRESSED 7;;
  gets [rx0] [1];;
  from_conn 1 ROUTE 7;;
  _ ← observe_once band1 spoof s there;
  from_conn 2 ADDRESSED 7;;
  gets [rx0; s] [1; 1]).

Definition redeclare_replaces_and_zero_clears : bool := passes_with big 0 (
  rx ← band_of 3;
  from_conn 1 ROUTE 7;; from_conn 1 ROUTE 8;;
  route_is (Conn 1) (Some 8%Z);;
  from_conn 3 ADDRESSED 7;;
  gets rx [1; 1; 0];;
  from_conn 1 ROUTE 0;;
  route_is (Conn 1) None).

Definition route_forgotten_on_disconnect_and_prune : bool := passes_with validate_one 0 (
  rx ← band_of 3;
  let rx1 := default 0 (rx !! 1) in
  from_conn 1 ROUTE 7;;
  on_reg (disconnect band1 (Conn 1));;
  from_conn 3 ADDRESSED 7;;
  gets [rx1] [1];;
  let addr := local 6201 in
  observe_new band1 addr;;
  forwards band1 (Udp addr) (typed band1 ROUTE 9);;
  sleep 20;;
  (λ w, on_reg (touch band1 (Conn 2) (w_now w)) w);;
  _ ← prunes 5;
  a ← asks (contains band1 (Udp addr)); expect a false;;
  from_conn 3 ADDRESSED 9;;
  gets [rx1] [1]).

Definition routes_are_band_scoped : bool := passes_with big 0 (
  q1 ← conn 8; q2 ← conn 8; q3 ← conn 8;
  connect_ok band1 1 q1;; connect_ok band2 2 q2;; connect_ok band2 3 q3;;
  from_conn 1 ROUTE 7;;
  forwards band2 (Conn 3) (typed band2 ADDRESSED 7);;
  gets [q1; q2; q3] [0; 1; 0]).

Definition link_injection_honours_local_routes : bool := passes_with big 0 (
  rx ← band_of 3;
  from_conn 2 ROUTE 7;;
  injects band1 (typed band1 ADDRESSED 7);; gets rx [0; 1; 0];;
  injects band1 (typed band1 CHANNEL 7);; gets rx [1; 1; 1];;
  injects band1 (typed band1 ADDRESSED 0);; gets rx [1; 1; 1];;
  injects band1 (typed band1 ROUTE 7);; gets rx [0; 0; 0]).

Definition nat_rebind_moves_the_route_to_the_new_mapping : bool := passes_with big 0 (
  let old := mkAddr "203.0.113.5" 7000 in
  let new := mkAddr "203.0.113.5" 7001 in
  o ← validated_udp band1 old;
  forwards band1 (Udp old) (typed band1 ROUTE 7);;
  rx ← band_of 1;
  sleep 5;;
  n ← udp 64;
  there ← observe_once band1 new n true;
  forwards band1 (Udp new) (typed band1 ROUTE 7);;
  route_is (Udp old) (Some 7%Z);;
  _ ← observe_once band1 new n there;
  route_is (Udp old) None;;
  from_conn 1 ADDRESSED 7;;
  gets (o :: n :: rx) [0; 1; 0]).

Definition live_peers_behind_one_nat_keep_sharing_an_id : bool := passes_with big 0 (
  let a := mkAddr "203.0.113.6" 7000 in
  let b := mkAddr "203.0.113.6" 7001 in
  let c := mkAddr "203.0.113.7" 7001 in
  qa ← validated_udp band1 a;
  forwards band1 (Udp a) (typed band1 ROUTE 7);;
  sleep 5;;
  qb ← udp 64;
  there ← observe_once band1 b qb true;
  sleep 2;;
  _ ← observe_once band1 a qa false;
  _ ← observe_once band1 b qb there;
  forwards band1 (Udp b) (typed band1 ROUTE 7);;
  route_is (Udp a) (Some 7%Z);;
  sleep 5;;
  qc ← validated_udp band1 c;
  forwards band1 (Udp c) (typed band1 ROUTE 7);;
  route_is (Udp a) (Some 7%Z);;
  rx ← band_of 1;
  from_conn 1 ADDRESSED 7;;
  gets (qa :: qb :: qc :: rx) [1; 1; 1; 0]).

Definition routing_tests : list bool :=
  [route_frame_is_consumed_and_recorded; route_frame_is_not_federated; addressed_frame_reaches_only_declarers;
   library_channel_ids_are_never_addressed; undeclared_or_zero_or_non_addressed_broadcasts;
   addressed_never_echoes_and_sole_self_declarer_falls_back; unvalidated_declarer_is_inert; spoofed_declaration_cannot_black_hole_an_id;
   redeclare_replaces_and_zero_clears; route_forgotten_on_disconnect_and_prune; routes_are_band_scoped;
   link_injection_honours_local_routes; nat_rebind_moves_the_route_to_the_new_mapping; live_peers_behind_one_nat_keep_sharing_an_id].

Lemma routing_tests_pass : Forall (eq true) routing_tests.
Proof. vm_compute. repeat constructor. Qed.

(** * Queues and the budget *)

Definition udp_peer_queues_are_independent : bool := passes_with validate_one 0 (
  qa ← udp 2; qb ← udp 64;
  _ ← observe_once band1 (local 6300) qa true;
  _ ← observe_once band1 (local 6301) qb true;
  repeats 50 (forwards band1 (Conn 99) (frame band1));;
  gets [qa; qb] [2; 50]).

(** A factory that counts: the queue numbers taken are the sinks built. *)
Definition built_by (addr : SocketAddr) : M (result () RegError * nat) :=
  '(e, built) ← observes band1 addr (λ s, let '(s, tx) := new_queue 2 false true s in (s, SinkUdp tx addr));
  mret (e, if built : bool then 1 else 0).

Definition observe_udp_builds_sink_only_on_validation : bool := passes_with (mkLimits 1024 1 2) 0 (
  let a := local 6400 in
  '(e1, n1) ← built_by a; check (is_ok e1);;
  x ← asks (is_eligible band1 (Udp a)); check (if decide (x = Some false) then bool_decide (n1 = 0) else true);;
  '(e2, n2) ← built_by a; check (is_ok e2);;
  x ← asks (is_eligible band1 (Udp a)); check (if decide (x = Some false) then bool_decide (n1 + n2 = 0) else true);;
  '(e3, n3) ← built_by a; check (is_ok e3);;
  x ← asks (is_eligible band1 (Udp a)); check (if decide (x = Some false) then bool_decide (n1 + n2 + n3 = 0) else true);;
  expect (n1 + n2 + n3) 1;;
  '(e4, n4) ← built_by (local 6401);
  check (match e4 with Err PeerCap => true | _ => false end);;
  expect (n1 + n2 + n3 + n4) 1).

Definition udp_byte_budget_is_hub_wide : bool := passes_with validate_one (43 * 3) (
  qa ← udp 64; qb ← udp 64; qc ← conn 64;
  _ ← observe_once band1 (local 6500) qa true;
  _ ← observe_once band1 (local 6501) qb true;
  connect_ok band1 1 qc;;
  repeats 4 (forwards band1 (Conn 99) (frame band1));;
  na ← drain_count qa; nb ← drain_count qb; expect (na + nb) 3;;
  nc ← drain_count qc; expect nc 4;;
  on_store (λ s, (mkStore (queues s) (next_queue s) (release (43 * 3) (budget s)), ()));;
  forwards band1 (Conn 99) (frame band1);;
  na ← drain_count qa; nb ← drain_count qb; expect (na + nb) 2;;
  n ← on_store (λ s, (s, used (budget s))); expect n 86%Z).

Definition try_send (tx : nat) (addr : SocketAddr) (f : bytes) : M (option SendDrop) := on_store (sink_try_send (SinkUdp tx addr) f).
Definition reserves (n : Z) : M bool :=
  on_store (λ s, match try_reserve n (budget s) with Some b => (mkStore (queues s) (next_queue s) b, true) | None => (s, false) end).

Definition byte_budget_refunds_refused_frames : bool := passes_with big 100 (
  q ← udp 1;
  let f := replicate 43 Byte.x00 in
  a ← try_send q (local 6502) f; check (match a with None => true | _ => false end);;
  b ← try_send q (local 6502) f; check (match b with Some Full => true | _ => false end);;
  n ← on_store (λ s, (s, used (budget s))); expect n 43%Z;;
  x ← reserves 57; y ← reserves 1; check (x && negb y);;
  check (bool_decide (is_Some (try_reserve (u64_max / 2) ByteBudget_unlimited)))).

Definition conn_ids_are_unique : bool := passes_with big 0 (
  λ w, let '(r, a) := next_conn_id (w_reg w) in let '(r, b) := next_conn_id r in check (bool_decide (a ≠ b)) w).

Definition queue_tests : list bool :=
  [udp_peer_queues_are_independent; observe_udp_builds_sink_only_on_validation; udp_byte_budget_is_hub_wide;
   byte_budget_refunds_refused_frames; conn_ids_are_unique].

Lemma queue_tests_pass : Forall (eq true) queue_tests.
Proof. vm_compute. repeat constructor. Qed.
