(* ===== verification/Oblivious.v ===== *)
(** What the hub can tell about the packets it relays
    ([rust/telesthitium/src/registry.rs] and the transports around it): frames that
    agree in their routing fields and in their length are indistinguishable to it. Two
    runs on such frames stay indistinguishable in every table, counter and queue. *)

From S2P Require Import Prelude Crypto Framing HubFrame Registry.
From Stdlib Require Import Setoid Morphisms.

(** * Indistinguishable states *)

(** Frames with one cover: all the hub reads of them, and how long they are. *)
Definition same_cover (x y : bytes) : Prop := route_info x = route_info y ∧ length x = length y.

#[export] Instance same_cover_equiv : Equivalence same_cover.
Proof. split; [by split|by intros x y []|intros x y z [? ?] [? ?]; split; congruence]. Qed.

Record queue_sim (q1 q2 : Queue) : Prop := {
  qs_items : Forall2 same_cover (q_items q1) (q_items q2);
  qs_cap : q_cap q1 = q_cap q2;
  qs_open : q_open q1 = q_open q2;
  qs_udp : q_udp q1 = q_udp q2;
}.

Record store_sim (s1 s2 : Store) : Prop := {
  ss_queues : ∀ tx, option_Forall2 queue_sim (queues s1 !! tx) (queues s2 !! tx);
  ss_next : next_queue s1 = next_queue s2;
  ss_budget : budget s1 = budget s2;
}.

Definition federated_sim (x y : bytes * bytes) : Prop := x.1 = y.1 ∧ same_cover x.2 y.2.

Record reg_sim (r1 r2 : Registry) : Prop := {
  rs_bands : bands r1 = bands r2;
  rs_limits : limits r1 = limits r2;
  rs_next : next_conn r1 = next_conn r2;
  rs_fed : option_Forall2 (Forall2 federated_sim) (fed r1) (fed r2);
}.

Record hub_sim (h1 h2 : HubState) : Prop := {
  hs_reg : reg_sim (hub_reg h1) (hub_reg h2);
  hs_store : store_sim (hub_store h1) (hub_store h2);
  hs_conns : hub_conns h1 = hub_conns h2;
}.

(** Events that differ only in what their frames seal. *)
Definition frameless (e : hub_event) : Prop :=
  match e with HDatagram _ _ | HWsMessage _ _ | HFrame _ _ | HLate _ _ _ | HInject _ _ => False | _ => True end.

Inductive event_sim : hub_event → hub_event → Prop :=
| SimDatagram src d1 d2 : same_cover d1 d2 → event_sim (HDatagram src d1) (HDatagram src d2)
| SimWsMessage c d1 d2 : same_cover d1 d2 → event_sim (HWsMessage c d1) (HWsMessage c d2)
| SimFrame c d1 d2 : same_cover d1 d2 → event_sim (HFrame c d1) (HFrame c d2)
| SimLate band id d1 d2 : same_cover d1 d2 → event_sim (HLate band id d1) (HLate band id d2)
| SimInject band d1 d2 : same_cover d1 d2 → event_sim (HInject band d1) (HInject band d2)
| SimSame e : frameless e → event_sim e e.

(** Results of a send. *)
Definition send_sim (x y : result Store SendDrop) : Prop :=
  match x, y with Ok s1, Ok s2 => store_sim s1 s2 | Err e1, Err e2 => e1 = e2 | _, _ => False end.

Abbreviation pair_sim := (prod_relation reg_sim store_sim).

#[export] Instance queue_sim_refl : Reflexive queue_sim.
Proof. intros q. split; [|done..]. reflexivity. Qed.

#[export] Instance store_sim_refl : Reflexive store_sim.
Proof. intros s. split; [|done..]. intros tx. by destruct (queues s !! tx); constructor. Qed.

#[export] Instance federated_sim_refl : Reflexive federated_sim.
Proof. intros x. by split. Qed.

#[export] Instance reg_sim_refl : Reflexive reg_sim.
Proof. intros r. split; [done..|]. destruct (fed r); constructor. reflexivity. Qed.

#[export] Instance hub_sim_refl : Reflexive hub_sim.
Proof. intros h. by split. Qed.

(** * Every operation respects the cover *)

(** Related tuples, part by part. *)
Ltac pairs := repeat match goal with |- prod_relation _ _ _ _ => split end; cbn; try done.

(** Equal parts of two indistinguishable records become one. *)
Ltac unfold_sims :=
  repeat match goal with
  | H : queue_sim ?q1 ?q2 |- _ => destruct q1, q2, H; cbn in *
  | H : store_sim ?s1 ?s2 |- _ => destruct s1, s2, H; cbn in *
  | H : reg_sim ?r1 ?r2 |- _ => destruct r1, r2, H; cbn in *
  end; subst.

Lemma store_sim_insert tx q1 q2 m1 m2 n b :
  (∀ tx, option_Forall2 queue_sim (m1 !! tx) (m2 !! tx)) → queue_sim q1 q2 →
  store_sim (mkStore (<[tx := q1]> m1) n b) (mkStore (<[tx := q2]> m2) n b).
Proof.
  intros Hm Hq. split; [|done..]. intros tx'. cbn. destruct (decide (tx = tx')) as [->|Hne].
  - rewrite !lookup_insert_eq. by constructor.
  - by rewrite !lookup_insert_ne.
Qed.

#[export] Instance queue_try_send_sim tx : Proper (same_cover ==> store_sim ==> send_sim) (queue_try_send tx).
Proof.
  intros x y Hc s1 s2 Hs. unfold queue_try_send. pose proof (ss_queues _ _ Hs tx) as Hq.
  destruct (queues s1 !! tx) as [q1|], (queues s2 !! tx) as [q2|]; inversion Hq as [? ? Hqq|]; subst; [|done].
  destruct Hqq as [Hi Hcap Hop Hu]. rewrite Hop, Hcap, (Forall2_length _ _ _ Hi). destruct (q_open q2); cbn; [|done].
  case_decide; [done|]. cbn. rewrite (ss_next _ _ Hs), (ss_budget _ _ Hs). apply store_sim_insert; [apply Hs|].
  split; cbn; [|done..]. apply Forall2_app; [done|]. by constructor.
Qed.

Lemma cover_len x y : same_cover x y → len x = len y.
Proof. intros [_ H]. unfold len. by rewrite H. Qed.

#[export] Instance sink_try_send_sim sink : Proper (same_cover ==> store_sim ==> prod_relation store_sim eq) (sink_try_send sink).
Proof.
  intros x y Hc s1 s2 Hs. destruct sink as [tx addr|tx]; cbn.
  - rewrite (cover_len _ _ Hc), (ss_budget _ _ Hs). destruct (try_reserve _ _) as [b|]; [|by split].
    assert (Hs' : store_sim (mkStore (queues s1) (next_queue s1) b) (mkStore (queues s2) (next_queue s2) b)) by (destruct Hs; by split).
    pose proof (queue_try_send_sim tx x y Hc _ _ Hs') as H. unfold send_sim in H.
    destruct (queue_try_send _ _ _), (queue_try_send _ _ _); try done; split; cbn; try done; [|by subst]. destruct Hs; by split.
  - pose proof (queue_try_send_sim tx x y Hc _ _ Hs) as H. unfold send_sim in H.
    destruct (queue_try_send _ _ _), (queue_try_send _ _ _); try done; split; cbn; try done. by subst.
Qed.

#[export] Instance send_all_sim sinks : Proper (same_cover ==> store_sim ==> store_sim) (send_all sinks).
Proof.
  intros x y Hc. induction sinks as [|k sinks IH]; intros s1 s2 Hs; cbn; [done|]. apply IH. by apply sink_try_send_sim.
Qed.

#[export] Instance federate_sim band : Proper (same_cover ==> reg_sim ==> reg_sim) (federate band).
Proof.
  intros x y Hc r1 r2 Hr. unfold federate. unfold_sims. inversion rs_fed0 as [f1 f2 Hf|]; subst; [|by split].
  rewrite (Forall2_length _ _ _ Hf). case_decide; [by split|]. split; [done..|]. cbn. constructor. apply Forall2_app; [done|]. by constructor.
Qed.

Lemma with_bands_sim bs r1 r2 : reg_sim r1 r2 → reg_sim (with_bands bs r1) (with_bands bs r2).
Proof. intros []. by split. Qed.

Section Sim.
Context {po : PeerOrder}.

#[export] Instance forward_sim band from : Proper (same_cover ==> reg_sim ==> store_sim ==> pair_sim) (forward band from).
Proof.
  intros x y Hc r1 r2 Hr s1 s2 Hs. unfold forward. rewrite <- (proj1 Hc). destruct (route_info x) as [info|]; [|by split].
  rewrite <- (rs_bands _ _ Hr). destruct (bands r1 !! band) as [peers|]; [|by split]. case_decide; split; cbn.
  - by apply with_bands_sim.
  - done.
  - by apply federate_sim.
  - by apply send_all_sim.
Qed.

#[export] Instance inject_sim band : Proper (same_cover ==> reg_sim ==> store_sim ==> store_sim) (inject_from_link band).
Proof.
  intros x y Hc r1 r2 Hr s1 s2 Hs. unfold inject_from_link. rewrite <- (proj1 Hc). destruct (route_info x) as [info|]; [|done].
  case_decide; [done|]. rewrite <- (rs_bands _ _ Hr). destruct (bands r1 !! band); [|done]. by apply send_all_sim.
Qed.

#[export] Instance touch_sim band key now : Proper (reg_sim ==> reg_sim) (touch band key now).
Proof.
  intros r1 r2 Hr. unfold touch. rewrite <- (rs_bands _ _ Hr). destruct (_ ≫= _) as [[peers p]|]; [|done]. by apply with_bands_sim.
Qed.

(** A sink made for a peer. *)
Definition makes_sim (m : Store → Store * Sink) : Prop := Proper (store_sim ==> prod_relation store_sim eq) m.

Lemma peer_sink_sim addr depth : makes_sim (peer_sink addr depth).
Proof.
  intros s1 s2 Hs. unfold peer_sink. rewrite (ss_next _ _ Hs), (ss_budget _ _ Hs). split; [|done]. cbn. apply store_sim_insert; [apply Hs|].
  reflexivity.
Qed.

Abbreviation insert_sim := (prod_relation (prod_relation reg_sim store_sim) eq).

Lemma registry_insert_sim band key m conn now r1 r2 s1 s2 :
  makes_sim m → reg_sim r1 r2 → store_sim s1 s2 →
  insert_sim (registry_insert band key m conn now r1 s1) (registry_insert band key m conn now r2 s2).
Proof.
  intros Hm Hr Hs. unfold registry_insert. rewrite <- (rs_bands _ _ Hr), <- (rs_limits _ _ Hr).
  destruct (_ && _); [by split|]. case_decide; [by split|].
  destruct (conn || _).
  - destruct (m s1) as [s1' k1] eqn:E1, (m s2) as [s2' k2] eqn:E2. pose proof (Hm _ _ Hs) as Hk. rewrite E1, E2 in Hk. destruct Hk as [Hk Ek]. cbn in Hk, Ek. subst k2.
    split; [|done]. split; [by apply with_bands_sim|done].
  - split; [|done]. split; [by apply with_bands_sim|done].
Qed.

Lemma observe_udp_sim band addr m now r1 r2 s1 s2 :
  makes_sim m → reg_sim r1 r2 → store_sim s1 s2 →
  insert_sim (observe_udp band addr m now r1 s1) (observe_udp band addr m now r2 s2).
Proof.
  intros Hm Hr Hs. unfold observe_udp. rewrite <- (rs_bands _ _ Hr), <- (rs_limits _ _ Hr).
  destruct (_ ≫= _) as [[peers p]|]; [|by apply registry_insert_sim]. destruct (_ && _).
  - destruct (m s1) as [s1' k1] eqn:E1, (m s2) as [s2' k2] eqn:E2. pose proof (Hm _ _ Hs) as Hk. rewrite E1, E2 in Hk. destruct Hk as [Hk Ek]. cbn in Hk, Ek. subst k2.
    split; [|done]. split; [by apply with_bands_sim|done].
  - split; [|done]. split; [by apply with_bands_sim|done].
Qed.

#[export] Instance udp_datagram_sim depth src : Proper (same_cover ==> eq ==> reg_sim ==> store_sim ==> pair_sim) (udp_datagram depth src).
Proof.
  intros x y Hc now _ <- r1 r2 Hr s1 s2 Hs. unfold udp_datagram. rewrite <- (proj1 Hc). destruct (route_info x) as [info|]; [|by split].
  pose proof (observe_udp_sim (ri_band_id info) src (peer_sink src (Nat.max depth 64)) now _ _ _ _ (peer_sink_sim _ _) Hr Hs) as H.
  destruct (observe_udp _ _ _ _ r1 s1) as [[r1' s1'] e1], (observe_udp _ _ _ _ r2 s2) as [[r2' s2'] e2]. destruct H as [[H1 H2] H3]. cbn in *. subst.
  destruct e2; [by apply forward_sim|by split].
Qed.

#[export] Instance pinned_frame_sim band key : Proper (same_cover ==> eq ==> reg_sim ==> store_sim ==> pair_sim) (pinned_frame band key).
Proof.
  intros x y Hc now _ <- r1 r2 Hr s1 s2 Hs. unfold pinned_frame. rewrite <- (proj1 Hc). destruct (route_info x) as [info|]; [|by split].
  case_decide; [|by split]. apply forward_sim; [done|by apply touch_sim|done].
Qed.
End Sim.

(** * Connections and writers *)

#[export] Instance disconnect_sim band key : Proper (reg_sim ==> reg_sim) (disconnect band key).
Proof.
  intros r1 r2 Hr. unfold disconnect. rewrite <- (rs_bands _ _ Hr). destruct (bands r1 !! band); [|done]. by apply with_bands_sim.
Qed.

#[export] Instance conn_drop_sim tx : Proper (store_sim ==> store_sim) (conn_drop tx).
Proof.
  intros s1 s2 Hs. unfold conn_drop. pose proof (ss_queues _ _ Hs tx) as Hq.
  destruct (queues s1 !! tx) as [q1|], (queues s2 !! tx) as [q2|]; inversion Hq as [? ? [_ Hcap _ Hu]|]; subst; [|done].
  rewrite Hu. destruct (q_udp q2); [done|]. rewrite (ss_next _ _ Hs), (ss_budget _ _ Hs), Hcap. apply store_sim_insert; [apply Hs|reflexivity].
Qed.

#[export] Instance conn_accept_sim depth : Proper (store_sim ==> prod_relation store_sim eq) (conn_accept depth).
Proof.
  intros s1 s2 Hs. unfold conn_accept. rewrite (ss_next _ _ Hs), (ss_budget _ _ Hs). split; [|done]. apply store_sim_insert; [apply Hs|reflexivity].
Qed.

(** A writer takes frames of one cover off. *)
Lemma peer_writer_sim tx s1 s2 :
  store_sim s1 s2 → store_sim (peer_writer tx s1).1 (peer_writer tx s2).1 ∧ option_Forall2 same_cover (peer_writer tx s1).2 (peer_writer tx s2).2.
Proof.
  intros Hs. unfold peer_writer. pose proof (ss_queues _ _ Hs tx) as Hq.
  destruct (queues s1 !! tx) as [q1|], (queues s2 !! tx) as [q2|]; inversion Hq as [? ? [Hi Hcap Hop Hu]|]; subst; [|split; [done|constructor]].
  destruct (q_items q1) as [|f1 l1], (q_items q2) as [|f2 l2]; inversion Hi as [|? ? ? ? Hc Hl]; subst; [split; [done|constructor]|]. rewrite Hcap, Hop, Hu, (cover_len _ _ Hc), (ss_next _ _ Hs), (ss_budget _ _ Hs).
  split; [|by constructor]. apply store_sim_insert; [apply Hs|by split].
Qed.

Lemma take_federated_sim r1 r2 :
  reg_sim r1 r2 → reg_sim (take_federated r1).1 (take_federated r2).1 ∧ option_Forall2 federated_sim (take_federated r1).2 (take_federated r2).2.
Proof.
  intros Hr. unfold take_federated. pose proof (rs_fed _ _ Hr) as Hf.
  destruct (fed r1) as [l1|], (fed r2) as [l2|]; inversion Hf as [? ? Hl|]; subst; [|split; [done|constructor]].
  inversion Hl as [|x1 x2 t1 t2 Hx Ht]; subst; [split; [done|constructor]|]. split; [|by constructor]. destruct Hr. split; try done. cbn. by constructor.
Qed.

Lemma next_conn_id_sim r1 r2 : reg_sim r1 r2 → reg_sim (next_conn_id r1).1 (next_conn_id r2).1 ∧ (next_conn_id r1).2 = (next_conn_id r2).2.
Proof. intros []. split; [|done]. split; cbn; congruence. Qed.

Lemma connect_sim band key sink now r1 r2 s1 s2 :
  reg_sim r1 r2 → store_sim s1 s2 →
  prod_relation (prod_relation reg_sim store_sim) eq (connect band key sink now r1 s1) (connect band key sink now r2 s2).
Proof. apply registry_insert_sim. intros t1 t2 Ht. by split. Qed.

Lemma conn_open_sim band tx now r1 r2 s1 s2 :
  reg_sim r1 r2 → store_sim s1 s2 → prod_relation (prod_relation reg_sim store_sim) eq (conn_open band tx now r1 s1) (conn_open band tx now r2 s2).
Proof.
  intros Hr Hs. unfold conn_open. destruct (next_conn_id_sim _ _ Hr) as [Hr' Hid].
  destruct (next_conn_id r1) as [r1' id1], (next_conn_id r2) as [r2' id2]. cbn in *. subst id2.
  pose proof (connect_sim band (Conn id1) (SinkConn tx) now _ _ _ _ Hr' Hs) as H.
  destruct (connect _ _ _ _ r1' s1) as [[r1'' s1'] e1], (connect _ _ _ _ r2' s2) as [[r2'' s2'] e2]. destruct H as [H He]. cbn in H, He. subst e2.
  by destruct e1; split.
Qed.

Section Step.
Context {po : PeerOrder}.

Lemma ws_message_sim x y now c r1 r2 s1 s2 :
  same_cover x y → reg_sim r1 r2 → store_sim s1 s2 →
  prod_relation (prod_relation pair_sim eq) eq (ws_message x now c r1 s1) (ws_message y now c r2 s2).
Proof.
  intros Hc Hr Hs. unfold ws_message. rewrite <- (proj1 Hc). destruct (route_info x) as [info|]; [|pairs].
  destruct (cs_registered c) as [[band k]|].
  - case_decide; [pairs|]. pose proof (forward_sim (ri_band_id info) k x y Hc _ _ (touch_sim band k now _ _ Hr) _ _ Hs) as Hf.
    destruct (forward _ _ x _ _), (forward _ _ y _ _). destruct Hf. pairs.
  - destruct (next_conn_id_sim _ _ Hr) as [Hr' Hid]. destruct (next_conn_id r1) as [r1' id1], (next_conn_id r2) as [r2' id2]. cbn in Hr', Hid. subst id2.
    pose proof (connect_sim (ri_band_id info) (Conn id1) (SinkConn (cs_queue c)) now _ _ _ _ Hr' Hs) as Hk.
    destruct (connect _ _ _ _ r1' s1) as [[r1'' s1'] e1], (connect _ _ _ _ r2' s2) as [[r2'' s2'] e2]. destruct Hk as [[Ha Hb] He]. cbn in Ha, Hb, He. subst e2.
    destruct e1; [|pairs]. pose proof (forward_sim (ri_band_id info) (Conn id1) x y Hc _ _ Ha _ _ Hb) as Hf.
    destruct (forward _ _ x _ _), (forward _ _ y _ _). destruct Hf. pairs.
Qed.

(** ** A step and a run *)

(** What leaves the hub: a frame off a peer's queue, or off the egress channel. *)
Definition emission (e : hub_event) (h : HubState) : option (option nat * bytes) :=
  match e with
  | HWrite tx => (Some tx,.) <$> (peer_writer tx (hub_store h)).2
  | HFederate => (λ x, (None, x.2)) <$> (take_federated (hub_reg h)).2
  | _ => None
  end.

Fixpoint emissions (cfg : HubConfig) (es : list (Z * hub_event)) (h : HubState) : list (option (option nat * bytes)) :=
  match es with
  | [] => []
  | (now, e) :: es' => emission e h :: emissions cfg es' (hub_step cfg now e h)
  end.

Definition emission_sim (x y : option nat * bytes) : Prop := x.1 = y.1 ∧ same_cover x.2 y.2.

Lemma emission_step e1 e2 h1 h2 : event_sim e1 e2 → hub_sim h1 h2 → option_Forall2 emission_sim (emission e1 h1) (emission e2 h2).
Proof.
  intros He [Hr Hs _]. destruct He as [| | | | |e]; try constructor. destruct e; try constructor; cbn.
  - destruct (peer_writer_sim tx _ _ Hs) as [_ Ho]. destruct (peer_writer tx (hub_store h1)).2, (peer_writer tx (hub_store h2)).2; inversion Ho; by constructor.
  - destruct (take_federated_sim _ _ Hr) as [_ Ho]. destruct (take_federated (hub_reg h1)).2, (take_federated (hub_reg h2)).2; inversion Ho as [? ? []|]; by constructor.
Qed.

Lemma leave_sim c cs h1 h2 : hub_sim h1 h2 → hub_sim (hub_leave c cs h1) (hub_leave c cs h2).
Proof.
  intros [Hr Hs Hc]. split; cbn; [|done|by rewrite Hc]. destruct (cs_registered cs) as [[band key]|]; [by apply disconnect_sim|done].
Qed.

Lemma prune_sim now ttl r1 r2 : reg_sim r1 r2 → reg_sim (prune now ttl r1).1 (prune now ttl r2).1.
Proof. intros Hr. unfold prune. rewrite <- (rs_bands _ _ Hr). by apply with_bands_sim. Qed.

Lemma hub_of_pair x y c1 c2 : pair_sim x y → c1 = c2 → hub_sim (let '(r, s) := x in mkHubState r s c1) (let '(r, s) := y in mkHubState r s c2).
Proof. destruct x, y. intros [H1 H2] ->. by split. Qed.

Lemma hub_step_sim cfg now e1 e2 h1 h2 : event_sim e1 e2 → hub_sim h1 h2 → hub_sim (hub_step cfg now e1 h1) (hub_step cfg now e2 h2).
Proof.
  intros He Hh. pose proof Hh as [Hr Hs Hc]. destruct He as [src x y Hx|c x y Hx|c x y Hx|band id x y Hx|band x y Hx|e He]; cbn [hub_step].
  - apply hub_of_pair; [by apply udp_datagram_sim|done].
  - rewrite <- Hc. destruct (hub_conns h1 !! c) as [cs|]; [|done]. pose proof (ws_message_sim x y now cs _ _ _ _ Hx Hr Hs) as H.
    destruct (ws_message x _ _ _ _) as [[[r1 s1] c1] a1], (ws_message y _ _ _ _) as [[[r2 s2] c2] a2]. destruct H as [[[H1 H2] H3] H4]. cbn in *. subst.
    destruct a2; [by split|]. by apply leave_sim.
  - rewrite <- Hc. destruct (hub_conns h1 !! c) as [[q [[band key]|]]|]; [|done..]. apply hub_of_pair; [by apply pinned_frame_sim|done].
  - apply hub_of_pair; [by apply pinned_frame_sim|done].
  - split; [done|by apply inject_sim|done].
  - destruct e as [| | |band| |c|c|tx| |tx|ttl| |]; try done; cbn [hub_step]; rewrite <- ?Hc.
    + pose proof (conn_accept_sim (hc_conn_queue cfg) _ _ Hs) as H. destruct (conn_accept _ (hub_store h1)), (conn_accept _ (hub_store h2)).
      destruct H as [H E]. cbn in H, E. subst. by split.
    + pose proof (conn_accept_sim (hc_conn_queue cfg) _ _ Hs) as H. destruct (conn_accept _ (hub_store h1)) as [s1 c1], (conn_accept _ (hub_store h2)) as [s2 c2].
      destruct H as [H E]. cbn in H, E. subst c2. pose proof (conn_open_sim band c1 now _ _ _ _ Hr H) as Ho.
      destruct (conn_open _ _ _ (hub_reg h1) s1) as [[r1 s1'] o1], (conn_open _ _ _ (hub_reg h2) s2) as [[r2 s2'] o2]. destruct Ho as [[H1 H2] E]. cbn in H1, H2, E.
      subst o2. destruct o1; split; try done. by apply conn_drop_sim.
    + destruct (hub_conns h1 !! c) as [cs|]; [|done]. unfold hub_close, conn_close. split; cbn; [|by apply conn_drop_sim|by rewrite Hc].
      destruct (cs_registered cs) as [[band key]|]; [by apply disconnect_sim|done].
    + destruct (hub_conns h1 !! c); [|done]. by apply leave_sim.
    + split; [done|by apply conn_drop_sim|done].
    + split; [done|by apply peer_writer_sim|done].
    + split; [by apply prune_sim|done..].
    + split; [by apply take_federated_sim|done..].
Qed.
End Step.

(** What a peer seals shows in the length alone. *)
Lemma sealed_same_cover {crates : Crates} {spec : CratesSpec} suite1 suite2 key1 key2 band ct cid seq1 seq2 pt1 pt2 x y :
  Header_wf (mkHeader band ct cid seq1) → Header_wf (mkHeader band ct cid seq2) → length pt1 = length pt2 →
  encode_packet_suite suite1 key1 band ct cid seq1 pt1 = Ret (Ok x) → encode_packet_suite suite2 key2 band ct cid seq2 pt2 = Ret (Ok y) →
  same_cover x y.
Proof.
  intros W1 W2 Hl E1 E2. apply sealed_route_info in E1 as [R1 L1]; [|done]. apply sealed_route_info in E2 as [R2 L2]; [|done]. split; congruence.
Qed.

(** ** Properties *)

(** C14: the hub learns nothing from what it relays. Take two runs of a hub that differ
    only in the contents of the frames that arrive, with the same routing fields and
    lengths; packets sealed for one channel with plaintexts of one length are such
    frames, whatever the plaintexts, keys, suites and sequence numbers. Then bands,
    peers, routes, connections, budget and the depth and covers of every queue stay
    the same, and at every moment a frame leaves the one hub just when one of that
    cover leaves the other by the same queue. *)
Theorem hub_oblivious {crates : Crates} {spec : CratesSpec} {po : PeerOrder} (cfg : HubConfig) (l : Limits) (queue_bytes : Z) (federated : bool)
    (es1 es2 : list (Z * hub_event)) :
  Forall2 (λ a b, a.1 = b.1 ∧ event_sim a.2 b.2) es1 es2 →
  let h := HubState_new l queue_bytes federated in
  hub_sim (hub_run cfg es1 h) (hub_run cfg es2 h)
  ∧ Forall2 (option_Forall2 emission_sim) (emissions cfg es1 h) (emissions cfg es2 h)
  ∧ ∀ suite1 suite2 key1 key2 band ct cid seq1 seq2 pt1 pt2 x y,
      Header_wf (mkHeader band ct cid seq1) → Header_wf (mkHeader band ct cid seq2) → length pt1 = length pt2 →
      encode_packet_suite suite1 key1 band ct cid seq1 pt1 = Ret (Ok x) → encode_packet_suite suite2 key2 band ct cid seq2 pt2 = Ret (Ok y) →
      ∀ src, event_sim (HDatagram src x) (HDatagram src y).
Proof.
  intros Hes h.
  assert (Hrun : ∀ h1 h2, hub_sim h1 h2 → hub_sim (hub_run cfg es1 h1) (hub_run cfg es2 h2)
    ∧ Forall2 (option_Forall2 emission_sim) (emissions cfg es1 h1) (emissions cfg es2 h2)).
  { induction Hes as [|[t1 e1] [t2 e2] es1 es2 [Ht He] _ IH]; intros h1 h2 Hh; cbn [hub_run emissions]; [by split|].
    cbn in Ht, He. subst t2. destruct (IH _ _ (hub_step_sim cfg t1 e1 e2 h1 h2 He Hh)) as [H1 H2]. split; [done|].
    constructor; [by apply emission_step|done]. }
  destruct (Hrun h h) as [H1 H2]; [reflexivity|]. split_and!; [done..|]. intros * W1 W2 Hl E1 E2 src. constructor. exact (sealed_same_cover _ _ _ _ _ _ _ _ _ _ _ _ _ W1 W2 Hl E1 E2).
Qed.

(** Two peers, one of them sending a five byte message. *)
Definition oblivious_run (pkt : bytes) : list (Z * hub_event) :=
  let hello := sample_frame (replicate 16 Byte.x07) Route 7 in
  [(0, HDatagram (sample_addr 1) hello); (1, HDatagram (sample_addr 1) hello); (2, HDatagram (sample_addr 2) hello);
   (3, HDatagram (sample_addr 1) pkt); (4, HDatagram (sample_addr 2) pkt); (5, HWrite 0); (6, HWrite 1); (7, HPrune 9)]%Z.

Definition sealed_sample (suite : Suite) (msg : string) : bytes :=
  match @encode_packet_suite sample_crates suite sample_key (replicate 16 Byte.x07) Stream 48879 3 (str_bytes msg) with
  | Ret (Ok p) => p
  | _ => []
  end.

Lemma hub_oblivious_witness :
  let run m s := @hub_run sample_order (mkHubConfig 64 64) (oblivious_run (sealed_sample s m)) (HubState_new sample_limits 1000 true) in
  sealed_sample Aes256Gcm "hello" ≠ sealed_sample ChaCha20Poly1305 "world"
  ∧ hub_sim (run "hello" Aes256Gcm) (run "world" ChaCha20Poly1305)
  ∧ is_Some (@emission (HWrite 0) (@hub_run sample_order (mkHubConfig 64 64) (take 5 (oblivious_run (sealed_sample Aes256Gcm "hello"))) (HubState_new sample_limits 1000 true))).
Proof.
  cbv zeta. split_and!; [by vm_compute| |by vm_compute; eexists].
  apply (@hub_oblivious sample_crates sample_crates_spec sample_order (mkHubConfig 64 64) sample_limits 1000 true).
  assert (Hc : same_cover (sealed_sample Aes256Gcm "hello") (sealed_sample ChaCha20Poly1305 "world")) by (split; by vm_compute).
  repeat (constructor; [split; [done|by constructor]|]). constructor.
Defined.
