(* ===== verification/HubNet.v ===== *)
(** Two Bands behind a hub ([rust/telesthete/src/band.rs] against
    [rust/telesthitium/src/registry.rs] and [udp.rs]): for the two peers of a band the hub
    is a duplex FIFO link, and a Stream opened through it delivers what it relays. *)

From S2P Require Import Prelude Crypto Framing HubFrame Fragment Channel Board Drop Transport Control Band BandNet Registry Oblivious.

(** * The hub as a link *)

(** A band of two validated UDP peers with the frames [fx] and [fy] waiting for them in
    queues of depth [cx] and [cy]; [u0] bytes of the budget are held by others. *)
Record link (band : bytes) (x y : SocketAddr) (tx ty cx cy : nat) (u0 : Z) (lim : Z) (fx fy : list bytes) (h : HubState) : Prop := {
  lk_peers : ∃ px py, bands (hub_reg h) !! band = Some {[Udp x := px; Udp y := py]}
    ∧ p_eligible px = true ∧ p_sink px = Some (SinkUdp tx x) ∧ p_eligible py = true ∧ p_sink py = Some (SinkUdp ty y);
  lk_x : queues (hub_store h) !! tx = Some (mkQueue fx cx true true);
  lk_y : queues (hub_store h) !! ty = Some (mkQueue fy cy true true);
  lk_addrs : x ≠ y;
  lk_txs : tx ≠ ty;
  lk_budget : budget (hub_store h) = mkBudget (u0 + frame_bytes fx + frame_bytes fy) lim;
  lk_base : (0 <= u0)%Z;
}.

(** A frame of the band that a hub relays. *)
Definition crosses (band d : bytes) : Prop :=
  ∃ info, route_info d = Some info ∧ ri_band_id info = band ∧ ri_channel_type info ≠ Some Route.

(** The bytes [n] fit the budget beside [u0]. *)
Definition fits (u0 lim n : Z) : Prop := (u0 + n <= u64_max)%Z ∧ (lim = 0%Z ∨ (u0 + n <= lim)%Z).

(** The events of the link: datagrams of the two, their writers, the federation task. *)
Definition link_event (band : bytes) (x y : SocketAddr) (tx ty : nat) (e : hub_event) : Prop :=
  match e with
  | HDatagram src d => (src = x ∨ src = y) ∧ crosses band d
  | HWrite q => q = tx ∨ q = ty
  | HFederate => True
  | _ => False
  end.

Definition sent_by (src : SocketAddr) (es : list (Z * hub_event)) : list bytes :=
  omap (λ e, match e.2 with HDatagram s d => if decide (s = src) then Some d else None | _ => None end) es.

Definition came_out (tx : nat) (out : list (option (option nat * bytes))) : list bytes :=
  omap (λ o, match o with Some (Some q, d) => if decide (q = tx) then Some d else None | _ => None end) out.

Lemma link_swap band x y tx ty cx cy u0 lim fx fy h :
  link band x y tx ty cx cy u0 lim fx fy h → link band y x ty tx cy cx u0 lim fy fx h.
Proof.
  intros [(px & py & Hb & H1 & H2 & H3 & H4) Hx Hy Ha Ht Hu H0]. split; try done.
  - exists py, px. split_and!; try done. rewrite Hb. f_equal. apply insert_insert_ne. congruence.
  - rewrite Hu. f_equal. lia.
Qed.

Section Link.
Context {po : PeerOrder} {pos : PeerOrderSpec po}.

Lemma two_peers (kx ky : PeerKey) (px py : Peer) : kx ≠ ky →
  peer_iter {[kx := px; ky := py]} = [(kx, px); (ky, py)] ∨ peer_iter {[kx := px; ky := py]} = [(ky, py); (kx, px)].
Proof.
  intros Hne. pose proof (peer_iter_perm {[kx := px; ky := py]}) as Hp.
  rewrite map_to_list_insert, map_to_list_singleton in Hp by (by apply lookup_singleton_ne).
  symmetry in Hp. apply Permutation_length_2_inv in Hp. done.
Qed.

(** The one target of a frame of one of the two peers is the other. *)
Lemma two_targets kx ky px py sink info :
  kx ≠ ky → p_eligible py = true → p_sink py = Some sink → targets {[kx := px; ky := py]} (Some kx) info = [sink].
Proof.
  intros Hne He Hs. unfold targets.
  assert (Hdx : declared (Some kx) (ri_channel_id info) kx px = false) by (unfold declared; by rewrite bool_decide_false by (intros H; by apply H)).
  assert (Hf : ∀ (P : PeerKey * Peer → Prop) `{∀ x, Decision (P x)}, ¬ P (kx, px) → P (ky, py) → filter P (peer_iter {[kx := px; ky := py]}) = [(ky, py)]).
  { intros P dP Hx Hy. destruct (two_peers kx ky px py Hne) as [-> | ->]; rewrite !filter_cons, (decide_True (P := P (ky, py))), (decide_False (P := P (kx, px))) by done; done. }
  rewrite Hf; [|by intros [? _]|split; [by intros [= ->]|done]].
  set (narrow := _ && existsb _ _).
  assert (Hn : negb narrow || declared (Some kx) (ri_channel_id info) ky py = true).
  { unfold narrow. destruct (two_peers kx ky px py Hne) as [-> | ->]; cbn [existsb fst snd]; rewrite Hdx, ?orb_false_r; cbn [orb];
      destruct (declared _ _ ky py); by rewrite ?andb_false_r, ?orb_true_r. }
  rewrite filter_cons, decide_True by done. simpl. by rewrite Hs.
Qed.

Lemma frame_bytes_snoc l f : frame_bytes (l ++ [f]) = (frame_bytes l + len f)%Z.
Proof. rewrite frame_bytes_app. simpl. lia. Qed.

(** A datagram of [x] is queued for [y]. *)
Lemma link_datagram cfg now band x y tx ty cx cy u0 lim fx fy h d :
  link band x y tx ty cx cy u0 lim fx fy h → crosses band d → length fy < cy →
  fits u0 lim (frame_bytes fx + frame_bytes fy + len d) →
  link band x y tx ty cx cy u0 lim fx (fy ++ [d]) (hub_step cfg now (HDatagram x d) h).
Proof.
  intros [(px & py & Hb & H1 & H2 & H3 & H4) Hx Hy Ha Ht Hu H0] (info & Hi & <- & Hr) Hroom [F1 F2].
  assert (Hk : Udp x ≠ Udp y) by congruence. cbn [hub_step]. unfold udp_datagram. rewrite Hi. unfold observe_udp. rewrite Hb. cbn [mbind option_bind].
  rewrite lookup_insert_eq. cbn [fmap option_fmap option_map]. unfold refresh at 1. cbn [p_eligible]. rewrite H1. cbn [negb andb].
  unfold forward. rewrite Hi. cbn [bands with_bands]. rewrite lookup_insert_eq, decide_False by done. rewrite insert_insert_eq, (two_targets _ _ _ _ _ _ Hk H3 H4).
  cbn [send_all sink_try_send]. pose proof (frame_bytes_nonneg fx). pose proof (frame_bytes_nonneg fy). pose proof (len_nonneg d).
  assert (Hres : try_reserve (len d) (budget (hub_store h)) = Some (mkBudget (u0 + frame_bytes fx + frame_bytes fy + len d) lim)).
  { rewrite Hu, (budget_room_reserve (mkStore ∅ 0 (mkBudget (u0 + frame_bytes fx + frame_bytes fy) lim)) d 0); [done|].
    split; simpl; [lia|]. destruct F2; [by left|right; lia]. }
  rewrite Hres. unfold queue_try_send. cbn [queues]. rewrite Hy. cbn [q_open negb q_items q_cap]. rewrite decide_False by lia. cbn.
  split; cbn; try done.
  - exists (refresh now px), py. split_and!; try done. unfold federate. cbn. destruct (fed (hub_reg h)); [|cbn; by rewrite lookup_insert_eq].
    case_decide; cbn; by rewrite lookup_insert_eq.
  - by rewrite lookup_insert_ne.
  - by rewrite lookup_insert_eq.
  - rewrite frame_bytes_snoc. f_equal. lia.
Qed.

(** The writer of [y] sends the oldest frame waiting for it. *)
Lemma link_takes_out cfg now band x y tx ty cx cy u0 lim fx fy h :
  link band x y tx ty cx cy u0 lim fx fy h → (u0 + frame_bytes fx + frame_bytes fy <= u64_max)%Z →
  emission (HWrite ty) h = (λ d, (Some ty, d)) <$> head fy ∧ link band x y tx ty cx cy u0 lim fx (tail fy) (hub_step cfg now (HWrite ty) h).
Proof.
  intros L Hmax. pose proof L as [Hp Hx Hy Ha Ht Hu H0]. cbn [emission hub_step]. unfold peer_writer. rewrite Hy. cbn [q_items].
  destruct fy as [|d fy]; cbn; [split; [done|]; by split|]. split; [done|].
  pose proof (frame_bytes_nonneg fx). pose proof (frame_bytes_nonneg fy). pose proof (len_nonneg d).
  change (frame_bytes (d :: fy)) with (len d + frame_bytes fy)%Z in *.
  split; cbn; try done; [by rewrite lookup_insert_ne|by rewrite lookup_insert_eq|].
  rewrite Hu. unfold release. cbn [used limit]. rewrite wrap_u64_small by lia. f_equal. lia.
Qed.

Lemma link_federate cfg now band x y tx ty cx cy u0 lim fx fy h :
  link band x y tx ty cx cy u0 lim fx fy h → link band x y tx ty cx cy u0 lim fx fy (hub_step cfg now HFederate h).
Proof.
  intros [Hp Hx Hy Ha Ht Hu H0]. split; try done. cbn [hub_step hub_reg]. unfold take_federated. destruct (fed (hub_reg h)) as [[|f l]|]; done.
Qed.

Lemma sent_by_cons src now e es :
  sent_by src ((now, e) :: es) = (match e with HDatagram s d => if decide (s = src) then [d] else [] | _ => [] end) ++ sent_by src es.
Proof. unfold sent_by. simpl. destruct e; try done. by case_decide. Qed.

Lemma came_out_cons tx o out :
  came_out tx (o :: out) = (match o with Some (Some q, d) => if decide (q = tx) then [d] else [] | _ => [] end) ++ came_out tx out.
Proof. unfold came_out. simpl. destruct o as [[[q|] d]|]; try done. by case_decide. Qed.

Lemma sent_by_app src e es : sent_by src (e :: es) = sent_by src [e] ++ sent_by src es.
Proof. destruct e as [now e]. by rewrite !(sent_by_cons src now e), <- app_assoc. Qed.

Lemma came_out_app tx o out : came_out tx (o :: out) = came_out tx [o] ++ came_out tx out.
Proof. by rewrite !(came_out_cons tx o), <- app_assoc. Qed.

Lemma fits_mono u0 lim n m : (n <= m)%Z → fits u0 lim m → fits u0 lim n.
Proof. intros Hle [H1 H2]. split; [lia|]. destruct H2; [by left|right; lia]. Qed.

(** What each writer has sent out and what still waits for it is what waited before and
    what the other peer sent since: one event, then a schedule. *)
Lemma link_step cfg band x y tx ty cx cy u0 lim now e fx fy h :
  let es := [(now, e)] in
  link band x y tx ty cx cy u0 lim fx fy h → link_event band x y tx ty e →
  length fx + length (sent_by y es) ≤ cx → length fy + length (sent_by x es) ≤ cy →
  fits u0 lim (frame_bytes fx + frame_bytes fy + frame_bytes (sent_by x es) + frame_bytes (sent_by y es)) →
  ∃ fx' fy', link band x y tx ty cx cy u0 lim fx' fy' (hub_step cfg now e h)
    ∧ came_out ty [emission e h] ++ fy' = fy ++ sent_by x es ∧ came_out tx [emission e h] ++ fx' = fx ++ sent_by y es.
Proof.
  cbv zeta. rewrite !sent_by_cons, !came_out_cons. intros L He Hcx Hcy Hf. pose proof (lk_addrs _ _ _ _ _ _ _ _ _ _ _ _ L) as Hne. pose proof (lk_txs _ _ _ _ _ _ _ _ _ _ _ _ L) as Htx.
  destruct e as [src d| | | | | | | | |q| | |]; try done; cbn in He.
  - destruct He as [[-> | ->] Hd]; [rewrite decide_True, decide_False in * by done|rewrite decide_False, decide_True in * by done]; simpl in *.
    + exists fx, (fy ++ [d]). split_and!; [|done|by rewrite app_nil_r]. eapply link_datagram; [done..|lia|]. eapply fits_mono; [|done]. lia.
    + exists (fx ++ [d]), fy. split_and!; [|by rewrite app_nil_r|done]. apply link_swap. eapply link_datagram; [by apply link_swap|done|lia|].
      eapply fits_mono; [|done]. lia.
  - simpl in Hf. destruct He as [-> | ->].
    + destruct (link_takes_out cfg now _ _ _ _ _ _ _ _ _ _ _ _ (link_swap _ _ _ _ _ _ _ _ _ _ _ _ L)) as [-> L1]; [destruct Hf; lia|].
      exists (tail fx), fy. split; [by apply link_swap|]. rewrite !app_nil_r. destruct fx; simpl; [done|]. by rewrite decide_False, decide_True by done.
    + destruct (link_takes_out cfg now _ _ _ _ _ _ _ _ _ _ _ _ L) as [-> L1]; [destruct Hf; lia|].
      exists fx, (tail fy). split; [done|]. rewrite !app_nil_r. destruct fy; simpl; [done|]. by rewrite decide_True, decide_False by done.
  - exists fx, fy. split; [by apply link_federate|]. rewrite !app_nil_r. cbn [emission]. by destruct (take_federated (hub_reg h)).2.
Qed.

Lemma link_run cfg band x y tx ty cx cy u0 lim es : ∀ fx fy h,
  link band x y tx ty cx cy u0 lim fx fy h → Forall (λ e, link_event band x y tx ty e.2) es →
  length fx + length (sent_by y es) ≤ cx → length fy + length (sent_by x es) ≤ cy →
  fits u0 lim (frame_bytes fx + frame_bytes fy + frame_bytes (sent_by x es) + frame_bytes (sent_by y es)) →
  ∃ fx' fy', link band x y tx ty cx cy u0 lim fx' fy' (hub_run cfg es h)
    ∧ came_out ty (emissions cfg es h) ++ fy' = fy ++ sent_by x es
    ∧ came_out tx (emissions cfg es h) ++ fx' = fx ++ sent_by y es.
Proof.
  induction es as [|[now e] es IH]; intros fx fy h L Hes Hcx Hcy Hf; [exists fx, fy; by rewrite !app_nil_r|].
  apply Forall_cons in Hes as [He Hes]. rewrite (sent_by_app x), (sent_by_app y) in *. cbn [hub_run emissions]. setoid_rewrite came_out_app.
  pose proof (frame_bytes_nonneg (sent_by x es)). pose proof (frame_bytes_nonneg (sent_by y es)).
  rewrite !frame_bytes_app in Hf. rewrite !length_app in Hcx, Hcy.
  destruct (link_step cfg band x y tx ty cx cy u0 lim now e fx fy h L He) as (fx1 & fy1 & L1 & Ey & Ex); [lia|lia|eapply fits_mono; [|done]; lia|].
  pose proof (f_equal length Ey) as Ny. pose proof (f_equal length Ex) as Nx. pose proof (f_equal frame_bytes Ey) as By. pose proof (f_equal frame_bytes Ex) as Bx.
  rewrite !length_app in Nx, Ny. rewrite !frame_bytes_app in Bx, By.
  pose proof (frame_bytes_nonneg (came_out ty [emission e h])). pose proof (frame_bytes_nonneg (came_out tx [emission e h])).
  destruct (IH fx1 fy1 _ L1 Hes) as (fx2 & fy2 & L2 & Hy & Hx); [lia|lia|eapply fits_mono; [|done]; lia|].
  exists fx2, fy2. split; [done|]. by rewrite <- !app_assoc, Hy, Hx, !app_assoc, Ey, Ex.
Qed.
End Link.

(** * Bands behind the hub *)

Section Bands.
Context {crates : Crates} {cspec : CratesSpec}.

(** What a transport sends, the hub relays. *)
Lemma sent_crosses send_to out t t' d :
  length (t_band_id t) = BAND_ID_LEN → is_u16 (out_channel_id out) → is_u64 (t_seq t) → out_channel_type out ≠ Route →
  transport_send send_to out t = Ret (t', Ok d) → crosses (t_band_id t) d.
Proof.
  intros Hb Hid Hs Hr H. unfold transport_send in H. simpl in H. destruct (send_key out _) as [key suite] in H.
  destruct (encode_packet_suite suite key _ _ _ _ _) as [|[pkt|]] eqn:E; [done| |done]. simpl in H. destruct (send_to pkt _); [|done]. injection H as _ ->.
  apply sealed_route_info in E as [E _]; [|by split_and!]. eexists. split_and!; [exact E|done|]. simpl. by intros [= ?].
Qed.

Context {serde : Serde} {dj : DropJson} {cj : ControlJson} {ho : HashOrder}.

(** The control task answers with a Control packet of its band. *)
Lemma handle_hello_crosses send_to from seq is_hello v n n' e :
  length (t_band_id (n_transport n)) = BAND_ID_LEN → is_u64 (t_seq (n_transport n)) →
  handle_hello send_to from seq is_hello v n = Ret (n', e) → Forall (λ x, crosses (t_band_id (n_transport n)) x.2) (e_sent e).
Proof.
  intros Hb Hs. unfold handle_hello. destruct (hello_body _ _ _ _) as [[[[[event ep] hostname] caps] committed]|]; [|intros [= _ <-]; constructor].
  destruct (match n_sessions n !! from with Some prev => (ep <? prev)%Z | None => false end); [intros [= _ <-]; constructor|].
  cbn zeta. set (n1 := if match n_sessions n !! from with Some prev => (prev <? ep)%Z | None => true end then _ else n).
  assert (E1 : n_transport n1 = n_transport n) by (unfold n1; by case_match).
  destruct (match n_watermark n1 !! from with Some wm => (seq <=? wm)%Z | None => false end); [intros [= _ <-]; constructor|].
  rewrite E1. destruct is_hello; [|intros [= _ <-]; constructor]. cbn [n_transport].
  match goal with |- context [send_control_json ?s ?f TYPE_HELLO_ACK ?v true ?t] => destruct (send_control_json s f TYPE_HELLO_ACK v true t) as [|[t' [d|]]] eqn:E end;
    cbn [mbind outcome_bind]; [done| |intros [= _ <-]; constructor]. intros [= _ <-]. constructor; [|constructor]. cbn [snd].
  apply (sent_crosses _ _ _ _ _) in E; done.
Qed.

Lemma control_packet_crosses send_to pkt n n' e :
  length (t_band_id (n_transport n)) = BAND_ID_LEN → is_u64 (t_seq (n_transport n)) →
  control_packet send_to pkt n = Ret (n', e) → Forall (λ x, crosses (t_band_id (n_transport n)) x.2) (e_sent e).
Proof.
  intros Hb Hs. unfold control_packet. cbn zeta. destruct (env_from_slice (in_payload pkt)) as [[ty v]|]; [|intros [= _ <-]; constructor].
  case_match.
  - intros E. apply handle_hello_crosses in E; [by rewrite prune_transport in E|by rewrite prune_transport..].
  - unfold handle_other. intros E. repeat case_match; injection E as _ <-; constructor.
Qed.

(** A datagram and the control task's turn after it. *)
Lemma answer_crosses send_to now from d B B' sent :
  length (t_band_id (band_transport B)) = BAND_ID_LEN → is_u64 (t_seq (band_transport B)) → bd_control_in B = [] →
  band_run send_to [EvDatagram now from d; EvControl] B = Ret (B', sent) →
  Forall (λ x, crosses (t_band_id (band_transport B)) x.2) sent ∧ t_band_id (band_transport B') = t_band_id (band_transport B).
Proof.
  intros Hb Hs Hin. cbn [band_run band_step mbind outcome_bind]. set (B0 := recv_round now from d B).
  assert (H0 : t_band_id (n_transport (bd_node B0)) = t_band_id (band_transport B) ∧ t_seq (n_transport (bd_node B0)) = t_seq (band_transport B)).
  { unfold B0, recv_round, transport_recv. repeat case_match; simplify_eq; unfold push_inbound; repeat case_match; done. }
  destruct H0 as [E1 E2]. clearbody B0. rewrite <- E1. unfold control_round.
  destruct (bd_control_in B0) as [|pkt rest]; [intros [= <- <-]; by split|]. destruct (negb _); [intros [= <- <-]; by split|].
  destruct (control_packet send_to pkt (bd_node B0)) as [|[n e]] eqn:E; [done|]. cbn [mbind outcome_bind]. intros [= <- <-]. rewrite !app_nil_r. split.
  - eapply control_packet_crosses; [by rewrite E1|by rewrite E2|done].
  - apply control_packet_frame in E; [apply E|by rewrite E1].
Qed.

(** A HELLO. *)
Lemma hello_crosses send_to peer A A' sent :
  length (t_band_id (band_transport A)) = BAND_ID_LEN → is_u64 (t_seq (band_transport A)) →
  band_run send_to [ApConnectPeer peer] A = Ret (A', sent) →
  Forall (λ x, crosses (t_band_id (band_transport A)) x.2) sent ∧ t_band_id (band_transport A') = t_band_id (band_transport A) ∧ bd_control_in A' = bd_control_in A
  ∧ t_seq (band_transport A') = wrap 64 (t_seq (band_transport A) + 1).
Proof.
  intros Hb Hs. cbn [band_run band_step]. unfold band_connect_peer, connect_peer, send_control_json.
  destruct (transport_send _ _ _) as [|[t r]] eqn:E; [done|]. pose proof (transport_send_seq _ _ _ _ _ Hb E) as ->. cbn.
  intros [= <- <-]. split_and!; try done. destruct r as [d|]; [|constructor]. constructor; [|constructor]. by apply (sent_crosses _ _ _ _ _) in E.
Qed.

(** The datagrams of a Stream. *)
Lemma stream_crosses send_to t s id peer ms ds :
  length (t_band_id t) = BAND_ID_LEN → is_u16 id → (0 <= s)%Z → (s + len ms <= 2 ^ 64)%Z →
  sent_under send_to t s ((λ m, stream_out peer id m.1 m.2) <$> ms) ds → Forall (crosses (t_band_id t)) ds.
Proof.
  intros Hb Hid H0 Hn Hs. apply Forall_lookup. intros i d Hd. destruct (sent_under_lookup _ _ _ _ _ _ _ Hs Hd) as (o & t' & Ho & E).
  apply list_lookup_fmap_Some in Ho as (m & -> & Hm). apply lookup_lt_Some in Hm. unfold len in Hn.
  apply (sent_crosses _ _ _ _ _) in E; try done. unfold is_u64. simpl. lia.
Qed.

Lemma stream_run_sent send_to peer id ms A A' sent :
  fresh_band A → length (t_band_id (band_transport A)) = BAND_ID_LEN → (len ms < 2 ^ 62)%Z →
  band_run send_to (ApStream peer id :: stream_sends 0 ms) A = Ret (A', sent) → length sent = length ms →
  ∃ ds, sent = (peer,.) <$> ds
    ∧ sent_under send_to (band_transport A) (t_seq (band_transport A)) ((λ m, stream_out peer id m.1 m.2) <$> ms) ds.
Proof.
  intros [F1 _ _ _ _ F6] Hb Hn Hrun Hlen. cbn [band_run band_step mbind outcome_bind] in Hrun. set (A1 := (band_stream peer id A).1) in Hrun.
  destruct (band_run send_to (stream_sends 0 ms) A1) as [|[A4 sent4]] eqn:E4; [done|]. injection Hrun as -> <-.
  assert (He : ss_eps (bd_stream A1) !! 0 = Some (mkStreamEp peer id [])) by (unfold A1; simpl; by rewrite F1).
  change (band_transport A) with (band_transport A1) in *.
  destruct (stream_sends_spec send_to 0 _ ms A1 A' sent4 He Hb) as [_ Hs]; [lia|lia|done|]. exact (Hs Hlen).
Qed.

Lemma stream_run_crosses send_to peer id ms A A' sent :
  fresh_band A → length (t_band_id (band_transport A)) = BAND_ID_LEN → is_u16 id → (len ms < 2 ^ 62)%Z →
  band_run send_to (ApStream peer id :: stream_sends 0 ms) A = Ret (A', sent) → length sent = length ms →
  Forall (crosses (t_band_id (band_transport A))) (sent.*2).
Proof.
  intros F Hb Hid Hn Hrun Hlen. destruct (stream_run_sent _ _ _ _ _ _ _ F Hb Hn Hrun Hlen) as (ds & -> & Hd). destruct F as [_ _ _ _ _ F6].
  rewrite <- list_fmap_compose. cbn. rewrite list_fmap_id. eapply stream_crosses; [done|done| | |exact Hd]; lia.
Qed.
End Bands.

(** A datagram and the turn of its receiver's writer. *)
Definition passed_on (now : Z) (src : SocketAddr) (d : bytes) (tx : nat) : list (Z * hub_event) := [(now, HDatagram src d); (now, HWrite tx)].

Lemma link_carry {po : PeerOrder} {pos : PeerOrderSpec po} cfg now band x y tx ty cx cy u0 lim h d :
  link band x y tx ty cx cy u0 lim [] [] h → crosses band d → 1 ≤ cy → fits u0 lim (len d) →
  emissions cfg (passed_on now x d ty) h = [None; Some (Some ty, d)]
  ∧ link band x y tx ty cx cy u0 lim [] [] (hub_run cfg (passed_on now x d ty) h).
Proof.
  intros L Hd Hc Hf. pose proof (link_datagram cfg now _ _ _ _ _ _ _ _ _ _ _ _ d L Hd Hc Hf) as L1.
  destruct (link_takes_out cfg now _ _ _ _ _ _ _ _ _ _ _ _ L1) as [E L2]; [destruct Hf; simpl; lia|]. cbn [passed_on emissions hub_run]. by rewrite E.
Qed.

Lemma freshest_seq k : ∀ n last, match last with Some l => l < n | None => True end → freshest last (List.seq n k) = List.seq n k.
Proof.
  induction k as [|k IH]; intros n last Hl; simpl; [done|]. destruct last as [l|]; [rewrite bool_decide_false by lia|]; f_equal; apply IH; lia.
Qed.

Lemma messages_at_seq a id ms k : k ≤ length ms → messages_at a id ms (List.seq 0 k) = (λ m, mkMessage a id m.1 m.2) <$> take k ms.
Proof.
  unfold messages_at. induction k as [|k IH]; intros Hk; [done|]. destruct (lookup_lt_is_Some_2 ms k) as [m Hm]; [lia|].
  rewrite seq_S, omap_app, IH, (take_S_r _ _ _ Hm), fmap_app by lia. simpl. by rewrite Hm.
Qed.

(** A schedule in which only [x] sends. *)
Definition one_way (x : SocketAddr) (tx ty : nat) (e : Z * hub_event) : Prop :=
  match e.2 with HDatagram src _ => src = x | HWrite q => q = tx ∨ q = ty | HFederate => True | _ => False end.

Lemma one_way_link band x y tx ty es :
  x ≠ y → Forall (one_way x tx ty) es → Forall (crosses band) (sent_by x es) → Forall (λ e, link_event band x y tx ty e.2) es ∧ sent_by y es = [].
Proof.
  intros Hne. induction 1 as [|[now e] es He _ IH]; [done|]. rewrite !sent_by_cons. unfold one_way in He. intros Hx. apply Forall_app in Hx as [Hx Hx'].
  destruct (IH Hx') as [H1 H2]. destruct e as [src d| | | | | | | | |q| | |]; try done; cbn in He |- *.
  - subst src. rewrite decide_False by done. rewrite decide_True in Hx by done. split; [|done]. constructor; [|done]. split; [by left|]. exact (Forall_inv Hx).
  - split; [by constructor|done].
  - split; [by constructor|done].
Qed.

(** ** Properties *)

(** C15: to the two peers of a band the hub is a duplex FIFO link. Take any schedule of
    datagrams from either, of rounds of the writers of both and of the federation
    task, whose datagrams fit the depth of the queues and the byte budget. Then what
    the writer of one has sent out, followed by what still waits for it, is what
    waited at the start followed by what the other has sent: nothing is lost,
    duplicated, reordered or echoed, each round of a writer with frames waiting sends
    the oldest, and the budget returns what it was charged. *)
Theorem hub_is_a_link {po : PeerOrder} {pos : PeerOrderSpec po} (cfg : HubConfig) (band : bytes) (x y : SocketAddr) (tx ty cx cy : nat) (u0 lim : Z)
    (es : list (Z * hub_event)) (fx fy : list bytes) (h : HubState) :
  link band x y tx ty cx cy u0 lim fx fy h → Forall (λ e, link_event band x y tx ty e.2) es →
  length fx + length (sent_by y es) ≤ cx → length fy + length (sent_by x es) ≤ cy →
  fits u0 lim (frame_bytes fx + frame_bytes fy + frame_bytes (sent_by x es) + frame_bytes (sent_by y es)) →
  ∃ fx' fy', link band x y tx ty cx cy u0 lim fx' fy' (hub_run cfg es h)
    ∧ came_out ty (emissions cfg es h) ++ fy' = fy ++ sent_by x es
    ∧ came_out tx (emissions cfg es h) ++ fx' = fx ++ sent_by y es
    ∧ ∀ now, emission (HWrite ty) (hub_run cfg es h) = (λ d, (Some ty, d)) <$> head fy'
        ∧ link band x y tx ty cx cy u0 lim fx' (tail fy') (hub_step cfg now (HWrite ty) (hub_run cfg es h)).
Proof.
  intros L Hes Hcx Hcy Hf. destruct (link_run cfg _ _ _ _ _ _ _ _ _ es fx fy h L Hes Hcx Hcy Hf) as (fx' & fy' & L' & Hy & Hx).
  exists fx', fy'. split_and!; [done..|]. intros now. apply link_takes_out; [done|].
  pose proof (f_equal frame_bytes Hy) as By. pose proof (f_equal frame_bytes Hx) as Bx. rewrite !frame_bytes_app in Bx, By.
  pose proof (frame_bytes_nonneg (came_out ty (emissions cfg es h))). pose proof (frame_bytes_nonneg (came_out tx (emissions cfg es h))). destruct Hf. lia.
Qed.

(** C9: a Stream through the hub. Two Bands of one key know only the hub's address; the
    hub has both as validated peers of their band, with nothing waiting and room for a
    datagram. Then the HELLO of one comes out for the other, its answer comes out for
    the first, and both have a session. Let the messages the first then sends all reach the
    hub, in order, be no more than the other's queue holds and fit the byte budget
    together: then the hub drops none. Under any schedule of its socket and writers, those
    that have come out and those that still wait are, in order, all of them. Of the
    datagrams that came out the network may lose, repeat and reorder any: the receiving
    application gets exactly the messages that arrive newer than all before them, and when
    they arrive in order every message that came out, in order, with its priority and
    bytes. *)
Theorem stream_through_hub {crates : Crates} {cspec : CratesSpec} {serde : Serde} {dj : DropJson} {cj : ControlJson} {jspec : ControlJsonSpec cj}
    {ho : HashOrder} {po : PeerOrder} {pos : PeerOrderSpec po} psk ha hb oa ob ma mb ra rb hub send_a send_b now1 now2 suite A1 d1 B1 d2
    cfg t1 t2 x y tx ty cx cy u0 lim h (id : Z) (ms : list (Z * bytes)) :
  let A := bind_with_options psk ha oa ma ra in
  let B := bind_with_options psk hb ob mb rb in
  length ra = 8 → length rb = 8 → is_u64 (c_session (n_config (bd_node A))) → is_u64 (c_session (n_config (bd_node B))) →
  Suite_from_id (select_cipher (c_ciphers (n_config (bd_node A))) (c_ciphers (n_config (bd_node B)))) = Some suite →
  link (derive_band_id psk) x y tx ty cx cy u0 lim [] [] h → 1 ≤ cx → length ms ≤ cy → 1 ≤ cy →
  is_u16 id → Forall (λ m, is_u8 m.1) ms → (len ms < 2 ^ 62)%Z →
  band_run send_a [ApConnectPeer hub] A = Ret (A1, [(hub, d1)]) → fits u0 lim (len d1) →
  band_run send_b [EvDatagram now1 hub d1; EvControl] B = Ret (B1, [(hub, d2)]) → fits u0 lim (len d2) →
  let h1 := hub_run cfg (passed_on t1 x d1 ty) h in
  let h2 := hub_run cfg (passed_on t2 y d2 tx) h1 in
  emissions cfg (passed_on t1 x d1 ty) h = [None; Some (Some ty, d1)] ∧ emissions cfg (passed_on t2 y d2 tx) h1 = [None; Some (Some tx, d2)]
  ∧ ∃ A2 sent0, band_run send_a [EvDatagram now2 hub d2; EvControl] A1 = Ret (A2, sent0)
    ∧ ∀ A3 sent es, band_run send_a (ApStream hub id :: stream_sends 0 ms) A2 = Ret (A3, sent) → length sent = length ms →
      fits u0 lim (frame_bytes sent.*2) →
      Forall (one_way x tx ty) es →
      sent_by x es = sent.*2 →
      ∃ out waiting, came_out ty (emissions cfg es h2) = out ∧ out ++ waiting = sent.*2
        ∧ link (derive_band_id psk) x y tx ty cx cy u0 lim [] waiting (hub_run cfg es h2)
        ∧ ∀ arrivals, Forall (λ z, out !! z.1.1 = Some z.2) arrivals →
          ∃ B3, band_run send_b (ApStream hub id :: stream_arrivals hub arrivals) B1 = Ret (B3, [])
            ∧ se_queue <$> ss_eps (bd_stream B3) !! 0 = Some (messages_at hub id ms (freshest None (arrivals.*1.*1)))
            ∧ (arrivals.*1.*1 = List.seq 0 (length out) →
               se_queue <$> ss_eps (bd_stream B3) !! 0 = Some ((λ m, mkMessage hub id m.1 m.2) <$> take (length out) ms)).
Proof.
  intros A B Hra Hrb Hsa Hsb Hsuite L Hcx Hcy Hc1 Hid Hms Hn HA1 F1 HB1 F2 h1 h2.
  pose proof (SequenceCounter_random_range ra Hra) as Ra. pose proof (SequenceCounter_random_range rb Hrb) as Rb.
  assert (X1 : crosses (derive_band_id psk) d1).
  { apply hello_crosses in HA1; [destruct HA1 as [HA1 _]; exact (Forall_inv HA1)|apply length_derive_band_id|unfold is_u64; cbn; lia]. }
  assert (X2 : crosses (derive_band_id psk) d2).
  { apply answer_crosses in HB1; [destruct HB1 as [HB1 _]; exact (Forall_inv HB1)|apply length_derive_band_id|unfold is_u64; cbn; lia|done]. }
  destruct (link_carry cfg t1 _ _ _ _ _ _ _ _ _ h d1 L X1 Hc1 F1) as [Em1 L1].
  destruct (link_carry cfg t2 _ _ _ _ _ _ _ _ _ h1 d2 (link_swap _ _ _ _ _ _ _ _ _ _ _ _ L1) X2 Hcx F2) as [Em2 L2]. apply link_swap in L2.
  destruct (band_handshake psk ha hb oa ob ma mb ra rb hub hub send_a send_b now1 now2 suite A1 d1 B1 hub d2 Hra Hrb Hsa Hsb Hsuite HA1 HB1)
    as (A2 & sent0 & E2 & Tab & _ & FA & FB & _).
  split_and!; [done..|]. exists A2, sent0. split; [done|]. intros A3 sent es Hrun Hlen Hfit Hes Hsent.
  assert (Xs : Forall (crosses (derive_band_id psk)) (sent.*2)).
  { apply hello_crosses in HA1 as (_ & EA1 & EAc & EAs); [|apply length_derive_band_id|unfold is_u64; cbn; lia].
    apply answer_crosses in E2 as [_ EA2]; [|rewrite EA1; apply length_derive_band_id|rewrite EAs; unfold is_u64, wrap; apply Z.mod_pos_bound; lia|by rewrite EAc].
    rewrite EA1 in EA2.
    change (derive_band_id psk) with (t_band_id (band_transport A)). rewrite <- EA2.
    exact (stream_run_crosses send_a hub id ms A2 A3 sent FA (tk_len _ _ _ _ Tab) Hid Hn Hrun Hlen). }
  rewrite <- Hsent in Xs. destruct (one_way_link _ x y tx ty es (lk_addrs _ _ _ _ _ _ _ _ _ _ _ _ L) Hes Xs) as [Hlk Hy].
  destruct (link_run cfg _ _ _ _ _ _ _ _ _ es [] [] h2 L2 Hlk) as (fx' & fy' & L3 & Hout & Hback).
  { rewrite Hy. simpl. lia. }
  { rewrite Hsent, length_fmap. simpl. lia. }
  { rewrite Hy, Hsent. eapply fits_mono; [|done]. simpl. lia. }
  rewrite Hy in Hback. apply app_nil in Hback as [_ ->]. rewrite Hsent in Hout. simpl in Hout.
  exists (came_out ty (emissions cfg es h2)), fy'. split_and!; [done..|]. intros arrivals Harr.
  destruct (stream_run_sent send_a hub id ms A2 A3 sent FA (tk_len _ _ _ _ Tab) Hn Hrun Hlen) as (ds & Esent & _).
  assert (Harr' : Forall (λ z, sent !! z.1.1 = Some (hub, z.2)) arrivals).
  { eapply Forall_impl; [exact Harr|]. intros [[i t] d] Hd. simpl in *. rewrite Esent, list_lookup_fmap.
    apply (lookup_app_l_Some _ fy') in Hd. rewrite Hout, Esent, <- list_fmap_compose, list_fmap_id in Hd. by rewrite Hd. }
  destruct (stream_between hub hub A2 B1 send_a send_b id ms arrivals A3 sent Tab FA FB Hid Hms Hn Hrun Hlen Harr') as (B3 & E3 & Hq).
  exists B3. split_and!; [done..|]. intros Heq. rewrite Hq, Heq, freshest_seq, messages_at_seq; [done| |done].
  pose proof (f_equal length Hout) as Hl. rewrite length_app, length_fmap in Hl. lia.
Qed.

#[local] Existing Instance sample_crates.
#[local] Existing Instance sample_crates_spec.
#[local] Existing Instance sample_control_json.
#[local] Existing Instance sample_control_json_spec.
#[local] Existing Instance sample_serde.
#[local] Existing Instance sample_serde_spec.
#[local] Existing Instance sample_json.
#[local] Existing Instance sample_hash_order.
#[local] Existing Instance sample_order.
#[local] Existing Instance sample_order_spec.

(** A new hub to which two addresses have declared themselves twice. *)
Definition sample_config : HubConfig := mkHubConfig 64 64.
Definition sample_declarations : list (Z * hub_event) :=
  let hello := sample_frame (derive_band_id sample_psk) Route in
  [(0, HDatagram (sample_addr 1) (hello 7)); (1, HDatagram (sample_addr 1) (hello 7));
   (2, HDatagram (sample_addr 2) (hello 8)); (3, HDatagram (sample_addr 2) (hello 8))]%Z.
Definition sample_two : HubState := hub_run sample_config sample_declarations (HubState_new sample_limits 65536 true).

#[local] Instance Sink_eq_dec : EqDecision Sink.
Proof. solve_decision. Defined.
#[local] Instance Peer_eq_dec : EqDecision Peer.
Proof. solve_decision. Defined.

Lemma sample_two_link : link (derive_band_id sample_psk) (sample_addr 1) (sample_addr 2) 0 1 64 64 0 65536 [] [] sample_two.
Proof.
  split; [|vm_compute; reflexivity|vm_compute; reflexivity|done|done|vm_compute; reflexivity|lia].
  exists (mkPeerEntry (Some (SinkUdp 0 (sample_addr 1))) 0 1 true 2 (Some 7%Z)), (mkPeerEntry (Some (SinkUdp 1 (sample_addr 2))) 2 3 true 2 (Some 8%Z)).
  split_and!; [refine (bool_decide_unpack _ _); vm_compute; exact I|reflexivity..].
Qed.

(** Datagrams of both, a writer's round too many among them. *)
Definition sample_schedule : list (Z * hub_event) :=
  let msg := sample_frame (derive_band_id sample_psk) Stream in
  [(4, HDatagram (sample_addr 1) (msg 5)); (5, HDatagram (sample_addr 2) (msg 6)); (6, HDatagram (sample_addr 1) (msg 7));
   (7, HWrite 0); (8, HWrite 0); (9, HWrite 1); (9, HFederate)]%Z.

Lemma hub_is_a_link_witness :
  ∃ fx fy, link (derive_band_id sample_psk) (sample_addr 1) (sample_addr 2) 0 1 64 64 0 65536 fx fy (hub_run sample_config sample_schedule sample_two)
    ∧ came_out 1 (emissions sample_config sample_schedule sample_two) ++ fy
      = [sample_frame (derive_band_id sample_psk) Stream 5; sample_frame (derive_band_id sample_psk) Stream 7]
    ∧ came_out 0 (emissions sample_config sample_schedule sample_two) ++ fx = [sample_frame (derive_band_id sample_psk) Stream 6]
    ∧ length (came_out 1 (emissions sample_config sample_schedule sample_two)) = 1.
Proof.
  destruct (hub_is_a_link sample_config _ _ _ _ _ _ _ _ _ sample_schedule [] [] sample_two sample_two_link) as (fx & fy & L & Hy & Hx & _).
  - repeat constructor; (eexists; split_and!; [vm_compute; reflexivity|vm_compute; reflexivity|done]).
  - vm_compute. lia.
  - vm_compute. lia.
  - split; [by vm_compute|right; by vm_compute].
  - exists fx, fy. split_and!; [exact L|rewrite Hy; vm_compute; reflexivity|rewrite Hx; vm_compute; reflexivity|vm_compute; reflexivity].
Defined.

(** [x] and [y] meet through the hub; [x] sends three messages, two come out. *)
Definition sample_h1 := sample_run [ApConnectPeer "hub"] (Band.sample_band "x").
Definition sample_h2 := sample_run [EvDatagram 7 "hub" (first_sent sample_h1); EvControl] (Band.sample_band "y").
Definition sample_h3 := sample_run [EvDatagram 9 "hub" (first_sent sample_h2); EvControl] sample_h1.1.
Definition sample_h4 := sample_run (ApStream "hub" 5 :: stream_sends 0 sample_messages) sample_h3.1.
Definition sample_relay (ds : list bytes) : list (Z * hub_event) :=
  ((λ d, (20%Z, HDatagram (sample_addr 1) d)) <$> ds) ++ [(21%Z, HWrite 1); (22%Z, HWrite 1)].

Lemma sample_h4_run :
  band_run (λ _ _, true) (ApStream "hub" 5 :: stream_sends 0 sample_messages) sample_h3.1 = Ret (sample_h4.1, sample_h4.2)
  ∧ ∃ d0 d1 d2, sample_h4.2 = [("hub", d0); ("hub", d1); ("hub", d2)].
Proof. apply ran_three. by vm_compute. Qed.

Lemma sample_h4_fits : fits 0 65536 (frame_bytes sample_h4.2.*2).
Proof. split; [by vm_compute|right; by vm_compute]. Qed.

Lemma sample_out :
  length (came_out 1 (emissions sample_config (sample_relay sample_h4.2.*2)
    (hub_run sample_config (passed_on 11 (sample_addr 2) (first_sent sample_h2) 0)
      (hub_run sample_config (passed_on 10 (sample_addr 1) (first_sent sample_h1) 1) sample_two)))) = 2.
Proof. vm_compute. reflexivity. Qed.

Lemma stream_through_hub_witness :
  ∃ B3, band_run (λ _ _, true) (ApStream "hub" 5 :: stream_arrivals "hub" [(0, 30%Z, default [] (sample_h4.2.*2 !! 0)); (1, 31%Z, default [] (sample_h4.2.*2 !! 1))]) sample_h2.1
    = Ret (B3, [])
    ∧ se_queue <$> ss_eps (bd_stream B3) !! 0 = Some [mkMessage "hub" 5 1 [Byte.x01]; mkMessage "hub" 5 2 [Byte.x02]].
Proof.
  destruct (stream_through_hub sample_psk "x" "y" (sample_options ["aes256-gcm"]) (sample_options ["aes256-gcm"]) 0 0
    sample_random sample_random "hub" (λ _ _, true) (λ _ _, true) 7 9 Aes256Gcm sample_h1.1 (first_sent sample_h1)
    sample_h2.1 (first_sent sample_h2) sample_config 10 11 (sample_addr 1) (sample_addr 2) 0 1 64 64 0 65536 sample_two 5 sample_messages)
    as (_ & _ & A2 & sent0 & E2 & H).
  - reflexivity.
  - reflexivity.
  - by vm_compute.
  - by vm_compute.
  - reflexivity.
  - exact sample_two_link.
  - lia.
  - vm_compute. lia.
  - lia.
  - by vm_compute.
  - repeat constructor; by vm_compute.
  - by vm_compute.
  - apply ran_one. by vm_compute.
  - split; [by vm_compute|right; by vm_compute].
  - apply ran_one. by vm_compute.
  - split; [by vm_compute|right; by vm_compute].
  - assert (EA : A2 = sample_h3.1) by (unfold sample_h3, sample_run; by rewrite E2). subst A2.
    destruct sample_h4_run as [E3 (d0 & e1 & e2 & H3)].
    destruct (H sample_h4.1 sample_h4.2 (sample_relay sample_h4.2.*2) E3) as (out & waiting & Hout & Hall & _ & HB).
    + by rewrite H3.
    + exact sample_h4_fits.
    + rewrite H3. repeat (constructor; [by cbn; auto|]). constructor.
    + rewrite H3. reflexivity.
    + pose proof (f_equal length Hout) as Hl. rewrite sample_out in Hl. clear Hout H E2 E3. rewrite H3 in Hall |- *. clear H3.
      destruct out as [|o0 [|o1 [|]]]; try discriminate Hl. cbn [fmap list_fmap snd app] in Hall. injection Hall as -> -> _.
      cbn [fmap list_fmap snd lookup list_lookup default].
      destruct (HB [(0, 30%Z, d0); (1, 31%Z, e1)]) as (B3 & EB & _ & Hin); [repeat constructor|].
      exists B3. split; [exact EB|]. rewrite (Hin eq_refl). reflexivity.
Defined.

(** ** Three Bands behind one hub *)

(** A Band keys sessions by address, and all that comes through a hub comes from one. [z]
    of a later session greets [w] through the hub; then the HELLO of [x] is taken for an
    old one of the same peer: [w] does not answer it and has one peer. *)
Definition sample_z : Band := bind_with_options sample_psk "z" (mkOptions (Some 9%Z) ["aes256-gcm"] [] 5000 15000 true) 0 sample_random.
Definition sample_from_z := sample_run [ApConnectPeer "hub"] sample_z.
Definition sample_w := sample_run [EvDatagram 7 "hub" (first_sent sample_from_z); EvControl] (Band.sample_band "w").

Lemma hub_peers_share_a_session :
  length sample_w.2 = 1 ∧ (sample_run [EvDatagram 8 "hub" (first_sent sample_h1); EvControl] sample_w.1).2 = []
  ∧ ps_hostname <$> (map_to_list (band_peers (sample_run [EvDatagram 8 "hub" (first_sent sample_h1); EvControl] sample_w.1).1)).*2 = ["z"]
  ∧ length (sample_run [EvDatagram 8 "x" (first_sent sample_h1); EvControl] sample_w.1).2 = 1.
Proof. vm_compute. auto. Qed.
