(* ===== verification/Federation.v ===== *)
(** Links between hubs ([rust/telesthitium/src/federation.rs]): the message
    framing of a link, the advertised band sets, the fan-out of locally sourced
    frames to the links whose remote wants them, and the injection of frames a
    linked hub relays. Built on the registry of [Registry]. *)

From S2P Require Import Prelude Crypto Framing HubFrame Registry.

(** * Wire format of a link *)

Definition T_HELLO : Z := 1.
Definition T_BANDS : Z := 2.
Definition T_RELAY : Z := 3.
Definition MAX_MSG : Z := 4 * 1024 * 1024.
Definition BANDS_POLL : Z := from_secs 1.
Definition BANDS_KEEPALIVE : Z := from_secs 15.
Definition BANDS_MARKER : bytes := replicate BAND_ID_LEN Byte.xff.

Inductive IoError := MsgTooLarge.

(** [write_msg]: the bytes put on the stream. *)
Definition write_msg (t : Z) (payload : bytes) : result bytes IoError :=
  let n := (1 + len payload)%Z in
  if (MAX_MSG <? wrap 32 n)%Z then Err MsgTooLarge
  else Ok (to_be_bytes 4 (wrap 32 n) ++ [z2b t] ++ payload).

(** [read_msg] and [read_msg_split] on what has arrived: a message and the
    bytes after it, a length out of range, or not all of it yet. *)
Inductive ReadMsg := Msg (t : Z) (payload rest : bytes) | BadLen | Incomplete.

Definition read_msg (s : bytes) : ReadMsg :=
  if decide (length s < 4) then Incomplete else
  let n := from_be_bytes (slice 0 4 s) in
  if (n =? 0)%Z || (MAX_MSG <? n)%Z then BadLen else
  let body := drop 4 s in
  if (len body <? n)%Z then Incomplete else
  match take (Z.to_nat n) body with
  | b :: payload => Msg (b2z b) payload (drop (Z.to_nat n) body)
  | [] => Incomplete
  end.

Definition encode_bands (bands : list bytes) : bytes :=
  to_be_bytes 2 (Z.min (len bands) u16_max) ++ concat (take (Z.to_nat u16_max) bands).

(** The loop of [decode_bands]: [count] ids from offset [off]. *)
Fixpoint decode_loop (count off : nat) (payload : bytes) (set : gset bytes) : gset bytes :=
  match count with
  | 0 => set
  | S count' =>
      if decide (length payload < off + BAND_ID_LEN) then set
      else decode_loop count' (off + BAND_ID_LEN) payload ({[ slice off (off + BAND_ID_LEN) payload ]} ∪ set)
  end.

Definition decode_bands (payload : bytes) : gset bytes :=
  if decide (length payload < 2) then ∅
  else decode_loop (Z.to_nat (from_be_bytes (slice 0 2 payload))) 2 payload ∅.

(** * Links *)

Definition LINK_QUEUE : nat := 4096.

(** A [LinkHandle]: the channel to its writer (open until the writer ends), the
    bands the remote advertised, and whether frames may flow. *)
Record LinkHandle := mkLink {
  lk_id : Z;
  lk_queue : list (bytes * bytes);
  lk_open : bool;
  lk_bands : gset bytes;
  lk_active : bool;
}.

Record LinkSet := mkLinkSet { links : list LinkHandle; next_link : Z }.

Definition LinkSet_new : LinkSet := mkLinkSet [] 1.
Definition link_add (h : LinkHandle) (ls : LinkSet) : LinkSet := mkLinkSet (links ls ++ [h]) (next_link ls).
Definition link_remove (id : Z) (ls : LinkSet) : LinkSet := mkLinkSet (filter (λ h, lk_id h ≠ id) (links ls)) (next_link ls).

Definition link_try_send (item : bytes * bytes) (h : LinkHandle) : LinkHandle :=
  if lk_open h && bool_decide (length (lk_queue h) < LINK_QUEUE)
  then mkLink (lk_id h) (lk_queue h ++ [item]) (lk_open h) (lk_bands h) (lk_active h) else h.

(** One frame taken off the egress channel by [fan_egress]. *)
Definition fan_one (item : bytes * bytes) (h : LinkHandle) : LinkHandle :=
  if negb (lk_active h) then h
  else if bool_decide (item.1 ∈ lk_bands h) then link_try_send item h else h.

Definition fan_egress (r : Registry) (ls : LinkSet) : Registry * LinkSet :=
  let '(r, item) := take_federated r in
  (r, match item with Some item => mkLinkSet (fan_one item <$> links ls) (next_link ls) | None => ls end).

(** [handle_link]: the first message read must repeat the secret; then the
    link is added. *)
Definition hello (secret : bytes) : result bytes IoError := write_msg T_HELLO secret.

Definition link_up (secret : bytes) (active : bool) (t : Z) (payload : bytes) (ls : LinkSet) : option LinkSet :=
  if (t =? T_HELLO)%Z && bool_decide (payload = secret)
  then Some (link_add (mkLink (next_link ls) [] true ∅ active) (mkLinkSet (links ls) (wrap 64 (next_link ls + 1))))
  else None.

(** The advertiser of a link: what it sent last and for how long it has been
    quiet. [bands] is the registry's band set in some order. *)
Record Advertiser := mkAdvertiser { adv_last : option (gset bytes); adv_since : Z }.
Definition Advertiser_new : Advertiser := mkAdvertiser None 0.

Definition advertise_tick (bands : list bytes) (a : Advertiser) (h : LinkHandle) : Advertiser * LinkHandle :=
  if negb (lk_open h) then (a, h) else
  let set : gset bytes := list_to_set bands in
  let since := (adv_since a + BANDS_POLL)%Z in
  if bool_decide (adv_last a ≠ Some set) || (BANDS_KEEPALIVE <=? since)%Z
  then (mkAdvertiser (Some set) 0, link_try_send (BANDS_MARKER, encode_bands bands) h)
  else (mkAdvertiser (adv_last a) since, h).

(** The message the writer task sends for one item of its channel. *)
Definition link_message_of (item : bytes * bytes) : result bytes IoError :=
  let '(band, frame) := item in
  if decide (band = BANDS_MARKER) then write_msg T_BANDS frame
  else write_msg T_RELAY (band ++ to_be_bytes 4 (wrap 32 (len frame)) ++ frame).

(** One step of the writer task: it ends on an error, closing the channel. *)
Definition link_write (h : LinkHandle) : LinkHandle * bytes :=
  match lk_queue h with
  | [] => (h, [])
  | item :: rest =>
      match link_message_of item with
      | Ok w => (mkLink (lk_id h) rest (lk_open h) (lk_bands h) (lk_active h), w)
      | Err _ => (mkLink (lk_id h) [] false (lk_bands h) (lk_active h), [])
      end
  end.

Section Link.
Context {po : PeerOrder}.

(** One message read from a link. *)
Definition link_read (t : Z) (payload : bytes) (h : LinkHandle) (r : Registry) (s : Store) : LinkHandle * Store :=
  if (t =? T_BANDS)%Z then (mkLink (lk_id h) (lk_queue h) (lk_open h) (decode_bands payload) (lk_active h), s)
  else if (t =? T_RELAY)%Z then
    if decide (length payload < BAND_ID_LEN + 4) then (h, s)
    else if negb (lk_active h) then (h, s)
    else
      let band := slice 0 BAND_ID_LEN payload in
      let flen := Z.to_nat (from_be_bytes (slice BAND_ID_LEN (BAND_ID_LEN + 4) payload)) in
      let start := BAND_ID_LEN + 4 in
      if decide (length payload < start + flen) then (h, s)
      else (h, inject_from_link band (slice start (start + flen) payload) r s)
  else (h, s).

(** The reader loop on the bytes that have arrived; [None] once the link is to
    be closed. Every message takes at least five bytes, so the number of bytes
    bounds the number of messages. *)
Fixpoint read_loop (fuel : nat) (input : bytes) (h : LinkHandle) (r : Registry) (s : Store) : option (LinkHandle * Store * bytes) :=
  match fuel with
  | 0 => Some (h, s, input)
  | S fuel' =>
      match read_msg input with
      | Incomplete => Some (h, s, input)
      | BadLen => None
      | Msg t payload rest => let '(h, s) := link_read t payload h r s in read_loop fuel' rest h r s
      end
  end.

Definition link_input (input : bytes) (h : LinkHandle) (r : Registry) (s : Store) : option (LinkHandle * Store * bytes) :=
  read_loop (S (length input)) input h r s.
End Link.

(** ** Framing lemmas *)

Lemma u32_len (n : Z) : (0 <= n <= MAX_MSG)%Z → wrap 32 n = n ∧ is_u32 n.
Proof. unfold MAX_MSG, wrap, is_u32. intros. split; [apply Z.mod_small|]; lia. Qed.

(** What was written is read back, whatever follows. *)
Lemma read_write_msg t payload rest :
  is_u8 t → (1 + len payload <= MAX_MSG)%Z →
  ∃ w, write_msg t payload = Ok w ∧ read_msg (w ++ rest) = Msg t payload rest ∧ 5 ≤ length w.
Proof.
  intros Ht Hl. pose proof (len_nonneg payload). destruct (u32_len (1 + len payload)) as [Hw Hu]; [lia|].
  unfold write_msg. rewrite Hw. destruct (Z.ltb_spec MAX_MSG (1 + len payload)); [lia|].
  eexists. split; [done|]. split; [|len_solve].
  unfold read_msg. rewrite <- app_assoc. rewrite decide_False by len_solve.
  rewrite slice_head by apply length_to_be_bytes. rewrite from_to_be_u32 by done.
  destruct (Z.eqb_spec (1 + len payload) 0); [lia|]. destruct (Z.ltb_spec MAX_MSG (1 + len payload)); [lia|]. cbn [orb].
  rewrite (drop_app_length' _ _ 4) by (by rewrite length_to_be_bytes).
  assert (En : Z.to_nat (1 + len payload) = length ([z2b t] ++ payload)) by len_solve.
  destruct (Z.ltb_spec (len (([z2b t] ++ payload) ++ rest)) (1 + len payload)) as [Hlt|_]; [rewrite !len_app in Hlt; len_solve|].
  rewrite En, take_app_length, drop_app_length. simpl. by rewrite b2z_z2b_u8.
Qed.

(** A message read from a prefix is read from the whole. *)
Lemma read_msg_app a b :
  match read_msg a with
  | Msg t p rest => read_msg (a ++ b) = Msg t p (rest ++ b) ∧ length rest < length a
  | BadLen => read_msg (a ++ b) = BadLen
  | Incomplete => True
  end.
Proof.
  unfold read_msg at 1. destruct (decide (length a < 4)) as [|H4]; [done|]. cbv zeta.
  set (n := from_be_bytes (slice 0 4 a)).
  assert (En : from_be_bytes (slice 0 4 (a ++ b)) = n).
  { unfold n, slice. rewrite !drop_0. by rewrite take_app_le by lia. }
  assert (Hn : (0 <= n)%Z) by (unfold n; pose proof (from_be_bytes_range (slice 0 4 a)); lia).
  destruct ((n =? 0)%Z || (MAX_MSG <? n)%Z)%bool eqn:Eb.
  - unfold read_msg. rewrite decide_False by len_solve. cbv zeta. by rewrite En, Eb.
  - destruct (Z.ltb_spec (len (drop 4 a)) n) as [|Hle]; [done|].
    destruct (take (Z.to_nat n) (drop 4 a)) as [|x p] eqn:Et; [done|]. split; [|rewrite !length_drop; lia].
    unfold read_msg. rewrite decide_False by len_solve. cbv zeta. rewrite En, Eb.
    rewrite (drop_app_le a b 4) by lia.
    destruct (Z.ltb_spec (len (drop 4 a ++ b)) n) as [Hlt|_]; [rewrite len_app in Hlt; pose proof (len_nonneg b); lia|].
    rewrite take_app_le, Et by (unfold len in Hle; lia). by rewrite drop_app_le by (unfold len in Hle; lia).
Qed.

Section LinkLemmas.
Context {po : PeerOrder}.
Implicit Types (h : LinkHandle) (r : Registry) (s : Store).

Lemma read_loop_S fuel input h r s :
  read_loop (S fuel) input h r s = match read_msg input with
    | Incomplete => Some (h, s, input)
    | BadLen => None
    | Msg t payload rest => let '(h, s) := link_read t payload h r s in read_loop fuel rest h r s
    end.
Proof. done. Qed.

Lemma read_loop_fuel fuel fuel' input h r s :
  length input < fuel → length input < fuel' → read_loop fuel input h r s = read_loop fuel' input h r s.
Proof.
  revert fuel' input h s. induction fuel as [|fuel IH]; intros fuel' input h s H1 H2; [lia|].
  destruct fuel' as [|fuel']; [lia|]. simpl. pose proof (read_msg_app input []) as HA.
  destruct (read_msg input) as [t p rest| |]; [|done|done]. destruct HA as [_ HA].
  destruct (link_read t p h r s) as [h' s']. apply IH; lia.
Qed.

(** Reading in pieces is reading at once. *)
Lemma link_input_app a b h r s :
  link_input (a ++ b) h r s = link_input a h r s ≫= λ '(h', s', buf), link_input (buf ++ b) h' r s'.
Proof.
  unfold link_input. assert (Hgen : ∀ fuel a h s, length a < fuel →
    read_loop (S (length (a ++ b))) (a ++ b) h r s
    = read_loop fuel a h r s ≫= λ '(h', s', buf), read_loop (S (length (buf ++ b))) (buf ++ b) h' r s').
  { clear a h s. induction fuel as [|fuel IH]; intros a h s Hl; [lia|]. rewrite (read_loop_S fuel).
    pose proof (read_msg_app a b) as HA. destruct (read_msg a) as [t p rest| |] eqn:Ea.
    - destruct HA as [HA' HA]. rewrite read_loop_S, HA'. destruct (link_read t p h r s) as [h' s']. rewrite <- (IH rest h' s') by lia.
      apply read_loop_fuel; [rewrite !length_app; lia|lia].
    - by rewrite read_loop_S, HA.
    - done. }
  apply Hgen. lia.
Qed.

Lemma link_input_msg t payload w rest h r s :
  read_msg (w ++ rest) = Msg t payload rest → 
  link_input (w ++ rest) h r s = let '(h', s') := link_read t payload h r s in link_input rest h' r s'.
Proof.
  intros E. unfold link_input at 1. simpl. rewrite E. destruct (link_read t payload h r s) as [h' s'].
  pose proof (read_msg_app (w ++ rest) []) as HA. rewrite E in HA. destruct HA as [_ HA].
  apply read_loop_fuel; lia.
Qed.

Lemma link_input_nil h r s : link_input [] h r s = Some (h, s, []).
Proof. done. Qed.

(** A RELAY message carries its band and frame. *)
Lemma link_read_relay band frame h r s :
  length band = BAND_ID_LEN → (len frame <= MAX_MSG)%Z →
  link_read T_RELAY (band ++ to_be_bytes 4 (wrap 32 (len frame)) ++ frame) h r s
  = (h, if lk_active h then inject_from_link band frame r s else s).
Proof.
  intros Hb Hl. pose proof (len_nonneg frame). destruct (u32_len (len frame)) as [Hw Hu]; [lia|]. rewrite Hw.
  unfold link_read. change ((T_RELAY =? T_BANDS)%Z) with false. change ((T_RELAY =? T_RELAY)%Z) with true. cbv iota.
  rewrite decide_False by (rewrite !length_app, length_to_be_bytes, Hb; lia).
  destruct (lk_active h); [|done]. cbn [negb]. cbv zeta.
  assert (Ef : slice BAND_ID_LEN (BAND_ID_LEN + 4) (band ++ to_be_bytes 4 (len frame) ++ frame) = to_be_bytes 4 (len frame)).
  { rewrite <- Hb at 1 2. rewrite slice_skip by lia. rewrite Nat.sub_diag. replace (length band + 4 - length band) with 4 by lia.
    apply slice_head, length_to_be_bytes. }
  rewrite Ef, from_to_be_u32 by done. rewrite slice_head by done. replace (Z.to_nat (len frame)) with (length frame) by len_solve.
  rewrite decide_False by (rewrite !length_app, length_to_be_bytes, Hb; lia). f_equal. f_equal.
  rewrite app_assoc. rewrite slice_skip by (rewrite length_app, length_to_be_bytes, Hb; lia).
  rewrite length_app, length_to_be_bytes, Hb. replace (BAND_ID_LEN + 4 - (BAND_ID_LEN + 4)) with 0 by lia.
  replace (BAND_ID_LEN + 4 + length frame - (BAND_ID_LEN + 4)) with (length frame) by lia. by apply slice_all.
Qed.
End LinkLemmas.

(** ** Band sets *)

Lemma decode_loop_concat (l : list bytes) off payload set :
  Forall (λ b, length b = BAND_ID_LEN) l → drop off payload = concat l →
  decode_loop (length l) off payload set = list_to_set l ∪ set.
Proof.
  revert off set. induction l as [|b l IH]; intros off set Hl Hd; [simpl; set_solver|].
  apply Forall_cons in Hl as [Hb Hl]. cbn [concat] in Hd.
  assert (Hlen : length (drop off payload) = BAND_ID_LEN + length (concat l)) by (rewrite Hd, length_app; lia).
  rewrite length_drop in Hlen. cbn [length decode_loop]. rewrite decide_False by (unfold BAND_ID_LEN in *; lia).
  assert (Es : slice off (off + BAND_ID_LEN) payload = b).
  { unfold slice. rewrite Hd. replace (off + BAND_ID_LEN - off) with (length b) by lia. apply take_app_length. }
  rewrite IH; [rewrite Es; simpl; set_solver|done|]. rewrite <- drop_drop, Hd. rewrite <- Hb. apply drop_app_length.
Qed.

Lemma decode_encode_bands (l : list bytes) :
  Forall (λ b, length b = BAND_ID_LEN) l → decode_bands (encode_bands l) = list_to_set (take (Z.to_nat u16_max) l).
Proof.
  intros Hl. unfold decode_bands, encode_bands. rewrite decide_False by len_solve.
  rewrite slice_head by apply length_to_be_bytes. pose proof (len_nonneg l). rewrite from_to_be_u16 by (unfold is_u16, u16_max; lia).
  replace (Z.to_nat (Z.min (len l) u16_max)) with (length (take (Z.to_nat u16_max) l))
    by (rewrite length_take; unfold len, u16_max; lia).
  rewrite decode_loop_concat; [set_solver|by apply Forall_take|].
  by rewrite (drop_app_length' _ _ 2) by (by rewrite length_to_be_bytes).
Qed.

(** * Streams of items *)

(** The items a writer can send: what a hub queues for a link. *)
Definition writable (item : bytes * bytes) : Prop :=
  length item.1 = BAND_ID_LEN ∧ (25 + len item.2 <= MAX_MSG)%Z.

(** What an item means to the hub that reads it. *)
Definition item_effect {po : PeerOrder} (r : Registry) (st : LinkHandle * Store) (item : bytes * bytes) : LinkHandle * Store :=
  let '(h, s) := st in
  if decide (item.1 = BANDS_MARKER) then (mkLink (lk_id h) (lk_queue h) (lk_open h) (decode_bands item.2) (lk_active h), s)
  else (h, if lk_active h then inject_from_link item.1 item.2 r s else s).

(** The writer run until its channel is empty. *)
Fixpoint writer_run (n : nat) (h : LinkHandle) : LinkHandle * bytes :=
  match n with
  | 0 => (h, [])
  | S n' => let '(h1, w) := link_write h in let '(h2, ws) := writer_run n' h1 in (h2, w ++ ws)
  end.

(** The reader fed with what arrives, piece by piece. *)
Definition link_feed {po : PeerOrder} (r : Registry) (st : option (LinkHandle * Store * bytes)) (piece : bytes)
    : option (LinkHandle * Store * bytes) :=
  st ≫= λ '(h, s, buf), link_input (buf ++ piece) h r s.

Section Streams.
Context {po : PeerOrder}.
Implicit Types (h : LinkHandle) (r : Registry) (s : Store).

Lemma item_input item h r s :
  writable item → ∃ w, link_message_of item = Ok w
    ∧ ∀ rest, link_input (w ++ rest) h r s = let '(h', s') := item_effect r (h, s) item in link_input rest h' r s'.
Proof.
  destruct item as [band frame]. intros [Hb Hl]. simpl in *. unfold link_message_of, item_effect. cbn [fst snd].
  pose proof (len_nonneg frame). destruct (decide (band = BANDS_MARKER)) as [->|Hm].
  - destruct (read_write_msg T_BANDS frame []) as (w & Ew & _ & _); [done|lia|]. exists w. split; [done|]. intros rest.
    destruct (read_write_msg T_BANDS frame rest) as (w' & Ew' & Er & _); [done|lia|]. rewrite Ew in Ew'. injection Ew' as <-.
    by rewrite (link_input_msg _ _ _ _ _ _ _ Er).
  - set (payload := band ++ to_be_bytes 4 (wrap 32 (len frame)) ++ frame).
    assert (Hp : (1 + len payload <= MAX_MSG)%Z).
    { subst payload. rewrite !len_app. unfold len at 1 2. rewrite length_to_be_bytes, Hb. unfold BAND_ID_LEN in *. lia. }
    destruct (read_write_msg T_RELAY payload []) as (w & Ew & _ & _); [done|done|]. exists w. split; [done|]. intros rest.
    destruct (read_write_msg T_RELAY payload rest) as (w' & Ew' & Er & _); [done|done|]. rewrite Ew in Ew'. injection Ew' as <-.
    rewrite (link_input_msg _ _ _ _ _ _ _ Er). subst payload. rewrite link_read_relay by (done || lia). done.
Qed.

Lemma writer_run_input h0 h r s :
  Forall writable (lk_queue h0) →
  let '(h0', wire) := writer_run (length (lk_queue h0)) h0 in
  h0' = mkLink (lk_id h0) [] (lk_open h0) (lk_bands h0) (lk_active h0)
  ∧ link_input wire h r s = let '(h', s') := foldl (item_effect r) (h, s) (lk_queue h0) in Some (h', s', []).
Proof.
  destruct h0 as [id q op bs ac]. cbn [lk_queue]. revert h s.
  induction q as [|item q IH]; intros h s Hq; cbn [length writer_run]; [done|].
  apply Forall_cons in Hq as [Hi Hq]. destruct (item_input item h r s Hi) as (w & Ew & HE).
  unfold link_write at 1. cbn [lk_queue]. rewrite Ew. cbn [lk_id lk_open lk_bands lk_active foldl].
  destruct (item_effect r (h, s) item) as [h1 s1]. specialize (IH h1 s1 Hq).
  destruct (writer_run (length q) _) as [h2 ws]. destruct IH as [-> IH]. split; [done|]. by rewrite HE, IH.
Qed.

Lemma link_feed_concat pieces h r s buf :
  foldl (link_feed r) (link_input buf h r s) pieces = link_input (buf ++ concat pieces) h r s.
Proof.
  revert buf. induction pieces as [|p pieces IH]; intros buf; simpl; [by rewrite app_nil_r|].
  assert (E : link_feed r (link_input buf h r s) p = link_input (buf ++ p) h r s) by (by rewrite link_input_app).
  rewrite E, app_assoc. apply IH.
Qed.
End Streams.

(** * Claims *)

Lemma of_band_length band frame : of_band band frame → length band = BAND_ID_LEN.
Proof.
  intros (info & Hi & <- & _). unfold route_info in Hi. case_decide as Hl; [done|]. injection Hi as <-. simpl.
  rewrite length_slice by (unfold MIN_PACKET_LEN, BAND_ID_LEN in *; simpl in *; lia). done.
Qed.

(** A link is a reliable queue between two hubs: when the writer of one has
    sent everything queued for the link, the reader of the other, however the
    stream is cut into pieces, has acted on exactly those items in their order,
    has nothing left over, and the writer goes on: every advertisement replaced
    the remote's band set and every relayed frame was injected (unless the link
    is revoked). *)
Theorem link_stream_relays {po : PeerOrder} (sender receiver : LinkHandle) (r : Registry) (s : Store) (pieces : list bytes) :
  Forall writable (lk_queue sender) →
  let '(sender', wire) := writer_run (length (lk_queue sender)) sender in
  concat pieces = wire →
  lk_queue sender' = [] ∧ lk_open sender' = lk_open sender
  ∧ foldl (link_feed r) (Some (receiver, s, [])) pieces
    = let '(receiver', s') := foldl (item_effect r) (receiver, s) (lk_queue sender) in Some (receiver', s', []).
Proof.
  intros Hq. pose proof (writer_run_input sender receiver r s Hq) as HW.
  destruct (writer_run _ _) as [sender' wire]. destruct HW as [-> HW]. intros <-. split_and!; [done|done|].
  rewrite <- HW, <- (link_feed_concat pieces receiver r s []). done.
Qed.

(** The bands a hub advertises, at most 65535 of them, are the bands the
    linked hub then relays for. *)
Theorem bands_advertised {po : PeerOrder} (r r' : Registry) (s : Store) (bands : list bytes) (sender receiver : LinkHandle) (since : Z) :
  bands ≡ₚ local_bands r' → Forall (λ b, length b = BAND_ID_LEN) bands → (len bands <= u16_max)%Z →
  lk_open sender = true → lk_queue sender = [] →
  let '(a, sender') := advertise_tick bands (mkAdvertiser None since) sender in
  adv_last a = Some (list_to_set (local_bands r'))
  ∧ ∃ sender'' wire, link_write sender' = (sender'', wire) ∧ lk_queue sender'' = []
    ∧ ∃ receiver', link_input wire receiver r s = Some (receiver', s, [])
      ∧ ∀ b, b ∈ lk_bands receiver' ↔ b ∈ local_bands r'.
Proof.
  intros Hp Hf Hl Ho Hq. unfold advertise_tick. rewrite Ho. cbn [negb adv_last adv_since].
  rewrite bool_decide_true by done. cbn [orb].
  assert (Hw : writable (BANDS_MARKER, encode_bands bands)).
  { split; [done|]. cbn [snd]. unfold encode_bands. rewrite len_app.
    assert (Hc : (len (concat (take (Z.to_nat u16_max) bands)) <= 16 * 65535)%Z).
    { assert (Hg : ∀ l : list bytes, Forall (λ b, length b = BAND_ID_LEN) l → len (concat l) = (16 * len l)%Z).
      { induction l as [|b l IH]; intros Hl'; [done|]. apply Forall_cons in Hl' as [Hb Hl'].
        simpl. rewrite len_app, (IH Hl'), len_cons. unfold len at 1. rewrite Hb. unfold BAND_ID_LEN. lia. }
      rewrite Hg by (by apply Forall_take). unfold len. rewrite length_take. unfold u16_max. lia. }
    unfold len at 1. rewrite length_to_be_bytes. unfold MAX_MSG. lia. }
  unfold link_try_send. rewrite Ho, Hq. rewrite bool_decide_true by (simpl; unfold LINK_QUEUE; lia). cbn [andb].
  split; [cbn [adv_last]; f_equal; by rewrite Hp|].
  destruct (item_input _ receiver r s Hw) as (w & Ew & HE). unfold link_write. cbn [lk_queue app]. rewrite Ew.
  eexists _, w. split; [reflexivity|]. split; [done|]. specialize (HE []). rewrite app_nil_r in HE. rewrite HE.
  unfold item_effect. cbn [fst snd]. rewrite decide_True by done. eexists. split; [apply link_input_nil|].
  intros b. cbn [lk_bands]. rewrite decode_encode_bands, take_ge by (done || (unfold u16_max in *; len_solve)).
  rewrite elem_of_list_to_set. by rewrite Hp.
Qed.

(** C27: a frame a peer sent on one hub crosses an active link: the egress task
    queues it for every active link whose remote advertised the band. When the
    link's queue was empty and the frame fits a link message (25 bytes of
    framing in at most 4 MiB), the writer sends it as one message and goes on,
    and the reader of the other hub offers it to that hub's own peers of the
    band and to nobody else: given room in the byte budget, each peer meant to
    receive it gets it once, every other queue is as it was, a hub without the
    band drops it; the hub keeps its invariant. Over a link revoked at the
    other hub nothing happens. *)
Theorem federated_relay {inja injb : Injected} {po : PeerOrder} {pos : PeerOrderSpec po} (a b : HubState) (band frame : bytes)
    (q : list (bytes * bytes)) (ls : LinkSet) (out inn : LinkHandle) :
  HubInv (inj := inja) a → HubInv (inj := injb) b → fed (hub_reg a) = Some ((band, frame) :: q) → out ∈ links ls →
  lk_active out = true → band ∈ lk_bands out → lk_open out = true → lk_queue out = [] →
  band ≠ BANDS_MARKER → (25 + len frame <= MAX_MSG)%Z →
  let '(r', ls') := fan_egress (hub_reg a) ls in
  fed r' = Some q ∧ links ls' = fan_one (band, frame) <$> links ls
  ∧ ∃ wire s', link_write (fan_one (band, frame) out) = (out, wire)
    ∧ link_input wire inn (hub_reg b) (hub_store b) = Some (inn, s', [])
    ∧ HubInv (inj := injb) (mkHubState (hub_reg b) s' (hub_conns b))
    ∧ (lk_active inn = true → ∃ info, route_info frame = Some info
       ∧ match bands (hub_reg b) !! band with
         | Some peers => budget_room (hub_store b) frame (size peers) → delivered peers None info frame (hub_store b) s'
         | None => s' = hub_store b
         end)
    ∧ (lk_active inn = false → s' = hub_store b).
Proof.
  intros Ha Hb Hf Hin Hact Hbands Hopen Hq Hm Hl. unfold fan_egress, take_federated. rewrite Hf. split_and!; [done|done|].
  assert (Hc : of_band band frame).
  { pose proof (sv_fed _ _ (hv_sinks _ Ha)) as HF. rewrite Hf in HF. by apply Forall_cons in HF as [HF _]. }
  assert (Hw : writable (band, frame)) by (split; [by apply (of_band_length band frame)|done]).
  destruct (item_input _ inn (hub_reg b) (hub_store b) Hw) as (w & Ew & HE).
  assert (Eo : link_write (fan_one (band, frame) out) = (out, w)).
  { unfold fan_one, link_try_send. rewrite Hact, Hopen, Hq. cbn [negb fst].
    rewrite !bool_decide_true by (simpl; unfold LINK_QUEUE; done || lia). unfold link_write. cbn [lk_queue andb app]. rewrite Ew.
    destruct out; simpl in *. by subst. }
  specialize (HE []). rewrite app_nil_r in HE. unfold item_effect in HE. cbn [fst snd] in HE. rewrite decide_False in HE by done.
  exists w. destruct (lk_active inn) eqn:Ea; eexists; (split; [exact Eo|]); (split; [rewrite HE; apply link_input_nil|]).
  - split_and!; [|intros _|done].
    + apply hub_relays; [done|]. apply inject_relays; [apply Hb..|by left].
    + destruct Hc as (info & Hi & _ & Ht). exists info. split; [done|]. unfold inject_from_link. rewrite Hi, decide_False by done.
      destruct (bands (hub_reg b) !! band) as [peers|] eqn:Eb; [|done].
      apply (targets_delivered (hub_reg b) _ band); [apply Hb..|done].
  - split_and!; [by destruct b|done|done].
Qed.

(** A revoked link relays nothing, whatever arrives on it and whatever the
    hub's own peers send: no queue of the hub changes and nothing is queued for
    the link. *)
Theorem revoked_link_inert {po : PeerOrder} (h : LinkHandle) (r : Registry) (s : Store) (pieces : list bytes) (item : bytes * bytes) :
  lk_active h = false →
  fan_one item h = h
  ∧ ∀ h' s' buf, foldl (link_feed r) (Some (h, s, [])) pieces = Some (h', s', buf) → s' = s ∧ lk_active h' = false ∧ fan_one item h' = h'.
Proof.
  intros Ha. split; [unfold fan_one; by rewrite Ha|]. intros h' s' buf.
  change (Some (h, s, [])) with (link_input [] h r s). rewrite link_feed_concat. unfold link_input.
  generalize (S (length ([] ++ concat pieces))) as fuel. generalize ([] ++ concat pieces) as input. intros input fuel.
  assert (Hgen : ∀ fuel input h, lk_active h = false → read_loop fuel input h r s = Some (h', s', buf) → s' = s ∧ lk_active h' = false).
  { clear. induction fuel as [|fuel IH]; intros input h Ha; [by intros [= <- <- <-]|]. rewrite read_loop_S.
    destruct (read_msg input) as [t p rest| |]; [|done|by intros [= <- <- <-]].
    assert (Hr : ∃ h1, link_read t p h r s = (h1, s) ∧ lk_active h1 = false).
    { unfold link_read. destruct (t =? T_BANDS)%Z; [by eexists|]. destruct (t =? T_RELAY)%Z; [|by eexists].
      destruct (decide _); [by eexists|]. rewrite Ha. by eexists. }
    destruct Hr as (h1 & -> & H1). by apply IH. }
  intros E. destruct (Hgen _ _ _ Ha E) as [-> Ha']. split_and!; [done|done|]. unfold fan_one. by rewrite Ha'.
Qed.

(** What can happen to one side of a link that is up. *)
Inductive link_event :=
| LFan (item : bytes * bytes)
| LAdvertise (bands : list bytes)
| LWrite
| LRead (t : Z) (payload : bytes) (r : Registry) (s : Store).

Definition link_step {po : PeerOrder} (st : Advertiser * LinkHandle * bytes) (e : link_event) : Advertiser * LinkHandle * bytes :=
  let '(a, h, sent) := st in
  match e with
  | LFan item => (a, fan_one item h, sent)
  | LAdvertise bands => let '(a, h) := advertise_tick bands a h in (a, h, sent)
  | LWrite => let '(h, w) := link_write h in (a, h, sent ++ w)
  | LRead t payload r s => (a, (link_read t payload h r s).1, sent)
  end.

(** A closed channel with nothing in it stays so. *)
Definition wedged (h : LinkHandle) : Prop := lk_open h = false ∧ lk_queue h = [].

Lemma wedged_step {po : PeerOrder} a h sent e :
  wedged h → let '(a', h', sent') := link_step (a, h, sent) e in wedged h' ∧ sent' = sent ∧ lk_id h' = lk_id h.
Proof.
  intros [Ho Hq]. destruct e as [item|bands| |t payload r s]; simpl.
  - unfold fan_one, link_try_send. rewrite Ho. cbn [andb]. by destruct (negb (lk_active h)), (bool_decide (item.1 ∈ lk_bands h)).
  - unfold advertise_tick. rewrite Ho. by split_and!.
  - unfold link_write. rewrite Hq, app_nil_r. by split_and!.
  - assert (Hr : (link_read t payload h r s).1 = h
      ∨ ∃ bs, (link_read t payload h r s).1 = mkLink (lk_id h) (lk_queue h) (lk_open h) bs (lk_active h)).
    { unfold link_read. destruct (t =? T_BANDS)%Z; [right; by eexists|]. left. by repeat case_match. }
    destruct Hr as [->|[bs ->]]; by split_and!.
Qed.

(** A frame too large for a link message ends the link's writer but not the
    link: it stays in the link set, and whatever happens then, no frame and no
    advertisement is ever sent on it again, until the remote hangs up. *)
Theorem oversized_frame_wedges_link {po : PeerOrder} (a : Advertiser) (h : LinkHandle) (band frame : bytes) (rest : list (bytes * bytes))
    (es : list link_event) :
  lk_queue h = (band, frame) :: rest → length band = BAND_ID_LEN → band ≠ BANDS_MARKER → (MAX_MSG < 21 + len frame <= u32_max)%Z →
  let '(a', h', sent) := foldl link_step (a, h, []) (LWrite :: es) in
  sent = [] ∧ lk_open h' = false ∧ lk_id h' = lk_id h.
Proof.
  intros Hq Hb Hm Hl. cbn [foldl link_step].
  assert (Ew : link_write h = (mkLink (lk_id h) [] false (lk_bands h) (lk_active h), [])).
  { unfold link_write. rewrite Hq. cbn [link_message_of]. rewrite decide_False by done. unfold write_msg. cbv zeta.
    assert (Ep : len (band ++ to_be_bytes 4 (wrap 32 (len frame)) ++ frame) = (20 + len frame)%Z)
      by (unfold BAND_ID_LEN in Hb; len_solve).
    rewrite Ep. unfold u32_max, MAX_MSG in *. replace (wrap 32 (1 + (20 + len frame))) with (21 + len frame)%Z
      by (unfold wrap; rewrite Z.mod_small; lia).
    by destruct (Z.ltb_spec (4 * 1024 * 1024) (21 + len frame)); [|lia]. }
  rewrite Ew. cbn [app]. set (h1 := mkLink _ _ _ _ _).
  assert (Hw : wedged h1 ∧ lk_id h1 = lk_id h) by done. clearbody h1. clear Ew.
  assert (Hgen : ∀ es a h1 sent, wedged h1 →
    let '(a', h', sent') := foldl link_step (a, h1, sent) es in sent' = sent ∧ lk_open h' = false ∧ lk_id h' = lk_id h1).
  { clear. induction es as [|e es IH]; intros a h1 sent Hw; [by split_and!; [|apply Hw|]|]. cbn [foldl].
    pose proof (wedged_step a h1 sent e Hw) as HS. destruct (link_step (a, h1, sent) e) as [[a' h'] sent'].
    destruct HS as (Hw' & -> & <-). by apply IH. }
  destruct Hw as [Hw <-]. by apply Hgen.
Qed.

(** A frame of the band whose id is all [0xFF] is not relayed but sent as an
    advertisement: the remote replaces its view of this hub's bands by what the
    frame happens to decode to, and stops relaying every other band. *)
Theorem marker_band_overwrites_advertisement {po : PeerOrder} (h : LinkHandle) (r : Registry) (s : Store) (frame : bytes) :
  route_info frame = Some (mkRouteInfo BANDS_MARKER (Some Stream) 0) → (25 + len frame <= MAX_MSG)%Z →
  ∃ wire, link_message_of (BANDS_MARKER, frame) = Ok wire
    ∧ link_input wire h r s = Some (mkLink (lk_id h) (lk_queue h) (lk_open h) (decode_bands frame) (lk_active h), s, [])
    ∧ ∀ band f, band ∉ decode_bands frame →
        fan_one (band, f) (mkLink (lk_id h) (lk_queue h) (lk_open h) (decode_bands frame) (lk_active h))
        = mkLink (lk_id h) (lk_queue h) (lk_open h) (decode_bands frame) (lk_active h).
Proof.
  intros Hi Hl. destruct (item_input (BANDS_MARKER, frame) h r s) as (w & Ew & HE); [by split|].
  exists w. split; [done|]. specialize (HE []). rewrite app_nil_r in HE. split; [by rewrite HE|].
  intros band f Hn. unfold fan_one. cbn [lk_active lk_bands fst]. rewrite bool_decide_false by done. by destruct (negb _).
Qed.

(** ** Witnesses *)

Definition band1 : bytes := sample_band Byte.x01.
Definition band2 : bytes := sample_band Byte.x02.
Definition sample_link (q : list (bytes * bytes)) : LinkHandle := mkLink 1 q true {[ band1 ]} true.

Definition sample_sender : LinkHandle :=
  sample_link [(band1, sample_frame band1 Stream 0); (BANDS_MARKER, encode_bands [band1; band2])].
Definition sample_wire : bytes := (writer_run 2 sample_sender).2.
Definition sample_pieces : list bytes := [take 7 sample_wire; drop 7 (take 50 sample_wire); drop 50 sample_wire].

Lemma link_stream_relays_witness :
  foldl (@link_feed sample_order (hub_reg sample_hub)) (Some (sample_link [], hub_store sample_hub, [])) sample_pieces
  = Some (mkLink 1 [] true (decode_bands (encode_bands [band1; band2])) true,
          @inject_from_link sample_order band1 (sample_frame band1 Stream 0) (hub_reg sample_hub) (hub_store sample_hub), []).
Proof.
  assert (Hw : Forall writable (lk_queue sample_sender)) by (repeat constructor; vm_compute; discriminate).
  assert (Hc : concat sample_pieces = sample_wire) by (vm_compute; reflexivity).
  generalize (hub_reg sample_hub) (hub_store sample_hub). intros r s.
  pose proof (@link_stream_relays sample_order sample_sender (sample_link []) r s sample_pieces Hw) as HT.
  unfold sample_wire in Hc. change (length (lk_queue sample_sender)) with 2 in HT.
  destruct (writer_run 2 sample_sender) as [sender' wire]. destruct (HT Hc) as (_ & _ & HF). exact HF.
Defined.

Lemma bands_advertised_witness :
  ∃ wire receiver', @link_input sample_order wire (sample_link []) (Registry_new sample_limits) (hub_store sample_hub)
      = Some (receiver', hub_store sample_hub, []) ∧ band1 ∈ lk_bands receiver'.
Proof.
  assert (Hl : local_bands (hub_reg sample_hub) = [band1]) by (vm_compute; reflexivity).
  revert Hl. generalize (hub_reg sample_hub) (hub_store sample_hub). intros r' s Hl.
  pose proof (@bands_advertised sample_order (Registry_new sample_limits) r' s [band1] (sample_link []) (sample_link []) 0) as HT.
  rewrite Hl in HT. specialize (HT ltac:(reflexivity) ltac:(repeat constructor) ltac:(vm_compute; discriminate) eq_refl eq_refl).
  destruct (advertise_tick _ _ _) as [a sender']. destruct HT as (_ & sender'' & wire & _ & _ & receiver' & E & Hb).
  exists wire, receiver'. split; [exact E|]. apply Hb. by left.
Defined.

Lemma federated_relay_witness :
  ∃ wire s' q, @link_input sample_order wire (sample_link []) (hub_reg sample_hub) (hub_store sample_hub) = Some (sample_link [], s', [])
    ∧ queues (hub_store sample_hub) !! 1 = Some q ∧ queues s' !! 1 = Some (push 1 (sample_frame band1 Stream 0) q).
Proof.
  assert (Hf : ∃ q, fed (hub_reg sample_hub) = Some ((band1, sample_frame band1 Stream 0) :: q))
    by (eexists; vm_compute; reflexivity).
  set (p := mkPeerEntry (Some (SinkUdp 1 (sample_addr 2))) 2 3 true 2 (Some 7%Z)).
  assert (Ep : bands (hub_reg sample_hub) !! band1 ≫= (.!! Udp (sample_addr 2)) = Some p) by (vm_compute; reflexivity).
  assert (En : size <$> (bands (hub_reg sample_hub) !! band1) = Some 3) by (vm_compute; reflexivity).
  assert (Er : has_room <$> (queues (hub_store sample_hub) !! 1) = Some true) by (vm_compute; reflexivity).
  assert (Eb : budget_room (hub_store sample_hub) (sample_frame band1 Stream 0) 3)
    by (split; [vm_compute; discriminate|right; vm_compute; discriminate]).
  pose proof sample_hub_inv as HI. revert Hf Ep En Er Eb HI. generalize sample_hub. intros h [q Hf] Ep En Er Eb HI.
  pose proof (@federated_relay (λ _ _, False) (λ _ _, False) sample_order sample_order_spec h h band1 (sample_frame band1 Stream 0) q
    (mkLinkSet [sample_link []] 2) (sample_link []) (sample_link []) HI HI Hf ltac:(by left) eq_refl ltac:(set_solver) eq_refl eq_refl
    ltac:(discriminate) ltac:(vm_compute; discriminate)) as HT.
  destruct (fan_egress _ _) as [r' ls']. destruct HT as (_ & _ & wire & s' & _ & E & _ & HD & _).
  destruct (HD eq_refl) as (info & Hi & HD'). destruct (queues (hub_store h) !! 1) as [q1|] eqn:Eq; [|discriminate].
  exists wire, s', q1. split; [exact E|]. split; [done|].
  destruct (bands (hub_reg h) !! band1) as [peers|] eqn:Hb; [|discriminate]. injection En as En. injection Er as Er.
  rewrite En in HD'. destruct (HD' Eb) as [HD'' _].
  apply (HD'' (Udp (sample_addr 2)) p (SinkUdp 1 (sample_addr 2)) q1 Ep eq_refl Eq); [|exact Er].
  split_and!; [done|done|]. intros (Ht & _). change (route_info _) with (Some (mkRouteInfo band1 (Some Stream) 0)) in Hi.
  injection Hi as <-. discriminate Ht.
Defined.

Lemma revoked_link_inert_witness :
  fan_one (band1, sample_frame band1 Stream 0) (mkLink 1 [] true {[ band1 ]} false) = mkLink 1 [] true {[ band1 ]} false.
Proof.
  apply (@revoked_link_inert sample_order (mkLink 1 [] true {[ band1 ]} false) (hub_reg sample_hub) (hub_store sample_hub) sample_pieces
    (band1, sample_frame band1 Stream 0)). reflexivity.
Defined.

Definition huge_frame : bytes := replicate (Z.to_nat MAX_MSG) Byte.x00.

Lemma oversized_frame_wedges_link_witness :
  (foldl (@link_step sample_order) (Advertiser_new, sample_link [(band1, huge_frame)], []) [LWrite; LAdvertise [band1]; LWrite]).2 = [].
Proof.
  assert (Hl : (MAX_MSG < 21 + len huge_frame <= u32_max)%Z).
  { unfold huge_frame, len. rewrite length_replicate, Z2Nat.id by (vm_compute; discriminate). split; vm_compute; congruence. }
  pose proof (@oversized_frame_wedges_link sample_order Advertiser_new (sample_link [(band1, huge_frame)]) band1 huge_frame []
    [LAdvertise [band1]; LWrite] eq_refl eq_refl ltac:(discriminate) Hl) as HT.
  destruct (foldl _ _ _) as [[a' h'] sent]. by destruct HT as (-> & _).
Defined.

Lemma marker_band_overwrites_advertisement_witness :
  ∃ wire receiver', @link_input sample_order wire (sample_link []) (hub_reg sample_hub) (hub_store sample_hub)
      = Some (receiver', hub_store sample_hub, [])
    ∧ fan_one (band1, sample_frame band1 Stream 0) receiver' = receiver'.
Proof.
  destruct (@marker_band_overwrites_advertisement sample_order (sample_link []) (hub_reg sample_hub) (hub_store sample_hub)
    (sample_frame BANDS_MARKER Stream 0)) as (wire & _ & E & Hno); [reflexivity|vm_compute; discriminate|].
  eexists wire, _. split; [exact E|]. apply Hno. apply (bool_decide_unpack _). vm_compute. exact I.
Defined.
