(* ===== verification/Sessions.v ===== *)
(** WebTransport and AF_UNIX sessions of the hub ([rust/telesthitium/src/wt.rs]
    and [unix.rs]): the band named by a session's URL, the carrier each relayed
    frame is put on, the length-prefixed framing of reliable streams, and the
    sockets that follow the set of active bands. *)

From S2P Require Import Prelude Crypto Framing HubFrame Registry.

(** * Strings

    A [&str] is its UTF-8 bytes; splitting at an ASCII character does not cut
    others. *)
Fixpoint split_once (c : byte) (s : bytes) : option (bytes * bytes) :=
  match s with
  | [] => None
  | b :: rest => if decide (b = c) then Some ([], rest)
                 else (λ '(x, y), (b :: x, y)) <$> split_once c rest
  end.

Fixpoint split (c : byte) (s : bytes) : list bytes :=
  match s with
  | [] => [[]]
  | b :: rest =>
      match split c rest with
      | field :: fields => if decide (b = c) then [] :: field :: fields else (b :: field) :: fields
      | [] => []
      end
  end.

Definition strip_prefix (p s : bytes) : option bytes :=
  if decide (take (length p) s = p) then Some (drop (length p) s) else None.

Fixpoint find_map {A B} (f : A → option B) (l : list A) : option B :=
  match l with
  | [] => None
  | x :: rest => match f x with Some y => Some y | None => find_map f rest end
  end.

Definition DEFAULT_WT_PATH : bytes := str_bytes "/telesthete".

Definition parse_band (path : bytes) : outcome (option bytes) :=
  match split_once Byte.x3f path with
  | None => Ret None
  | Some (route, query) =>
      if decide (route ≠ DEFAULT_WT_PATH) then Ret None
      else match find_map (strip_prefix (str_bytes "band=")) (split Byte.x26 query) with
           | None => Ret None
           | Some hex => band_from_hex hex
           end
  end.

(** * Reliable streams *)

Definition WT_STREAM_LEN_PREFIX : nat := 2.
Definition MAX_EGRESS_CHANNELS : nat := 64.

(** [write_framed]: the bytes written, and whether the stream is kept; [ok] says
    whether the stream accepted the two writes, and when it did not, [cut] is how many
    bytes of prefix and frame it had taken before it failed. *)
Definition write_framed (ok : bool) (cut : nat) (frame : bytes) : bytes * bool :=
  if (u16_max <? len frame)%Z then ([], true)
  else if ok then (to_be_bytes 2 (len frame) ++ frame, true) else (take cut (to_be_bytes 2 (len frame) ++ frame), false).

(** [read_one_frame] on the bytes of a stream: a frame and what follows. *)
Definition read_one_frame (s : bytes) : option (bytes * bytes) :=
  if decide (length s < WT_STREAM_LEN_PREFIX) then None else
  let n := Z.to_nat (from_be_bytes (slice 0 2 s)) in
  let body := drop 2 s in
  if decide (length body < n) then None else Some (take n body, drop n body).

(** The frames [read_framed_stream] takes off a stream until it ends. *)
Fixpoint read_frames (fuel : nat) (s : bytes) : list bytes :=
  match fuel with
  | 0 => []
  | S fuel' => match read_one_frame s with Some (frame, rest) => frame :: read_frames fuel' rest | None => [] end
  end.

Definition stream_frames (s : bytes) : list bytes := read_frames (length s) s.

(** * Egress *)

(** [egress_writer]'s state: the open stream of each channel id, the order in
    which they were opened, the control stream. [streams] holds the bytes
    written to each stream ever opened. *)
Record Egress := mkEgress {
  channels : gmap Z nat;
  order : list Z;
  control : option nat;
  streams : list bytes;
  datagrams : list bytes;
}.

Definition Egress_new : Egress := mkEgress ∅ [] None [] [].

(** What the connection does while one frame is sent: its datagram limit,
    whether a stream can be opened, whether the writes succeed, and what a failing write
    had taken. *)
Record ConnResult := mkConnResult { max_datagram : option Z; can_open : bool; can_write : bool; cut : nat }.

(** The eviction loop before a new channel stream is opened. *)
Fixpoint evict_channels (order : list Z) (channels : gmap Z nat) : list Z * gmap Z nat :=
  if decide (size channels < MAX_EGRESS_CHANNELS) then (order, channels)
  else match order with
       | old :: rest => evict_channels rest (delete old channels)
       | [] => ([], channels)
       end.

Definition append_stream (i : nat) (w : bytes) (streams : list bytes) : list bytes := alter (λ x, x ++ w) i streams.

Definition open_channel (c : ConnResult) (cid : Z) (st : Egress) : Egress :=
  if decide (is_Some (channels st !! cid)) then st else
  let '(ord, chs) := evict_channels (order st) (channels st) in
  if can_open c
  then mkEgress (<[cid := length (streams st)]> chs) (ord ++ [cid]) (control st) (streams st ++ [[]]) (datagrams st)
  else mkEgress chs ord (control st) (streams st) (datagrams st).

Definition send_channel (c : ConnResult) (cid : Z) (frame : bytes) (st : Egress) : Egress :=
  let st := open_channel c cid st in
  match channels st !! cid with
  | None => st
  | Some i =>
      let '(w, kept) := write_framed (can_write c) (cut c) frame in
      mkEgress (if kept then channels st else delete cid (channels st)) (order st) (control st)
        (append_stream i w (streams st)) (datagrams st)
  end.

Definition send_control (c : ConnResult) (frame : bytes) (st : Egress) : Egress :=
  let st := match control st with
            | Some _ => st
            | None => if can_open c
                      then mkEgress (channels st) (order st) (Some (length (streams st))) (streams st ++ [[]]) (datagrams st)
                      else st
            end in
  match control st with
  | None => st
  | Some i =>
      let '(w, kept) := write_framed (can_write c) (cut c) frame in
      mkEgress (channels st) (order st) (if kept then Some i else None) (append_stream i w (streams st)) (datagrams st)
  end.

(** One frame off the queue. *)
Definition egress_frame (st : Egress) (x : ConnResult * bytes) : Egress :=
  let '(c, frame) := x in
  match route_info frame with
  | None => st
  | Some info =>
      match ri_channel_type info with
      | Some Stream =>
          if match max_datagram c with Some m => (m <? len frame)%Z | None => false end then st
          else if negb (can_write c) then st
          else mkEgress (channels st) (order st) (control st) (streams st) (datagrams st ++ [frame])
      | Some Channel => send_channel c (ri_channel_id info) frame st
      | _ => send_control c frame st
      end
  end.

Definition egress_run (xs : list (ConnResult * bytes)) : Egress := foldl egress_frame Egress_new xs.

(** * AF_UNIX sockets *)

(** One tick of [reconcile]: [bind] says which sockets could be bound. *)
Definition reconcile (bind : bytes → bool) (want : list bytes) (active : gset bytes) : gset bytes :=
  filter (λ band, band ∈ want) (foldl (λ a band, if decide (band ∈ a) then a else if bind band then {[ band ]} ∪ a else a) active want).

Definition RECV_BUF : Z := 128 * 1024.

(** A message of [n] bytes received into the buffer by [serve_peer]: [None]
    closes the connection. *)
Definition unix_message {po : PeerOrder} (band : bytes) (key : PeerKey) (msg : bytes) (now : Z) (r : Registry) (s : Store)
    : option (Registry * Store) :=
  if decide (msg = []) then None
  else if (RECV_BUF <? len msg)%Z then Some (r, s)
  else Some (pinned_frame band key msg now r s).

(** ** Lemmas *)

Lemma read_one_framed frame rest :
  (len frame <= u16_max)%Z → read_one_frame (to_be_bytes 2 (len frame) ++ frame ++ rest) = Some (frame, rest).
Proof.
  intros Hl. pose proof (len_nonneg frame). unfold read_one_frame. rewrite decide_False by (unfold WT_STREAM_LEN_PREFIX; len_solve).
  rewrite slice_head by apply length_to_be_bytes. rewrite from_to_be_u16 by (unfold is_u16, u16_max in *; lia).
  rewrite (drop_app_length' _ _ 2) by (by rewrite length_to_be_bytes).
  replace (Z.to_nat (len frame)) with (length frame) by len_solve. cbv zeta. rewrite decide_False by len_solve.
  by rewrite take_app_length, drop_app_length.
Qed.

Lemma read_one_frame_shorter s frame rest : read_one_frame s = Some (frame, rest) → length rest < length s.
Proof.
  unfold read_one_frame. destruct (decide _) as [|H]; [done|]. cbv zeta. destruct (decide _); [done|].
  intros [= <- <-]. rewrite !length_drop. unfold WT_STREAM_LEN_PREFIX in H. lia.
Qed.

Lemma read_frames_fuel fuel fuel' s : length s ≤ fuel → length s ≤ fuel' → read_frames fuel s = read_frames fuel' s.
Proof.
  revert fuel' s. induction fuel as [|fuel IH]; intros fuel' s H1 H2.
  - destruct s; [|simpl in *; lia]. by destruct fuel'.
  - destruct fuel' as [|fuel'].
    + by destruct s; [|simpl in *; lia].
    + simpl. destruct (read_one_frame s) as [[frame rest]|] eqn:E; [|done]. apply read_one_frame_shorter in E.
      f_equal. apply IH; lia.
Qed.

Lemma stream_frames_cons frame rest :
  (len frame <= u16_max)%Z → stream_frames (to_be_bytes 2 (len frame) ++ frame ++ rest) = frame :: stream_frames rest.
Proof.
  intros Hl. unfold stream_frames. pose proof (read_one_framed frame rest Hl) as E.
  set (s := to_be_bytes 2 (len frame) ++ frame ++ rest) in *. destruct (length s) as [|n] eqn:En.
  - apply nil_length_inv in En. by rewrite En in E.
  - simpl. rewrite E. f_equal. apply read_one_frame_shorter in E. apply read_frames_fuel; lia.
Qed.

Definition framed (fs : list bytes) : bytes := concat ((λ f, to_be_bytes 2 (len f) ++ f) <$> fs).

Lemma stream_frames_framed fs : Forall (λ f, (len f <= u16_max)%Z) fs → stream_frames (framed fs) = fs.
Proof.
  induction fs as [|f fs IH]; intros H; [done|]. apply Forall_cons in H as [Hf H]. unfold framed. rewrite fmap_cons. cbn [concat].
  rewrite <- app_assoc. rewrite stream_frames_cons by done. f_equal. by apply IH.
Qed.

Lemma framed_snoc fs f : framed (fs ++ [f]) = framed fs ++ to_be_bytes 2 (len f) ++ f.
Proof. unfold framed. rewrite fmap_app, concat_app. cbn [fmap list_fmap concat]. by rewrite app_nil_r. Qed.

(** ** Carriers *)

(** The reliable carrier of a frame: the stream of its channel id, or the
    control stream ([None] inside). Stream frames and malformed ones have
    none. *)
Definition carrier (frame : bytes) : option (option Z) :=
  match route_info frame with
  | None => None
  | Some info =>
      match ri_channel_type info with
      | Some Stream => None
      | Some Channel => Some (Some (ri_channel_id info))
      | _ => Some None
      end
  end.

Definition is_stream (frame : bytes) : bool :=
  match route_info frame with Some info => bool_decide (ri_channel_type info = Some Stream) | None => false end.

Definition frames_of (key : option Z) (fs : list bytes) : list bytes := filter (λ f, carrier f = Some key) fs.

Definition stream_of (st : Egress) (key : option Z) : option nat :=
  match key with Some cid => channels st !! cid | None => control st end.

(** Each carrier in use has a stream of its own that holds its frames. *)
Record EgInv (fs : list bytes) (st : Egress) : Prop := {
  eg_frames : ∀ key, frames_of key fs ≠ [] → ∃ i, stream_of st key = Some i ∧ streams st !! i = Some (framed (frames_of key fs));
  eg_used : ∀ key i, stream_of st key = Some i → frames_of key fs ≠ [];
  eg_inj : ∀ k1 k2 i, stream_of st k1 = Some i → stream_of st k2 = Some i → k1 = k2;
  eg_datagrams : datagrams st = filter (λ f, is_stream f = true) fs;
}.

(** A frame put on the carrier [key]. *)
Record carried (key : option Z) (frame : bytes) (st st' : Egress) : Prop := {
  cd_others : ∀ k, k ≠ key → stream_of st' k = stream_of st k;
  cd_stream : ∃ i w, stream_of st' key = Some i ∧ streams st' !! i = Some (w ++ to_be_bytes 2 (len frame) ++ frame)
    ∧ (stream_of st key = Some i ∧ streams st !! i = Some w ∨ stream_of st key = None ∧ i = length (streams st) ∧ w = []);
  cd_rest : ∀ i j, stream_of st' key = Some i → j ≠ i → j < length (streams st) → streams st' !! j = streams st !! j;
  cd_datagrams : datagrams st' = datagrams st;
}.

Lemma frames_of_snoc key fs frame :
  frames_of key (fs ++ [frame]) = if decide (carrier frame = Some key) then frames_of key fs ++ [frame] else frames_of key fs.
Proof. unfold frames_of. rewrite filter_app. simpl. rewrite filter_cons, filter_nil. case_decide; by rewrite ?app_nil_r. Qed.

Lemma carried_inv key frame fs st st' :
  EgInv fs st → carrier frame = Some key → carried key frame st st' → EgInv (fs ++ [frame]) st'.
Proof.
  intros H Hk [C1 (i & w & Hi & Hw & Hor) C3 C4].
  assert (Hlen : ∀ k j, stream_of st k = Some j → j < length (streams st)).
  { intros k j Hj. destruct (eg_frames _ _ H k (eg_used _ _ H _ _ Hj)) as (j' & Hj' & Hs). rewrite Hj in Hj'. injection Hj' as <-.
    by eapply lookup_lt_Some. }
  assert (Hother : ∀ k j, k ≠ key → stream_of st k = Some j → j ≠ i).
  { intros k j Hne Hj ->. destruct Hor as [[Hs _]|(_ & -> & _)]; [apply Hne; by eapply eg_inj|]. apply Hlen in Hj. lia. }
  split.
  - intros k. rewrite frames_of_snoc, Hk. destruct (decide (Some key = Some k)) as [[= <-]|Hne].
    + intros _. exists i. split; [done|]. rewrite framed_snoc, Hw. f_equal. f_equal.
      destruct Hor as [[Hs Hw']|(Hs & -> & ->)].
      * destruct (eg_frames _ _ H key (eg_used _ _ H _ _ Hs)) as (i' & Hi' & Hf). rewrite Hs in Hi'. injection Hi' as <-. congruence.
      * destruct (frames_of key fs) as [|f l] eqn:Ef; [done|]. destruct (eg_frames _ _ H key) as (i' & Hi' & _); [by rewrite Ef|]. congruence.
    + intros Hf. destruct (eg_frames _ _ H k Hf) as (j & Hj & Hs). exists j. rewrite C1 by congruence. split; [done|].
      rewrite (C3 i j); [done|done|by apply (Hother k); congruence|by apply (Hlen k)].
  - intros k j Hj. rewrite frames_of_snoc, Hk. destruct (decide (Some key = Some k)) as [[= <-]|Hne]; [by destruct (frames_of key fs)|].
    rewrite C1 in Hj by congruence. by eapply eg_used.
  - intros k1 k2 j H1 H2. destruct (decide (k1 = key)) as [->|N1], (decide (k2 = key)) as [->|N2]; try done.
    + rewrite C1 in H2 by done. rewrite Hi in H1. injection H1 as <-. by destruct (Hother k2 i).
    + rewrite C1 in H1 by done. rewrite Hi in H2. injection H2 as <-. by destruct (Hother k1 i).
    + rewrite C1 in H1, H2 by done. by eapply eg_inj.
  - rewrite C4, (eg_datagrams _ _ H), filter_app. rewrite filter_cons, filter_nil. rewrite decide_False; [by rewrite app_nil_r|].
    unfold is_stream, carrier in *. destruct (route_info frame) as [info|]; [|done].
    intros E. apply bool_decide_eq_true in E. by rewrite E in Hk.
Qed.

(** A connection that opens and accepts everything, with datagrams of any size
    frames are sent in. *)
Definition accepts (c : ConnResult) (frame : bytes) : Prop :=
  can_open c = true ∧ can_write c = true ∧ (len frame <= u16_max)%Z
  ∧ match max_datagram c with Some m => (len frame <= m)%Z | None => True end.

Lemma append_stream_spec i w j (ss : list bytes) x :
  ss !! i = Some x → append_stream i w ss !! j = if decide (j = i) then Some (x ++ w) else ss !! j.
Proof.
  intros Hx. unfold append_stream. destruct (decide (j = i)) as [->|].
  - by rewrite list_lookup_alter_eq, Hx.
  - by rewrite list_lookup_alter_ne.
Qed.

Lemma evict_channels_room ord chs : size chs < MAX_EGRESS_CHANNELS → evict_channels ord chs = (ord, chs).
Proof. intros H. destruct ord; simpl; by rewrite decide_True. Qed.

Lemma open_stream_lookup (ss : list bytes) : (ss ++ [[]]) !! length ss = Some [].
Proof. by rewrite lookup_app_r, Nat.sub_diag. Qed.

Lemma send_channel_carried c cid frame fs st :
  accepts c frame → EgInv fs st → (is_Some (channels st !! cid) ∨ size (channels st) < MAX_EGRESS_CHANNELS) →
  carried (Some cid) frame st (send_channel c cid frame st).
Proof.
  intros (Ho & Hw & Hl & _) H Hr. unfold send_channel, open_channel, write_framed.
  destruct (Z.ltb_spec u16_max (len frame)); [lia|]. rewrite Ho, Hw.
  destruct (channels st !! cid) as [i|] eqn:Ei.
  - rewrite decide_True by eauto. rewrite Ei.
    destruct (eg_frames _ _ H (Some cid)) as (i' & Hi' & Hs); [by eapply eg_used|]. simpl in Hi'. rewrite Ei in Hi'. injection Hi' as <-.
    split; simpl; try done.
    + exists i, (framed (frames_of (Some cid) fs)). rewrite (append_stream_spec _ _ _ _ _ Hs), decide_True by done.
      split_and!; [done|done|]. by left.
    + intros i' j [= <-]%(λ H, eq_trans (eq_sym Ei) H) Hj _. by rewrite (append_stream_spec _ _ _ _ _ Hs), decide_False.
  - rewrite decide_False by (by intros [? ?]). destruct Hr as [[? ?]|Hr]; [done|]. rewrite evict_channels_room by done.
    cbn [channels order control streams datagrams]. rewrite lookup_insert_eq. split; simpl; try done.
    + intros [k|] Hk; [|done]. simpl. rewrite lookup_insert_ne; [done|]. congruence.
    + exists (length (streams st)), []. rewrite lookup_insert_eq.
      rewrite (append_stream_spec _ _ _ _ _ (open_stream_lookup _)), decide_True by done. split_and!; [done|done|]. by right.
    + intros i j Hi Hj Hlt. rewrite lookup_insert_eq in Hi. injection Hi as <-.
      rewrite (append_stream_spec _ _ _ _ _ (open_stream_lookup _)), decide_False by done. by rewrite lookup_app_l.
Qed.

Lemma send_control_carried c frame fs st :
  accepts c frame → EgInv fs st → carried None frame st (send_control c frame st).
Proof.
  intros (Ho & Hw & Hl & _) H. unfold send_control, write_framed. destruct (Z.ltb_spec u16_max (len frame)); [lia|]. rewrite Ho, Hw.
  destruct (control st) as [i|] eqn:Ei.
  - rewrite Ei. destruct (eg_frames _ _ H None) as (i' & Hi' & Hs); [by eapply eg_used|]. simpl in Hi'. rewrite Ei in Hi'. injection Hi' as <-.
    split; simpl; try done.
    + by intros [k|].
    + exists i, (framed (frames_of None fs)). rewrite (append_stream_spec _ _ _ _ _ Hs), decide_True by done.
      split_and!; [done|done|]. by left.
    + intros i' j [= <-] Hj _. by rewrite (append_stream_spec _ _ _ _ _ Hs), decide_False.
  - cbn [channels order control streams datagrams]. split; simpl; try done.
    + by intros [k|].
    + exists (length (streams st)), [].
      rewrite (append_stream_spec _ _ _ _ _ (open_stream_lookup _)), decide_True by done. split_and!; [done|done|]. by right.
    + intros i j [= <-] Hj Hlt.
      rewrite (append_stream_spec _ _ _ _ _ (open_stream_lookup _)), decide_False by done. by rewrite lookup_app_l.
Qed.

Lemma egress_frame_inv c frame fs st :
  accepts c frame → EgInv fs st →
  (∀ cid, carrier frame = Some (Some cid) → is_Some (channels st !! cid) ∨ size (channels st) < MAX_EGRESS_CHANNELS) →
  EgInv (fs ++ [frame]) (egress_frame st (c, frame)).
Proof.
  intros Ha H Hr. unfold egress_frame. destruct (carrier frame) as [[cid|]|] eqn:Ec.
  - pose proof (carried_inv _ _ _ _ _ H Ec (send_channel_carried c cid frame fs st Ha H (Hr cid eq_refl))) as H'.
    unfold carrier in Ec. destruct (route_info frame) as [info|]; [|done].
    destruct (ri_channel_type info) as [[]|]; try done. by injection Ec as ->.
  - pose proof (carried_inv _ _ _ _ _ H Ec (send_control_carried c frame fs st Ha H)) as H'.
    unfold carrier in Ec. destruct (route_info frame) as [info|]; [|done]. by destruct (ri_channel_type info) as [[]|].
  - assert (Hs : ∀ key, frames_of key (fs ++ [frame]) = frames_of key fs) by (intros key; by rewrite frames_of_snoc, Ec).
    assert (Hkeep : ∀ st', channels st' = channels st → control st' = control st → streams st' = streams st →
      datagrams st' = filter (λ f, is_stream f = true) (fs ++ [frame]) → EgInv (fs ++ [frame]) st').
    { intros st' E1 E2 E3 E4. assert (Es : ∀ key, stream_of st' key = stream_of st key) by (intros [|]; simpl; congruence).
      split; [| | |done].
      - intros key. rewrite Hs, Es, E3. apply H.
      - intros key i. rewrite Hs, Es. apply H.
      - intros k1 k2 i. rewrite !Es. apply H. }
    unfold carrier in Ec. destruct Ha as (_ & Hw & _ & Hm).
    rewrite filter_app, filter_cons, filter_nil, <- (eg_datagrams _ _ H) in Hkeep. unfold is_stream in Hkeep.
    destruct (route_info frame) as [info|]; [|apply Hkeep; by rewrite ?app_nil_r].
    destruct (ri_channel_type info) as [[]|]; try done. rewrite Hw. cbn [negb].
    destruct (max_datagram c) as [m|]; [destruct (Z.ltb_spec m (len frame)); [lia|]|]; by apply Hkeep.
Qed.

(** The channel ids a run of frames uses. *)
Definition channel_ids (fs : list bytes) : gset Z := list_to_set (omap (λ f, carrier f ≫= id) fs).

Lemma channel_ids_elem fs cid : cid ∈ channel_ids fs ↔ frames_of (Some cid) fs ≠ [].
Proof.
  unfold channel_ids. rewrite elem_of_list_to_set, list_elem_of_omap. split.
  - intros (f & Hf & E). destruct (carrier f) as [[c|]|] eqn:Ec; simplify_eq/=. intros Hn.
    assert (Hin : f ∈ frames_of (Some cid) fs) by (by apply list_elem_of_filter). rewrite Hn in Hin. set_solver.
  - intros Hn. destruct (frames_of (Some cid) fs) as [|f l] eqn:E; [done|].
    assert (Hin : f ∈ frames_of (Some cid) fs) by (rewrite E; by left). apply list_elem_of_filter in Hin as [Ec Hin].
    exists f. by rewrite Ec.
Qed.

(** * Claims *)

(** C40: while a WebTransport peer accepts what it is sent, every relayed frame
    travels on its own carrier and in order: datagrams are exactly the Stream
    frames, and for each channel id (up to 64 of them), and for the control
    stream, one stream carries exactly the frames meant for it, so that the
    peer's length-prefix reader recovers them as they were relayed. *)
Theorem wt_carriers (xs : list (ConnResult * bytes)) :
  Forall (λ x, accepts x.1 x.2) xs → size (channel_ids (xs.*2)) ≤ MAX_EGRESS_CHANNELS →
  let st := egress_run xs in
  datagrams st = filter (λ f, is_stream f = true) (xs.*2)
  ∧ ∀ key, frames_of key (xs.*2) ≠ [] →
      ∃ i w, stream_of st key = Some i ∧ streams st !! i = Some w ∧ stream_frames w = frames_of key (xs.*2)
        ∧ ∀ key', stream_of st key' = Some i → key' = key.
Proof.
  intros Ha Hn.
  assert (H : EgInv (xs.*2) (egress_run xs)).
  { unfold egress_run. induction xs as [|[c f] xs IH] using rev_ind.
    - split; simpl; try done; [by intros [|]|by intros [|]].
    - rewrite fmap_app in *. rewrite foldl_app. cbn [foldl fmap list_fmap snd] in *.
      apply Forall_app in Ha as [Ha Hf]. apply Forall_cons in Hf as [Hf _].
      assert (Hsub : ∀ g, channel_ids (xs.*2) ⊆ channel_ids (xs.*2 ++ g))
        by (intros g; unfold channel_ids; rewrite omap_app, list_to_set_app_L; set_solver).
      specialize (IH Ha ltac:(etrans; [apply subseteq_size, Hsub|exact Hn])). apply egress_frame_inv; [done|done|].
      intros cid Hc. destruct (channels (foldl egress_frame Egress_new xs) !! cid) eqn:Ecid; [by left; eauto|right].
      rewrite <- size_dom. eapply Nat.lt_le_trans; [|exact Hn]. apply subset_size. split.
      + intros c' Hc'. apply elem_of_dom in Hc' as [i Hi]. apply Hsub, channel_ids_elem. by apply (eg_used _ _ IH (Some c') i).
      + intros Hs. assert (Hin : cid ∈ channel_ids (xs.*2 ++ [f])).
        { apply channel_ids_elem. rewrite frames_of_snoc, decide_True by done. by destruct (frames_of _ _). }
        apply Hs, elem_of_dom in Hin as [i Hi]. congruence. }
  split; [apply H|]. intros key Hk. destruct (eg_frames _ _ H key Hk) as (i & Hi & Hs).
  exists i, (framed (frames_of key (xs.*2))). split_and!; [done|done| |].
  - apply stream_frames_framed. apply Forall_forall. intros f Hf. apply list_elem_of_filter in Hf as [_ Hf].
    apply list_elem_of_fmap in Hf as ([c f'] & -> & Hx). eapply Forall_forall in Ha; [|done]. by destruct Ha as (_ & _ & ? & _).
  - intros key' Hk'. by eapply eg_inj.
Qed.

Lemma evict_channels_size ord chs :
  (∀ c, is_Some (chs !! c) → c ∈ ord) →
  let '(ord', chs') := evict_channels ord chs in
  size chs' < MAX_EGRESS_CHANNELS ∧ chs' ⊆ chs ∧ ∀ c, is_Some (chs' !! c) → c ∈ ord'.
Proof.
  revert chs. induction ord as [|old ord IH]; intros chs H; simpl.
  - destruct (decide _) as [|Hn]; [done|]. exfalso. apply Hn. assert (chs = ∅) as ->; [|rewrite map_size_empty; unfold MAX_EGRESS_CHANNELS; lia].
    apply map_empty. intros c. destruct (chs !! c) eqn:E; [|done]. destruct (not_elem_of_nil c). apply H. by eauto.
  - destruct (decide _); [done|]. specialize (IH (delete old chs)). destruct (evict_channels ord (delete old chs)) as [ord' chs'].
    destruct IH as (I1 & I2 & I3).
    + intros c [i Hi]. apply lookup_delete_Some in Hi as [Hne Hi]. assert (Hin : c ∈ old :: ord) by (apply H; eauto). set_solver.
    + split_and!; [done| |done]. etrans; [exact I2|]. apply delete_subseteq.
Qed.

(** However streams fail to open or break, a WebTransport peer never has
    more than 64 channel streams open, and the queue of channel ids that
    decides which stream to give up names every open one. *)
Theorem egress_channels_bounded (xs : list (ConnResult * bytes)) :
  size (channels (egress_run xs)) ≤ MAX_EGRESS_CHANNELS ∧ ∀ cid, is_Some (channels (egress_run xs) !! cid) → cid ∈ order (egress_run xs).
Proof.
  unfold egress_run. induction xs as [|[c f] xs IH] using rev_ind.
  - cbn [foldl Egress_new channels order]. rewrite map_size_empty. split; [unfold MAX_EGRESS_CHANNELS; lia|]. by intros cid [? ?].
  - rewrite foldl_app. cbn [foldl]. set (st := foldl egress_frame Egress_new xs) in *. clearbody st.
    unfold egress_frame. destruct (route_info f) as [info|]; [|done].
    assert (Hctl : ∀ g, channels (send_control c g st) = channels st ∧ order (send_control c g st) = order st).
    { intros g. unfold send_control. destruct (control st) as [i|]; [|destruct (can_open c)]; simpl; repeat case_match; done. }
    assert (Hch : ∀ cid, size (channels (open_channel c cid st)) ≤ MAX_EGRESS_CHANNELS
      ∧ ∀ k, is_Some (channels (open_channel c cid st) !! k) → k ∈ order (open_channel c cid st)).
    { intros cid. unfold open_channel. destruct (decide _); [done|].
      pose proof (evict_channels_size (order st) (channels st) (proj2 IH)) as HE.
      destruct (evict_channels _ _) as [ord chs]. destruct HE as (E1 & _ & E3).
      destruct (can_open c); cbn [channels order]; [|split; [lia|done]]. split; [pose proof (size_insert_le chs cid (length (streams st))); lia|].
      intros k [i Hi]. apply lookup_insert_Some in Hi as [[<- _]|[_ Hi]]; [set_solver|].
      apply elem_of_app. left. apply E3. by eauto. }
    destruct (ri_channel_type info) as [[]|]; try (by destruct (Hctl f) as [-> ->]).
    + by repeat case_match.
    + unfold send_channel. specialize (Hch (ri_channel_id info)). destruct (channels (open_channel _ _ _) !! _); [|done].
      destruct (write_framed _ _ _) as [w [|]]; cbn [channels order]; [done|]. destruct Hch as [H1 H2].
      split; [pose proof (size_delete_le (channels (open_channel c (ri_channel_id info) st)) (ri_channel_id info)); lia|].
      intros k [i Hi]. apply lookup_delete_Some in Hi as [_ Hi]. by eauto.
Qed.

(** A peer that opens the stream of channel 7 but refuses what is written. *)
Definition refusing : ConnResult * bytes := (mkConnResult None true false 0, sample_frame (sample_band Byte.x01) Channel 7).

(** The queue of channel ids is not bounded: a peer that resets the stream
    of one channel id each time it is written to adds an entry per relayed
    frame, while no stream is open. *)
Theorem reset_streams_grow_order (n : nat) :
  length (order (egress_run (replicate n refusing))) = n ∧ channels (egress_run (replicate n refusing)) = ∅.
Proof.
  unfold egress_run.
  assert (Hstep : ∀ st, channels st = ∅ → channels (egress_frame st refusing) = ∅
    ∧ length (order (egress_frame st refusing)) = S (length (order st))).
  { intros st Hc. unfold refusing, egress_frame.
    change (route_info (sample_frame (sample_band Byte.x01) Channel 7)) with (Some (mkRouteInfo (sample_band Byte.x01) (Some Channel) 7)).
    cbn [ri_channel_type ri_channel_id]. unfold send_channel, open_channel. rewrite Hc, lookup_empty, decide_False by (by intros [? ?]).
    rewrite evict_channels_room by (rewrite map_size_empty; unfold MAX_EGRESS_CHANNELS; lia). cbn [can_open channels order can_write cut].
    rewrite lookup_insert_eq. unfold write_framed. change ((u16_max <? len (sample_frame (sample_band Byte.x01) Channel 7))%Z) with false.
    cbv iota. cbn [channels order]. rewrite delete_insert_id by done. split; [done|]. rewrite length_app. simpl. lia. }
  assert (Hgen : ∀ n st, channels st = ∅ → channels (foldl egress_frame st (replicate n refusing)) = ∅
    ∧ length (order (foldl egress_frame st (replicate n refusing))) = length (order st) + n).
  { clear n. induction n as [|n IH]; intros st Hc; cbn [replicate foldl]; [split; [done|lia]|].
    destruct (Hstep st Hc) as [H1 H2]. destruct (IH _ H1) as [I1 I2]. split; [done|]. rewrite I2, H2. lia. }
  destruct (Hgen n Egress_new eq_refl) as [H1 H2]. split; [by rewrite H2|done].
Qed.

Lemma split_once_skip c a b : c ∉ a → split_once c (a ++ c :: b) = Some (a, b).
Proof.
  induction a as [|x a IH]; intros H; simpl; [by rewrite decide_True|].
  rewrite decide_False by set_solver. rewrite IH by set_solver. done.
Qed.

Lemma split_none c s : c ∉ s → split c s = [s].
Proof. induction s as [|x s IH]; intros H; simpl; [done|]. rewrite IH by set_solver. by rewrite decide_False by set_solver. Qed.

Lemma split_nonempty c s : split c s ≠ [].
Proof. induction s as [|x s IH]; simpl; [done|]. destruct (split c s); [done|]. by case_decide. Qed.

Lemma split_cons c a b : c ∉ a → split c (a ++ c :: b) = a :: split c b.
Proof.
  induction a as [|x a IH]; intros H; simpl.
  - pose proof (split_nonempty c b). destruct (split c b); [done|]. by rewrite decide_True.
  - rewrite IH by set_solver. by rewrite decide_False by set_solver.
Qed.

Lemma to_hex_not (c : byte) l : hex_val c = None → c ∉ to_hex l.
Proof.
  intros Hc. induction l as [|b l IH]; [set_solver|]. rewrite to_hex_cons. destruct (hex_nibbles b) as [H1 H2].
  destruct (hex_digit_val _ H1) as (V1 & _), (hex_digit_val _ H2) as (V2 & _).
  rewrite !not_elem_of_cons. split_and!; [congruence|congruence|done].
Qed.

(** The URL a WebTransport peer connects with selects its band: the first
    [band] parameter of the query, whatever other parameters come before and
    after it, names the band by its hexadecimal id. *)
Theorem wt_url_selects_band (b : bytes) (before after : list bytes) :
  length b = BAND_ID_LEN → Forall (λ p, Byte.x26 ∉ p ∧ take 5 p ≠ str_bytes "band=") before →
  parse_band (DEFAULT_WT_PATH ++ Byte.x3f :: concat ((λ p, p ++ [Byte.x26]) <$> before)
              ++ str_bytes "band=" ++ band_hex b ++ concat ((λ p, Byte.x26 :: p) <$> after))
  = Ret (Some b).
Proof.
  intros Hb Hp. unfold parse_band. rewrite split_once_skip by (unfold DEFAULT_WT_PATH; vm_compute; set_solver).
  rewrite decide_False by (intros H; by apply H).
  assert (Hm : Byte.x26 ∉ str_bytes "band=" ++ band_hex b).
  { rewrite elem_of_app. intros [H|H]; [vm_compute in H; set_solver|]. by apply (to_hex_not Byte.x26) in H. }
  assert (Hs : ∃ more, split Byte.x26 (str_bytes "band=" ++ band_hex b ++ concat ((λ p, Byte.x26 :: p) <$> after))
    = (str_bytes "band=" ++ band_hex b) :: more).
  { rewrite app_assoc. destruct after as [|p after]; [cbn [fmap list_fmap concat]; rewrite app_nil_r, split_none by done; by eexists|].
    rewrite fmap_cons. cbn [concat]. rewrite <- app_comm_cons, split_cons by done. by eexists. }
  destruct Hs as [more Hs].
  assert (Hf : find_map (strip_prefix (str_bytes "band="))
    (split Byte.x26 (concat ((λ p, p ++ [Byte.x26]) <$> before) ++ str_bytes "band=" ++ band_hex b ++ concat ((λ p, Byte.x26 :: p) <$> after)))
    = Some (band_hex b)).
  { induction before as [|p before IH].
    - cbn [fmap list_fmap concat app]. rewrite Hs. cbn [find_map]. unfold strip_prefix. rewrite take_app_length, drop_app_length.
      by rewrite decide_True.
    - apply Forall_cons in Hp as [[Hp1 Hp2] Hp]. rewrite fmap_cons. cbn [concat]. rewrite <- !app_assoc. cbn [app].
      rewrite split_cons by done. cbn [find_map]. unfold strip_prefix at 1. change (length (str_bytes "band=")) with 5.
      rewrite decide_False by done. by apply IH. }
  rewrite Hf. by apply band_hex_roundtrip.
Qed.

(** Each tick leaves a socket for exactly the wanted bands that were bound or
    could be. *)
Lemma reconcile_spec bind want active band :
  band ∈ reconcile bind want active ↔ band ∈ want ∧ (band ∈ active ∨ bind band = true).
Proof.
  unfold reconcile. rewrite elem_of_filter.
  assert (H : ∀ l (a : gset bytes), band ∈ foldl (λ a b, if decide (b ∈ a) then a else if bind b then {[ b ]} ∪ a else a) a l
    ↔ band ∈ a ∨ band ∈ l ∧ bind band = true).
  { induction l as [|x l IH]; intros a; cbn [foldl]; [set_solver|]. rewrite IH. clear IH.
    rewrite elem_of_cons. case_decide as Hx; [|destruct (bind x) eqn:Eb; [rewrite elem_of_union, elem_of_singleton|]]; intuition (subst; auto; congruence). }
  rewrite H. tauto.
Qed.

(** ** Witnesses *)

Definition good_conn : ConnResult := mkConnResult (Some 1200%Z) true true 0.
Definition sample_relayed : list (ConnResult * bytes) :=
  (λ f, (good_conn, f)) <$> [sample_frame (sample_band Byte.x01) Channel 7; sample_frame (sample_band Byte.x01) Stream 1;
    sample_frame (sample_band Byte.x01) Control 0; sample_frame (sample_band Byte.x01) Channel 7].

Lemma wt_carriers_witness :
  ∃ i w, stream_of (egress_run sample_relayed) (Some 7%Z) = Some i ∧ streams (egress_run sample_relayed) !! i = Some w
    ∧ stream_frames w = replicate 2 (sample_frame (sample_band Byte.x01) Channel 7).
Proof.
  destruct (wt_carriers sample_relayed) as [_ HC].
  - repeat constructor; vm_compute; congruence.
  - vm_compute. lia.
  - destruct (HC (Some 7%Z)) as (i & w & Hi & Hw & Hf & _); [vm_compute; congruence|].
    exists i, w. split; [exact Hi|]. split; [exact Hw|]. rewrite Hf. reflexivity.
Defined.

Lemma wt_url_selects_band_witness :
  parse_band (str_bytes "/telesthete?v=1&band=01010101010101010101010101010101&x=2") = Ret (Some (sample_band Byte.x01)).
Proof.
  apply (wt_url_selects_band (sample_band Byte.x01) [str_bytes "v=1"] [str_bytes "x=2"]); [reflexivity|].
  repeat constructor; [|vm_compute; congruence]. vm_compute. set_solver.
Defined.
