(* ===== verification/Serve.v ===== *)
(** The hub's servers ([rust/telesthitium/src/ws.rs], [wt.rs], [unix.rs], [udp.rs] and
    [federation.rs]): the life of each session from its accept loop to its end, the
    tasks that read and write it, the sockets and the links, all working on one
    registry and one set of queues. *)

From S2P Require Import Prelude Crypto Framing HubFrame Registry Federation Sessions.

(** * Sessions *)

Definition WS_PING_INTERVAL : Z := from_secs 20.
Definition WS_IDLE_TIMEOUT : Z := from_secs 60.

(** What a WebSocket's reader gets, and what its writer sends. *)
Inductive WsIn := WsBinary (data : bytes) | WsClose | WsOther | WsErr | WsEof.
Inductive WsOut := OutBinary (frame : bytes) | OutPing | OutClose.

(** A WebSocket past its handshake: the reader's band and key, which of its two tasks
    still run, when the reader last got a message, the writer's next ping, and what
    was sent. *)
Record WsConn := mkWs {
  ws_registered : option (bytes * PeerKey);
  ws_reading : bool;
  ws_writing : bool;
  ws_heard : Z;
  ws_next_ping : Z;
  ws_out : list WsOut;
}.

(** A WebTransport session: whether it is open, what its egress task has done, and how
    many of the tasks that read from it are left. *)
Record WtConn := mkWt { wt_band : bytes; wt_id : Z; wt_open : bool; wt_egress : Egress; wt_readers : nat }.

(** An AF_UNIX connection: one task reads and writes it. *)
Record UnixConn := mkUnix { ux_band : bytes; ux_id : Z; ux_out : list bytes }.

Inductive Session := WsSession (w : WsConn) | WtSession (x : WtConn) | UnixSession (u : UnixConn).

(** The running hub: sessions by the number of their egress queue, the bands whose
    AF_UNIX socket is bound with the names in the socket directory, and the links with
    the tasks that advertise to them. *)
Record Server := mkServer {
  sv_reg : Registry;
  sv_store : Store;
  sv_sessions : gmap nat Session;
  sv_active : gset bytes;
  sv_files : gset bytes;
  sv_links : LinkSet;
  sv_advs : gmap Z Advertiser;
}.

Definition Server_new (l : Limits) (queue_bytes : Z) (federated : bool) (files : gset bytes) : Server :=
  let r := Registry_new l in
  mkServer (if federated then set_federation r else r) (mkStore ∅ 0 (ByteBudget_new queue_bytes)) ∅ ∅ files LinkSet_new ∅.

Definition with_hub (r : Registry) (s : Store) (sv : Server) : Server :=
  mkServer r s (sv_sessions sv) (sv_active sv) (sv_files sv) (sv_links sv) (sv_advs sv).
Definition with_store (s : Store) (sv : Server) : Server := with_hub (sv_reg sv) s sv.
Definition with_sessions (ss : gmap nat Session) (sv : Server) : Server :=
  mkServer (sv_reg sv) (sv_store sv) ss (sv_active sv) (sv_files sv) (sv_links sv) (sv_advs sv).
Definition set_session (c : nat) (x : Session) (sv : Server) : Server := with_sessions (<[c := x]> (sv_sessions sv)) sv.
Definition end_session (c : nat) (sv : Server) : Server := with_sessions (delete c (sv_sessions sv)) sv.
Definition with_links (ls : LinkSet) (advs : gmap Z Advertiser) (sv : Server) : Server :=
  mkServer (sv_reg sv) (sv_store sv) (sv_sessions sv) (sv_active sv) (sv_files sv) ls advs.

(** A task that takes the next frame off its own queue. *)
Definition pop (c : nat) (sv : Server) : Server * option bytes :=
  let '(s, f) := peer_writer c (sv_store sv) in (with_store s sv, f).

Section Serve.
Context {po : PeerOrder} (cfg : HubConfig).

(** * UDP *)

(** One turn of the receive loop: a socket error is waited out. *)
Definition udp_recv (now : Z) (received : option (SocketAddr * bytes)) (sv : Server) : Server :=
  match received with
  | None => sv
  | Some (src, d) => let '(r, s) := udp_datagram (hc_peer_queue cfg) src d now (sv_reg sv) (sv_store sv) in with_hub r s sv
  end.

(** A UDP peer's writer. *)
Definition udp_write (tx : nat) (sv : Server) : Server :=
  match queues (sv_store sv) !! tx with
  | Some q => if q_udp q then (pop tx sv).1 else sv
  | None => sv
  end.

(** * WebSockets *)

(** The TLS handshake where there is one, then the path of the request. *)
Definition ws_handshake (tls : option bool) (path want_path : bytes) : bool :=
  match tls with Some false => false | _ => bool_decide (path = want_path) end.

Definition ws_accept (now : Z) (tls : option bool) (path want_path : bytes) (sv : Server) : Server :=
  if ws_handshake tls path want_path then
    let '(s, c) := conn_accept (hc_conn_queue cfg) (sv_store sv) in
    set_session c (WsSession (mkWs None true true now (now + WS_PING_INTERVAL) [])) (with_store s sv)
  else sv.

(** [serve_conn] returns when both its tasks have ended. *)
Definition ws_put (c : nat) (w : WsConn) (sv : Server) : Server :=
  if ws_reading w || ws_writing w then set_session c (WsSession w) sv else end_session c sv.

(** The end of the reader's loop. *)
Definition ws_leave (c : nat) (w : WsConn) (sv : Server) : Server :=
  let r := match ws_registered w with Some (band, key) => disconnect band key (sv_reg sv) | None => sv_reg sv end in
  ws_put c (mkWs (ws_registered w) false (ws_writing w) (ws_heard w) (ws_next_ping w) (ws_out w)) (with_hub r (sv_store sv) sv).

Definition ws_hear (now : Z) (registered : option (bytes * PeerKey)) (w : WsConn) : WsConn :=
  mkWs registered (ws_reading w) (ws_writing w) now (ws_next_ping w) (ws_out w).

Definition ws_read (now : Z) (c : nat) (m : WsIn) (sv : Server) : Server :=
  match sv_sessions sv !! c with
  | Some (WsSession w) =>
      if negb (ws_reading w) then sv else
      match m with
      | WsErr | WsEof | WsClose => ws_leave c w sv
      | WsOther => set_session c (WsSession (ws_hear now (ws_registered w) w)) sv
      | WsBinary data =>
          let '(r, s, cs, alive) := ws_message data now (mkConnState c (ws_registered w)) (sv_reg sv) (sv_store sv) in
          let w := ws_hear now (cs_registered cs) w in
          let sv := with_hub r s sv in
          if alive then set_session c (WsSession w) sv else ws_leave c w sv
      end
  | _ => sv
  end.

(** [timeout(WS_IDLE_TIMEOUT, ws_rx.next())] elapsing. *)
Definition ws_idle (now : Z) (c : nat) (sv : Server) : Server :=
  match sv_sessions sv !! c with
  | Some (WsSession w) => if ws_reading w && (ws_heard w + WS_IDLE_TIMEOUT <=? now)%Z then ws_leave c w sv else sv
  | _ => sv
  end.

Definition ws_wrote (out : list WsOut) (next_ping : Z) (w : WsConn) : WsConn :=
  mkWs (ws_registered w) (ws_reading w) (ws_writing w) (ws_heard w) next_ping (ws_out w ++ out).

(** The writer's loop broke: the queue's receiver goes, a close message is tried. *)
Definition ws_writer_end (c : nat) (closed : bool) (w : WsConn) (sv : Server) : Server :=
  ws_put c (mkWs (ws_registered w) (ws_reading w) false (ws_heard w) (ws_next_ping w) (ws_out w ++ if closed then [OutClose] else []))
    (with_store (conn_drop c (sv_store sv)) sv).

(** The writer's first arm: a frame to send ([ok] when the socket takes it), or, once
    the reader has gone, no sender left and nothing queued. *)
Definition ws_write (c : nat) (ok : bool) (sv : Server) : Server :=
  match sv_sessions sv !! c with
  | Some (WsSession w) =>
      if negb (ws_writing w) then sv else
      match pop c sv with
      | (sv, Some f) => if ok then set_session c (WsSession (ws_wrote [OutBinary f] (ws_next_ping w) w)) sv else ws_writer_end c ok w sv
      | (sv, None) => if ws_reading w then sv else ws_writer_end c ok w sv
      end
  | _ => sv
  end.

(** An interval that skips missed ticks: the next multiple of the period. *)
Definition skip_tick (now due period : Z) : Z := (due + period * ((now - due) / period + 1))%Z.

Definition ws_ping (now : Z) (c : nat) (ok : bool) (sv : Server) : Server :=
  match sv_sessions sv !! c with
  | Some (WsSession w) =>
      if negb (ws_writing w) || (now <? ws_next_ping w)%Z then sv
      else if ok then set_session c (WsSession (ws_wrote [OutPing] (skip_tick now (ws_next_ping w) WS_PING_INTERVAL) w)) sv
      else ws_writer_end c ok w sv
  | _ => sv
  end.

(** * WebTransport *)

(** [handle_session] up to its three tasks. A request the band parser panics on ends
    this session's task only. *)
Definition wt_accept (now : Z) (path : bytes) (accepted : bool) (sv : Server) : Server :=
  match parse_band path with
  | Ret (Some band) =>
      if negb accepted then sv else
      let '(s, c) := conn_accept (hc_conn_queue cfg) (sv_store sv) in
      match conn_open band c now (sv_reg sv) s with
      | (r, s, Some (mkConnState _ (Some (_, Conn id)))) => set_session c (WtSession (mkWt band id true Egress_new 1)) (with_hub r s sv)
      | (r, s, _) => with_hub r (conn_drop c s) sv
      end
  | _ => sv
  end.

(** A session is over when it is closed and none of its readers is left. *)
Definition wt_put (c : nat) (x : WtConn) (sv : Server) : Server :=
  if wt_open x || bool_decide (0 < wt_readers x) then set_session c (WtSession x) sv else end_session c sv.

Definition wt_with_readers (n : nat) (x : WtConn) : WtConn := mkWt (wt_band x) (wt_id x) (wt_open x) (wt_egress x) n.

(** A datagram, or a frame off one of the streams. A reader that has a frame when the
    session closes may still relay it. *)
Definition wt_frame (now : Z) (c : nat) (frame : bytes) (sv : Server) : Server :=
  match sv_sessions sv !! c with
  | Some (WtSession x) =>
      if decide (wt_readers x = 0) then sv else
      let '(r, s) := pinned_frame (wt_band x) (Conn (wt_id x)) frame now (sv_reg sv) (sv_store sv) in with_hub r s sv
  | _ => sv
  end.

(** A stream the peer opened: one more reader. *)
Definition wt_stream (c : nat) (sv : Server) : Server :=
  match sv_sessions sv !! c with
  | Some (WtSession x) => if wt_open x then set_session c (WtSession (wt_with_readers (S (wt_readers x)) x)) sv else sv
  | _ => sv
  end.

Definition wt_reader_end (c : nat) (sv : Server) : Server :=
  match sv_sessions sv !! c with
  | Some (WtSession x) => wt_put c (wt_with_readers (pred (wt_readers x)) x) sv
  | _ => sv
  end.

(** The egress task puts the next frame on its carrier; a stream it opens is read too. *)
Definition wt_write (c : nat) (res : ConnResult) (sv : Server) : Server :=
  match sv_sessions sv !! c with
  | Some (WtSession x) =>
      if negb (wt_open x) then sv else
      match pop c sv with
      | (sv, Some f) =>
          let st := egress_frame (wt_egress x) (res, f) in
          set_session c (WtSession (mkWt (wt_band x) (wt_id x) true st
            (wt_readers x + (length (streams st) - length (streams (wt_egress x)))))) sv
      | (sv, None) => sv
      end
  | _ => sv
  end.

(** [conn.closed()]: the peer leaves the registry, the tasks are aborted. *)
Definition wt_closed (c : nat) (sv : Server) : Server :=
  match sv_sessions sv !! c with
  | Some (WtSession x) =>
      if negb (wt_open x) then sv else
      wt_put c (mkWt (wt_band x) (wt_id x) false (wt_egress x) (wt_readers x))
        (with_hub (disconnect (wt_band x) (Conn (wt_id x)) (sv_reg sv)) (conn_drop c (sv_store sv)) sv)
  | _ => sv
  end.

(** * AF_UNIX *)

Definition socket_name (band : bytes) : bytes := band_hex band ++ str_bytes ".sock".

(** How [bind_seqpacket] and [AsyncFd::new] went for a band. *)
Inductive BindResult := BindErr | ListenErr | AfdErr | Bound.

(** A band's turn in a tick: any old name is removed, and a bound one stays unless the
    runtime refuses it. *)
Definition bind_band (res : BindResult) (band : bytes) (files : gset bytes) : gset bytes :=
  let files := files ∖ {[socket_name band]} in
  match res with BindErr | AfdErr => files | ListenErr | Bound => {[socket_name band]} ∪ files end.

Definition bind_wanted (bind : bytes → BindResult) (want : list bytes) (active files : gset bytes) : gset bytes :=
  foldl (λ fs band, if decide (band ∈ active) then fs else bind_band (bind band) band fs) files want.

Definition unix_reconcile (bind : bytes → BindResult) (sv : Server) : Server :=
  let want := band_list (sv_reg sv) in
  let active := sv_active sv in
  let kept := reconcile (λ b, match bind b with Bound => true | _ => false end) want active in
  let files := bind_wanted bind want active (sv_files sv) in
  let gone : gset bytes := set_map socket_name (filter (λ b, b ∉ want) active) in
  mkServer (sv_reg sv) (sv_store sv) (sv_sessions sv) kept (files ∖ gone) (sv_links sv) (sv_advs sv).

(** What [serve] does after its [select!]. *)
Definition unix_shutdown (sv : Server) : Server :=
  mkServer (sv_reg sv) (sv_store sv) (sv_sessions sv) ∅ (sv_files sv ∖ set_map socket_name (sv_active sv)) (sv_links sv) (sv_advs sv).

(** A connection on a band's socket. *)
Definition unix_accept (now : Z) (band : bytes) (sv : Server) : Server :=
  if decide (band ∉ sv_active sv) then sv else
  let '(s, c) := conn_accept (hc_conn_queue cfg) (sv_store sv) in
  match conn_open band c now (sv_reg sv) s with
  | (r, s, Some (mkConnState _ (Some (_, Conn id)))) => set_session c (UnixSession (mkUnix band id [])) (with_hub r s sv)
  | (r, s, _) => with_hub r (conn_drop c s) sv
  end.

Definition unix_close (c : nat) (u : UnixConn) (sv : Server) : Server :=
  end_session c (with_hub (disconnect (ux_band u) (Conn (ux_id u)) (sv_reg sv)) (conn_drop c (sv_store sv)) sv).

(** The receiving arm of [serve_peer]: a message, or an error. *)
Definition unix_recv (now : Z) (c : nat) (msg : option bytes) (sv : Server) : Server :=
  match sv_sessions sv !! c with
  | Some (UnixSession u) =>
      match msg ≫= λ m, unix_message (ux_band u) (Conn (ux_id u)) m now (sv_reg sv) (sv_store sv) with
      | Some (r, s) => with_hub r s sv
      | None => unix_close c u sv
      end
  | _ => sv
  end.

(** The sending arm. *)
Definition unix_write (c : nat) (ok : bool) (sv : Server) : Server :=
  match sv_sessions sv !! c with
  | Some (UnixSession u) =>
      match pop c sv with
      | (sv, Some f) => if ok then set_session c (UnixSession (mkUnix (ux_band u) (ux_id u) (ux_out u ++ [f]))) sv else unix_close c u sv
      | (sv, None) => sv
      end
  | _ => sv
  end.

(** * Links *)

Definition link_get (id : Z) (ls : LinkSet) : option LinkHandle := snd <$> list_find (λ h, lk_id h = id) (links ls).
Definition link_set (id : Z) (h : LinkHandle) (ls : LinkSet) : LinkSet :=
  mkLinkSet ((λ x, if decide (lk_id x = id) then h else x) <$> links ls) (next_link ls).

(** [handle_link] once the remote's first message is there. *)
Definition link_start (secret : bytes) (active : bool) (t : Z) (payload : bytes) (sv : Server) : Server :=
  match link_up secret active t payload (sv_links sv) with
  | Some ls => with_links ls (<[next_link (sv_links sv) := Advertiser_new]> (sv_advs sv)) sv
  | None => sv
  end.

(** A message of the reader loop. *)
Definition link_message (id t : Z) (payload : bytes) (sv : Server) : Server :=
  match link_get id (sv_links sv) with
  | Some h => let '(h, s) := link_read t payload h (sv_reg sv) (sv_store sv) in
      with_links (link_set id h (sv_links sv)) (sv_advs sv) (with_store s sv)
  | None => sv
  end.

(** The reader loop failed: the link leaves the set and its writer is aborted, so the
    advertiser finds the channel closed. *)
Definition link_end (id : Z) (sv : Server) : Server :=
  with_links (link_remove id (sv_links sv)) (delete id (sv_advs sv)) sv.

Definition link_tick (id : Z) (sv : Server) : Server :=
  match sv_advs sv !! id, link_get id (sv_links sv) with
  | Some a, Some h =>
      if negb (lk_open h) then with_links (sv_links sv) (delete id (sv_advs sv)) sv else
      let '(a, h) := advertise_tick (local_bands (sv_reg sv)) a h in
      with_links (link_set id h (sv_links sv)) (<[id := a]> (sv_advs sv)) sv
  | _, _ => sv
  end.

Definition link_writer (id : Z) (sv : Server) : Server :=
  match link_get id (sv_links sv) with
  | Some h => with_links (link_set id (link_write h).1 (sv_links sv)) (sv_advs sv) sv
  | None => sv
  end.

Definition links_fan (sv : Server) : Server :=
  let '(r, ls) := fan_egress (sv_reg sv) (sv_links sv) in with_links ls (sv_advs sv) (with_hub r (sv_store sv) sv).

(** * Steps *)

Inductive serve_event :=
| SUdp (received : option (SocketAddr * bytes))
| SUdpWrite (tx : nat)
| SPrune (ttl : Z)
| SWsAccept (tls : option bool) (path want_path : bytes)
| SWsRead (c : nat) (m : WsIn)
| SWsIdle (c : nat)
| SWsWrite (c : nat) (ok : bool)
| SWsPing (c : nat) (ok : bool)
| SWtAccept (path : bytes) (accepted : bool)
| SWtFrame (c : nat) (frame : bytes)
| SWtStream (c : nat)
| SWtReaderEnd (c : nat)
| SWtWrite (c : nat) (res : ConnResult)
| SWtClosed (c : nat)
| SUnixTick (bind : bytes → BindResult)
| SUnixStop
| SUnixAccept (band : bytes)
| SUnixRecv (c : nat) (msg : option bytes)
| SUnixWrite (c : nat) (ok : bool)
| SLinkStart (secret : bytes) (active : bool) (t : Z) (payload : bytes)
| SLinkMessage (id t : Z) (payload : bytes)
| SLinkEnd (id : Z)
| SLinkTick (id : Z)
| SLinkWriter (id : Z)
| SFan.

Definition serve_step (now : Z) (ev : serve_event) (sv : Server) : Server :=
  match ev with
  | SUdp received => udp_recv now received sv
  | SUdpWrite tx => udp_write tx sv
  | SPrune ttl => with_hub (prune now ttl (sv_reg sv)).1 (sv_store sv) sv
  | SWsAccept tls path want => ws_accept now tls path want sv
  | SWsRead c m => ws_read now c m sv
  | SWsIdle c => ws_idle now c sv
  | SWsWrite c ok => ws_write c ok sv
  | SWsPing c ok => ws_ping now c ok sv
  | SWtAccept path accepted => wt_accept now path accepted sv
  | SWtFrame c frame => wt_frame now c frame sv
  | SWtStream c => wt_stream c sv
  | SWtReaderEnd c => wt_reader_end c sv
  | SWtWrite c res => wt_write c res sv
  | SWtClosed c => wt_closed c sv
  | SUnixTick bind => unix_reconcile bind sv
  | SUnixStop => unix_shutdown sv
  | SUnixAccept band => unix_accept now band sv
  | SUnixRecv c msg => unix_recv now c msg sv
  | SUnixWrite c ok => unix_write c ok sv
  | SLinkStart secret active t payload => link_start secret active t payload sv
  | SLinkMessage id t payload => link_message id t payload sv
  | SLinkEnd id => link_end id sv
  | SLinkTick id => link_tick id sv
  | SLinkWriter id => link_writer id sv
  | SFan => links_fan sv
  end.

Fixpoint serve_run (es : list (Z * serve_event)) (sv : Server) : Server :=
  match es with
  | [] => sv
  | (now, e) :: es' => serve_run es' (serve_step now e sv)
  end.
End Serve.

(** ** Refinement of the hub *)

(** A session as the hub of [Registry] sees it: a connection being served while its
    reader runs. *)
Definition conn_of (c : nat) (x : Session) : option ConnState :=
  match x with
  | WsSession w => if ws_reading w then Some (mkConnState c (ws_registered w)) else None
  | WtSession x => if wt_open x then Some (mkConnState c (Some (wt_band x, Conn (wt_id x)))) else None
  | UnixSession u => Some (mkConnState c (Some (ux_band u, Conn (ux_id u))))
  end.

Definition conns_of (ss : gmap nat Session) : gmap nat ConnState := map_imap conn_of ss.
Definition hub_of (sv : Server) : HubState := mkHubState (sv_reg sv) (sv_store sv) (conns_of (sv_sessions sv)).

Lemma conns_of_lookup ss c : conns_of ss !! c = ss !! c ≫= conn_of c.
Proof. apply map_lookup_imap. Qed.

Lemma conns_of_insert ss c x :
  conns_of (<[c := x]> ss) = match conn_of c x with Some cs => <[c := cs]> (conns_of ss) | None => delete c (conns_of ss) end.
Proof.
  apply map_eq. intros i. rewrite conns_of_lookup. destruct (decide (c = i)) as [<-|Hne].
  - rewrite lookup_insert_eq. simpl. destruct (conn_of c x); [by rewrite lookup_insert_eq|by rewrite lookup_delete_eq].
  - rewrite lookup_insert_ne by done. destruct (conn_of c x); [rewrite lookup_insert_ne by done|rewrite lookup_delete_ne by done];
      by rewrite conns_of_lookup.
Qed.

Lemma conns_of_delete ss c : conns_of (delete c ss) = delete c (conns_of ss).
Proof.
  apply map_eq. intros i. rewrite conns_of_lookup. destruct (decide (c = i)) as [<-|Hne].
  - by rewrite !lookup_delete_eq.
  - rewrite !lookup_delete_ne by done. by rewrite conns_of_lookup.
Qed.

Lemma conns_of_same ss c x y : ss !! c = Some y → conn_of c x = conn_of c y → conns_of (<[c := x]> ss) = conns_of ss.
Proof.
  intros Hc E. rewrite conns_of_insert, E. pose proof (conns_of_lookup ss c) as Hl. rewrite Hc in Hl. simpl in Hl.
  destruct (conn_of c y); [by apply insert_id|by apply delete_id].
Qed.

Lemma conns_of_gone ss c x : ss !! c = Some x → conn_of c x = None → conns_of (delete c ss) = conns_of ss.
Proof. intros Hc E. rewrite conns_of_delete. apply delete_id. rewrite conns_of_lookup, Hc. done. Qed.

(** The band and the frame of a RELAY message. *)
Definition relay_parts (payload : bytes) : bytes * bytes :=
  let flen := Z.to_nat (from_be_bytes (slice BAND_ID_LEN (BAND_ID_LEN + 4) payload)) in
  (slice 0 BAND_ID_LEN payload, slice (BAND_ID_LEN + 4) (BAND_ID_LEN + 4 + flen) payload).

(** What the links of a run relayed. *)
Definition relayed_by (evs : list (Z * serve_event)) : Injected :=
  λ band frame, ∃ now id payload, (now, SLinkMessage id T_RELAY payload) ∈ evs ∧ relay_parts payload = (band, frame).

Definition serve_known {inj : Injected} (e : serve_event) : Prop :=
  match e with SLinkMessage _ t payload => t = T_RELAY → injected (relay_parts payload).1 (relay_parts payload).2 | _ => True end.

Section Refine.
Context {inj : Injected} {po : PeerOrder} (cfg : HubConfig).
Implicit Types (sv : Server).

(** At most two events of the hub; what they inject, a link relayed. *)
Definition refines (now : Z) (sv sv' : Server) : Prop :=
  ∃ es, length es ≤ 2 ∧ Forall link_known es ∧ hub_of sv' = hub_run cfg ((now,.) <$> es) (hub_of sv).

Lemma refines_same now sv sv' : hub_of sv' = hub_of sv → refines now sv sv'.
Proof. intros E. exists []. split; [simpl; lia|]. split; [constructor|done]. Qed.

Lemma refines_one now e sv sv' : link_known e → hub_of sv' = hub_step cfg now e (hub_of sv) → refines now sv sv'.
Proof. intros He E. exists [e]. split; [simpl; lia|]. split; [by constructor|done]. Qed.

Lemma refines_two now e1 e2 sv sv' :
  link_known e1 → link_known e2 → hub_of sv' = hub_step cfg now e2 (hub_step cfg now e1 (hub_of sv)) → refines now sv sv'.
Proof. intros H1 H2 E. exists [e1; e2]. split; [simpl; lia|]. split; [by repeat constructor|done]. Qed.

Lemma hub_of_conn sv c x cs : sv_sessions sv !! c = Some x → conn_of c x = Some cs → hub_conns (hub_of sv) !! c = Some cs.
Proof. intros Hc Hx. simpl. by rewrite conns_of_lookup, Hc. Qed.

(** WebSockets. *)
Lemma ws_leave_hub c w sv : hub_of (ws_leave c w sv) = hub_leave c (mkConnState c (ws_registered w)) (hub_of sv).
Proof.
  unfold ws_leave, ws_put, hub_leave, hub_of. simpl.
  destruct (ws_writing w); simpl; [rewrite conns_of_insert|rewrite conns_of_delete]; by destruct (ws_registered w) as [[]|].
Qed.

Lemma ws_writer_end_hub c closed w w0 sv :
  sv_sessions sv !! c = Some (WsSession w0) → ws_reading w0 = ws_reading w → ws_registered w0 = ws_registered w →
  hub_of (ws_writer_end c closed w sv) = mkHubState (sv_reg sv) (conn_drop c (sv_store sv)) (conns_of (sv_sessions sv)).
Proof.
  intros Hc Er Eg. unfold ws_writer_end, ws_put, hub_of. simpl. rewrite orb_false_r. destruct (ws_reading w) eqn:Ew; simpl.
  - f_equal. apply (conns_of_same _ _ _ _ Hc). simpl. by rewrite Er, Eg.
  - f_equal. apply (conns_of_gone _ _ _ Hc). simpl. by rewrite Er.
Qed.

Lemma ws_message_queue data now c reg r s :
  cs_queue (ws_message data now (mkConnState c reg) r s).1.2 = c.
Proof.
  unfold ws_message. destruct (route_info data); [|done]. simpl. destruct reg as [[band k]|].
  - case_decide; [done|]. by destruct (forward _ _ _ _ _).
  - destruct (connect _ _ _ _ _ _) as [[r' s'] []]; [|done]. by destruct (forward _ _ _ _ _).
Qed.

Lemma ws_read_refines now c m sv : refines now sv (ws_read now c m sv).
Proof.
  unfold ws_read. destruct (sv_sessions sv !! c) as [[w|x|u]|] eqn:Ec; try by apply refines_same.
  destruct (ws_reading w) eqn:Er; [|by apply refines_same]. cbn [negb].
  assert (Hconn : hub_conns (hub_of sv) !! c = Some (mkConnState c (ws_registered w)))
    by (eapply hub_of_conn; [exact Ec|]; simpl; by rewrite Er).
  assert (Hleave : refines now sv (ws_leave c w sv))
    by (apply (refines_one _ (HLeave c)); [done|]; rewrite ws_leave_hub; cbn [hub_step]; by rewrite Hconn).
  destruct m as [data| | | |]; try done.
  - apply (refines_one _ (HWsMessage c data)); [done|]. cbn [hub_step]. rewrite Hconn.
    pose proof (ws_message_queue data now c (ws_registered w) (sv_reg sv) (sv_store sv)) as Hq.
    change (hub_reg (hub_of sv)) with (sv_reg sv). change (hub_store (hub_of sv)) with (sv_store sv).
    destruct (ws_message _ _ _ _ _) as [[[r s] [cq reg]] alive]. simpl in Hq. subst cq.
    destruct alive.
    + unfold hub_of. cbn. rewrite conns_of_insert. cbn. by rewrite Er.
    + rewrite ws_leave_hub. unfold hub_leave. cbn. by rewrite delete_insert_eq.
  - apply refines_same. unfold hub_of. cbn. f_equal. apply (conns_of_same _ _ _ _ Ec). done.
Qed.

Lemma ws_idle_refines now c sv : refines now sv (ws_idle now c sv).
Proof.
  unfold ws_idle. destruct (sv_sessions sv !! c) as [[w|x|u]|] eqn:Ec; try by apply refines_same.
  destruct (ws_reading w) eqn:Er; [|by apply refines_same]. destruct (_ <=? _)%Z; [|by apply refines_same]. cbn [andb].
  apply (refines_one _ (HLeave c)); [done|]. cbn [hub_step]. rewrite ws_leave_hub.
  rewrite (hub_of_conn _ _ _ (mkConnState c (ws_registered w)) Ec); [done|]. simpl. by rewrite Er.
Qed.

Lemma pop_hub c sv sv' f : pop c sv = (sv', f) →
  sv' = with_store (peer_writer c (sv_store sv)).1 sv.
Proof. unfold pop. destruct (peer_writer c (sv_store sv)) as [s f']. by intros [= <- _]. Qed.

Lemma ws_write_refines now c ok sv : refines now sv (ws_write c ok sv).
Proof.
  unfold ws_write. destruct (sv_sessions sv !! c) as [[w|x|u]|] eqn:Ec; try by apply refines_same.
  destruct (ws_writing w); [|by apply refines_same]. cbn [negb]. destruct (pop c sv) as [sv1 [f|]] eqn:Ep; apply pop_hub in Ep as ->.
  - destruct ok.
    + apply (refines_one _ (HWrite c)); [done|]. unfold hub_of. cbn. f_equal. by apply (conns_of_same _ _ _ _ Ec).
    + apply (refines_two _ (HWrite c) (HDrop c)); [done|done|]. by rewrite (ws_writer_end_hub c false w w).
  - destruct (ws_reading w) eqn:Er; [by apply (refines_one _ (HWrite c))|].
    apply (refines_two _ (HWrite c) (HDrop c)); [done|done|]. by rewrite (ws_writer_end_hub c ok w w).
Qed.

Lemma ws_ping_refines now c ok sv : refines now sv (ws_ping now c ok sv).
Proof.
  unfold ws_ping. destruct (sv_sessions sv !! c) as [[w|x|u]|] eqn:Ec; try by apply refines_same.
  destruct (_ || _); [by apply refines_same|]. destruct ok.
  - apply refines_same. unfold hub_of. cbn. f_equal. by apply (conns_of_same _ _ _ _ Ec).
  - apply (refines_one _ (HDrop c)); [done|]. by rewrite (ws_writer_end_hub c false w w).
Qed.

Lemma ws_accept_refines now tls path want sv : refines now sv (ws_accept cfg now tls path want sv).
Proof.
  unfold ws_accept. destruct (ws_handshake tls path want); [|by apply refines_same].
  apply (refines_one _ HWsAccept); [done|]. unfold hub_of. cbn. by rewrite conns_of_insert.
Qed.

(** Sessions that know their band. *)
Lemma conn_open_shape band tx now r s :
  match (conn_open band tx now r s).2 with
  | Some cs => ∃ id, cs = mkConnState tx (Some (band, Conn id))
  | None => True
  end.
Proof. unfold conn_open. cbn. destruct (connect _ _ _ _ _ _) as [[r' s'] []]; [by eexists|done]. Qed.

Lemma open_refines now band (x : Z → Session) sv :
  (∀ c id, conn_of c (x id) = Some (mkConnState c (Some (band, Conn id)))) →
  refines now sv
    (let '(s, c) := conn_accept (hc_conn_queue cfg) (sv_store sv) in
     match conn_open band c now (sv_reg sv) s with
     | (r, s, Some (mkConnState _ (Some (_, Conn id)))) => set_session c (x id) (with_hub r s sv)
     | (r, s, _) => with_hub r (conn_drop c s) sv
     end).
Proof.
  intros Hx. apply (refines_one _ (HOpen band)); [done|]. cbn [hub_step].
  change (hub_reg (hub_of sv)) with (sv_reg sv). change (hub_store (hub_of sv)) with (sv_store sv).
  destruct (conn_accept _ _) as [s c]. pose proof (conn_open_shape band c now (sv_reg sv) s) as Hs.
  destruct (conn_open band c now (sv_reg sv) s) as [[r s'] [cs|]]; [|done]. destruct Hs as (id & ->).
  unfold hub_of. cbn. by rewrite conns_of_insert, Hx.
Qed.

Lemma pinned_refines now band id frame sv :
  refines now sv (let '(r, s) := pinned_frame band (Conn id) frame now (sv_reg sv) (sv_store sv) in with_hub r s sv).
Proof.
  apply (refines_one _ (HLate band id frame)); [done|]. cbn [hub_step].
  change (hub_reg (hub_of sv)) with (sv_reg sv). change (hub_store (hub_of sv)) with (sv_store sv). by destruct (pinned_frame _ _ _ _ _ _).
Qed.

Lemma wt_put_hub c x y sv :
  sv_sessions sv !! c = Some (WtSession y) → conn_of c (WtSession x) = conn_of c (WtSession y) → hub_of (wt_put c x sv) = hub_of sv.
Proof.
  intros Hc E. unfold wt_put, hub_of. destruct (wt_open x) eqn:Ex; cbn.
  - f_equal. by apply (conns_of_same _ _ _ _ Hc).
  - destruct (bool_decide _); cbn; f_equal; [by apply (conns_of_same _ _ _ _ Hc)|].
    apply (conns_of_gone _ _ _ Hc). rewrite <- E. simpl. by rewrite Ex.
Qed.

Lemma wt_refines now sv ev :
  match ev with SWtAccept _ _ | SWtFrame _ _ | SWtStream _ | SWtReaderEnd _ | SWtWrite _ _ | SWtClosed _ => True | _ => False end →
  refines now sv (serve_step cfg now ev sv).
Proof.
  intros Hev. destruct ev; try done; clear Hev; cbn [serve_step].
  - unfold wt_accept. destruct (parse_band path) as [|[band|]]; [by apply refines_same| |by apply refines_same].
    destruct accepted; [|by apply refines_same]. cbn [negb]. by apply (open_refines now band (λ id, WtSession (mkWt band id true Egress_new 1))).
  - unfold wt_frame. destruct (sv_sessions sv !! c) as [[w|x|u]|]; try by apply refines_same.
    case_decide; [by apply refines_same|]. apply pinned_refines.
  - unfold wt_stream. destruct (sv_sessions sv !! c) as [[w|x|u]|] eqn:Ec; try by apply refines_same.
    destruct (wt_open x) eqn:Eo; [|by apply refines_same]. apply refines_same. unfold hub_of. cbn. f_equal. by apply (conns_of_same _ _ _ _ Ec).
  - unfold wt_reader_end. destruct (sv_sessions sv !! c) as [[w|x|u]|] eqn:Ec; try by apply refines_same.
    apply refines_same. by apply (wt_put_hub _ _ _ _ Ec).
  - unfold wt_write. destruct (sv_sessions sv !! c) as [[w|x|u]|] eqn:Ec; try by apply refines_same.
    destruct (wt_open x) eqn:Eo; [|by apply refines_same]. cbn [negb]. destruct (pop c sv) as [sv1 [f|]] eqn:Ep; apply pop_hub in Ep as ->.
    + apply (refines_one _ (HWrite c)); [done|]. unfold hub_of. cbn. f_equal. apply (conns_of_same _ _ _ _ Ec). cbn. by rewrite Eo.
    + by apply (refines_one _ (HWrite c)).
  - unfold wt_closed. destruct (sv_sessions sv !! c) as [[w|x|u]|] eqn:Ec; try by apply refines_same.
    destruct (wt_open x) eqn:Eo; [|by apply refines_same]. cbn [negb]. apply (refines_one _ (HClose c)); [done|]. cbn [hub_step].
    rewrite (hub_of_conn _ _ _ (mkConnState c (Some (wt_band x, Conn (wt_id x)))) Ec) by (simpl; by rewrite Eo).
    unfold wt_put, hub_close, hub_of. cbn. destruct (bool_decide _); cbn; [by rewrite conns_of_insert|by rewrite conns_of_delete].
Qed.

Lemma unix_close_refines now c u sv : sv_sessions sv !! c = Some (UnixSession u) → refines now sv (unix_close c u sv).
Proof.
  intros Ec. apply (refines_one _ (HClose c)); [done|]. cbn [hub_step].
  rewrite (hub_of_conn _ _ _ (mkConnState c (Some (ux_band u, Conn (ux_id u)))) Ec) by done.
  unfold unix_close, hub_close, hub_of. cbn. by rewrite conns_of_delete.
Qed.

Lemma unix_refines now sv ev :
  match ev with SUnixTick _ | SUnixStop | SUnixAccept _ | SUnixRecv _ _ | SUnixWrite _ _ => True | _ => False end →
  refines now sv (serve_step cfg now ev sv).
Proof.
  intros Hev. destruct ev; try done; clear Hev; cbn [serve_step]; [by apply refines_same..| | |].
  - unfold unix_accept. case_decide; [by apply refines_same|]. by apply (open_refines now band (λ id, UnixSession (mkUnix band id []))).
  - unfold unix_recv. destruct (sv_sessions sv !! c) as [[w|x|u]|] eqn:Ec; try by apply refines_same.
    destruct msg as [m|]; cbn [mbind option_bind]; [|by apply unix_close_refines]. unfold unix_message.
    case_decide; [by apply unix_close_refines|]. destruct (_ <? _)%Z; [by apply refines_same|].
    pose proof (pinned_refines now (ux_band u) (ux_id u) m sv) as HP. by destruct (pinned_frame _ _ _ _ _ _).
  - unfold unix_write. destruct (sv_sessions sv !! c) as [[w|x|u]|] eqn:Ec; try by apply refines_same.
    destruct (pop c sv) as [sv1 [f|]] eqn:Ep; apply pop_hub in Ep as ->; [|by apply (refines_one _ (HWrite c))]. destruct ok.
    + apply (refines_one _ (HWrite c)); [done|]. unfold hub_of. cbn. f_equal. by apply (conns_of_same _ _ _ _ Ec).
    + apply (refines_two _ (HWrite c) (HClose c)); [done|done|]. cbn [hub_step].
      change (mkHubState (hub_reg (hub_of sv)) (peer_writer c (hub_store (hub_of sv))).1 (hub_conns (hub_of sv)))
        with (hub_of (with_store (peer_writer c (sv_store sv)).1 sv)).
      rewrite (hub_of_conn (with_store (peer_writer c (sv_store sv)).1 sv) _ _ (mkConnState c (Some (ux_band u, Conn (ux_id u)))) Ec) by done.
      unfold unix_close, hub_close, hub_of. cbn. by rewrite conns_of_delete.
Qed.

Lemma link_refines now sv ev :
  match ev with SLinkStart _ _ _ _ | SLinkMessage _ _ _ | SLinkEnd _ | SLinkTick _ | SLinkWriter _ | SFan => True | _ => False end →
  serve_known ev → refines now sv (serve_step cfg now ev sv).
Proof.
  intros Hev Hh. destruct ev; try done; clear Hev; cbn [serve_step].
  - unfold link_start. apply refines_same. by destruct (link_up _ _ _ _ _).
  - unfold link_message. destruct (link_get id (sv_links sv)) as [h|]; [|by apply refines_same]. unfold link_read.
    destruct (_ =? T_BANDS)%Z; [by apply refines_same|]. destruct (Z.eqb_spec t T_RELAY) as [Et|]; [|by apply refines_same].
    case_decide; [by apply refines_same|]. destruct (negb _); [by apply refines_same|]. cbv zeta. case_decide; [by apply refines_same|].
    eapply (refines_one _ (HInject _ _)); [|done]. exact (Hh Et).
  - by apply refines_same.
  - unfold link_tick. apply refines_same. destruct (sv_advs sv !! id); [|done]. destruct (link_get id (sv_links sv)); [|done].
    destruct (negb _); [done|]. by destruct (advertise_tick _ _ _).
  - unfold link_writer. apply refines_same. by destruct (link_get id (sv_links sv)).
  - unfold links_fan, fan_egress. apply (refines_one _ HFederate); [done|]. cbn [hub_step].
    change (hub_reg (hub_of sv)) with (sv_reg sv). by destruct (take_federated (sv_reg sv)).
Qed.

Lemma serve_step_refines now ev sv : serve_known ev → refines now sv (serve_step cfg now ev sv).
Proof.
  intros Hh. destruct ev; try (by apply wt_refines); try (by apply unix_refines); try (by apply link_refines); cbn [serve_step].
  - unfold udp_recv. destruct received as [[src d]|]; [|by apply refines_same]. apply (refines_one _ (HDatagram src d)); [done|].
    cbn [hub_step]. change (hub_reg (hub_of sv)) with (sv_reg sv). change (hub_store (hub_of sv)) with (sv_store sv). by destruct (udp_datagram _ _ _ _ _ _).
  - unfold udp_write. destruct (queues (sv_store sv) !! tx) as [q|]; [|by apply refines_same]. destruct (q_udp q); [|by apply refines_same].
    apply (refines_one _ (HWrite tx)); [done|]. destruct (pop tx sv) as [sv1 f] eqn:Ep. by apply pop_hub in Ep as ->.
  - by apply (refines_one _ (HPrune ttl)).
  - apply ws_accept_refines.
  - apply ws_read_refines.
  - apply ws_idle_refines.
  - apply ws_write_refines.
  - apply ws_ping_refines.
Qed.
End Refine.

Lemma hub_run_app {po : PeerOrder} cfg es1 es2 h : hub_run cfg (es1 ++ es2) h = hub_run cfg es2 (hub_run cfg es1 h).
Proof. revert h. induction es1 as [|[now e] es1 IH]; intros h; [done|]. apply IH. Qed.

Lemma serve_run_refines {inj : Injected} {po : PeerOrder} cfg evs sv :
  Forall (λ e, serve_known e.2) evs →
  ∃ es, length es ≤ 2 * length evs ∧ Forall (λ e, link_known e.2) es ∧ hub_of (serve_run cfg evs sv) = hub_run cfg es (hub_of sv).
Proof.
  intros Hh. revert sv. induction Hh as [|[now ev] evs Hev Hh IH]; intros sv; [by exists []|]. simpl in Hev. cbn [serve_run].
  destruct (serve_step_refines cfg now ev sv Hev) as (es1 & L1 & H1 & E1).
  destruct (IH (serve_step cfg now ev sv)) as (es2 & L2 & H2 & E2). exists (((now,.) <$> es1) ++ es2).
  rewrite length_app, length_fmap. split; [simpl; lia|]. split.
  - apply Forall_app. split; [|done]. by apply Forall_fmap.
  - by rewrite E2, hub_run_app, E1.
Qed.

Lemma Server_new_hub l queue_bytes federated files : hub_of (Server_new l queue_bytes federated files) = HubState_new l queue_bytes federated.
Proof. done. Qed.

(** The session that is registered under a key, if its reader still runs. *)
Definition serving (c : nat) (x : Session) : option (bytes * PeerKey) := conn_of c x ≫= cs_registered.

Lemma contains_sink r s band id : RegInv r s → contains band (Conn id) r = true ↔ is_Some (sink_of r band (Conn id)).
Proof.
  intros R. unfold contains, sink_of. destruct (bands r !! band) as [peers|] eqn:Eb; simpl; [|by split; [|intros [? ?]]].
  rewrite bool_decide_eq_true. destruct (peers !! Conn id) as [p|] eqn:Ep; simpl; [|by split; intros [? ?]].
  split; [|by eauto]. intros _. apply (rg_peers _ _ R) in Eb as (_ & _ & Hp). apply Hp in Ep as (Hs & _ & He & _). by apply Hs.
Qed.

Lemma served_entries {inj : Injected} sv band id :
  HubInv (hub_of sv) →
  contains band (Conn id) (sv_reg sv) = true ↔ ∃ c x, sv_sessions sv !! c = Some x ∧ serving c x = Some (band, Conn id).
Proof.
  intros H. rewrite (contains_sink _ _ _ _ (hv_reg _ H)). split.
  - intros [x Hx]. destruct (hv_entries _ H band id x Hx) as (_ & c & -> & Hc). simpl in Hc. rewrite conns_of_lookup in Hc.
    destruct (sv_sessions sv !! c) as [y|] eqn:Ey; [|done]. exists c, y. split; [done|]. unfold serving. simpl in Hc. by rewrite Hc.
  - intros (c & x & Hc & Hx). unfold serving in Hx. destruct (conn_of c x) as [cs|] eqn:Ex; [|done].
    destruct (hv_conns _ H c cs (hub_of_conn _ _ _ _ Hc Ex)) as (_ & _ & Hr). destruct (Hr _ _ Hx) as (id' & [= <-] & Hs). by eexists.
Qed.

(** Events of a whole run. *)
Lemma serve_run_inv {inj : Injected} {po : PeerOrder} {pos : PeerOrderSpec po} cfg l queue_bytes federated files evs :
  is_u32 (udp_validation_packets l) → (0 <= queue_bytes <= u64_max)%Z → Forall (λ e, serve_known e.2) evs →
  (2 * Z.of_nat (length evs) < u64_max)%Z → HubInv (hub_of (serve_run cfg evs (Server_new l queue_bytes federated files))).
Proof.
  intros Hl Hq Hh Hn. destruct (serve_run_refines cfg evs (Server_new l queue_bytes federated files) Hh) as (es & Hes & Ho & ->).
  rewrite Server_new_hub. apply hub_run_inv; [by apply HubState_new_inv|done|]. unfold HubState_new. destruct federated; simpl; lia.
Qed.

(** ** WebSocket teardown *)

(** A frame of the queue per turn. *)
Lemma ws_write_frame c w f rest sv q :
  sv_sessions sv !! c = Some (WsSession w) → ws_writing w = true → queues (sv_store sv) !! c = Some q → q_udp q = false →
  q_items q = f :: rest →
  let sv' := ws_write c true sv in
  sv_sessions sv' !! c = Some (WsSession (ws_wrote [OutBinary f] (ws_next_ping w) w)) ∧ sv_reg sv' = sv_reg sv
  ∧ queues (sv_store sv') !! c = Some (mkQueue rest (q_cap q) (q_open q) false).
Proof.
  intros Hc Hw Hq Hu Hi. unfold ws_write. rewrite Hc, Hw. cbn [negb]. unfold pop, peer_writer. rewrite Hq, Hi, Hu. cbn.
  split_and!; [apply lookup_insert_eq|done|apply lookup_insert_eq].
Qed.

Lemma ws_write_all {po : PeerOrder} cfg now items : ∀ c w sv q,
  sv_sessions sv !! c = Some (WsSession w) → ws_writing w = true → queues (sv_store sv) !! c = Some q → q_udp q = false →
  q_items q = items →
  let sv' := serve_run cfg (replicate (length items) (now, SWsWrite c true)) sv in
  sv_sessions sv' !! c = Some (WsSession (ws_wrote (OutBinary <$> items) (ws_next_ping w) w)) ∧ sv_reg sv' = sv_reg sv
  ∧ queues (sv_store sv') !! c = Some (mkQueue [] (q_cap q) (q_open q) false).
Proof.
  induction items as [|f items IH]; intros c w sv q Hc Hw Hq Hu Hi.
  - cbn. unfold ws_wrote. rewrite app_nil_r. destruct w. split_and!; [done|done|]. rewrite Hq. f_equal. destruct q; simpl in *; congruence.
  - cbn [length replicate serve_run serve_step]. destruct (ws_write_frame c w f items sv q Hc Hw Hq Hu Hi) as (S1 & R1 & Q1).
    destruct (IH c _ _ _ S1 Hw Q1) as (S2 & R2 & Q2); [done|done|]. split_and!; [|congruence|done].
    rewrite S2. unfold ws_wrote. simpl. by rewrite <- app_assoc.
Qed.

(** ** What goes out on links *)

Definition egress (r : Registry) : list (bytes * bytes) := default [] (fed r).
Definition outgoing (sv : Server) : list (bytes * bytes) := egress (sv_reg sv) ++ (links (sv_links sv) ≫= lk_queue).

(** A frame a local peer sent. *)
Definition local_frame (e : serve_event) : option bytes :=
  match e with
  | SUdp (Some (_, d)) => Some d
  | SWsRead _ (WsBinary d) => Some d
  | SWtFrame _ f => Some f
  | SUnixRecv _ (Some m) => Some m
  | _ => None
  end.

Section OneHop.
Context {po : PeerOrder} (cfg : HubConfig).
Implicit Types (item : bytes * bytes).

Lemma egress_insert band key make conn now r s : egress (registry_insert band key make conn now r s).1.1 = egress r.
Proof.
  unfold registry_insert. destruct (_ && _); [done|]. case_decide; [done|].
  destruct (_ || _); [destruct (make s)|]; done.
Qed.

Lemma egress_observe band addr make now r s : egress (observe_udp band addr make now r s).1.1 = egress r.
Proof.
  unfold observe_udp. destruct (bands r !! band ≫= _) as [[peers p]|]; [|apply egress_insert].
  destruct (_ && _); [|done]. by destruct (make s).
Qed.

Lemma egress_touch band key now r : egress (touch band key now r) = egress r.
Proof. unfold touch. by destruct (bands r !! band ≫= _) as [[]|]. Qed.

Lemma egress_disconnect band key r : egress (disconnect band key r) = egress r.
Proof. unfold disconnect. by destruct (bands r !! band). Qed.

Lemma egress_forward band from frame r s item :
  item ∈ egress (forward band from frame r s).1 → item ∈ egress r ∨ item.2 = frame.
Proof.
  unfold forward. destruct (route_info frame) as [info|]; [|by left]. destruct (bands r !! band) as [peers|]; [|by left].
  case_decide; [by left|]. simpl. unfold federate, egress. destruct (fed r) as [q|] eqn:Eq; [|by rewrite Eq; left].
  case_decide; [by rewrite Eq; left|]. simpl. rewrite elem_of_app, list_elem_of_singleton. intros [?| ->]; [by left|by right].
Qed.

Lemma egress_pinned band key frame now r s item :
  item ∈ egress (pinned_frame band key frame now r s).1 → item ∈ egress r ∨ item.2 = frame.
Proof.
  unfold pinned_frame. destruct (route_info frame); [|by left]. case_decide as Hd; [|by left].
  intros [H|H]%egress_forward; [|by right]. left. by rewrite egress_touch in H.
Qed.

Lemma egress_ws data now cs r s item :
  item ∈ egress (ws_message data now cs r s).1.1.1 → item ∈ egress r ∨ item.2 = data.
Proof.
  unfold ws_message. destruct (route_info data) as [info|]; [|by left]. destruct (cs_registered cs) as [[band k]|].
  - case_decide as Hd; [by left|]. pose proof (egress_forward (ri_band_id info) k data (touch band k now r) s item) as H.
    destruct (forward _ _ _ _ _). simpl in *. rewrite egress_touch in H. done.
  - cbn [next_conn_id]. set (r0 := mkRegistry _ _ _ _).
    pose proof (egress_insert (ri_band_id info) (Conn (next_conn r)) (λ s, (s, SinkConn (cs_queue cs))) true now r0 s) as Hi.
    unfold connect. destruct (registry_insert _ _ _ _ _ _ _) as [[r1 s1] [u|e]]; simpl in Hi.
    + pose proof (egress_forward (ri_band_id info) (Conn (next_conn r)) data r1 s1 item) as H. rewrite Hi in H.
      by destruct (forward _ _ _ _ _).
    + simpl. rewrite Hi. by left.
Qed.

Lemma egress_open band tx now r s : egress (conn_open band tx now r s).1.1 = egress r.
Proof.
  unfold conn_open, connect. cbn [next_conn_id]. set (r0 := mkRegistry _ _ _ _).
  pose proof (egress_insert band (Conn (next_conn r)) (λ s, (s, SinkConn tx)) true now r0 s) as Hi.
  by destruct (registry_insert _ _ _ _ _ _ _) as [[r1 s1] [u|e]].
Qed.

Lemma link_get_elem id ls h : link_get id ls = Some h → h ∈ links ls.
Proof.
  unfold link_get. destruct (list_find _ _) as [[i x]|] eqn:E; [|done]. intros [= ->]. apply list_find_Some in E as (E & _).
  by eapply list_elem_of_lookup_2.
Qed.

Lemma link_set_queues id h ls item : item ∈ (links (link_set id h ls) ≫= lk_queue) → item ∈ (links ls ≫= lk_queue) ∨ item ∈ lk_queue h.
Proof.
  simpl. rewrite !list_elem_of_bind. intros (x & Hi & (y & -> & Hy)%list_elem_of_fmap). case_decide; [by right|left; eauto].
Qed.

Lemma link_queue_old id h ls item : link_get id ls = Some h → item ∈ lk_queue h → item ∈ (links ls ≫= lk_queue).
Proof. intros Hg Hi. apply list_elem_of_bind. eauto using link_get_elem. Qed.

(** The sessions leave the links alone. *)
Lemma serve_step_links now e sv :
  match e with
  | SLinkStart _ _ _ _ | SLinkMessage _ _ _ | SLinkEnd _ | SLinkTick _ | SLinkWriter _ | SFan => False
  | _ => True
  end → sv_links (serve_step cfg now e sv) = sv_links sv.
Proof.
  intros He. destruct e; try done; clear He; cbn [serve_step];
    unfold udp_recv, udp_write, pop, ws_accept, ws_read, ws_idle, ws_write, ws_ping, ws_leave, ws_writer_end, ws_put, wt_accept, wt_frame, wt_stream,
      wt_reader_end, wt_write, wt_closed, wt_put, unix_accept, unix_recv, unix_write, unix_close, pop; repeat (case_match; simplify_eq/=; try done).
Qed.

Lemma take_federated_egress r item :
  item ∈ egress (take_federated r).1 → item ∈ egress r.
Proof. unfold take_federated, egress. destruct (fed r) as [[|x q]|] eqn:E; simpl; rewrite ?E; try done. simpl. by right. Qed.

Lemma taken_was_queued r item : (take_federated r).2 = Some item → item ∈ egress r.
Proof. unfold take_federated, egress. destruct (fed r) as [[|x q]|]; simpl; [done| |done]. intros [= ->]. by left. Qed.

Lemma ws_read_egress now c m sv item :
  item ∈ egress (sv_reg (ws_read now c m sv)) → item ∈ egress (sv_reg sv) ∨ local_frame (SWsRead c m) = Some item.2.
Proof.
  assert (Hleave : ∀ w sv', egress (sv_reg (ws_leave c w sv')) = egress (sv_reg sv')).
  { intros w sv'. unfold ws_leave, ws_put. destruct (ws_registered w) as [[]|]; case_match; simpl; by rewrite ?egress_disconnect. }
  unfold ws_read. destruct (sv_sessions sv !! c) as [[w|x|u]|]; try by left. destruct (negb _); [by left|].
  destruct m as [data| | | |]; rewrite ?Hleave; try by left.
  pose proof (egress_ws data now (mkConnState c (ws_registered w)) (sv_reg sv) (sv_store sv) item) as H.
  destruct (ws_message _ _ _ _ _) as [[[r s] cs] alive]. simpl in H. intros Hi. assert (Hi' : item ∈ egress r).
  { destruct alive; [done|]. by rewrite Hleave in Hi. }
  destruct (H Hi') as [?| <-]; [by left|by right].
Qed.

Lemma serve_step_egress now e sv item :
  item ∈ egress (sv_reg (serve_step cfg now e sv)) → item ∈ egress (sv_reg sv) ∨ local_frame e = Some item.2.
Proof.
  destruct e; cbn [serve_step]; try (by left); try apply ws_read_egress.
  - unfold udp_recv. destruct received as [[src d]|]; [|by left]. unfold udp_datagram. destruct (route_info d) as [info|]; [|by left].
    pose proof (egress_observe (ri_band_id info) src (peer_sink src (Nat.max (hc_peer_queue cfg) 64)) now (sv_reg sv) (sv_store sv)) as Ho.
    destruct (observe_udp _ _ _ _ _ _) as [[r s] [u|err]]; simpl in Ho; [|simpl; rewrite Ho; by left].
    pose proof (egress_forward (ri_band_id info) (Udp src) d r s item) as H. destruct (forward _ _ _ _ _). simpl in *. rewrite Ho in H.
    intros Hi. destruct (H Hi) as [?| <-]; [by left|by right].
  - unfold udp_write, pop. repeat (case_match; simplify_eq/=; try by left).
  - unfold ws_accept. repeat (case_match; simplify_eq/=; try by left).
  - unfold ws_idle, ws_leave, ws_put. repeat (case_match; simplify_eq/=; rewrite ?egress_disconnect; try by left).
  - unfold ws_write, ws_writer_end, ws_put, pop. repeat (case_match; simplify_eq/=; try by left).
  - unfold ws_ping, ws_writer_end, ws_put. repeat (case_match; simplify_eq/=; try by left).
  - unfold wt_accept. destruct (parse_band path) as [|[band|]]; try by left. destruct (negb accepted); [by left|].
    destruct (conn_accept _ _) as [s c]. pose proof (egress_open band c now (sv_reg sv) s) as Ho.
    destruct (conn_open band c now (sv_reg sv) s) as [[r s'] cs]. simpl in Ho. repeat (case_match; simplify_eq/=; rewrite ?Ho; try by left).
  - unfold wt_frame. destruct (sv_sessions sv !! c) as [[w|x|u]|]; try by left. case_decide as Hd; [by left|].
    pose proof (egress_pinned (wt_band x) (Conn (wt_id x)) frame now (sv_reg sv) (sv_store sv) item) as H.
    destruct (pinned_frame _ _ _ _ _ _). simpl in *. intros Hi. destruct (H Hi) as [?| <-]; [by left|by right].
  - unfold wt_stream. repeat (case_match; simplify_eq/=; try by left).
  - unfold wt_reader_end, wt_put. repeat (case_match; simplify_eq/=; try by left).
  - unfold wt_write, pop. repeat (case_match; simplify_eq/=; try by left).
  - unfold wt_closed, wt_put. repeat (case_match; simplify_eq/=; rewrite ?egress_disconnect; try by left).
  - unfold unix_accept. case_decide as Hd; [by left|]. destruct (conn_accept _ _) as [s c]. pose proof (egress_open band c now (sv_reg sv) s) as Ho.
    destruct (conn_open band c now (sv_reg sv) s) as [[r s'] cs]. simpl in Ho. repeat (case_match; simplify_eq/=; rewrite ?Ho; try by left).
  - unfold unix_recv. destruct (sv_sessions sv !! c) as [[w|x|u]|]; try by left. destruct msg as [m|]; cbn [mbind option_bind].
    + unfold unix_message. case_decide as Hd; [simpl; rewrite egress_disconnect; by left|]. destruct (_ <? _)%Z; [by left|].
      pose proof (egress_pinned (ux_band u) (Conn (ux_id u)) m now (sv_reg sv) (sv_store sv) item) as H.
      destruct (pinned_frame _ _ _ _ _ _). simpl in *. intros Hi. destruct (H Hi) as [?| <-]; [by left|by right].
    + simpl. rewrite egress_disconnect. by left.
  - unfold unix_write, unix_close, pop. repeat (case_match; simplify_eq/=; rewrite ?egress_disconnect; try by left).
  - unfold link_start. case_match; by left.
  - unfold link_message. repeat (case_match; simplify_eq/=; try by left).
  - unfold link_tick. repeat (case_match; simplify_eq/=; try by left).
  - unfold link_writer. repeat (case_match; simplify_eq/=; try by left).
  - unfold links_fan, fan_egress. pose proof (take_federated_egress (sv_reg sv) item) as H.
    destruct (take_federated (sv_reg sv)) as [r it]. simpl in *. auto.
Qed.
End OneHop.

Section OneHopRun.
Context {po : PeerOrder} (cfg : HubConfig).
Implicit Types (item : bytes * bytes).

Lemma link_try_send_queue new h item : item ∈ lk_queue (link_try_send new h) → item ∈ lk_queue h ∨ item = new.
Proof.
  unfold link_try_send. destruct (_ && _); [|by left]. simpl. rewrite elem_of_app, list_elem_of_singleton. done.
Qed.

Lemma link_write_queue h item : item ∈ lk_queue (link_write h).1 → item ∈ lk_queue h.
Proof.
  unfold link_write. destruct (lk_queue h) as [|x rest] eqn:Eq; [simpl; by rewrite Eq|]. destruct (link_message_of x); simpl; [|by intros ?%elem_of_nil]. by right.
Qed.

Lemma link_read_queue t payload h r s : lk_queue (link_read t payload h r s).1 = lk_queue h.
Proof. unfold link_read. by repeat case_match. Qed.

Lemma advertise_queue bands a h item : item ∈ lk_queue (advertise_tick bands a h).2 → item ∈ lk_queue h ∨ item.1 = BANDS_MARKER.
Proof.
  unfold advertise_tick. destruct (negb _); [by left|]. destruct (_ || _); [|by left]. simpl.
  intros [?| ->]%link_try_send_queue; [by left|by right].
Qed.

Lemma fan_queue x h item : item ∈ lk_queue (fan_one x h) → item ∈ lk_queue h ∨ item = x.
Proof. unfold fan_one. destruct (negb _); [by left|]. case_bool_decide; [|by left]. apply link_try_send_queue. Qed.

Lemma serve_step_outgoing now e sv item :
  item ∈ outgoing (serve_step cfg now e sv) → item ∈ outgoing sv ∨ item.1 = BANDS_MARKER ∨ local_frame e = Some item.2.
Proof.
  unfold outgoing. rewrite !elem_of_app. intros [Hi|Hi].
  { apply serve_step_egress in Hi as [?|?]; auto. }
  destruct e; try (rewrite serve_step_links in Hi by done; by auto); cbn [serve_step] in Hi.
  - unfold link_start, link_up in Hi. destruct (_ && _); [|by auto]. simpl in Hi. rewrite bind_app in Hi. apply elem_of_app in Hi as [?|Hi]; [by auto|].
    simpl in Hi. by apply elem_of_nil in Hi.
  - unfold link_message in Hi. destruct (link_get id (sv_links sv)) as [h|] eqn:Eg; [|by auto].
    pose proof (link_read_queue t payload h (sv_reg sv) (sv_store sv)) as Hq. destruct (link_read _ _ _ _ _) as [h' s'].
    apply link_set_queues in Hi as [?|Hi]; [by auto|]. simpl in Hq. rewrite Hq in Hi. left. right. by eapply link_queue_old.
  - simpl in Hi. apply list_elem_of_bind in Hi as (h & Hq & [_ Hh]%list_elem_of_filter). left. right. apply list_elem_of_bind. eauto.
  - unfold link_tick in Hi. destruct (sv_advs sv !! id) as [a|]; [|by auto]. destruct (link_get id (sv_links sv)) as [h|] eqn:Eg; [|by auto].
    destruct (negb _); [by auto|]. pose proof (advertise_queue (local_bands (sv_reg sv)) a h item) as Hq.
    destruct (advertise_tick _ _ _) as [a' h']. apply link_set_queues in Hi as [?|Hi]; [by auto|].
    destruct (Hq Hi) as [?|?]; [|by auto]. left. right. by eapply link_queue_old.
  - unfold link_writer in Hi. destruct (link_get id (sv_links sv)) as [h|] eqn:Eg; [|by auto].
    apply link_set_queues in Hi as [?|Hi%link_write_queue]; [by auto|]. left. right. by eapply link_queue_old.
  - unfold links_fan, fan_egress in Hi. pose proof (taken_was_queued (sv_reg sv)) as Ht.
    destruct (take_federated (sv_reg sv)) as [r [x|]]; [|by auto]. simpl in *.
    apply list_elem_of_bind in Hi as (h & Hq & (h0 & -> & Hh)%list_elem_of_fmap). apply fan_queue in Hq as [?| ->]; [|by auto].
    left. right. apply list_elem_of_bind. eauto.
Qed.

Lemma serve_run_outgoing evs sv item :
  item ∈ outgoing (serve_run cfg evs sv) →
  item ∈ outgoing sv ∨ item.1 = BANDS_MARKER ∨ ∃ e, e ∈ evs.*2 ∧ local_frame e = Some item.2.
Proof.
  revert sv. induction evs as [|[now e] evs IH]; intros sv Hi; [by left|]. cbn [serve_run] in Hi.
  destruct (IH _ Hi) as [Ho|[?|(e' & He' & Hf)]]; [|by auto|].
  - apply serve_step_outgoing in Ho as [?|[?|?]]; [by auto|by auto|]. right. right. exists e. split; [by left|done].
  - right. right. exists e'. split; [by right|done].
Qed.
End OneHopRun.

(** ** Socket files *)

Lemma to_hex_inj l l' : to_hex l = to_hex l' → l = l'.
Proof.
  intros E. assert (Hl : length l = length l') by (apply (f_equal length) in E; rewrite !length_to_hex in E; lia).
  pose proof (hex_bytes_to_hex [] l) as H1. pose proof (hex_bytes_to_hex [] l') as H2. simpl in *. rewrite E, Hl, H2 in H1. congruence.
Qed.

#[global] Instance socket_name_inj : Inj (=) (=) socket_name.
Proof. intros l l' E. unfold socket_name, band_hex in E. apply app_inv_tail in E. by apply to_hex_inj. Qed.

(** Every bound band has its name in the directory, and every other name there is one of
    [others]. *)
Definition FilesInv (others : bytes → Prop) (sv : Server) : Prop :=
  (∀ b, b ∈ sv_active sv → socket_name b ∈ sv_files sv)
  ∧ ∀ n, n ∈ sv_files sv → others n ∨ ∃ b, b ∈ sv_active sv ∧ n = socket_name b.

Lemma bind_band_spec res band files n :
  n ∈ bind_band res band files ↔ n ≠ socket_name band ∧ n ∈ files ∨ n = socket_name band ∧ (res = ListenErr ∨ res = Bound).
Proof. unfold bind_band. destruct res; set_solver. Qed.

Lemma bind_wanted_spec bind want active files n :
  n ∈ bind_wanted bind want active files ↔
    (∃ b, b ∈ want ∧ b ∉ active ∧ (bind b = ListenErr ∨ bind b = Bound) ∧ n = socket_name b)
    ∨ n ∈ files ∧ ∀ b, b ∈ want → b ∉ active → n ≠ socket_name b.
Proof.
  unfold bind_wanted. revert files. induction want as [|b want IH]; intros files; [set_solver|]. cbn [foldl].
  rewrite IH. case_decide as Hd.
  - split; [intros [(x & Hx & H)|[H1 H2]]|intros [(x & Hx & H1 & H2)|[H1 H2]]]; [left; exists x; set_solver|right; set_solver|..].
    + apply elem_of_cons in Hx as [->|Hx]; [done|]. left. by exists x.
    + right. set_solver.
  - setoid_rewrite bind_band_spec. split.
    + intros [(x & Hx & H1 & H2 & ->)|[[[Hn Hf]|[-> Hr]] Ho]]; [left; exists x; set_solver| |].
      * right. split; [done|]. intros x [->|Hx]%elem_of_cons; auto.
      * left. exists b. split_and!; [by left|done|done|done].
    + intros [(x & Hx & H1 & H2 & ->)|[Hf Ho]].
      * destruct (decide (x = b)) as [->|Hne]; [|left; exists x; set_solver].
        destruct (decide (b ∈ want)) as [Hw|Hw]; [left; by exists b|]. right. split; [right; auto|].
        intros y Hy _ E%(inj socket_name). congruence.
      * right. split; [left; split; [apply Ho; [by left|done]|done]|]. intros x Hx. apply Ho. by right.
Qed.

Lemma reconcile_files others bind sv :
  (∀ b, bind b = ListenErr → others (socket_name b)) → FilesInv others sv → FilesInv others (unix_reconcile bind sv).
Proof.
  intros Hl [F1 F2]. set (want := band_list (sv_reg sv)).
  assert (Hfiles : ∀ n, n ∈ sv_files (unix_reconcile bind sv) ↔
    n ∈ bind_wanted bind want (sv_active sv) (sv_files sv) ∧ ∀ b, b ∈ sv_active sv → b ∉ want → n ≠ socket_name b).
  { intros n. unfold unix_reconcile. cbn. fold want. rewrite elem_of_difference, elem_of_map. setoid_rewrite elem_of_filter. naive_solver. }
  split.
  - intros b Hb. unfold unix_reconcile in Hb. cbn in Hb. fold want in Hb. apply reconcile_spec in Hb as [Hw Hb]. apply Hfiles.
    rewrite bind_wanted_spec. split.
    + destruct (decide (b ∈ sv_active sv)) as [Ha|Ha].
      * right. split; [auto|]. intros x _ Hx E%(inj socket_name). congruence.
      * left. exists b. split_and!; try done. destruct Hb as [?|Hb]; [done|]. right. by destruct (bind b).
    + intros x _ Hx E%(inj socket_name). congruence.
  - intros n [Hn Ho]%Hfiles. apply bind_wanted_spec in Hn. destruct Hn as [(b & Hw & Ha & [Hb|Hb] & ->)|[Hf Hn]].
    + left. by apply Hl.
    + right. exists b. split; [|done]. unfold unix_reconcile. cbn. fold want. apply reconcile_spec. by rewrite Hb; auto.
    + destruct (F2 n Hf) as [?|(b & Ha & ->)]; [by left|]. right. exists b. split; [|done]. unfold unix_reconcile. cbn. fold want.
      apply reconcile_spec. destruct (decide (b ∈ want)) as [Hw|Hw]; [by auto|]. by destruct (Ho b Ha Hw).
Qed.

(** The names of sockets that were bound and could not listen. *)
Definition left_bound (e : serve_event) (n : bytes) : Prop :=
  match e with SUnixTick bind => ∃ b, bind b = ListenErr ∧ n = socket_name b | _ => False end.

Lemma serve_step_files {po : PeerOrder} cfg others now e sv :
  (∀ n, left_bound e n → others n) → FilesInv others sv → FilesInv others (serve_step cfg now e sv).
Proof.
  intros He HF. assert (Hsame : ∀ sv', sv_active sv' = sv_active sv → sv_files sv' = sv_files sv → FilesInv others sv')
    by (intros sv' E1 E2; unfold FilesInv; by rewrite E1, E2).
  destruct e; cbn [serve_step];
    try (apply Hsame;
      unfold udp_recv, udp_write, pop, ws_accept, ws_read, ws_idle, ws_write, ws_ping, ws_leave, ws_writer_end, ws_put, wt_accept, wt_frame, wt_stream,
        wt_reader_end, wt_write, wt_closed, wt_put, unix_accept, unix_recv, unix_write, unix_close, pop, link_start, link_message, link_end,
        link_tick, link_writer, links_fan, fan_egress; try done; repeat (case_match; simplify_eq/=; try done); done).
  - apply reconcile_files; [|done]. intros b Hb. apply He. by exists b.
  - destruct HF as [F1 F2]. split; [set_solver|]. intros n Hn. unfold unix_shutdown in Hn. cbn in Hn.
    apply elem_of_difference in Hn as [Hf Hn]. destruct (F2 n Hf) as [?|(b & Hb & ->)]; [by left|]. destruct Hn. by apply elem_of_map_2.
Qed.

Lemma serve_run_files {po : PeerOrder} cfg others evs sv :
  Forall (λ e, ∀ n, left_bound e.2 n → others n) evs → FilesInv others sv → FilesInv others (serve_run cfg evs sv).
Proof.
  intros H. revert sv. induction H as [|[now e] evs He _ IH]; intros sv HF; [done|]. cbn [serve_run]. apply IH. by apply serve_step_files.
Qed.

Lemma disconnect_contains band key r : contains band key (disconnect band key r) = false.
Proof.
  unfold contains, disconnect. destruct (bands r !! band) as [peers|] eqn:Eb; [|by rewrite Eb]. simpl. case_decide.
  - by rewrite lookup_delete_eq.
  - rewrite lookup_insert_eq, lookup_delete_eq. by apply bool_decide_eq_false; intros [].
Qed.

(** ** Properties *)

(** C4: the servers implement the hub. Whatever the sockets, peers, streams and links
    of a started hub do, and however the tasks of its sessions interleave, every
    state its servers reach is one the abstract hub reaches by at most two events a
    step, in which the frames injected are those of RELAY messages of links. So the
    caps, the byte budget and the queue depths hold in it, and a queue holds only
    frames of its band and frames a link relayed under its band; and the connection
    entries of the registry are exactly those of the sessions whose reader still
    runs, so none outlives its session. *)
Theorem served_hub {po : PeerOrder} {pos : PeerOrderSpec po} (cfg : HubConfig) (l : Limits) (queue_bytes : Z) (federated : bool)
    (files : gset bytes) (evs : list (Z * serve_event)) :
  is_u32 (udp_validation_packets l) → (0 <= queue_bytes <= u64_max)%Z → (2 * Z.of_nat (length evs) < u64_max)%Z →
  let sv := serve_run cfg evs (Server_new l queue_bytes federated files) in
  (∃ es, length es ≤ 2 * length evs ∧ Forall (λ e, link_known (inj := relayed_by evs) e.2) es
     ∧ hub_of sv = hub_run cfg es (HubState_new l queue_bytes federated))
  ∧ HubInv (inj := relayed_by evs) (hub_of sv)
  ∧ ∀ band id, contains band (Conn id) (sv_reg sv) = true ↔ ∃ c x, sv_sessions sv !! c = Some x ∧ serving c x = Some (band, Conn id).
Proof.
  intros Hl Hq Hn sv. assert (Hh : Forall (λ e, serve_known (inj := relayed_by evs) e.2) evs).
  { apply Forall_forall. intros [now e] He. destruct e; try done. intros ->. exists now, id, payload. split; [done|apply surjective_pairing]. }
  pose proof (serve_run_inv cfg l queue_bytes federated files evs Hl Hq Hh Hn) as HI.
  split; [|split; [done|intros band id; by apply (served_entries (inj := relayed_by evs))]].
  rewrite <- (Server_new_hub l queue_bytes federated files). by apply serve_run_refines.
Qed.

(** C28: a WebSocket peer that has fallen silent is let go. The idle timeout of a
    connection does nothing within a minute of its last message; from then on it takes
    the peer out of the registry, its writer then sends what was still queued, in
    order and one message a frame, and with its next turn closes the connection and
    the session is gone. *)
Theorem ws_idle_evicts {inj : Injected} {po : PeerOrder} (cfg : HubConfig) (now : Z) (sv : Server) (c : nat) (w : WsConn) (band : bytes) (key : PeerKey) (q : Queue) :
  HubInv (hub_of sv) → sv_sessions sv !! c = Some (WsSession w) → ws_reading w = true → ws_writing w = true →
  ws_registered w = Some (band, key) → queues (sv_store sv) !! c = Some q →
  let sv1 := serve_step cfg now (SWsIdle c) sv in
  if decide (now < ws_heard w + WS_IDLE_TIMEOUT)%Z then sv1 = sv else
  let sv2 := serve_run cfg (replicate (length (q_items q)) (now, SWsWrite c true)) sv1 in
  let sv3 := serve_step cfg now (SWsWrite c true) sv2 in
  contains band key (sv_reg sv1) = false
  ∧ (∃ w2, sv_sessions sv2 !! c = Some (WsSession w2) ∧ ws_out w2 = ws_out w ++ (OutBinary <$> q_items q))
  ∧ sv_sessions sv3 !! c = None ∧ contains band key (sv_reg sv3) = false ∧ q_open <$> queues (sv_store sv3) !! c = Some false.
Proof.
  intros HI Hc Hr Hw Hreg Hq sv1.
  assert (Hu : q_udp q = false).
  { destruct (hv_conns _ HI c (mkConnState c (ws_registered w))) as (_ & (q' & Hq' & Hu & _) & _).
    - eapply hub_of_conn; [exact Hc|]. simpl. by rewrite Hr.
    - simpl in Hq'. congruence. }
  case_decide as Hd.
  { unfold sv1. cbn [serve_step]. unfold ws_idle. rewrite Hc, Hr, (proj2 (Z.leb_gt _ _)) by lia. done. }
  intros sv2 sv3. set (w1 := mkWs (ws_registered w) false true (ws_heard w) (ws_next_ping w) (ws_out w)).
  assert (E1 : sv1 = set_session c (WsSession w1) (with_hub (disconnect band key (sv_reg sv)) (sv_store sv) sv)).
  { unfold sv1. cbn [serve_step]. unfold ws_idle, ws_leave, ws_put. rewrite Hc, Hr, (proj2 (Z.leb_le _ _)) by lia. unfold w1. cbn. by rewrite Hreg, Hw. }
  assert (C1 : contains band key (sv_reg sv1) = false) by (rewrite E1; apply disconnect_contains).
  destruct (ws_write_all cfg now (q_items q) c w1 sv1 q) as (S2 & R2 & Q2); [rewrite E1; apply lookup_insert_eq|done|rewrite E1; exact Hq|done|done|].
  fold sv2 in S2, R2, Q2. split; [done|]. split; [eexists; split; [exact S2|done]|].
  unfold sv3. cbn [serve_step]. unfold ws_write. rewrite S2. unfold pop, peer_writer. rewrite Q2. cbn.
  split_and!; [apply lookup_delete_eq|by rewrite R2|]. unfold conn_drop. rewrite Q2. cbn. by rewrite lookup_insert_eq.
Qed.

(** C16: a frame crosses at most one link. In any run of a hub, whatever waits on the
    egress channel or in a link's queue is one of the hub's own advertisements or a
    frame that a peer of this hub sent it: what arrives on a link is handed to local
    peers and never goes out on a link again. *)
Theorem one_hop {po : PeerOrder} (cfg : HubConfig) (l : Limits) (queue_bytes : Z) (federated : bool) (files : gset bytes)
    (evs : list (Z * serve_event)) (band frame : bytes) :
  (band, frame) ∈ outgoing (serve_run cfg evs (Server_new l queue_bytes federated files)) →
  band = BANDS_MARKER ∨ ∃ e, e ∈ evs.*2 ∧ local_frame e = Some frame.
Proof.
  intros Hi. apply serve_run_outgoing in Hi as [Hi|[?|?]]; [|by left|by right]. exfalso. unfold outgoing in Hi. simpl in Hi.
  destruct federated; by apply elem_of_nil in Hi.
Qed.

(** C30: the socket directory follows the bands. At every moment of a run each band the
    hub serves over AF_UNIX has its name in the directory, and every other name there
    was there before the hub or is that of a socket that was bound in the run and
    could not be listened on; and once the transport has stopped only such names are
    in the directory. The names of sockets that could not be listened on do stay: see
    [listen_error_leaves_name]. *)
Theorem unix_sockets_cleaned {po : PeerOrder} (cfg : HubConfig) (l : Limits) (queue_bytes : Z) (federated : bool) (files : gset bytes)
    (evs : list (Z * serve_event)) (now : Z) :
  let sv := serve_run cfg evs (Server_new l queue_bytes federated files) in
  let others n := n ∈ files ∨ ∃ e, e ∈ evs.*2 ∧ left_bound e n in
  FilesInv others sv ∧ ∀ n, n ∈ sv_files (serve_step cfg now SUnixStop sv) → others n.
Proof.
  intros sv others. assert (HF : FilesInv others sv).
  { apply serve_run_files; [|split; [set_solver|by left; left]]. apply Forall_forall. intros [t e] He n Hn. right. exists e.
    split; [|done]. by apply (list_elem_of_fmap_2 snd) in He. }
  split; [done|]. intros n Hn. destruct (serve_step_files cfg others now SUnixStop sv (λ n, False_ind _) HF) as [_ F2].
  destruct (F2 n Hn) as [?|(b & Hb & _)]; [done|]. by apply elem_of_empty in Hb.
Qed.

(** ** Witnesses *)

#[local] Existing Instance sample_order.
#[local] Existing Instance sample_order_spec.

(** A WebSocket and two UDP peers of one band, a socket for it, a frame for the link. *)
Definition sample_serve : list (Z * serve_event) :=
  let b := sample_band Byte.x01 in
  [(0, SWsAccept None (str_bytes "/band") (str_bytes "/band")); (1, SWsRead 0 (WsBinary (sample_frame b Stream 0)));
   (2, SUdp (Some (sample_addr 1, sample_frame b Stream 0))); (3, SUdp (Some (sample_addr 1, sample_frame b Stream 0)));
   (4, SUnixTick (λ _, Bound)); (5, SUnixAccept b); (6, SLinkStart [] true 1 [])]%Z.

Definition sample_server : Server := serve_run (mkHubConfig 64 64) sample_serve (Server_new sample_limits 1000 true {[str_bytes "old"]}).

Lemma sample_served : HubInv (inj := λ _ _, False) (hub_of sample_server).
Proof. apply serve_run_inv; [by vm_compute|by vm_compute|repeat constructor|by vm_compute]. Qed.

(** The link is up, its other end advertises nothing and relays a frame of another band. *)
Definition sample_linked : list (Z * serve_event) :=
  let frame := sample_frame (sample_band Byte.x02) Stream 0 in
  sample_serve ++ [(7, SLinkMessage 0 T_RELAY (sample_band Byte.x01 ++ to_be_bytes 4 (len frame) ++ frame))]%Z.

Lemma served_hub_witness :
  let sv := serve_run (mkHubConfig 64 64) sample_linked (Server_new sample_limits 1000 true {[str_bytes "old"]}) in
  HubInv (inj := relayed_by sample_linked) (hub_of sv) ∧ contains (sample_band Byte.x01) (Conn 1) (sv_reg sv) = true.
Proof.
  destruct (served_hub (mkHubConfig 64 64) sample_limits 1000 true {[str_bytes "old"]} sample_linked) as (_ & HI & _).
  - by vm_compute.
  - by vm_compute.
  - by vm_compute.
  - split; [exact HI|by vm_compute].
Defined.

Definition sample_ws : WsConn := mkWs (Some (sample_band Byte.x01, Conn 1)) true true 1 20000 [].
Definition sample_queue : list bytes := replicate 2 (sample_frame (sample_band Byte.x01) Stream 0).

Lemma ws_idle_evicts_witness :
  contains (sample_band Byte.x01) (Conn 1) (sv_reg (serve_step (mkHubConfig 64 64) 60001 (SWsIdle 0) sample_server)) = false
  ∧ serve_step (mkHubConfig 64 64) 60000 (SWsIdle 0) sample_server = sample_server.
Proof.
  assert (Hs : sv_sessions sample_server !! 0 = Some (WsSession sample_ws)) by (by vm_compute).
  assert (Hq : queues (sv_store sample_server) !! 0 = Some (mkQueue sample_queue 64 true false)) by (by vm_compute).
  split.
  - pose proof (ws_idle_evicts (mkHubConfig 64 64) 60001 sample_server 0 sample_ws (sample_band Byte.x01) (Conn 1)
      (mkQueue sample_queue 64 true false) sample_served Hs eq_refl eq_refl eq_refl Hq) as H.
    rewrite decide_False in H by (by vm_compute). exact (proj1 H).
  - pose proof (ws_idle_evicts (mkHubConfig 64 64) 60000 sample_server 0 sample_ws (sample_band Byte.x01) (Conn 1)
      (mkQueue sample_queue 64 true false) sample_served Hs eq_refl eq_refl eq_refl Hq) as H.
    rewrite decide_True in H by (by vm_compute). exact H.
Defined.

Lemma one_hop_witness :
  (sample_band Byte.x01, sample_frame (sample_band Byte.x01) Stream 0) ∈ outgoing sample_server
  ∧ ∃ e, e ∈ sample_serve.*2 ∧ local_frame e = Some (sample_frame (sample_band Byte.x01) Stream 0).
Proof.
  assert (Hi : (sample_band Byte.x01, sample_frame (sample_band Byte.x01) Stream 0) ∈ outgoing sample_server)
    by (apply (bool_decide_unpack _); by vm_compute).
  split; [exact Hi|].
  destruct (one_hop (mkHubConfig 64 64) sample_limits 1000 true {[str_bytes "old"]} sample_serve _ _ Hi) as [H|H]; [done|exact H].
Defined.

Lemma unix_sockets_sample :
  socket_name (sample_band Byte.x01) ∈ sv_files sample_server
  ∧ sv_files (serve_step (mkHubConfig 64 64) 9 SUnixStop sample_server) = {[str_bytes "old"]}.
Proof. split; refine (bool_decide_unpack _ _); vm_compute; exact I. Qed.

(** The name of a socket that could not be listened on stays when the band has gone and
    the transport has stopped. *)
Lemma listen_error_leaves_name :
  let evs := take 4 sample_serve ++ [(4, SUnixTick (λ _, ListenErr)); (5, SUnixStop)]%Z in
  let sv := serve_run (mkHubConfig 64 64) evs (Server_new sample_limits 1000 true ∅) in
  sv_active sv = ∅ ∧ sv_files sv = {[socket_name (sample_band Byte.x01)]}.
Proof. split; refine (bool_decide_unpack _ _); vm_compute; exact I. Qed.
