(* ===== verification/SpatialWire.v ===== *)
(** Channel routing, stream framing, datagram fragmentation and the latest-wins
    reassembler of the spatial session crate ([src/wire.rs]). *)

From S2P Require Import Prelude Text.

(** * Routing *)

Definition CH_CTL : Z := 0.
Definition CH_INPUT : Z := 1.
Definition CH_META : Z := 201.
Definition CH_AUDIO : Z := 200.
Definition COALESCIBLE_BIT : Z := 128.

Definition DT_DATA : Z := 0.
Definition DT_FRAG : Z := 1.
Definition DT_HELLO : Z := 2.
Definition DT_PING : Z := 3.
Definition DT_PONG : Z := 4.

Definition default_mtu (env : string → option bytes) : Z :=
  default 1200%Z (v ← env "TELESTHETE_MTU"; parse_uint u64_max v).

Definition is_udp (channel first_op : Z) : bool :=
  if (channel =? CH_CTL)%Z || (channel =? CH_META)%Z then false
  else if (channel =? CH_INPUT)%Z then negb (Z.land first_op COALESCIBLE_BIT =? 0)%Z
  else if (channel =? CH_AUDIO)%Z then true
  else (2 <=? channel)%Z && (channel <=? 9)%Z.

(** * Stream framing *)

Definition frame_tcp (channel : Z) (msg : bytes) : bytes :=
  z2b channel :: to_le_bytes 4 (wrap 32 (len msg)) ++ msg.

Definition parse_tcp (buf : bytes) : option (Z * bytes * nat) :=
  match buf with
  | ch :: rest =>
      if decide (length buf < 5) then None else
      let n := Z.to_nat (from_le_bytes (slice 0 4 rest)) in
      if decide (length buf < 5 + n) then None else Some (b2z ch, slice 5 (5 + n) buf, 5 + n)
  | [] => None
  end.

(** * Datagram bodies *)

Definition data_body (msg : bytes) : bytes := msg.

Definition frag_body (msg_id idx count : Z) (s : bytes) : bytes :=
  to_le_bytes 4 msg_id ++ to_le_bytes 2 idx ++ to_le_bytes 2 count ++ s.

Definition parse_frag (body : bytes) : option (Z * Z * Z * bytes) :=
  if decide (length body < 8) then None else
  Some (from_le_bytes (slice 0 4 body), from_le_bytes (slice 4 6 body), from_le_bytes (slice 6 8 body), drop 8 body).

Definition frag_payload (mtu : Z) : Z := Z.max (Z.max (mtu - (8 + 16)) 0) 1.

Definition fragment (msg : bytes) (mtu : Z) : list bytes :=
  if (len msg <=? frag_payload mtu)%Z then [msg] else chunks (Z.to_nat (frag_payload mtu)) msg.

(** * Reassembly *)

Record FragSet := mkFragSet { fs_count : Z; fs_parts : list (option bytes); fs_have : Z }.

Record UdpReasm := mkReasm { last_seq : gmap (Z * Z) Z; frags : gmap (Z * Z) FragSet }.

Definition UdpReasm_default : UdpReasm := mkReasm ∅ ∅.

Definition newer (seq last : Z) : bool := negb (seq =? last)%Z && (wrap 32 (seq - last) <? 2147483648)%Z.

Definition window_key (channel : Z) (msg : bytes) : Z :=
  if (channel =? CH_AUDIO)%Z || bool_decide (length msg < 8) then 0%Z else from_le_bytes (slice 4 8 msg).

Definition on_data (channel seq : Z) (msg : bytes) (r : UdpReasm) : UdpReasm * option bytes :=
  let key := (channel, window_key channel msg) in
  if (channel =? CH_AUDIO)%Z then (r, Some msg) else
  match last_seq r !! key with
  | Some last => if negb (newer seq last) then (r, None) else (mkReasm (<[key := seq]> (last_seq r)) (frags r), Some msg)
  | None => (mkReasm (<[key := seq]> (last_seq r)) (frags r), Some msg)
  end.

(** The [retain] of [on_frag]: older sets of the channel go. *)
Definition keep_set (channel msg_id : Z) (k : Z * Z) : bool :=
  bool_decide (k.1 ≠ channel) || (k.2 =? msg_id)%Z || newer k.2 msg_id.

Definition retain_sets (channel msg_id : Z) (m : gmap (Z * Z) FragSet) : gmap (Z * Z) FragSet :=
  filter (λ kv, keep_set channel msg_id kv.1 = true) m.

(** Storing a slice; indexing out of the parts would panic. *)
Definition store_slice (idx : Z) (s : bytes) (set : FragSet) : outcome FragSet :=
  p ← unwrap (fs_parts set !! Z.to_nat idx);
  Ret (match p with
       | None => mkFragSet (fs_count set) (<[Z.to_nat idx := Some s]> (fs_parts set)) (wrap 16 (fs_have set + 1))
       | Some _ => set
       end).

(** The parts in order, each of which must be there. *)
Fixpoint join_slices (parts : list (option bytes)) : outcome bytes :=
  match parts with
  | [] => Ret []
  | p :: rest => x ← unwrap p; y ← join_slices rest; Ret (x ++ y)
  end.

Definition on_frag (channel msg_id idx count : Z) (s : bytes) (r : UdpReasm) : outcome (UdpReasm * option bytes) :=
  if (count =? 0)%Z || (count <=? idx)%Z then Ret (r, None) else
  let key := (channel, msg_id) in
  let m := retain_sets channel msg_id (frags r) in
  let set := default (mkFragSet count (replicate (Z.to_nat count) None) 0) (m !! key) in
  let m := <[key := set]> m in
  if negb (fs_count set =? count)%Z then Ret (mkReasm (last_seq r) m, None) else
  set ← store_slice idx s set;
  if (fs_have set =? fs_count set)%Z then
    out ← join_slices (fs_parts set);
    Ret (mkReasm (last_seq r) (delete key m), Some out)
  else Ret (mkReasm (last_seq r) (<[key := set]> m), None).

(** ** Framing lemmas *)

Lemma parse_frame_tcp channel msg rest :
  is_u8 channel → (len msg <= u32_max)%Z → parse_tcp (frame_tcp channel msg ++ rest) = Some (channel, msg, 5 + length msg).
Proof.
  intros Hc Hl. pose proof (len_nonneg msg). unfold frame_tcp, parse_tcp. cbn [app].
  assert (Hw : wrap 32 (len msg) = len msg) by (unfold wrap; apply Z.mod_small; unfold u32_max in *; lia).
  rewrite Hw. rewrite decide_False by len_solve. rewrite <- app_assoc.
  rewrite slice_head by apply length_to_le_bytes.
  rewrite from_to_le_u32 by (unfold is_u32, u32_max in *; lia). replace (Z.to_nat (len msg)) with (length msg) by len_solve.
  cbv zeta. rewrite decide_False by len_solve. rewrite b2z_z2b_u8 by done. f_equal. f_equal. f_equal.
  change (z2b channel :: to_le_bytes 4 (len msg) ++ msg ++ rest) with ([z2b channel] ++ to_le_bytes 4 (len msg) ++ msg ++ rest).
  rewrite app_assoc. rewrite slice_skip by len_solve. rewrite length_app, length_to_le_bytes. cbn [length Nat.add].
  rewrite slice_head by lia. done.
Qed.

Lemma parse_frag_body msg_id idx count s :
  is_u32 msg_id → is_u16 idx → is_u16 count → parse_frag (frag_body msg_id idx count s) = Some (msg_id, idx, count, s).
Proof.
  intros H1 H2 H3. unfold parse_frag, frag_body. rewrite decide_False by len_solve.
  rewrite slice_head by apply length_to_le_bytes. rewrite from_to_le_u32 by done.
  rewrite (slice_skip 4 6) by (by rewrite length_to_le_bytes). rewrite length_to_le_bytes. cbn [Nat.sub].
  rewrite slice_head by apply length_to_le_bytes. rewrite from_to_le_u16 by done.
  rewrite (slice_skip 6 8) by (rewrite length_to_le_bytes; lia). rewrite length_to_le_bytes. cbn [Nat.sub].
  rewrite (slice_skip 2 4) by (by rewrite length_to_le_bytes). rewrite length_to_le_bytes. cbn [Nat.sub].
  rewrite slice_head by apply length_to_le_bytes. rewrite from_to_le_u16 by done.
  do 3 (rewrite drop_skip by (rewrite length_to_le_bytes; lia); rewrite length_to_le_bytes; cbn [Nat.sub]). done.
Qed.

Lemma frag_payload_pos mtu : (1 <= frag_payload mtu)%Z.
Proof. unfold frag_payload. lia. Qed.

Lemma fragment_concat msg mtu : concat (fragment msg mtu) = msg.
Proof.
  unfold fragment. pose proof (frag_payload_pos mtu). destruct (len msg <=? frag_payload mtu)%Z; [simpl; apply app_nil_r|].
  apply concat_chunks. lia.
Qed.

(** ** Reassembler invariant *)

Definition filled (parts : list (option bytes)) : nat := length (omap id parts).

Record SetOk (set : FragSet) : Prop := {
  so_count : (1 <= fs_count set <= u16_max)%Z;
  so_parts : length (fs_parts set) = Z.to_nat (fs_count set);
  so_have : fs_have set = Z.of_nat (filled (fs_parts set));
}.

(** A set that is kept is incomplete. *)
Definition ReasmWf (r : UdpReasm) : Prop := map_Forall (λ _ set, SetOk set ∧ (fs_have set < fs_count set)%Z) (frags r).

Lemma filled_insert parts i s :
  parts !! i = Some None → filled (<[i := Some s]> parts) = S (filled parts).
Proof.
  revert i. induction parts as [|p parts IH]; intros [|i] H; simpl in *; simplify_eq; [done|].
  unfold filled in *. destruct p; simpl; by rewrite IH.
Qed.

Lemma filled_le parts : filled parts ≤ length parts.
Proof. apply omap_length_le. Qed.

Lemma join_filled parts : filled parts = length parts → join_slices parts = Ret (concat (omap id parts)).
Proof.
  induction parts as [|p parts IH]; intros H; [done|]. pose proof (filled_le parts) as Hle.
  destruct p as [x|]; [|unfold filled, omap in *; simpl in *; lia].
  assert (Hf : filled parts = length parts) by (unfold filled, omap in *; simpl in *; lia).
  simpl. by rewrite (IH Hf).
Qed.

Lemma filled_empty n : filled (replicate n None) = 0.
Proof. unfold filled. by rewrite omap_id_replicate_None. Qed.

Lemma store_slice_ok idx s set :
  SetOk set → (0 <= idx < fs_count set)%Z →
  ∃ set', store_slice idx s set = Ret set' ∧ SetOk set' ∧ fs_count set' = fs_count set
    ∧ fs_parts set' = match fs_parts set !! Z.to_nat idx with
                      | Some None => <[Z.to_nat idx := Some s]> (fs_parts set)
                      | _ => fs_parts set
                      end.
Proof.
  intros [H1 H2 H3] Hi. unfold store_slice.
  destruct (lookup_lt_is_Some_2 (fs_parts set) (Z.to_nat idx)) as [p Hp]; [lia|]. rewrite Hp. cbn [unwrap mbind outcome_bind].
  destruct p as [x|]; [by eexists|]. eexists. split; [done|]. split; [|done].
  pose proof (filled_insert _ _ s Hp) as Hf. pose proof (filled_le (<[Z.to_nat idx := Some s]> (fs_parts set))) as Hle.
  rewrite length_insert in Hle. unfold u16_max in *. split; simpl; [done|by rewrite length_insert|].
  rewrite Hf, H3. unfold wrap. rewrite Z.mod_small; lia.
Qed.

Lemma retain_wf channel msg_id m :
  map_Forall (λ _ set, SetOk set ∧ (fs_have set < fs_count set)%Z) m →
  map_Forall (λ _ set, SetOk set ∧ (fs_have set < fs_count set)%Z) (retain_sets channel msg_id m).
Proof. intros H k set [Hk _]%map_lookup_filter_Some. eauto. Qed.

(** What a fragment does to the set of its message. *)
Lemma on_frag_spec channel msg_id idx count s r :
  ReasmWf r → is_u16 idx → is_u16 count →
  ∃ r' out, on_frag channel msg_id idx count s r = Ret (r', out) ∧ ReasmWf r' ∧ last_seq r' = last_seq r.
Proof.
  intros H Hi Hc. unfold on_frag. destruct ((count =? 0)%Z || (count <=? idx)%Z)%bool eqn:Eg; [by eexists _, _|].
  apply orb_false_iff in Eg as [E0 E1]. apply Z.eqb_neq in E0. apply Z.leb_gt in E1. unfold is_u16 in *.
  set (m := retain_sets channel msg_id (frags r)).
  assert (Hm : map_Forall (λ _ set, SetOk set ∧ (fs_have set < fs_count set)%Z) m) by (by apply retain_wf).
  set (set := default _ (m !! (channel, msg_id))).
  assert (Hset : SetOk set ∧ (fs_have set < fs_count set)%Z).
  { subst set. destruct (m !! (channel, msg_id)) as [x|] eqn:Ex; [by eapply Hm|]. simpl. split; [|simpl; lia].
    split; simpl; [unfold u16_max; lia|by rewrite length_replicate|by rewrite filled_empty]. }
  cbv zeta. destruct (fs_count set =? count)%Z eqn:Ec; cbn [negb].
  2: { eexists _, _. split; [done|]. split; [|done]. simpl. by apply map_Forall_insert_2. }
  apply Z.eqb_eq in Ec. destruct (store_slice_ok idx s set (proj1 Hset)) as (set' & -> & Hs' & Hcnt & _); [lia|].
  cbn [mbind outcome_bind]. destruct (fs_have set' =? fs_count set')%Z eqn:Eh.
  - apply Z.eqb_eq in Eh. rewrite join_filled by (destruct Hs' as [S1 S2 S3]; lia). eexists _, _. split; [done|]. split; [|done].
    simpl. apply map_Forall_delete. by apply map_Forall_insert_2.
  - apply Z.eqb_neq in Eh. eexists _, _. split; [done|]. split; [|done]. simpl. apply map_Forall_insert_2; [|by apply map_Forall_insert_2].
    split; [done|]. destruct Hs' as [S1 S2 S3]. pose proof (filled_le (fs_parts set')). lia.
Qed.

(** ** Any order *)

Section AnyOrder.
Context (slices : list bytes).

(** The parts once the slices at [got] have arrived. *)
Definition parts_of (got : list nat) : list (option bytes) :=
  imap (λ i s, if decide (i ∈ got) then Some s else None) slices.

Lemma parts_of_lookup got i s : slices !! i = Some s → parts_of got !! i = Some (if decide (i ∈ got) then Some s else None).
Proof. intros H. unfold parts_of. by rewrite list_lookup_imap, H. Qed.

Lemma parts_of_nil : parts_of [] = replicate (length slices) None.
Proof.
  apply list_eq. intros i. unfold parts_of. rewrite list_lookup_imap. destruct (slices !! i) as [s|] eqn:E; simpl.
  - rewrite lookup_replicate_2 by (by eapply lookup_lt_Some). done.
  - symmetry. apply lookup_replicate_None. by apply lookup_ge_None in E.
Qed.

Lemma parts_of_snoc got i s : slices !! i = Some s → <[i := Some s]> (parts_of got) = parts_of (got ++ [i]).
Proof.
  intros Hi. apply list_eq. intros j. destruct (decide (i = j)) as [<-|Hne].
  - rewrite list_lookup_insert_eq; [|unfold parts_of; rewrite length_imap; by eapply lookup_lt_Some].
    rewrite (parts_of_lookup _ _ _ Hi). by rewrite decide_True by set_solver.
  - rewrite list_lookup_insert_ne by done. destruct (slices !! j) as [x|] eqn:Ej.
    + rewrite !(parts_of_lookup _ _ _ Ej). do 2 f_equal. repeat case_decide; set_solver.
    + unfold parts_of. by rewrite !list_lookup_imap, Ej.
Qed.

Lemma parts_of_filled got : NoDup got → Forall (λ i, i < length slices) got → filled (parts_of got) = length got.
Proof.
  induction got as [|i got IH] using rev_ind; intros Hn Hf; [by rewrite parts_of_nil, filled_empty|].
  apply NoDup_app in Hn as (Hn & Hi & _). apply Forall_app in Hf as [Hf Hl]. apply Forall_cons in Hl as [Hl _].
  destruct (lookup_lt_is_Some_2 slices i Hl) as [s Hs]. rewrite <- (parts_of_snoc _ _ _ Hs), filled_insert, IH, length_app by
    (done || (rewrite (parts_of_lookup _ _ _ Hs), decide_False; [done|set_solver])). simpl. lia.
Qed.

Lemma parts_of_all got : (∀ i, i < length slices → i ∈ got) → omap id (parts_of got) = slices.
Proof.
  intros H. assert (E : parts_of got = Some <$> slices).
  { apply list_eq. intros i. rewrite list_lookup_fmap. destruct (slices !! i) as [s|] eqn:Es; simpl.
    - rewrite (parts_of_lookup _ _ _ Es), decide_True; [done|]. apply H. by eapply lookup_lt_Some.
    - unfold parts_of. by rewrite list_lookup_imap, Es. }
  rewrite E. clear. induction slices as [|x l IH]; [done|]. rewrite fmap_cons. simpl. f_equal. exact IH.
Qed.
End AnyOrder.

Section Feeding.
Context (channel msg_id : Z) (slices : list bytes).

Abbreviation count := (len slices).

Fixpoint feed_order (order : list nat) (r : UdpReasm) : outcome (UdpReasm * list (option bytes)) :=
  match order with
  | [] => Ret (r, [])
  | i :: rest =>
      '(r, o) ← on_frag channel msg_id (Z.of_nat i) count (default [] (slices !! i)) r;
      '(r, os) ← feed_order rest r;
      Ret (r, o :: os)
  end.

Definition arrived (got : list nat) (r : UdpReasm) : Prop :=
  match got with
  | [] => frags r !! (channel, msg_id) = None
  | _ => frags r !! (channel, msg_id) = Some (mkFragSet count (parts_of slices got) (len got))
  end.

Lemma retain_self m : retain_sets channel msg_id m !! (channel, msg_id) = m !! (channel, msg_id).
Proof.
  unfold retain_sets. rewrite map_lookup_filter. destruct (m !! (channel, msg_id)); [|done]. simpl. rewrite option_guard_True; [done|].
  unfold keep_set. simpl. by rewrite Z.eqb_refl, orb_true_r.
Qed.

Lemma arrived_default got r :
  arrived got r → default (mkFragSet count (replicate (Z.to_nat count) None) 0) (frags r !! (channel, msg_id))
    = mkFragSet count (parts_of slices got) (len got).
Proof.
  unfold arrived. destruct got; intros ->; [|done]. simpl. rewrite parts_of_nil. f_equal. f_equal. unfold len. lia.
Qed.

Lemma frag_step got i r :
  arrived got r → NoDup (got ++ [i]) → Forall (λ j, j < length slices) (got ++ [i]) → (count <= u16_max)%Z →
  ∃ r', on_frag channel msg_id (Z.of_nat i) count (default [] (slices !! i)) r
        = Ret (r', if decide (S (length got) = length slices) then Some (concat slices) else None)
    ∧ if decide (S (length got) = length slices) then frags r' !! (channel, msg_id) = None else arrived (got ++ [i]) r'.
Proof.
  intros Ha Hn Hf Hc. pose proof Hf as Hf'. apply Forall_app in Hf' as [Hg Hi]. apply Forall_cons in Hi as [Hi _].
  destruct (lookup_lt_is_Some_2 slices i Hi) as [s Hs]. rewrite Hs. cbn [default from_option].
  unfold on_frag. assert (Hpos : (0 < count)%Z) by (unfold len; lia).
  destruct (Z.eqb_spec count 0); [lia|]. destruct (Z.leb_spec count (Z.of_nat i)); [unfold len in *; lia|]. cbn [orb].
  cbv zeta. rewrite retain_self. rewrite (arrived_default got r Ha). cbn [fs_count]. rewrite Z.eqb_refl. cbn [negb].
  unfold store_slice. cbn [fs_parts fs_count fs_have]. rewrite Nat2Z.id. rewrite (parts_of_lookup _ _ _ _ Hs).
  assert (Hni : i ∉ got) by (apply NoDup_app in Hn; set_solver). rewrite decide_False by done. cbn [unwrap mbind outcome_bind fs_have fs_count fs_parts].
  rewrite (parts_of_snoc _ _ _ _ Hs).
  assert (Hlen : length (got ++ [i]) ≤ length slices).
  { pose proof (parts_of_filled slices _ Hn Hf) as E. pose proof (filled_le (parts_of slices (got ++ [i]))) as L.
    unfold parts_of in L at 2. rewrite length_imap in L. lia. }
  rewrite length_app in Hlen. cbn [length] in Hlen.
  assert (Hw : wrap 16 (len got + 1) = Z.of_nat (S (length got))) by (unfold wrap, len, u16_max in *; rewrite Z.mod_small; lia).
  rewrite Hw. destruct (decide (S (length got) = length slices)) as [E|E].
  - rewrite E. unfold len at 2. rewrite Z.eqb_refl.
    assert (Hall : ∀ j, j < length slices → j ∈ got ++ [i]).
    { intros j Hj. assert (Hsub : got ++ [i] ⊆+ seq 0 (length slices)).
      { apply NoDup_submseteq; [done|]. intros x Hx. rewrite elem_of_seq. eapply Forall_forall in Hf; [|done]. simpl in Hf. lia. }
      apply submseteq_length_Permutation in Hsub; [|rewrite length_seq, length_app; simpl; lia].
      rewrite Hsub, elem_of_seq. lia. }
    rewrite join_filled by (rewrite parts_of_filled by done; unfold parts_of; rewrite length_imap, length_app; simpl; lia).
    cbn [mbind outcome_bind]. rewrite parts_of_all by done. eexists. split; [done|]. simpl. apply lookup_delete_eq.
  - destruct (Z.eqb_spec (Z.of_nat (S (length got))) count); [unfold len in *; lia|]. eexists. split; [done|].
    assert (Hne : ∃ x l, got ++ [i] = x :: l) by (destruct got; by eexists _, _). destruct Hne as (x & l & Hne).
    unfold arrived. rewrite Hne. cbn [frags]. rewrite lookup_insert_eq, <- Hne. f_equal. f_equal.
    unfold len. rewrite length_app. simpl. lia.
Qed.

Lemma feed_order_ok order got r :
  arrived got r → NoDup (got ++ order) → Forall (λ j, j < length slices) (got ++ order) → (count <= u16_max)%Z →
  length got < length slices → length (got ++ order) = length slices →
  ∃ r', feed_order order r = Ret (r', replicate (length order - 1) None ++ [Some (concat slices)])
    ∧ frags r' !! (channel, msg_id) = None.
Proof.
  revert got r. induction order as [|i order IH]; intros got r Ha Hn Hf Hc Hg Hl; [rewrite app_nil_r in Hl; lia|].
  rewrite (cons_middle i got order), app_assoc in Hn, Hf, Hl.
  destruct (frag_step got i r Ha) as (r' & E & Hr'); [by apply NoDup_app in Hn as (? & _)|by apply Forall_app in Hf as [? _]|done|].
  cbn [feed_order]. rewrite E. cbn [mbind outcome_bind].
  rewrite !length_app in Hl. cbn [length] in Hl. destruct (decide (S (length got) = length slices)) as [Hd|Hd].
  - destruct order; [|simpl in Hl; lia]. simpl. by eexists.
  - destruct (IH (got ++ [i]) r' Hr' Hn Hf Hc) as (r'' & -> & Hr''); [rewrite length_app; simpl; lia|rewrite !length_app; simpl; lia|].
    cbn [mbind outcome_bind]. eexists. split; [|exact Hr'']. do 2 f_equal. destruct order; [simpl in Hl; lia|]. simpl. by rewrite Nat.sub_0_r.
Qed.
End Feeding.

(** * Claims *)

Inductive dgram := Data (channel seq : Z) (msg : bytes) | Frag (channel msg_id idx count : Z) (s : bytes).

Definition dgram_ok (d : dgram) : Prop :=
  match d with Data _ _ _ => True | Frag _ _ idx count _ => is_u16 idx ∧ is_u16 count end.

Definition on_dgram (d : dgram) (r : UdpReasm) : outcome (UdpReasm * option bytes) :=
  match d with
  | Data channel seq msg => Ret (on_data channel seq msg r)
  | Frag channel msg_id idx count s => on_frag channel msg_id idx count s r
  end.

Fixpoint run_dgrams (ds : list dgram) (r : UdpReasm) : outcome (UdpReasm * list (option bytes)) :=
  match ds with
  | [] => Ret (r, [])
  | d :: rest => '(r, o) ← on_dgram d r; '(r, os) ← run_dgrams rest r; Ret (r, o :: os)
  end.

Lemma run_dgrams_ok ds r :
  Forall dgram_ok ds → ReasmWf r → ∃ r' os, run_dgrams ds r = Ret (r', os) ∧ ReasmWf r'.
Proof.
  revert r. induction ds as [|d ds IH]; intros r Hd H; [by eexists _, _|]. apply Forall_cons in Hd as [Hd Hds].
  assert (Hs : ∃ r1 o, on_dgram d r = Ret (r1, o) ∧ ReasmWf r1).
  { destruct d as [channel seq msg|channel msg_id idx count s]; simpl.
    - unfold on_data. destruct (channel =? CH_AUDIO)%Z; [by eexists _, _|].
      destruct (last_seq r !! _); [destruct (newer _ _)|]; by eexists _, _.
    - destruct Hd as [Hi Hc]. destruct (on_frag_spec channel msg_id idx count s r) as (r1 & o & E & H1 & _); [done..|]. by eexists _, _. }
  destruct Hs as (r1 & o & E & H1). destruct (IH r1 Hds H1) as (r2 & os & E2 & H2). exists r2, (o :: os). cbn [run_dgrams]. rewrite E. cbn [mbind outcome_bind]. by rewrite E2.
Qed.

(** Fragmented messages survive reordering: after any datagrams at all, the
    fragments of a message cut to the MTU, when they arrive in any order and no
    set of that message id is left over, give the message back with the last of
    them and nothing before, and no datagram makes the reassembler panic. *)
Theorem udp_fragments_any_order (ds : list dgram) (channel msg_id mtu : Z) (msg : bytes) (order : list nat) :
  Forall dgram_ok ds → (len (fragment msg mtu) <= u16_max)%Z → order ≡ₚ seq 0 (length (fragment msg mtu)) →
  ∃ r os, run_dgrams ds UdpReasm_default = Ret (r, os)
    ∧ (frags r !! (channel, msg_id) = None →
       ∃ r', feed_order channel msg_id (fragment msg mtu) order r
             = Ret (r', replicate (length (fragment msg mtu) - 1) None ++ [Some msg])
         ∧ frags r' !! (channel, msg_id) = None).
Proof.
  intros Hd Hl Ho. destruct (run_dgrams_ok ds UdpReasm_default Hd) as (r & os & E & H); [apply map_Forall_empty|].
  exists r, os. split; [done|]. intros Hn. pose proof (Permutation_length Ho) as Hlen. rewrite length_seq in Hlen.
  assert (Hpos : 0 < length (fragment msg mtu)).
  { destruct (fragment msg mtu) eqn:Ef; [|simpl; lia]. unfold fragment in Ef. pose proof (frag_payload_pos mtu).
    destruct (Z.leb_spec (len msg) (frag_payload mtu)) as [|Hgt]; [done|].
    exfalso. eapply (chunks_nonempty (Z.to_nat (frag_payload mtu)) msg); [lia| |done]. intros ->. unfold len in Hgt. simpl in Hgt. lia. }
  destruct (feed_order_ok channel msg_id (fragment msg mtu) order [] r) as (r' & E' & H'); try done.
  - rewrite Ho. apply NoDup_seq.
  - simpl. rewrite Ho. apply Forall_forall. intros j Hj. rewrite elem_of_seq in Hj. lia.
  - exists r'. split; [|done]. by rewrite E', fragment_concat, Hlen.
Qed.

Lemma first_of_two channel msg_id r :
  retain_sets channel msg_id (frags r) = frags r → frags r !! (channel, msg_id) = None →
  on_frag channel msg_id 0 2 [] r
  = Ret (mkReasm (last_seq r) (<[(channel, msg_id) := mkFragSet 2 [Some []; None] 1]> (frags r)), None).
Proof.
  intros H1 H2. unfold on_frag. rewrite H1. cbv zeta. rewrite H2.
  change (((2 =? 0) || (2 <=? 0))%Z%bool) with false. cbn [default from_option fs_count]. rewrite Z.eqb_refl. cbn [negb].
  change (store_slice 0 [] (mkFragSet 2 (replicate (Z.to_nat 2) None) 0)) with (Ret (mkFragSet 2 [Some []; None] 1)).
  cbn [mbind outcome_bind fs_have fs_count fs_parts]. change ((1 =? 2)%Z) with false. cbv iota. by rewrite insert_insert_eq.
Qed.

(** Fragments that start messages with ever older ids. *)
Definition descending (n : nat) : list dgram := (λ i, Frag 2 (Z.of_nat i) 0 2 []) <$> reverse (seq 1 n).

(** A peer that starts messages with ever older ids makes the reassembler
    keep every one of them: the sets are not bounded. *)
Theorem descending_ids_accumulate (n : nat) :
  (Z.of_nat n < 2147483648)%Z →
  ∃ r os, run_dgrams (descending n) UdpReasm_default = Ret (r, os) ∧ size (frags r) = n.
Proof.
  intros Hn. unfold descending.
  assert (Hgen : ∀ k r, (Z.of_nat k < 2147483648)%Z →
    (∀ key, is_Some (frags r !! key) → key.1 = 2%Z ∧ (Z.of_nat k < key.2 < 2147483648)%Z) →
    ∃ r' os, run_dgrams ((λ i, Frag 2 (Z.of_nat i) 0 2 []) <$> reverse (seq 1 k)) r = Ret (r', os) ∧ size (frags r') = size (frags r) + k).
  { clear n Hn. induction k as [|k IH]; intros r Hk Hr; [eexists _, _; split; [done|lia]|].
    rewrite seq_S, reverse_app. change (reverse [1 + k]) with [S k]. rewrite fmap_app. cbn [fmap list_fmap app run_dgrams on_dgram].
    assert (Hret : retain_sets 2 (Z.of_nat (S k)) (frags r) = frags r).
    { apply map_eq. intros key. unfold retain_sets. rewrite map_lookup_filter. destruct (frags r !! key) as [x|] eqn:Ex; [|done]. simpl.
      rewrite option_guard_True; [done|]. destruct (Hr key) as [_ Hb]; [by eauto|]. unfold keep_set, newer.
      destruct (Z.eqb_spec key.2 (Z.of_nat (S k))); [lia|]. cbn [negb andb].
      assert (Hw : wrap 32 (key.2 - Z.of_nat (S k)) = (key.2 - Z.of_nat (S k))%Z) by (unfold wrap; apply Z.mod_small; lia).
      rewrite Hw. destruct (Z.ltb_spec (key.2 - Z.of_nat (S k)) 2147483648); [by rewrite orb_true_r|lia]. }
    assert (Hnone : frags r !! (2%Z, Z.of_nat (S k)) = None).
    { destruct (frags r !! (2%Z, Z.of_nat (S k))) eqn:E; [|done]. destruct (Hr (2%Z, Z.of_nat (S k))) as [_ Hb]; [by eauto|]. simpl in Hb. lia. }
    rewrite first_of_two by done. cbn [mbind outcome_bind].
    destruct (IH (mkReasm (last_seq r) (<[(2%Z, Z.of_nat (S k)) := mkFragSet 2 [Some []; None] 1]> (frags r)))) as (r' & os & E & Hs).
    - lia.
    - intros key [x Hx]. cbn [frags] in Hx. apply lookup_insert_Some in Hx as [[<- _]|[_ Hx]]; [cbn [fst snd]; lia|].
      destruct (Hr key); [by eauto|]. lia.
    - rewrite E. cbn [mbind outcome_bind]. eexists _, _. split; [done|]. rewrite Hs. cbn [frags].
      rewrite map_size_insert_None by done. lia. }
  destruct (Hgen n UdpReasm_default Hn) as (r & os & E & Hs).
  - intros key [x Hx]. cbn [UdpReasm_default frags] in Hx. by rewrite lookup_empty in Hx.
  - exists r, os. split; [done|]. rewrite Hs. simpl. rewrite map_size_empty. done.
Qed.

(** ** Witnesses *)

Definition sample_msg : bytes := replicate 20 Byte.x41 ++ [Byte.x42; Byte.x43].

Lemma udp_fragments_any_order_witness :
  ∃ r os r', run_dgrams [Frag 3 9 0 4 [Byte.x00]; Data 2 1 [Byte.x01]] UdpReasm_default = Ret (r, os)
    ∧ feed_order 3 10 (fragment sample_msg 34) [2; 0; 1] r = Ret (r', [None; None; Some sample_msg]).
Proof.
  destruct (udp_fragments_any_order [Frag 3 9 0 4 [Byte.x00]; Data 2 1 [Byte.x01]] 3 10 34 sample_msg [2; 0; 1]) as (r & os & E & HT).
  - repeat constructor; unfold is_u16; lia.
  - vm_compute. discriminate.
  - change (seq 0 (length (fragment sample_msg 34))) with [0; 1; 2]. apply Permutation_cons_app with (l1 := [0; 1]). reflexivity.
  - assert (Hn : frags r !! (3%Z, 10%Z) = None) by (vm_compute in E; injection E as <- _; reflexivity).
    destruct (HT Hn) as (r' & E' & _). exists r, os, r'. split; [exact E|]. rewrite E'. reflexivity.
Defined.

Lemma descending_ids_accumulate_witness :
  ∃ r os, run_dgrams (descending 3) UdpReasm_default = Ret (r, os) ∧ size (frags r) = 3.
Proof. apply (descending_ids_accumulate 3). lia. Defined.
