(* ===== verification/SpatialCrypto.v ===== *)
(** The handshake and record encryption of the spatial session crate
    ([src/crypto.rs]). X25519 and HMAC come from crates and are the
    parameters of [DhCrates]; the AEAD and HKDF are those of [Crypto]. *)

From S2P Require Import Prelude Crypto.

(** * Crates *)

(** [x25519_dalek] and [hmac]. *)
Class DhCrates := {
  x25519_public : bytes → bytes;
  x25519 : bytes → bytes → bytes;
  hmac_sha256 : bytes → bytes → bytes;
}.

Class DhCratesSpec {dh : DhCrates} := {
  x25519_agree a b : x25519 a (x25519_public b) = x25519 b (x25519_public a);
  x25519_public_len a : length (x25519_public a) = 32;
  hmac_len k m : length (hmac_sha256 k m) = 32;
}.
Arguments DhCratesSpec dh : clear implicits.

Definition VERSION : Z := 1.
Definition NONCE16 : nat := 16.
Definition KEY : nat := 32.
Definition CONFIRM : nat := 32.

Inductive HsError := BadVersion | ShortMessage | BadConfirm.

Record Session := mkSession {
  k_tcp_tx : bytes;
  k_tcp_rx : bytes;
  k_udp_tx : bytes;
  k_udp_rx : bytes;
  session_id : bytes;
}.

(** The five keys in the order they are expanded. *)
Record Keys := mkKeys { c2h : bytes; h2c : bytes; uc2h : bytes; uh2c : bytes; sid : bytes }.

(** [ct_eq] accumulates the differences. *)
Definition ct_eq (a b : bytes) : bool :=
  if decide (length a ≠ length b) then false
  else (foldl (λ d xy, Z.lor d (Z.lxor (b2z xy.1) (b2z xy.2))) 0%Z (zip a b) =? 0)%Z.

Definition transcript (ec eh nc nh : bytes) : bytes := [z2b VERSION] ++ ec ++ eh ++ nc ++ nh.

Section Handshake.
Context {crates : Crates} {dhc : DhCrates}.

Definition derive (dh psk transcript : bytes) : Keys :=
  let okm := hkdf_sha256 transcript (dh ++ psk) (str_bytes "telesthete-v1") (KEY * 4 + 16) in
  mkKeys (slice 0 32 okm) (slice 32 64 okm) (slice 64 96 okm) (slice 96 128 okm) (slice 128 144 okm).

Definition confirm (key label transcript : bytes) : bytes := hmac_sha256 key (label ++ transcript).

(** ** Client *)

Record ClientHandshake := mkClient { ch_secret : bytes; ec_pub : bytes; ch_nc : bytes; ch_psk : bytes }.

(** [new], with the randomness it draws. *)
Definition ClientHandshake_new (psk secret nc : bytes) : ClientHandshake := mkClient secret (x25519_public secret) nc psk.

Definition hello1 (udp_port : Z) (c : ClientHandshake) : bytes :=
  [z2b VERSION] ++ ec_pub c ++ ch_nc c ++ to_le_bytes 2 udp_port.

Definition recv_hello2 (hello2 : bytes) (c : ClientHandshake) : result (Session * Z * bytes) HsError :=
  if decide (length hello2 < 32 + NONCE16 + CONFIRM + 2) then Err ShortMessage else
  let eh := slice 0 32 hello2 in
  let nh := slice 32 48 hello2 in
  let confirm_h := slice 48 (48 + CONFIRM) hello2 in
  let host_udp := from_le_bytes (slice 80 82 hello2) in
  let dh := x25519 (ch_secret c) eh in
  let t := transcript (ec_pub c) eh (ch_nc c) nh in
  let k := derive dh (ch_psk c) t in
  if negb (ct_eq (confirm (h2c k) (str_bytes "host-confirm") t) confirm_h) then Err BadConfirm else
  Ok (mkSession (c2h k) (h2c k) (uc2h k) (uh2c k) (sid k), host_udp, confirm (c2h k) (str_bytes "client-confirm") t).

(** ** Host *)

Record PendingConfirm := mkPending { pc_k_c2h : bytes; pc_transcript : bytes }.

Definition host_respond (hello1 psk : bytes) (host_udp_port : Z) (secret nh : bytes)
    : result (bytes * Session * PendingConfirm * Z) HsError :=
  match hello1 with
  | [] => Err BadVersion
  | v :: _ =>
      if negb (b2z v =? VERSION)%Z then Err BadVersion else
      if decide (length hello1 < 1 + 32 + NONCE16 + 2) then Err ShortMessage else
      let ec := slice 1 33 hello1 in
      let nc := slice 33 49 hello1 in
      let client_udp := from_le_bytes (slice 49 51 hello1) in
      let eh_pub := x25519_public secret in
      let dh := x25519 secret ec in
      let t := transcript ec eh_pub nc nh in
      let k := derive dh psk t in
      let hello2 := eh_pub ++ nh ++ confirm (h2c k) (str_bytes "host-confirm") t ++ to_le_bytes 2 host_udp_port in
      Ok (hello2, mkSession (h2c k) (c2h k) (uh2c k) (uc2h k) (sid k), mkPending (c2h k) t, client_udp)
  end.

Definition verify (confirm3 : bytes) (p : PendingConfirm) : result unit HsError :=
  if decide (length confirm3 < CONFIRM) then Err ShortMessage else
  if ct_eq (confirm (pc_k_c2h p) (str_bytes "client-confirm") (pc_transcript p)) (take CONFIRM confirm3) then Ok tt else Err BadConfirm.

(** * Records *)

Record RecordKey := mkRecordKey { rk_key : bytes; counter : Z }.

Definition RecordKey_new (key : bytes) : RecordKey := mkRecordKey key 0.

Definition record_nonce (counter : Z) : bytes := put_at 4 (to_le_bytes 8 counter) (replicate 12 Byte.x00).

(** [expect] panics when the crate refuses to encrypt. *)
Definition record_seal (plaintext : bytes) (k : RecordKey) : outcome (RecordKey * bytes) :=
  ct ← unwrap (chacha_encrypt (rk_key k) (record_nonce (counter k)) [] plaintext);
  Ret (mkRecordKey (rk_key k) (wrap 64 (counter k + 1)), ct).

Definition record_open (ct : bytes) (k : RecordKey) : option (RecordKey * bytes) :=
  pt ← chacha_decrypt (rk_key k) (record_nonce (counter k)) [] ct;
  Some (mkRecordKey (rk_key k) (wrap 64 (counter k + 1)), pt).

Definition datagram_nonce (dtype channel seq : Z) : bytes :=
  put_at 3 (to_le_bytes 4 seq) ([z2b dtype; z2b channel] ++ replicate 10 Byte.x00).

Definition datagram_seal (dtype channel seq : Z) (plaintext key : bytes) : outcome bytes :=
  unwrap (chacha_encrypt key (datagram_nonce dtype channel seq) [z2b dtype; z2b channel] plaintext).

Definition datagram_open (dtype channel seq : Z) (ct key : bytes) : option bytes :=
  chacha_decrypt key (datagram_nonce dtype channel seq) [z2b dtype; z2b channel] ct.
End Handshake.

(** ** Lemmas *)

Lemma lor_zero a b : (0 <= a)%Z → (0 <= b)%Z → Z.lor a b = 0%Z ↔ a = 0%Z ∧ b = 0%Z.
Proof. intros _ _. apply Z.lor_eq_0_iff. Qed.

Lemma ct_eq_spec a b : ct_eq a b = true ↔ a = b.
Proof.
  unfold ct_eq. destruct (decide (length a ≠ length b)) as [H|H]; [naive_solver|]. apply dec_stable in H. rewrite Z.eqb_eq.
  assert (Hgen : ∀ d, foldl (λ d xy, Z.lor d (Z.lxor (b2z xy.1) (b2z xy.2))) d (zip a b) = 0%Z ↔ d = 0%Z ∧ a = b).
  { revert b H. induction a as [|x a IH]; intros [|y b] H d; simpl in *; try done; [by split; [|intros [? _]]|].
    rewrite IH by lia. rewrite Z.lor_eq_0_iff, Z.lxor_eq_0_iff. split.
    - intros [[-> E] ->]. apply b2z_inj in E as ->. done.
    - intros [-> [= -> ->]]. done. }
  rewrite Hgen. naive_solver.
Qed.

(** ** The handshake *)

Definition session_ok (s : Session) : Prop :=
  length (k_tcp_tx s) = KEY ∧ length (k_tcp_rx s) = KEY ∧ length (k_udp_tx s) = KEY ∧ length (k_udp_rx s) = KEY.

Section Agreement.
Context {crates : Crates} {dhc : DhCrates}.

Lemma derive_lens {spec : CratesSpec} dh psk t :
  let k := derive dh psk t in length (c2h k) = KEY ∧ length (h2c k) = KEY ∧ length (uc2h k) = KEY ∧ length (uh2c k) = KEY.
Proof. unfold derive. cbn [c2h h2c uc2h uh2c]. split_and!; by rewrite length_slice by (rewrite hkdf_len; unfold KEY; lia). Qed.

Lemma length_hello1 {dspec : DhCratesSpec dhc} port psk secret nc :
  length nc = NONCE16 → length (hello1 port (ClientHandshake_new psk secret nc)) = 51.
Proof. intros H. unfold hello1, ClientHandshake_new. cbn [ec_pub ch_nc]. by rewrite !length_app, x25519_public_len, H, length_to_le_bytes. Qed.

Lemma handshake_session_id {spec : CratesSpec} hello2 c cs r :
  recv_hello2 hello2 c = Ok (cs, r.1, r.2) → length (session_id cs) = 16.
Proof.
  unfold recv_hello2. case_decide; [done|]. destruct (negb _); [done|]. intros [= <- _ _]. unfold derive. cbn [session_id sid].
  rewrite length_slice by (rewrite hkdf_len; unfold KEY; lia). done.
Qed.

(** With the same key on both ends the handshake completes, and both ends
    hold the same keys in opposite roles, the same session id and each other's
    UDP port. *)
Lemma spatial_handshake {spec : CratesSpec} {dspec : DhCratesSpec dhc} (psk sc sh nc nh : bytes) (cport hport : Z) :
  length nc = NONCE16 → length nh = NONCE16 → is_u16 cport → is_u16 hport →
  ∃ hello2 host pending client confirm3,
    host_respond (hello1 cport (ClientHandshake_new psk sc nc)) psk hport sh nh = Ok (hello2, host, pending, cport)
    ∧ recv_hello2 hello2 (ClientHandshake_new psk sc nc) = Ok (client, hport, confirm3)
    ∧ verify confirm3 pending = Ok tt
    ∧ k_tcp_tx client = k_tcp_rx host ∧ k_tcp_rx client = k_tcp_tx host
    ∧ k_udp_tx client = k_udp_rx host ∧ k_udp_rx client = k_udp_tx host ∧ session_id client = session_id host
    ∧ session_ok client ∧ session_ok host ∧ length hello2 = 82 ∧ length confirm3 = 32.
Proof.
  intros Hnc Hnh Hc Hh. unfold host_respond, hello1, ClientHandshake_new. cbn [ec_pub ch_nc app].
  rewrite b2z_z2b_u8 by done. rewrite Z.eqb_refl. cbn [negb].
  set (ec := x25519_public sc). assert (Hec : length ec = 32) by apply x25519_public_len.
  set (eh := x25519_public sh). assert (Heh : length eh = 32) by apply x25519_public_len.
  unfold NONCE16 in *. rewrite decide_False by (cbn [length]; rewrite !length_app, length_to_le_bytes, Hec, Hnc; lia).
  assert (E1 : slice 1 33 (z2b VERSION :: ec ++ nc ++ to_le_bytes 2 cport) = ec).
  { change (z2b VERSION :: ec ++ nc ++ to_le_bytes 2 cport) with ([z2b VERSION] ++ ec ++ nc ++ to_le_bytes 2 cport).
    rewrite slice_skip by (simpl; lia). cbn [length Nat.sub]. by apply slice_head. }
  assert (E2 : slice 33 49 (z2b VERSION :: ec ++ nc ++ to_le_bytes 2 cport) = nc).
  { change (z2b VERSION :: ec ++ nc ++ to_le_bytes 2 cport) with ([z2b VERSION] ++ ec ++ nc ++ to_le_bytes 2 cport).
    rewrite app_assoc, slice_skip by (rewrite length_app, Hec; simpl; lia). rewrite length_app, Hec. cbn [length Nat.sub Nat.add].
    by apply slice_head. }
  assert (E3 : slice 49 51 (z2b VERSION :: ec ++ nc ++ to_le_bytes 2 cport) = to_le_bytes 2 cport).
  { change (z2b VERSION :: ec ++ nc ++ to_le_bytes 2 cport) with ([z2b VERSION] ++ ec ++ nc ++ to_le_bytes 2 cport).
    rewrite !app_assoc, slice_skip by (rewrite !length_app, Hec, Hnc; simpl; lia). rewrite !length_app, Hec, Hnc. cbn [length Nat.sub Nat.add].
    apply slice_all, length_to_le_bytes. }
  rewrite E1, E2, E3, from_to_le_u16 by done. cbv zeta.
  set (t := transcript ec eh nc nh). set (k := derive (x25519 sh ec) psk t).
  set (ch := confirm (h2c k) (str_bytes "host-confirm") t). assert (Hch : length ch = 32) by apply hmac_len.
  eexists _, _, _, _, _. split; [reflexivity|].
  unfold recv_hello2. cbn [ch_secret ec_pub ch_nc ch_psk]. unfold CONFIRM.
  rewrite decide_False by (rewrite !length_app, length_to_le_bytes, Heh, Hnh, Hch; unfold NONCE16; lia).
  assert (F1 : slice 0 32 (eh ++ nh ++ ch ++ to_le_bytes 2 hport) = eh) by (by apply slice_head).
  assert (F2 : slice 32 48 (eh ++ nh ++ ch ++ to_le_bytes 2 hport) = nh).
  { rewrite slice_skip by (rewrite Heh; lia). rewrite Heh. cbn [Nat.sub]. by apply slice_head. }
  assert (F3 : slice 48 (48 + 32) (eh ++ nh ++ ch ++ to_le_bytes 2 hport) = ch).
  { rewrite app_assoc, slice_skip by (rewrite length_app, Heh, Hnh; lia). rewrite length_app, Heh, Hnh. cbn [Nat.sub Nat.add]. by apply slice_head. }
  assert (F4 : slice 80 82 (eh ++ nh ++ ch ++ to_le_bytes 2 hport) = to_le_bytes 2 hport).
  { rewrite !app_assoc, slice_skip by (rewrite !length_app, Heh, Hnh, Hch; lia). rewrite !length_app, Heh, Hnh, Hch. cbn [Nat.sub Nat.add].
    apply slice_all, length_to_le_bytes. }
  rewrite F1, F2, F3, F4, from_to_le_u16 by done. cbv zeta. fold ec t.
  replace (x25519 sc eh) with (x25519 sh ec) by (symmetry; apply x25519_agree). fold k ch. rewrite (proj2 (ct_eq_spec ch ch)) by done. cbn [negb].
  split; [reflexivity|]. unfold verify. cbn [pc_k_c2h pc_transcript].
  set (cc := confirm (c2h k) (str_bytes "client-confirm") t). assert (Hcc : length cc = 32) by apply hmac_len.
  unfold CONFIRM. rewrite decide_False by lia. rewrite take_ge by lia. rewrite (proj2 (ct_eq_spec cc cc)) by done.
  destruct (derive_lens (x25519 sh ec) psk t) as (L1 & L2 & L3 & L4). fold k in L1, L2, L3, L4.
  split_and!; try done. by rewrite !length_app, length_to_le_bytes, Heh, Hnh, Hch.
Qed.
End Agreement.

(** Two datagrams of one type and channel are sealed with the same nonce exactly
    when their positions in the sequence differ by a multiple of 2{^32}: within
    a session nonces are unique for 2{^32} datagrams and repeat afterwards. *)
Lemma datagram_nonces_repeat dtype channel s i j :
  datagram_nonce dtype channel (wrap 32 (s + i)) = datagram_nonce dtype channel (wrap 32 (s + j))
  ↔ (i mod 2 ^ 32 = j mod 2 ^ 32)%Z.
Proof.
  assert (E : ∀ q, datagram_nonce dtype channel q = [z2b dtype; z2b channel; Byte.x00] ++ to_le_bytes 4 q ++ replicate 5 Byte.x00) by done.
  rewrite !E. split.
  - intros H. apply app_inv_head, app_inv_tail in H. apply (f_equal from_le_bytes) in H.
    rewrite !from_to_le_u32 in H by (unfold is_u32, wrap; apply Z.mod_pos_bound; lia). unfold wrap in H.
    apply (f_equal (λ x, (x - s) mod 2 ^ 32)%Z) in H. rewrite !Zminus_mod_idemp_l in H.
    by replace (s + i - s)%Z with i in H by lia; replace (s + j - s)%Z with j in H by lia.
  - intros H. do 2 f_equal. unfold wrap. f_equal. rewrite <- (Zplus_mod_idemp_r i), <- (Zplus_mod_idemp_r j). by rewrite H.
Qed.

(** ** A concrete instance *)

Definition sample_dh : DhCrates := {|
  x25519_public a := to_be_bytes 32 (from_be_bytes a);
  x25519 a p := to_be_bytes 32 (from_be_bytes a + from_be_bytes p);
  hmac_sha256 k m := to_be_bytes 32 (from_be_bytes (k ++ m));
|}.

Lemma sample_dh_spec : DhCratesSpec sample_dh.
Proof.
  split; intros; [|apply length_to_be_bytes..]. cbn [sample_dh x25519 x25519_public]. apply to_be_bytes_mod. rewrite !from_to_be_bytes.
  rewrite !Zplus_mod_idemp_r. f_equal. lia.
Qed.
