(* ===== verification/Psk.v ===== *)
(** Loading the shared key of the spatial session crate ([src/psk.rs]): where it
    is, trimming, hexadecimal and base64. A string is its UTF-8 bytes. *)

From S2P Require Import Prelude HubFrame Text.

(** * Where the key is *)

Definition default_path (env : string → option bytes) : bytes :=
  match env "TELESTHETE_PSK_FILE" with
  | Some p => p
  | None =>
      let base := match env "XDG_CONFIG_HOME" with
                  | Some b => b
                  | None => path_join (default (str_bytes ".") (env "HOME")) (str_bytes ".config")
                  end in
      path_join (path_join base (str_bytes "telesthete")) (str_bytes "psk")
  end.

(** * Decoding *)

Inductive PskError := Unreadable | WrongLength (n : Z) | OddHex | BadHex | BadBase64.

(** The iterator stops at the first pair that is not a number; slicing off a
    character boundary panics. *)
Definition hex_decode (s : bytes) : outcome (result bytes PskError) :=
  let s := trim s in
  if negb (len s mod 2 =? 0)%Z then Ret (Err OddHex) else
  r ← hex_bytes s 0 (length s / 2);
  Ret (ok_or r BadHex).

Definition T : bytes := str_bytes "ABCDEFGHIJKLMNOPQRSTUVWXYZabcdefghijklmnopqrstuvwxyz0123456789+/".

(** The reverse table: 255 marks what is not a digit. *)
Definition rev (c : byte) : Z := match list_find (.= c) T with Some (i, _) => Z.of_nat i | None => 255 end.

Definition skipped (c : byte) : bool := bool_decide (c = Byte.x3d) || bool_decide (c = Byte.x0a) || bool_decide (c = Byte.x0d).

(** The loop of [b64_decode] with its accumulator and bit count. *)
Fixpoint b64_loop (acc bits : Z) (s : bytes) : result bytes PskError :=
  match s with
  | [] => Ok []
  | c :: rest =>
      if skipped c then b64_loop acc bits rest else
      let v := rev c in
      if (v =? 255)%Z then Err BadBase64 else
      let acc := Z.lor (wrap 32 (Z.shiftl acc 6)) v in
      let bits := (bits + 6)%Z in
      if (8 <=? bits)%Z then
        let bits := (bits - 8)%Z in
        match b64_loop acc bits rest with Ok out => Ok (z2b (Z.shiftr acc bits) :: out) | Err e => Err e end
      else b64_loop acc bits rest
  end.

Definition b64_decode (s : bytes) : result bytes PskError := b64_loop 0 0 s.

(** [parse]. *)
Definition psk_parse (s : bytes) : outcome (result bytes PskError) :=
  r ← match strip_prefix (str_bytes "base64:") s with
      | Some b64 => Ret (b64_decode (trim b64))
      | None => hex_decode s
      end;
  Ret (match r with
       | Ok bs => if decide (length bs ≠ 32) then Err (WrongLength (len bs)) else Ok bs
       | Err e => Err e
       end).

(** [load], given what the file at the path holds. *)
Definition load (path : option bytes) (env : string → option bytes) (read_to_string : bytes → option bytes) : outcome (result bytes PskError) :=
  match read_to_string (default (default_path env) path) with
  | None => Ret (Err Unreadable)
  | Some raw => psk_parse (trim raw)
  end.

(** ** Hexadecimal *)

Lemma hex_digit_plain n : (0 <= n < 16)%Z → plain (hex_digit n) = true.
Proof.
  intros H. assert (E : forallb (λ n, plain (hex_digit n)) (seqZ 0 16) = true) by (vm_compute; reflexivity).
  rewrite forallb_forall in E. apply E. apply list_elem_of_In, elem_of_seqZ. lia.
Qed.

Lemma to_hex_plain l : l ≠ [] → all_plain (to_hex l).
Proof.
  intros Hl. split; [by destruct l|]. clear Hl. induction l as [|b l IH]; [constructor|]. rewrite to_hex_cons.
  destruct (hex_nibbles b). repeat constructor; by try apply hex_digit_plain.
Qed.

Lemma hex_decode_to_hex l : l ≠ [] → hex_decode (to_hex l) = Ret (Ok l).
Proof.
  intros Hl. unfold hex_decode. rewrite trim_id by (by apply to_hex_plain). cbv zeta. unfold len. rewrite length_to_hex.
  replace (Z.of_nat (2 * length l) mod 2 =? 0)%Z with true
    by (symmetry; apply Z.eqb_eq; rewrite Nat2Z.inj_mul, Z.mul_comm; apply Z.mod_mul; lia).
  cbn [negb]. replace (2 * length l / 2) with (length l) by (rewrite Nat.mul_comm, Nat.div_mul; lia).
  pose proof (hex_bytes_to_hex [] l) as E. cbn [app length] in E. by rewrite E.
Qed.

(** ** Base64 *)

Definition digit64 (v : Z) : byte := default Byte.x41 (T !! Z.to_nat v).

(** The encoding with padding, three bytes to four digits. *)
Fixpoint b64_encode (l : bytes) : bytes :=
  match l with
  | a :: b :: c :: rest =>
      digit64 (b2z a / 4) :: digit64 (b2z a mod 4 * 16 + b2z b / 16) :: digit64 (b2z b mod 16 * 4 + b2z c / 64) :: digit64 (b2z c mod 64)
      :: b64_encode rest
  | [a; b] => [digit64 (b2z a / 4); digit64 (b2z a mod 4 * 16 + b2z b / 16); digit64 (b2z b mod 16 * 4); Byte.x3d]
  | [a] => [digit64 (b2z a / 4); digit64 (b2z a mod 4 * 16); Byte.x3d; Byte.x3d]
  | [] => []
  end.

Lemma digit64_ok v : (0 <= v < 64)%Z → rev (digit64 v) = v ∧ skipped (digit64 v) = false ∧ plain (digit64 v) = true.
Proof.
  intros H.
  assert (E : forallb (λ v, (rev (digit64 v) =? v)%Z && negb (skipped (digit64 v)) && plain (digit64 v)) (seqZ 0 64) = true) by (vm_compute; reflexivity).
  rewrite forallb_forall in E. specialize (E v). rewrite <- list_elem_of_In, elem_of_seqZ in E. specialize (E ltac:(lia)).
  rewrite !andb_true_iff, negb_true_iff, Z.eqb_eq in E. tauto.
Qed.

Definition acc_step (acc v : Z) : Z := ((acc * 64) mod 2 ^ 32 + v)%Z.

Lemma lor_digit acc v : (0 <= v < 64)%Z → Z.lor (wrap 32 (Z.shiftl acc 6)) v = acc_step acc v.
Proof.
  intros H. unfold acc_step, wrap. rewrite Z.shiftl_mul_pow2 by lia. change (2 ^ 6)%Z with 64%Z.
  assert (HL : Z.land ((acc * 64) mod 2 ^ 32) v = 0%Z).
  { apply Z.bits_inj'. intros i Hi. rewrite Z.land_spec, Z.bits_0. destruct (decide (i < 6)%Z) as [Hlt|Hge].
    - rewrite Z.mod_pow2_bits_low by lia. change 64%Z with (2 ^ 6)%Z. by rewrite Z.mul_pow2_bits_low by lia.
    - rewrite (Z.testbit_eqb v) by lia. rewrite Z.div_small; [by rewrite andb_false_r|].
      pose proof (Z.pow_le_mono_r 2 6 i ltac:(lia) ltac:(lia)). lia. }
  by rewrite <- Z.lxor_lor, <- Z.add_nocarry_lxor by done.
Qed.

Lemma b64_digit acc bits v s :
  (0 <= v < 64)%Z →
  b64_loop acc bits (digit64 v :: s) =
    if (2 <=? bits)%Z then
      match b64_loop (acc_step acc v) (bits - 2) s with Ok out => Ok (z2b (Z.shiftr (acc_step acc v) (bits - 2)) :: out) | Err e => Err e end
    else b64_loop (acc_step acc v) (bits + 6) s.
Proof.
  intros H. destruct (digit64_ok v H) as (E1 & E2 & _). cbn [b64_loop]. rewrite E2, E1, lor_digit by done.
  destruct (Z.eqb_spec v 255); [lia|]. cbv zeta.
  destruct (Z.leb_spec 8 (bits + 6)), (Z.leb_spec 2 bits); try lia; [|done]. by replace (bits + 6 - 8)%Z with (bits - 2)%Z by lia.
Qed.

(** The byte that two consecutive digits complete. *)
Lemma acc_byte acc v w k b :
  (0 <= v < 64)%Z → (0 <= w < 64)%Z → (k = 4 ∨ k = 2 ∨ k = 0)%Z → (b2z b = (v * 64 + w) / 2 ^ k mod 256)%Z →
  z2b (Z.shiftr (acc_step (acc_step acc v) w) k) = b.
Proof.
  intros Hv Hw Hk Hb. apply b2z_inj. rewrite b2z_z2b, Hb. rewrite Z.shiftr_div_pow2 by lia. unfold acc_step.
  change (2 ^ 32)%Z with 4294967296%Z. destruct Hk as [-> | [-> | ->]]; cbn [Z.pow Z.pow_pos Pos.iter Z.mul Pos.mul];
    rewrite ?Z.div_1_r; Z.div_mod_to_equations; lia.
Qed.

Ltac sextets :=
  repeat match goal with b : byte |- _ => lazymatch goal with _ : (0 <= b2z b < 256)%Z |- _ => fail | _ => pose proof (b2z_range b) end end;
  cbn [Z.pow Z.pow_pos Pos.iter Z.mul Pos.mul]; Z.div_mod_to_equations; lia.

Lemma b64_encode_ind (P : bytes → Prop) :
  P [] → (∀ a, P [a]) → (∀ a b, P [a; b]) → (∀ a b c l, P l → P (a :: b :: c :: l)) → ∀ l, P l.
Proof.
  intros H0 H1 H2 H3. fix go 1. intros [|a [|b [|c l]]]; [exact H0|apply H1|apply H2|]. apply H3, go.
Qed.

Lemma b64_loop_encode l : ∀ acc, b64_loop acc 0 (b64_encode l) = Ok l.
Proof.
  induction l as [|a|a b|a b c l IH] using b64_encode_ind; intros acc; cbn [b64_encode].
  - done.
  - rewrite b64_digit by sextets. cbn [Z.leb Z.compare Z.add]. rewrite b64_digit by sextets. change (2 <=? 6)%Z with true.
    cbn [b64_loop skipped]. by rewrite (acc_byte _ _ _ 4 a) by (sextets || auto).
  - rewrite b64_digit by sextets. cbn [Z.leb Z.compare Z.add]. rewrite b64_digit by sextets. change (2 <=? 6)%Z with true. cbv iota.
    rewrite b64_digit by sextets. change (2 <=? 6 - 2)%Z with true. cbv iota. cbn [b64_loop].
    change (skipped Byte.x3d) with true. cbv iota.
    rewrite (acc_byte _ _ _ 4 a), (acc_byte _ _ _ 2 b) by (sextets || auto). done.
  - rewrite b64_digit by sextets. cbn [Z.leb Z.compare Z.add]. rewrite b64_digit by sextets. change (2 <=? 6)%Z with true. cbv iota.
    rewrite b64_digit by sextets. change (2 <=? 6 - 2)%Z with true. cbv iota. rewrite b64_digit by sextets. change (2 <=? 6 - 2 - 2)%Z with true. cbv iota.
    change (6 - 2 - 2 - 2)%Z with 0%Z. rewrite IH.
    rewrite (acc_byte _ _ _ 4 a), (acc_byte _ _ _ 2 b), (acc_byte _ _ _ 0 c) by (sextets || auto). done.
Qed.

Lemma b64_encode_plain l : Forall (λ b, plain b = true) (b64_encode l).
Proof.
  induction l as [|a|a b|a b c l IH] using b64_encode_ind; cbn [b64_encode]; repeat constructor; try done; apply digit64_ok; sextets.
Qed.

(** ** Texts of a key *)

Definition hex_text (key : bytes) : bytes := to_hex key.
Definition b64_text (key : bytes) : bytes := str_bytes "base64:" ++ b64_encode key.

Lemma strip_prefix_app p s : strip_prefix p (p ++ s) = Some s.
Proof. unfold strip_prefix. by rewrite take_app_length, decide_True, drop_app_length. Qed.

Lemma to_hex_no_prefix key : strip_prefix (str_bytes "base64:") (to_hex key) = None.
Proof.
  unfold strip_prefix. apply decide_False. intros E.
  assert (Hs : Byte.x73 ∈ to_hex key).
  { rewrite <- (take_drop (length (str_bytes "base64:")) (to_hex key)), E. vm_compute. set_solver. }
  clear E. induction key as [|b key IH]; [by apply not_elem_of_nil in Hs|]. rewrite to_hex_cons in Hs. destruct (hex_nibbles b) as [H1 H2].
  assert (Hd : ∀ n, (0 <= n < 16)%Z → hex_digit n ≠ Byte.x73).
  { intros n Hn. assert (E : forallb (λ n, negb (bool_decide (hex_digit n = Byte.x73))) (seqZ 0 16) = true) by (vm_compute; reflexivity).
    rewrite forallb_forall in E. specialize (E n). rewrite <- list_elem_of_In, elem_of_seqZ in E. specialize (E ltac:(lia)).
    by rewrite negb_true_iff, bool_decide_eq_false in E. }
  apply elem_of_cons in Hs as [Hs|Hs]; [by apply (Hd _ H1)|]. apply elem_of_cons in Hs as [Hs|Hs]; [by apply (Hd _ H2)|]. auto.
Qed.

(** ** Loading *)

(** A key file is read back: a 32-byte key written in hexadecimal or as
    [base64:] text, with any ASCII whitespace around it, is the key that
    [load] returns, from the path given or else from the one the environment
    sets. *)
Lemma load_text (key ws ws' : bytes) (text : bytes → bytes) (path : option bytes)
    (env : string → option bytes) (read_to_string : bytes → option bytes) :
  length key = 32 → forallb ws1 ws = true → forallb ws1 ws' = true → text = hex_text ∨ text = b64_text →
  read_to_string (default (default_path env) path) = Some (ws ++ text key ++ ws') →
  load path env read_to_string = Ret (Ok key).
Proof.
  intros Hk H1 H2 Ht Hr. unfold load. rewrite Hr. assert (Hne : key ≠ []) by (by destruct key).
  destruct Ht as [-> | ->]; rewrite trim_all_plain; try done.
  - unfold psk_parse, hex_text. rewrite to_hex_no_prefix, hex_decode_to_hex by done. cbn [mbind outcome_bind]. by rewrite decide_False by lia.
  - by apply to_hex_plain.
  - unfold psk_parse, b64_text. rewrite strip_prefix_app. cbn [mbind outcome_bind]. rewrite trim_id.
    + unfold b64_decode. rewrite b64_loop_encode. by rewrite decide_False by lia.
    + split; [|apply b64_encode_plain]. by destruct key as [|a [|b [|c key]]].
  - split; [done|]. apply Forall_app. split; [repeat constructor|apply b64_encode_plain].
Qed.

(** A text of ASCII characters never makes [psk_parse] panic; one with a
    two-byte character at an odd place does. *)
Lemma psk_parse_panics_only_on_non_ascii :
  (∀ s, Forall is_ascii (trim s) → psk_parse s ≠ Panic) ∧ psk_parse (str_bytes "a" ++ [Byte.xc3; Byte.xa9] ++ str_bytes "a") = Panic.
Proof.
  split; [|by vm_compute]. intros s Ha. unfold psk_parse. destruct (strip_prefix _ s); [by cbn [mbind outcome_bind]|].
  unfold hex_decode. destruct (negb _) eqn:E; [by cbn [mbind outcome_bind]|].
  destruct (hex_bytes_ascii (trim s) 0 (length (trim s) / 2) Ha) as (r & -> & _); [|by cbn [mbind outcome_bind]].
  pose proof (Nat.Div0.mul_div_le (length (trim s)) 2). lia.
Qed.
