(* ===== verification/SpatialConn.v ===== *)
(** Sessions of the spatial session crate ([src/conn.rs]): what is sent over
    the stream and in datagrams, polling, keepalive and the handshake drivers.
    The sockets are inputs and outputs of the operations. *)

From S2P Require Import Prelude Text Crypto SpatialWire SpatialCrypto.

Definition PING_IDLE : Z := from_secs 2.
Definition DEAD_AFTER : Z := from_secs 7.

(** The channel that carries keepalive. *)
Definition CTRL_CHANNEL : Z := 254.

Record Conn := mkConn {
  tx : RecordKey;
  rx : RecordKey;
  udp_tx : bytes;
  udp_rx : bytes;
  c_session_id : bytes;
  peer_udp : SocketAddr;
  peer_bound : bool;
  rx_buf : bytes;
  seq_tx : Z;
  msg_id_tx : Z;
  reasm : UdpReasm;
  mtu : Z;
  last_rx : Z;
  last_ping : Z;
  last_tx : Z;
  alive : bool;
}.

Definition Conn_new (sess : Session) (peer_udp : SocketAddr) (peer_bound : bool) (mtu now : Z) : Conn :=
  mkConn (RecordKey_new (k_tcp_tx sess)) (RecordKey_new (k_tcp_rx sess)) (k_udp_tx sess) (k_udp_rx sess) (session_id sess)
    peer_udp peer_bound [] 1 1 UdpReasm_default mtu now now now true.

(** ** Field updates *)

Definition set_tx (k : RecordKey) (c : Conn) : Conn :=
  mkConn k (rx c) (udp_tx c) (udp_rx c) (c_session_id c) (peer_udp c) (peer_bound c) (rx_buf c) (seq_tx c) (msg_id_tx c) (reasm c)
    (mtu c) (last_rx c) (last_ping c) (last_tx c) (alive c).
Definition set_rx (k : RecordKey) (buf : bytes) (c : Conn) : Conn :=
  mkConn (tx c) k (udp_tx c) (udp_rx c) (c_session_id c) (peer_udp c) (peer_bound c) buf (seq_tx c) (msg_id_tx c) (reasm c)
    (mtu c) (last_rx c) (last_ping c) (last_tx c) (alive c).
Definition set_seq (seq msg_id : Z) (c : Conn) : Conn :=
  mkConn (tx c) (rx c) (udp_tx c) (udp_rx c) (c_session_id c) (peer_udp c) (peer_bound c) (rx_buf c) seq msg_id (reasm c)
    (mtu c) (last_rx c) (last_ping c) (last_tx c) (alive c).
Definition set_reasm (r : UdpReasm) (c : Conn) : Conn :=
  mkConn (tx c) (rx c) (udp_tx c) (udp_rx c) (c_session_id c) (peer_udp c) (peer_bound c) (rx_buf c) (seq_tx c) (msg_id_tx c) r
    (mtu c) (last_rx c) (last_ping c) (last_tx c) (alive c).
Definition set_times (rxt pingt txt : Z) (c : Conn) : Conn :=
  mkConn (tx c) (rx c) (udp_tx c) (udp_rx c) (c_session_id c) (peer_udp c) (peer_bound c) (rx_buf c) (seq_tx c) (msg_id_tx c) (reasm c)
    (mtu c) rxt pingt txt (alive c).
Definition set_alive (b : bool) (c : Conn) : Conn :=
  mkConn (tx c) (rx c) (udp_tx c) (udp_rx c) (c_session_id c) (peer_udp c) (peer_bound c) (rx_buf c) (seq_tx c) (msg_id_tx c) (reasm c)
    (mtu c) (last_rx c) (last_ping c) (last_tx c) b.
Definition bind_peer (from : SocketAddr) (c : Conn) : Conn :=
  mkConn (tx c) (rx c) (udp_tx c) (udp_rx c) (c_session_id c) from true (rx_buf c) (seq_tx c) (msg_id_tx c) (reasm c)
    (mtu c) (last_rx c) (last_ping c) (last_tx c) (alive c).

(** ** Sockets *)

Inductive Out := TcpOut (w : bytes) | UdpOut (to : SocketAddr) (w : bytes).

Inductive UdpResult := Sent | WouldBlock | Failed.

(** What a non-blocking write of the stream is answered: so many bytes taken (none means
    that the peer is gone), not now, or an error. *)
Inductive WriteAnswer := Wrote (n : nat) | WriteBlocks | WriteFails.

(** What the sockets do. The blocking writes of the handshake take everything or fail after
    some bytes. Of the non-blocking writes of a session, [tcp_answers] gives the answers
    to the attempts at writing a piece of data, in their order; after the last of them
    the socket takes nothing any more. Each datagram has its fate. *)
Record Sockets := mkSockets { tcp_fails : option nat; tcp_answers : bytes → list WriteAnswer; udp_send : bytes → UdpResult }.

Definition good_sockets : Sockets := mkSockets None (λ data, [Wrote (length data)]) (λ _, Sent).

(** A call that does not return has no result. *)
Definition spins {A} : outcome A := Panic.

(** The loop of [write_all_tcp]: what was written, and whether all of it. It tries again
    for as long as the socket takes nothing. *)
Fixpoint write_loop (answers : list WriteAnswer) (data : bytes) : outcome (bytes * bool) :=
  match data with
  | [] => Ret ([], true)
  | _ :: _ =>
      match answers with
      | [] => spins
      | WriteBlocks :: rest => write_loop rest data
      | Wrote 0 :: _ | WriteFails :: _ => Ret ([], false)
      | Wrote n :: rest => '(w, ok) ← write_loop rest (drop n data); Ret (take n data ++ w, ok)
      end
  end.

Section Conn.
Context {crates : Crates}.

(** [write_all_tcp]. *)
Definition write_all_tcp (k : Sockets) (data : bytes) (c : Conn) : outcome (Conn * list Out * bool) :=
  '(w, ok) ← write_loop (tcp_answers k data) data;
  Ret (if ok : bool then c else set_alive false c, [TcpOut w], ok).

Definition send_tcp (k : Sockets) (now channel : Z) (msg : bytes) (c : Conn) : outcome (Conn * list Out * bool) :=
  '(tx', ct) ← record_seal (frame_tcp channel msg) (tx c);
  let c := set_tx tx' c in
  '(c, outs, ok) ← write_all_tcp k (to_le_bytes 4 (wrap 32 (len ct)) ++ ct) c;
  Ret (if ok : bool then set_times (last_rx c) (last_ping c) now c else c, outs, ok).

(** [send_datagram]: a full socket buffer loses the datagram. *)
Definition datagram (dtype channel seq : Z) (ct : bytes) : bytes := [z2b dtype; z2b channel] ++ to_le_bytes 4 seq ++ ct.

Definition send_datagram (k : Sockets) (dtype channel seq : Z) (ct : bytes) (c : Conn) : list Out * bool :=
  let dg := datagram dtype channel seq ct in
  match udp_send k dg with
  | Sent => ([UdpOut (peer_udp c) dg], true)
  | WouldBlock => ([], true)
  | Failed => ([], false)
  end.

(** The loop of [send_udp] over the fragments from index [i] on. *)
Fixpoint send_frags (k : Sockets) (channel msg_id count : Z) (i : nat) (slices : list bytes) (c : Conn)
    : outcome (Conn * list Out * bool) :=
  match slices with
  | [] => Ret (c, [], true)
  | s :: rest =>
      let fseq := seq_tx c in
      let c := set_seq (wrap 32 (seq_tx c + 1)) (msg_id_tx c) c in
      ct ← datagram_seal DT_FRAG channel fseq (frag_body msg_id (wrap 16 (Z.of_nat i)) count s) (udp_tx c);
      let '(o, ok) := send_datagram k DT_FRAG channel fseq ct c in
      if ok : bool then
        '(c, os, ok) ← send_frags k channel msg_id count (S i) rest c;
        Ret (c, o ++ os, ok)
      else Ret (c, o, false)
  end.

Definition send_udp (k : Sockets) (now channel : Z) (msg : bytes) (c : Conn) : outcome (Conn * list Out * bool) :=
  let seq := seq_tx c in
  let c := set_seq (wrap 32 (seq_tx c + 1)) (msg_id_tx c) c in
  let frags := fragment msg (mtu c) in
  '(c, outs, ok) ←
    match frags with
    | [_] =>
        ct ← datagram_seal DT_DATA channel seq (data_body msg) (udp_tx c);
        let '(o, ok) := send_datagram k DT_DATA channel seq ct c in
        Ret (c, o, ok)
    | _ =>
        let msg_id := msg_id_tx c in
        let c := set_seq (seq_tx c) (wrap 32 (msg_id_tx c + 1)) c in
        send_frags k channel msg_id (wrap 16 (len frags)) 0 frags c
    end;
  Ret (if ok : bool then set_times (last_rx c) (last_ping c) now c else c, outs, ok).

Definition send (k : Sockets) (now channel : Z) (msg : bytes) (c : Conn) : outcome (Conn * list Out * bool) :=
  let first_op := match msg with b :: _ => b2z b | [] => 0%Z end in
  if is_udp channel first_op then send_udp k now channel msg c else send_tcp k now channel msg c.

Definition on_ctrl (k : Sockets) (now : Z) (msg : bytes) (c : Conn) : outcome (Conn * list Out) :=
  match msg with
  | b :: _ => if (b2z b =? DT_PING)%Z then '(c, o, _) ← send_tcp k now CTRL_CHANNEL [z2b DT_PONG] c; Ret (c, o) else Ret (c, [])
  | [] => Ret (c, [])
  end.

(** The record loop of [poll_tcp]; every record takes at least four bytes. *)
Fixpoint poll_records (fuel : nat) (k : Sockets) (now : Z) (c : Conn) : outcome (Conn * list (Z * bytes) * list Out) :=
  match fuel with
  | 0 => Ret (c, [], [])
  | S fuel' =>
      let buf := rx_buf c in
      if decide (length buf < 4) then Ret (c, [], []) else
      let ct_len := Z.to_nat (from_le_bytes (slice 0 4 buf)) in
      if decide (length buf < 4 + ct_len) then Ret (c, [], []) else
      let ct := slice 4 (4 + ct_len) buf in
      let rest := drop (4 + ct_len) buf in
      match record_open ct (rx c) with
      | Some (rx', frame) =>
          let c := set_rx rx' rest c in
          match parse_tcp frame with
          | Some (ch, msg, _) =>
              if (ch =? CTRL_CHANNEL)%Z then
                '(c, o) ← on_ctrl k now msg c;
                '(c, out, os) ← poll_records fuel' k now c;
                Ret (c, out, o ++ os)
              else
                '(c, out, os) ← poll_records fuel' k now c;
                Ret (c, (ch, msg) :: out, os)
          | None => poll_records fuel' k now c
          end
      | None => Ret (set_alive false (set_rx (rx c) rest c), [], [])
      end
  end.

(** [poll_tcp] when [data] was readable; [eof] ends the stream. *)
Definition poll_tcp (k : Sockets) (now : Z) (data : bytes) (eof : bool) (c : Conn) : outcome (Conn * list (Z * bytes) * list Out) :=
  let c := set_rx (rx c) (rx_buf c ++ data) c in
  let c := if decide (data = []) then c else set_times now (last_ping c) (last_tx c) c in
  let c := if eof then set_alive false c else c in
  poll_records (S (length (rx_buf c))) k now c.

(** One datagram of [poll_udp]. *)
Definition poll_datagram (now : Z) (from : SocketAddr) (buf : bytes) (c : Conn) : outcome (Conn * list (Z * bytes)) :=
  if decide (length buf < 6) then Ret (c, []) else
  let dtype := from_be_bytes (slice 0 1 buf) in
  let channel := from_be_bytes (slice 1 2 buf) in
  let seq := from_le_bytes (slice 2 6 buf) in
  match datagram_open dtype channel seq (drop 6 buf) (udp_rx c) with
  | None => Ret (c, [])
  | Some pt =>
      let c := if peer_bound c then c else bind_peer from c in
      let c := set_times now (last_ping c) (last_tx c) c in
      if (dtype =? DT_DATA)%Z then
        let '(r, m) := on_data channel seq pt (reasm c) in
        Ret (set_reasm r c, match m with Some msg => [(channel, msg)] | None => [] end)
      else if (dtype =? DT_FRAG)%Z then
        match parse_frag pt with
        | Some (mid, idx, count, s) =>
            '(r, m) ← on_frag channel mid idx count s (reasm c);
            Ret (set_reasm r c, match m with Some msg => [(channel, msg)] | None => [] end)
        | None => Ret (c, [])
        end
      else Ret (c, [])
  end.

Fixpoint poll_udp (now : Z) (dgs : list (SocketAddr * bytes)) (c : Conn) : outcome (Conn * list (Z * bytes)) :=
  match dgs with
  | [] => Ret (c, [])
  | (from, buf) :: rest =>
      '(c, o) ← poll_datagram now from buf c;
      '(c, os) ← poll_udp now rest c;
      Ret (c, o ++ os)
  end.

Definition service_keepalive (k : Sockets) (now : Z) (c : Conn) : outcome (Conn * list Out) :=
  if (DEAD_AFTER <? duration_since now (last_rx c))%Z then Ret (set_alive false c, []) else
  if (PING_IDLE <? duration_since now (last_tx c))%Z && (PING_IDLE <? duration_since now (last_ping c))%Z then
    '(c, o, _) ← send_tcp k now CTRL_CHANNEL [z2b DT_PING] c;
    Ret (set_times (last_rx c) now (last_tx c) c, o)
  else Ret (c, []).

(** [poll] with what is readable on both sockets. *)
Definition poll (k : Sockets) (now : Z) (data : bytes) (eof : bool) (dgs : list (SocketAddr * bytes)) (c : Conn)
    : outcome (Conn * list (Z * bytes) * list Out) :=
  '(c, out1, o1) ← poll_tcp k now data eof c;
  '(c, out2) ← poll_udp now dgs c;
  '(c, o2) ← service_keepalive k now c;
  Ret (c, out1 ++ out2, o1 ++ o2).

Definition send_udp_hello (k : Sockets) (c : Conn) : outcome (Conn * list Out * bool) :=
  let seq := seq_tx c in
  let c := set_seq (wrap 32 (seq_tx c + 1)) (msg_id_tx c) c in
  ct ← datagram_seal DT_HELLO 0 seq (c_session_id c) (udp_tx c);
  let '(o, ok) := send_datagram k DT_HELLO 0 seq ct c in
  Ret (c, o, ok).

(** ** Handshake drivers

    The peer's stream is the input, of which the rest is returned. *)

Inductive IoError := UnexpectedEof | WriteError | InvalidData (e : HsError) | PermissionDenied (e : HsError) | BadUdpAddr | UdpError.

Definition read_exact_blocking (n : nat) (input : bytes) : result (bytes * bytes) IoError :=
  if decide (length input < n) then Err UnexpectedEof else Ok (take n input, drop n input).

Definition read_framed_blocking (input : bytes) : result (bytes * bytes) IoError :=
  match read_exact_blocking 4 input with
  | Ok (hdr, input) => read_exact_blocking (Z.to_nat (from_le_bytes hdr)) input
  | Err e => Err e
  end.

(** [write_all] on the blocking socket. *)
Definition write_all (k : Sockets) (data : bytes) : list Out * bool :=
  match tcp_fails k with
  | None => ([TcpOut data], true)
  | Some n => if decide (length data ≤ n) then ([TcpOut data], true) else ([TcpOut (take n data)], false)
  end.

Definition write_framed_blocking (k : Sockets) (body : bytes) : list Out * bool :=
  let '(o1, ok1) := write_all k (to_le_bytes 4 (wrap 32 (len body))) in
  if ok1 : bool then let '(o2, ok2) := write_all k body in (o1 ++ o2, ok2) else (o1, false).

Context {dhc : DhCrates}.

(** [client_connect] once the sockets are open, with the loaded key and the
    randomness it draws. The host's UDP address is parsed from the text of the
    host and the port it sent. *)
Definition client_connect (k : Sockets) (now mtu : Z) (host : bytes) (udp_port : Z) (psk secret nc input : bytes)
    : outcome (result (Conn * bytes) IoError * list Out) :=
  let hs := ClientHandshake_new psk secret nc in
  let '(o1, ok) := write_framed_blocking k (hello1 udp_port hs) in
  if negb ok then Ret (Err WriteError, o1) else
  match read_framed_blocking input with
  | Err e => Ret (Err e, o1)
  | Ok (hello2, input) =>
      match recv_hello2 hello2 hs with
      | Err e => Ret (Err (InvalidData e), o1)
      | Ok (sess, host_udp, confirm3) =>
          let '(o2, ok) := write_framed_blocking k confirm3 in
          if negb ok then Ret (Err WriteError, o1 ++ o2) else
          match parse_socket_addr (host_port host host_udp) with
          | None => Ret (Err BadUdpAddr, o1 ++ o2)
          | Some addr =>
              '(c, o3, ok) ← send_udp_hello k (Conn_new sess addr true mtu now);
              Ret (if ok : bool then Ok (c, input) else Err UdpError, o1 ++ o2 ++ o3)
          end
      end
  end.

(** [host_accept]. *)
Definition host_accept (k : Sockets) (now mtu : Z) (peer_ip : IpAddr) (host_udp_port : Z) (psk secret nh input : bytes)
    : result (Conn * bytes) IoError * list Out :=
  match read_framed_blocking input with
  | Err e => (Err e, [])
  | Ok (hello1, input) =>
      match host_respond hello1 psk host_udp_port secret nh with
      | Err e => (Err (InvalidData e), [])
      | Ok (hello2, sess, pending, client_udp) =>
          let '(o1, ok) := write_framed_blocking k hello2 in
          if negb ok then (Err WriteError, o1) else
          match read_framed_blocking input with
          | Err e => (Err e, o1)
          | Ok (confirm3, input) =>
              match verify confirm3 pending with
              | Err e => (Err (PermissionDenied e), o1)
              | Ok _ => (Ok (Conn_new sess (mkAddr peer_ip client_udp 0) false mtu now, input), o1)
              end
          end
      end
  end.
End Conn.

(** ** The stream *)

Lemma set_rx_id c : set_rx (rx c) (rx_buf c) c = c.
Proof. by destruct c. Qed.

Section Stream.
Context {crates : Crates} {spec : CratesSpec}.

Definition record (ct : bytes) : bytes := to_le_bytes 4 (wrap 32 (len ct)) ++ ct.

(** Messages sealed one after the other. *)
Fixpoint seal_all (ms : list (Z * bytes)) (k : RecordKey) : outcome (RecordKey * list bytes) :=
  match ms with
  | [] => Ret (k, [])
  | (ch, msg) :: rest =>
      '(k, ct) ← record_seal (frame_tcp ch msg) k;
      '(k, cts) ← seal_all rest k;
      Ret (k, ct :: cts)
  end.

(** Frames that fit, and among them those for the application. *)
Definition stream_frame (m : Z * bytes) : Prop := is_u8 m.1 ∧ (21 + len m.2 <= u32_max)%Z.
Definition stream_msg (m : Z * bytes) : Prop := stream_frame m ∧ m.1 ≠ CTRL_CHANNEL.
Definition for_app (ms : list (Z * bytes)) : list (Z * bytes) := filter (λ m, m.1 ≠ CTRL_CHANNEL) ms.

Lemma record_seal_open pt k k' ct :
  record_seal pt k = Ret (k', ct) → record_open ct k = Some (k', pt) ∧ length ct = length pt + 16.
Proof.
  unfold record_seal, record_open. destruct (chacha_encrypt _ _ _ _) as [x|] eqn:E; [|done]. cbn [unwrap mbind outcome_bind].
  intros [= <- <-]. split; [by rewrite (chacha_open_seal _ _ _ _ _ E)|by eapply chacha_tag_len].
Qed.

Lemma record_length ct : length (record ct) = 4 + length ct.
Proof. unfold record. by rewrite length_app, length_to_le_bytes. Qed.

(** The length a record announces, read from four bytes of a stream it starts. *)
Lemma record_header ct buf rest tail :
  (len ct <= u32_max)%Z → 4 ≤ length buf → buf ++ rest = record ct ++ tail → Z.to_nat (from_le_bytes (slice 0 4 buf)) = length ct.
Proof.
  intros Hct H4 Hw. pose proof (len_nonneg ct). unfold record in Hw. unfold wrap in Hw. rewrite Z.mod_small in Hw by (unfold u32_max in *; lia).
  assert (Es : slice 0 4 buf = to_le_bytes 4 (len ct)).
  { apply (f_equal (take 4)) in Hw. rewrite take_app_le in Hw by lia. unfold slice. rewrite drop_0. cbn [Nat.sub]. rewrite Hw.
    rewrite <- app_assoc, take_app_length'; [done|by rewrite length_to_le_bytes]. }
  rewrite Es, from_to_le_u32 by (unfold is_u32, u32_max in *; lia). unfold len. lia.
Qed.

(** A stream cut within its first record is left alone. *)
Lemma poll_records_short sk now c ct rest tail fuel :
  (len ct <= u32_max)%Z → rx_buf c ++ rest = record ct ++ tail → length (rx_buf c) < length (record ct) →
  poll_records fuel sk now c = Ret (c, [], []).
Proof.
  intros Hct Hw Hs. destruct fuel; [done|]. cbn [poll_records]. destruct (decide (length (rx_buf c) < 4)); [done|]. cbv zeta.
  rewrite (record_header ct (rx_buf c) rest tail) by (done || lia). rewrite record_length in Hs. by rewrite decide_True by lia.
Qed.

(** A record that is there in full is opened. *)
Lemma poll_records_full sk now c ct buf' k1 ch msg fuel :
  (len ct <= u32_max)%Z → rx_buf c = record ct ++ buf' → record_open ct (rx c) = Some (k1, frame_tcp ch msg) →
  is_u8 ch → (len msg <= u32_max)%Z →
  poll_records (S fuel) sk now c
  = if (ch =? CTRL_CHANNEL)%Z
    then '(c, o) ← on_ctrl sk now msg (set_rx k1 buf' c); '(c, out, os) ← poll_records fuel sk now c; Ret (c, out, o ++ os)
    else '(c, out, os) ← poll_records fuel sk now (set_rx k1 buf' c); Ret (c, (ch, msg) :: out, os).
Proof.
  intros Hct Hb Hopen Hc Hm. pose proof (record_length ct) as HR. cbn [poll_records]. rewrite Hb.
  rewrite decide_False by (rewrite length_app; lia). cbv zeta.
  rewrite (record_header ct (record ct ++ buf') [] buf') by (done || (rewrite ?length_app; lia) || by rewrite app_nil_r).
  rewrite decide_False by (rewrite length_app; lia).
  assert (Ec : slice 4 (4 + length ct) (record ct ++ buf') = ct).
  { unfold record. rewrite <- app_assoc, slice_skip by (by rewrite length_to_le_bytes). rewrite length_to_le_bytes. apply slice_head. lia. }
  assert (Ed : drop (4 + length ct) (record ct ++ buf') = buf') by (rewrite <- HR; apply drop_app_length).
  rewrite Ec, Ed, Hopen. pose proof (parse_frame_tcp ch msg [] Hc Hm) as Hp. rewrite app_nil_r in Hp. by rewrite Hp.
Qed.

Lemma stream_ct_len ch msg k k' ct :
  (21 + len msg <= u32_max)%Z → record_seal (frame_tcp ch msg) k = Ret (k', ct) → (len ct <= u32_max)%Z.
Proof.
  intros Hl [_ E]%record_seal_open. unfold frame_tcp in E. cbn [length] in E. rewrite length_app, length_to_le_bytes in E.
  unfold len in *. lia.
Qed.

Lemma seal_all_cons ch msg ms k k' cts :
  seal_all ((ch, msg) :: ms) k = Ret (k', cts) →
  ∃ k1 ct cts1, record_seal (frame_tcp ch msg) k = Ret (k1, ct) ∧ seal_all ms k1 = Ret (k', cts1) ∧ cts = ct :: cts1.
Proof.
  cbn [seal_all]. destruct (record_seal _ k) as [|[k1 ct]] eqn:E1; [done|]. cbn [mbind outcome_bind].
  destruct (seal_all ms k1) as [|[k2 cts1]] eqn:E2; [done|]. cbn [mbind outcome_bind]. intros [= <- <-]. by eexists _, _, _.
Qed.

(** A prefix of a stream either ends within the first record or holds it. *)
Lemma stream_prefix (r tail buf rest : bytes) :
  buf ++ rest = r ++ tail → length buf < length r ∨ ∃ buf', buf = r ++ buf' ∧ buf' ++ rest = tail.
Proof.
  intros Hw. destruct (decide (length buf < length r)) as [|Hl]; [by left|]. right. exists (drop (length r) buf). split.
  - rewrite <- (take_drop (length r) buf) at 1. f_equal. apply (f_equal (take (length r))) in Hw.
    rewrite take_app_length in Hw. by rewrite take_app_le in Hw by lia.
  - apply (f_equal (drop (length r))) in Hw. rewrite drop_app_length in Hw. by rewrite drop_app_le in Hw by lia.
Qed.

End Stream.

(** ** Sealing does not fail *)

Definition ConnWf (c : Conn) : Prop := length (rk_key (tx c)) = KEY ∧ length (udp_tx c) = KEY.

Definition tcp_wire (os : list Out) : bytes := concat (omap (λ o, match o with TcpOut w => Some w | UdpOut _ _ => None end) os).

Definition udp_wire (os : list Out) : list (SocketAddr * bytes) :=
  omap (λ o, match o with TcpOut _ => None | UdpOut a w => Some (a, w) end) os.

Lemma tcp_wire_app a b : tcp_wire (a ++ b) = tcp_wire a ++ tcp_wire b.
Proof. unfold tcp_wire. by rewrite omap_app, concat_app. Qed.

Lemma Conn_new_wf sess a b m now : session_ok sess → ConnWf (Conn_new sess a b m now).
Proof. by intros (H1 & H2 & H3 & H4). Qed.

Section Total.
Context {crates : Crates} {spec : CratesSpec} {tot : AeadTotal}.

Lemma record_seal_total pt k :
  length (rk_key k) = KEY → (len pt <= u32_max + 8)%Z →
  ∃ ct, record_seal pt k = Ret (mkRecordKey (rk_key k) (wrap 64 (counter k + 1)), ct) ∧ length ct = length pt + 16.
Proof.
  intros Hk Hl. unfold record_seal. destruct (chacha_total (rk_key k) (record_nonce (counter k)) [] pt) as [ct E]; [done..|].
  rewrite E. exists ct. split; [done|]. by eapply chacha_tag_len.
Qed.

Lemma datagram_seal_total ty ch q pt key :
  length key = KEY → (len pt <= u32_max + 8)%Z → ∃ ct, datagram_seal ty ch q pt key = Ret ct ∧ datagram_open ty ch q ct key = Some pt.
Proof.
  intros Hk Hl. unfold datagram_seal, datagram_open. destruct (chacha_total key (datagram_nonce ty ch q) [z2b ty; z2b ch] pt) as [ct E]; [done..|].
  rewrite E. exists ct. split; [done|]. by eapply chacha_open_seal.
Qed.

Lemma length_frame_tcp ch msg : len (frame_tcp ch msg) = (5 + len msg)%Z.
Proof. unfold frame_tcp, len. cbn [length]. rewrite length_app, length_to_le_bytes. lia. Qed.

(** A socket that answers every write in the end, and one that takes everything. *)
Definition responsive (sk : Sockets) : Prop := ∀ data, ∃ w ok, write_loop (tcp_answers sk data) data = Ret (w, ok).
Definition takes_all (sk : Sockets) : Prop := ∀ data, write_loop (tcp_answers sk data) data = Ret (data, true).

Lemma good_takes_all : takes_all good_sockets.
Proof.
  intros [|b data]; [done|]. cbn [tcp_answers good_sockets write_loop length].
  rewrite drop_ge, take_ge by (cbn [length]; lia). cbn [mbind outcome_bind]. by rewrite app_nil_r.
Qed.

Lemma takes_all_responsive sk : takes_all sk → responsive sk.
Proof. intros H data. eexists _, _. apply H. Qed.

(** Sending over the stream seals one record. *)
Lemma send_tcp_ok sk now ch msg c :
  responsive sk → ConnWf c → (len msg <= u32_max)%Z →
  ∃ c' o ok ct, send_tcp sk now ch msg c = Ret (c', o, ok) ∧ record_seal (frame_tcp ch msg) (tx c) = Ret (tx c', ct)
    ∧ ConnWf c' ∧ rx c' = rx c ∧ rx_buf c' = rx_buf c ∧ last_rx c' = last_rx c
    ∧ (takes_all sk → ok = true ∧ o = [TcpOut (record ct)] ∧ alive c' = alive c).
Proof.
  intros Hresp Hw Hl. unfold send_tcp. destruct Hw as [Hw1 Hw2].
  destruct (record_seal_total (frame_tcp ch msg) (tx c)) as (ct & E & _); [done|rewrite length_frame_tcp; lia|].
  rewrite E. cbn [mbind outcome_bind]. unfold write_all_tcp. destruct (Hresp (to_le_bytes 4 (wrap 32 (len ct)) ++ ct)) as (w & ok & Ew).
  rewrite Ew. cbn [mbind outcome_bind]. exists (if ok then set_times (last_rx c) (last_ping c) now (set_tx (mkRecordKey (rk_key (tx c)) (wrap 64 (counter (tx c) + 1))) c)
    else set_alive false (set_tx (mkRecordKey (rk_key (tx c)) (wrap 64 (counter (tx c) + 1))) c)), [TcpOut w], ok, ct.
  destruct ok; (split_and!; [done..|]); intros Hall; rewrite Hall in Ew; [by injection Ew as <-|discriminate].
Qed.
End Total.

(** ** Authenticity *)

Fixpoint seal_frames {crates : Crates} (frames : list bytes) (k : RecordKey) : outcome (RecordKey * list bytes) :=
  match frames with
  | [] => Ret (k, [])
  | f :: rest => '(k, ct) ← record_seal f k; '(k, cts) ← seal_frames rest k; Ret (k, ct :: cts)
  end.

(** The message a frame carries to the application. *)
Definition app_msg (frame : bytes) : option (Z * bytes) :=
  match parse_tcp frame with
  | Some (ch, msg, _) => if (ch =? CTRL_CHANNEL)%Z then None else Some (ch, msg)
  | None => None
  end.

Section Authentic.
Context {crates : Crates} {spec : CratesSpec} {tot : AeadTotal}.

Lemma record_open_seal ct k k' pt : record_open ct k = Some (k', pt) → record_seal pt k = Ret (k', ct).
Proof.
  unfold record_open, record_seal. destruct (chacha_decrypt _ _ _ _) as [m|] eqn:E; [|done]. cbn [mbind option_bind]. intros [= <- <-].
  by rewrite (chacha_seal_open _ _ _ _ _ E).
Qed.

Context (sk : Sockets) (Hresp : responsive sk).

Lemma on_ctrl_ok now msg c :
  ConnWf c → ∃ c' o, on_ctrl sk now msg c = Ret (c', o) ∧ ConnWf c' ∧ rx c' = rx c ∧ rx_buf c' = rx_buf c.
Proof using Type*.
  intros H. unfold on_ctrl. destruct msg as [|b msg]; [by eexists _, _|]. destruct (b2z b =? DT_PING)%Z; [|by eexists _, _].
  destruct (send_tcp_ok sk now CTRL_CHANNEL [z2b DT_PONG] c Hresp H) as (c' & o & ok & ct & -> & _ & ? & ? & ? & _); [vm_compute; discriminate|].
  by eexists _, _.
Qed.

(** A record whose bytes are all there is the front of the buffer. *)
Lemma record_front buf n :
  4 ≤ length buf → n = Z.to_nat (from_le_bytes (slice 0 4 buf)) → 4 + n ≤ length buf →
  buf = record (slice 4 (4 + n) buf) ++ drop (4 + n) buf.
Proof.
  intros H4 Hn Hl. set (h := slice 0 4 buf) in *. assert (Hh : length h = 4) by (unfold h; rewrite length_slice; lia).
  pose proof (from_le_bytes_range h) as Hr. rewrite Hh in Hr.
  unfold record. replace (wrap 32 (len (slice 4 (4 + n) buf))) with (from_le_bytes h).
  - rewrite to_from_le_bytes' by done. rewrite <- app_assoc, slice_drop_app by lia. unfold h. by rewrite slice_drop_app, drop_0 by lia.
  - unfold wrap, len. rewrite length_slice by lia. rewrite Z.mod_small; [lia|]. change (256 ^ Z.of_nat 4)%Z with (2 ^ 32)%Z in Hr. lia.
Qed.

Lemma poll_records_authentic now fuel : ∀ c,
  ConnWf c → ∃ c' out os frames cts rest,
    poll_records fuel sk now c = Ret (c', out, os) ∧ ConnWf c' ∧ seal_frames frames (rx c) = Ret (rx c', cts)
    ∧ rx_buf c = concat (record <$> cts) ++ rest ∧ out = omap app_msg frames ∧ (alive c' = true → rest = rx_buf c').
Proof.
  induction fuel as [|fuel IH]; intros c Hc; cbn [poll_records].
  { by exists c, [], [], [], [], (rx_buf c). }
  destruct (decide (length (rx_buf c) < 4)) as [|H4]; [by exists c, [], [], [], [], (rx_buf c)|]. cbv zeta.
  set (n := Z.to_nat (from_le_bytes (slice 0 4 (rx_buf c)))). destruct (decide (length (rx_buf c) < 4 + n)); [by exists c, [], [], [], [], (rx_buf c)|].
  assert (Hfront : rx_buf c = record (slice 4 (4 + n) (rx_buf c)) ++ drop (4 + n) (rx_buf c)) by (apply record_front; [lia|done|lia]).
  set (ct := slice 4 (4 + n) (rx_buf c)) in *. set (rest := drop (4 + n) (rx_buf c)) in *.
  destruct (record_open ct (rx c)) as [[k1 frame]|] eqn:Eo; [|by eexists _, _, _, [], [], (rx_buf c)].
  apply record_open_seal in Eo.
  assert (Hstep : ∀ c1, ConnWf c1 → rx c1 = k1 → rx_buf c1 = rest →
    ∃ c' out os frames cts rest', poll_records fuel sk now c1 = Ret (c', out, os) ∧ ConnWf c' ∧ seal_frames (frame :: frames) (rx c) = Ret (rx c', ct :: cts)
    ∧ rx_buf c = concat (record <$> (ct :: cts)) ++ rest' ∧ out = omap app_msg frames ∧ (alive c' = true → rest' = rx_buf c')).
  { intros c1 H1 H2 H3. destruct (IH c1 H1) as (c' & out & os & frames & cts & rest' & E & Hwf & HS & HB & HO & HR).
    exists c', out, os, frames, cts, rest'. split_and!; try done.
    - cbn [seal_frames]. rewrite Eo. cbn [mbind outcome_bind]. rewrite <- H2, HS. done.
    - rewrite fmap_cons. cbn [concat]. rewrite <- app_assoc, <- HB, H3. exact Hfront. }
  destruct (parse_tcp frame) as [[[ch msg] sz]|] eqn:Ep; [destruct (ch =? CTRL_CHANNEL)%Z eqn:Ec|].
  - destruct (on_ctrl_ok now msg (set_rx k1 rest c)) as (c1 & o & -> & W1 & W2 & W3); [done|]. cbn [mbind outcome_bind].
    destruct (Hstep c1 W1 W2 W3) as (c' & out & os & frames & cts & rest' & -> & ? & ? & ? & -> & ?). cbn [mbind outcome_bind].
    eexists _, _, _, (frame :: frames), (ct :: cts), rest'. split_and!; try done. cbn [omap list_omap]. unfold app_msg at 2. by rewrite Ep, Ec.
  - destruct (Hstep (set_rx k1 rest c)) as (c' & out & os & frames & cts & rest' & -> & ? & ? & ? & -> & ?); [done..|]. cbn [mbind outcome_bind].
    eexists _, _, _, (frame :: frames), (ct :: cts), rest'. split_and!; try done. cbn [omap list_omap]. unfold app_msg at 2. by rewrite Ep, Ec.
  - destruct (Hstep (set_rx k1 rest c)) as (c' & out & os & frames & cts & rest' & -> & ? & ? & ? & -> & ?); [done..|].
    eexists _, _, _, (frame :: frames), (ct :: cts), rest'. split_and!; try done. cbn [omap list_omap]. unfold app_msg at 2. by rewrite Ep.
Qed.
End Authentic.

(** ** What an application does *)

(** It sends a message, or polls when [data] is readable on the stream. *)
Inductive ConnAct := ASend (now channel : Z) (msg : bytes) | APoll (now : Z) (data : bytes).

Definition sent_msgs (acts : list ConnAct) : list (Z * bytes) := omap (λ a, match a with ASend _ ch msg => Some (ch, msg) | APoll _ _ => None end) acts.
Definition polled (acts : list ConnAct) : bytes := concat (omap (λ a, match a with APoll _ data => Some data | ASend _ _ _ => None end) acts).

Section Sequences.
Context {crates : Crates}.

Definition conn_act (sk : Sockets) (a : ConnAct) (c : Conn) : outcome (Conn * list (Z * bytes) * list Out) :=
  match a with
  | ASend now ch msg => '(c, o, _) ← send sk now ch msg c; Ret (c, [], o)
  | APoll now data => poll sk now data false [] c
  end.

(** The session afterwards, what the polls delivered, and what was sent. *)
Fixpoint conn_run (sk : Sockets) (acts : list ConnAct) (c : Conn) : outcome (Conn * list (Z * bytes) * list Out) :=
  match acts with
  | [] => Ret (c, [], [])
  | a :: rest =>
      '(c, out, o) ← conn_act sk a c;
      '(c, out', o') ← conn_run sk rest c;
      Ret (c, out ++ out', o ++ o')
  end.

Definition first_op (msg : bytes) : Z := match msg with b :: _ => b2z b | [] => 0%Z end.

Definition reliable_msg (m : Z * bytes) : Prop := stream_msg m ∧ is_udp m.1 (first_op m.2) = false.
Definition act_ok (a : ConnAct) : Prop := match a with ASend _ ch msg => reliable_msg (ch, msg) | APoll _ _ => True end.
Definition has_data (a : ConnAct) : Prop := match a with APoll _ data => data ≠ [] | ASend _ _ _ => True end.

Context {spec : CratesSpec} {tot : AeadTotal}.

(** *** The sending direction *)

(** From [c] to [c'] the frames [ms] were sealed, and [os] carries their records. *)
Definition sealed (ms : list (Z * bytes)) (c c' : Conn) (os : list Out) : Prop :=
  Forall stream_frame ms ∧ ∃ cts, seal_all ms (tx c) = Ret (tx c', cts) ∧ tcp_wire os = concat (record <$> cts).

Lemma seal_all_app ms1 ms2 k k1 k2 cts1 cts2 :
  seal_all ms1 k = Ret (k1, cts1) → seal_all ms2 k1 = Ret (k2, cts2) → seal_all (ms1 ++ ms2) k = Ret (k2, cts1 ++ cts2).
Proof using Type.
  revert k cts1. induction ms1 as [|[ch msg] ms1 IH]; intros k cts1 H1 H2; [by injection H1 as <- <-|].
  apply seal_all_cons in H1 as (k0 & ct & cts & E1 & E2 & ->). cbn [app seal_all]. rewrite E1. cbn [mbind outcome_bind]. by rewrite (IH _ _ E2 H2).
Qed.

Lemma sealed_nil c c' : tx c' = tx c → sealed [] c c' [].
Proof using Type. intros E. split; [constructor|]. exists []. by rewrite E. Qed.

Lemma sealed_app ms1 ms2 c c1 c2 os1 os2 : sealed ms1 c c1 os1 → sealed ms2 c1 c2 os2 → sealed (ms1 ++ ms2) c c2 (os1 ++ os2).
Proof using Type.
  intros [F1 (cts1 & S1 & W1)] [F2 (cts2 & S2 & W2)]. split; [by apply Forall_app|]. exists (cts1 ++ cts2). split; [by eapply seal_all_app|].
  by rewrite tcp_wire_app, fmap_app, concat_app, W1, W2.
Qed.

Lemma sealed_from ms c0 c c' os : tx c0 = tx c → sealed ms c0 c' os → sealed ms c c' os.
Proof using Type. intros E [F (cts & S & W)]. split; [done|]. exists cts. by rewrite <- E. Qed.

(** What a step leaves alone. *)
Definition same_rx (c c' : Conn) : Prop := rx c' = rx c ∧ rx_buf c' = rx_buf c ∧ last_rx c' = last_rx c ∧ alive c' = alive c.

Lemma send_tcp_sealed now ch msg c :
  ConnWf c → stream_frame (ch, msg) →
  ∃ c' os ok, send_tcp good_sockets now ch msg c = Ret (c', os, ok) ∧ ConnWf c' ∧ sealed [(ch, msg)] c c' os ∧ same_rx c c'.
Proof using All.
  intros Hc [Hu Hl]. cbn [snd] in Hl.
  destruct (send_tcp_ok good_sockets now ch msg c (takes_all_responsive _ good_takes_all) Hc) as (c' & o & ok & ct & E & Es & W & R1 & R2 & R3 & HO); [lia|].
  destruct (HO good_takes_all) as (-> & -> & R4). eexists _, _, true. split_and!; [exact E|done| |done].
  split; [by apply Forall_singleton|]. exists [ct]. cbn [seal_all]. rewrite Es. cbn [mbind outcome_bind]. split; [done|].
  unfold tcp_wire. cbn. by rewrite !app_nil_r.
Qed.

Definition ctrl_frame (b : Z) : Z * bytes := (CTRL_CHANNEL, [z2b b]).
Lemma ctrl_frame_ok b : stream_frame (ctrl_frame b).
Proof using Type. split; vm_compute; [split; [discriminate|done]|discriminate]. Qed.

(** A control frame is answered with at most a control frame. *)
Lemma on_ctrl_sealed now msg c :
  ConnWf c → ∃ c' o ms, on_ctrl good_sockets now msg c = Ret (c', o) ∧ ConnWf c' ∧ sealed ms c c' o ∧ for_app ms = [] ∧ same_rx c c'.
Proof using All.
  intros Hc. unfold on_ctrl. destruct msg as [|b msg]; [eexists _, _, []; split_and!; [done|done|by apply sealed_nil|done|done]|].
  destruct (b2z b =? DT_PING)%Z; [|eexists _, _, []; split_and!; [done|done|by apply sealed_nil|done|done]].
  destruct (send_tcp_sealed now CTRL_CHANNEL [z2b DT_PONG] c Hc (ctrl_frame_ok DT_PONG)) as (c' & os & ok & -> & W & S & R). cbn [mbind outcome_bind].
  eexists _, _, _. split_and!; [done|done|exact S|done|done].
Qed.

Lemma for_app_app a b : for_app (a ++ b) = for_app a ++ for_app b.
Proof using Type. apply filter_app. Qed.

(** Whatever is in the buffer, the records loop seals only control frames. *)
Lemma poll_records_sealed now fuel : ∀ c, ConnWf c →
  ∃ c' out os ms, poll_records fuel good_sockets now c = Ret (c', out, os) ∧ ConnWf c' ∧ sealed ms c c' os ∧ for_app ms = [].
Proof using All.
  induction fuel as [|fuel IH]; intros c Hc; cbn [poll_records]; [eexists _, _, _, []; split_and!; [done|done|by apply sealed_nil|done]|].
  case_decide; [eexists _, _, _, []; split_and!; [done|done|by apply sealed_nil|done]|]. cbv zeta.
  case_decide; [eexists _, _, _, []; split_and!; [done|done|by apply sealed_nil|done]|].
  destruct (record_open _ _) as [[k1 frame]|]; [|eexists _, _, _, []; split_and!; [done|done|by apply sealed_nil|done]].
  set (c1 := set_rx _ _ c). assert (H1 : ConnWf c1 ∧ tx c1 = tx c) by done. clearbody c1. destruct H1 as [H1 E1].
  destruct (parse_tcp frame) as [[[ch msg] sz]|].
  - destruct (ch =? CTRL_CHANNEL)%Z.
    + destruct (on_ctrl_sealed now msg c1 H1) as (c2 & o & ms1 & -> & W2 & S2 & A2 & _). cbn [mbind outcome_bind].
      destruct (IH c2 W2) as (c3 & out & os & ms2 & -> & W3 & S3 & A3). cbn [mbind outcome_bind].
      eexists _, _, _, (ms1 ++ ms2). split_and!; [done|done| |by rewrite for_app_app, A2, A3]. eapply sealed_from; [exact E1|]. by eapply sealed_app.
    + destruct (IH c1 H1) as (c3 & out & os & ms2 & -> & W3 & S3 & A3). cbn [mbind outcome_bind].
      eexists _, _, _, ms2. split_and!; [done|done| |done]. by eapply sealed_from.
  - destruct (IH c1 H1) as (c3 & out & os & ms2 & -> & W3 & S3 & A3). eexists _, _, _, ms2. split_and!; [done|done| |done]. by eapply sealed_from.
Qed.

Lemma keepalive_sealed now c :
  ConnWf c → ∃ c' o ms, service_keepalive good_sockets now c = Ret (c', o) ∧ ConnWf c' ∧ sealed ms c c' o ∧ for_app ms = []
    ∧ rx c' = rx c ∧ rx_buf c' = rx_buf c ∧ (last_rx c = now → alive c' = alive c).
Proof using All.
  intros Hc. unfold service_keepalive. destruct (DEAD_AFTER <? duration_since now (last_rx c))%Z eqn:Ed.
  { eexists _, _, []. split_and!; [done|done|by apply sealed_nil|done|done|done|]. intros <-. apply Z.ltb_lt in Ed.
    unfold DEAD_AFTER, duration_since, from_secs in Ed. lia. }
  destruct (_ && _)%bool; [|eexists _, _, []; split_and!; [done|done|by apply sealed_nil|done..]].
  destruct (send_tcp_sealed now CTRL_CHANNEL [z2b DT_PING] c Hc (ctrl_frame_ok DT_PING)) as (c1 & os & ok & -> & W & S & R1 & R2 & R3 & R4).
  cbn [mbind outcome_bind]. eexists _, _, _. split_and!; [done|done|exact S|done|done|done|done].
Qed.

Lemma conn_act_sealed a c :
  ConnWf c → act_ok a → ∃ c' out os ms, conn_act good_sockets a c = Ret (c', out, os) ∧ ConnWf c' ∧ sealed ms c c' os ∧ for_app ms = sent_msgs [a].
Proof using All.
  intros Hc Ha. destruct a as [now ch msg|now data]; cbn [conn_act].
  - destruct Ha as [[Hf Hn] Hu]. unfold send. cbn [fst snd] in Hu. fold (first_op msg). rewrite Hu.
    destruct (send_tcp_sealed now ch msg c Hc Hf) as (c' & os & ok & -> & W & S & _). cbn [mbind outcome_bind].
    eexists _, _, _, _. split_and!; [done|done|exact S|]. unfold for_app. rewrite filter_cons_True by done. done.
  - unfold poll, poll_tcp. set (c1 := if decide (data = []) then _ else _). assert (H1 : ConnWf c1 ∧ tx c1 = tx c) by (subst c1; by case_decide).
    clearbody c1. destruct H1 as [H1 E1]. destruct (poll_records_sealed now (S (length (rx_buf c1))) c1 H1) as (c2 & out & os & ms & -> & W2 & S2 & A2).
    cbn [mbind outcome_bind poll_udp]. destruct (keepalive_sealed now c2 W2) as (c3 & o & ms' & -> & W3 & S3 & A3 & _). cbn [mbind outcome_bind].
    eexists _, _, _, (ms ++ ms'). split_and!; [done|done| |by rewrite for_app_app, A2, A3]. eapply sealed_from; [exact E1|]. by eapply sealed_app.
Qed.

Lemma conn_run_sealed acts c :
  ConnWf c → Forall act_ok acts →
  ∃ c' out os ms, conn_run good_sockets acts c = Ret (c', out, os) ∧ ConnWf c' ∧ sealed ms c c' os ∧ for_app ms = sent_msgs acts.
Proof using All.
  intros Hc Ha. revert c Hc. induction Ha as [|a acts Ha _ IH]; intros c Hc; [eexists _, _, _, []; split_and!; [done|done|by apply sealed_nil|done]|].
  cbn [conn_run]. destruct (conn_act_sealed a c Hc Ha) as (c1 & out1 & os1 & ms1 & -> & W1 & S1 & A1). cbn [mbind outcome_bind].
  destruct (IH c1 W1) as (c2 & out2 & os2 & ms2 & -> & W2 & S2 & A2). cbn [mbind outcome_bind].
  eexists _, _, _, (ms1 ++ ms2). split_and!; [done|done|by eapply sealed_app|]. rewrite for_app_app, A1, A2. by destruct a.
Qed.

(** *** The receiving direction *)

(** What is complete of a stream of frames is taken, the rest is kept; control frames are
    answered, the others delivered. *)
Lemma poll_records_stream now ms : ∀ k' cts c rest fuel,
  ConnWf c → Forall stream_frame ms → seal_all ms (rx c) = Ret (k', cts) →
  rx_buf c ++ rest = concat (record <$> cts) → length (rx_buf c) < fuel →
  ∃ ms1 ms2 cts2 c' os, ms = ms1 ++ ms2 ∧ poll_records fuel good_sockets now c = Ret (c', for_app ms1, os)
    ∧ ConnWf c' ∧ last_rx c' = last_rx c ∧ alive c' = alive c
    ∧ seal_all ms2 (rx c') = Ret (k', cts2) ∧ rx_buf c' ++ rest = concat (record <$> cts2) ∧ (rest = [] → ms2 = []).
Proof using All.
  induction ms as [|[ch msg] ms IH]; intros k' cts c rest fuel Hwf Hm Hs Hw Hf.
  - simpl in Hs. injection Hs as <- <-. cbn [fmap list_fmap concat] in Hw. apply app_eq_nil in Hw as [Hb ->].
    exists [], [], [], c, []. destruct fuel; [lia|]. cbn [poll_records]. rewrite Hb. by rewrite decide_True by (simpl; lia).
  - apply Forall_cons in Hm as [[Hc1 Hl] Hm]. cbn [fst snd] in *.
    pose proof Hs as Hs0. apply seal_all_cons in Hs as (k1 & ct & cts1 & E1 & E2 & ->).
    rewrite fmap_cons in Hw. cbn [concat] in Hw. pose proof (stream_ct_len _ _ _ _ _ Hl E1) as Hct.
    destruct (stream_prefix _ _ _ _ Hw) as [Hshort|(buf' & Ebuf & Hrest)].
    + exists [], ((ch, msg) :: ms), (ct :: cts1), c, []. split_and!; try done.
      * by eapply poll_records_short.
      * intros ->. rewrite app_nil_r in Hw. rewrite Hw, length_app in Hshort. lia.
    + destruct (record_seal_open _ _ _ _ E1) as [Hopen _]. destruct fuel as [|fuel]; [lia|].
      rewrite (poll_records_full _ _ _ ct buf' k1 ch msg) by (done || (unfold len in *; lia)).
      assert (Hf' : length buf' < fuel) by (rewrite Ebuf, length_app, record_length in Hf; lia).
      unfold for_app. destruct (Z.eqb_spec ch CTRL_CHANNEL) as [Hctrl|Hctrl].
      * destruct (on_ctrl_sealed now msg (set_rx k1 buf' c) Hwf) as (c1 & o & mo & -> & W1 & _ & _ & R1 & R2 & R3 & R4). cbn [mbind outcome_bind].
        destruct (IH k' cts1 c1 rest fuel W1 Hm) as (ms1 & ms2 & cts2 & c' & os & -> & HP & HW & HT & HA & HS & HB & HE);
          [by rewrite R1|by rewrite R2|by rewrite R2|].
        rewrite HP. cbn [mbind outcome_bind]. exists ((ch, msg) :: ms1), ms2, cts2, c', (o ++ os).
        split_and!; try done; [|by rewrite HT, R3|by rewrite HA, R4]. rewrite filter_cons_False by naive_solver. done.
      * destruct (IH k' cts1 (set_rx k1 buf' c) rest fuel Hwf Hm E2 Hrest Hf') as (ms1 & ms2 & cts2 & c' & os & -> & HP & HW & HT & HA & HS & HB & HE).
        rewrite HP. cbn [mbind outcome_bind]. exists ((ch, msg) :: ms1), ms2, cts2, c', os. split_and!; try done. by rewrite filter_cons_True by done.
Qed.

Lemma conn_run_stream acts : ∀ ms k' cts c,
  ConnWf c → Forall act_ok acts → Forall stream_frame ms →
  seal_all ms (rx c) = Ret (k', cts) → rx_buf c ++ polled acts = concat (record <$> cts) → (polled acts = [] → rx_buf c = [] → ms = []) → (ms = [] ∨ polled acts ≠ []) →
  ∃ c' os, conn_run good_sockets acts c = Ret (c', for_app ms, os) ∧ rx_buf c' = [] ∧ rx c' = k' ∧ (Forall has_data acts → alive c' = alive c).
Proof using All.
  induction acts as [|a acts IH]; intros ms k' cts c Hc Ha Hm Hs Hw Hnil Hor.
  { destruct Hor as [-> |Hne]; [|done]. cbn in Hs. injection Hs as Hs <-. cbn in Hw. apply app_eq_nil in Hw as [Hw _]. by exists c, []. }
  apply Forall_cons in Ha as [Ha Has]. cbn [conn_run]. destruct a as [now ch msg|now data]; cbn [conn_act].
  - destruct Ha as [[Hf Hn] Hu]. unfold send. cbn [fst snd] in Hu. fold (first_op msg). rewrite Hu.
    destruct (send_tcp_sealed now ch msg c Hc Hf) as (c1 & o & ok & -> & W1 & _ & R1 & R2 & R3 & R4). cbn [mbind outcome_bind].
    destruct (IH ms k' cts c1 W1 Has Hm) as (c2 & os & -> & B2 & K2 & A2); [by rewrite R1|by rewrite R2|by rewrite R2|done|].
    cbn [mbind outcome_bind]. eexists _, _. split_and!; [done|done|done|]. intros [_ Hd]%Forall_cons. by rewrite A2, R4.
  - unfold poll, poll_tcp. set (c1 := if decide (data = []) then _ else _).
    assert (H1 : ConnWf c1 ∧ rx c1 = rx c ∧ rx_buf c1 = rx_buf c ++ data ∧ alive c1 = alive c ∧ (data ≠ [] → last_rx c1 = now))
      by (subst c1; by case_decide). clearbody c1. destruct H1 as (H1 & E1 & E2 & E3 & E4).
    assert (Hw1 : rx_buf c1 ++ polled acts = concat (record <$> cts)) by (rewrite E2, <- app_assoc; exact Hw).
    destruct (poll_records_stream now ms k' cts c1 (polled acts) (S (length (rx_buf c1))))
      as (ms1 & ms2 & cts2 & c2 & os & -> & -> & W2 & T2 & A2 & S2 & B2 & HE); [done|done|by rewrite E1|done|lia|].
    cbn [mbind outcome_bind poll_udp]. destruct (keepalive_sealed now c2 W2) as (c3 & o & mo & -> & W3 & _ & _ & R1 & R2 & R3). cbn [mbind outcome_bind].
    apply Forall_app in Hm as [_ Hm2].
    destruct (IH ms2 k' cts2 c3 W3 Has Hm2) as (c4 & os' & -> & B4 & K4 & A4); [by rewrite R1|by rewrite R2|by auto| |].
    + destruct (decide (polled acts = [])) as [E|E]; [left; by apply HE|by right].
    + cbn [mbind outcome_bind]. eexists _, _. split_and!; [by rewrite app_nil_r, for_app_app|done|done|].
      intros [Hd Hds]%Forall_cons. rewrite A4, R3, A2, E3 by (done || rewrite T2; auto). done.
Qed.
End Sequences.

(** ** Framed handshake messages *)

Lemma read_framed body rest :
  (len body <= u32_max)%Z → read_framed_blocking (to_le_bytes 4 (wrap 32 (len body)) ++ body ++ rest) = Ok (body, rest).
Proof.
  intros Hl. pose proof (len_nonneg body). unfold read_framed_blocking, read_exact_blocking.
  unfold wrap. rewrite Z.mod_small by (unfold u32_max in *; lia).
  rewrite decide_False by (rewrite length_app, length_to_le_bytes; lia).
  rewrite take_app_length' by (by rewrite length_to_le_bytes). rewrite drop_app_length' by (by rewrite length_to_le_bytes).
  rewrite from_to_le_u32 by (unfold is_u32, u32_max in *; lia). replace (Z.to_nat (len body)) with (length body) by len_solve.
  rewrite decide_False by (rewrite length_app; lia). by rewrite take_app_length, drop_app_length.
Qed.

Lemma write_framed_good body :
  write_framed_blocking good_sockets body = ([TcpOut (to_le_bytes 4 (wrap 32 (len body))); TcpOut body], true).
Proof. done. Qed.

(** The fields of a datagram as they are read back. *)
Lemma poll_datagram_eq `{crates : Crates} now from ty ch q ct c :
  is_u8 ty → is_u8 ch → is_u32 q →
  poll_datagram now from (datagram ty ch q ct) c =
    match datagram_open ty ch q ct (udp_rx c) with
    | None => Ret (c, [])
    | Some pt =>
        let c := if peer_bound c then c else bind_peer from c in
        let c := set_times now (last_ping c) (last_tx c) c in
        if (ty =? DT_DATA)%Z then
          let '(r, m) := on_data ch q pt (reasm c) in
          Ret (set_reasm r c, match m with Some msg => [(ch, msg)] | None => [] end)
        else if (ty =? DT_FRAG)%Z then
          match parse_frag pt with
          | Some (mid, idx, count, s) =>
              '(r, m) ← on_frag ch mid idx count s (reasm c);
              Ret (set_reasm r c, match m with Some msg => [(ch, msg)] | None => [] end)
          | None => Ret (c, [])
          end
        else Ret (c, [])
    end.
Proof.
  intros Ht Hc Hq. unfold poll_datagram. set (dg := datagram ty ch q ct).
  assert (E : dg = z2b ty :: z2b ch :: to_le_bytes 4 q ++ ct) by done.
  rewrite decide_False by (rewrite E; cbn [length]; rewrite length_app, length_to_le_bytes; lia).
  assert (E1 : slice 0 1 dg = [z2b ty]) by (by rewrite E). assert (E2 : slice 1 2 dg = [z2b ch]) by (by rewrite E).
  assert (E3 : slice 2 6 dg = to_le_bytes 4 q).
  { rewrite E. change (z2b ty :: z2b ch :: to_le_bytes 4 q ++ ct) with ([z2b ty; z2b ch] ++ to_le_bytes 4 q ++ ct).
    rewrite slice_skip by (simpl; lia). cbn [length Nat.sub]. apply slice_head, length_to_le_bytes. }
  assert (E4 : drop 6 dg = ct).
  { rewrite E. change (z2b ty :: z2b ch :: to_le_bytes 4 q ++ ct) with (([z2b ty; z2b ch] ++ to_le_bytes 4 q) ++ ct).
    apply drop_app_length'. by rewrite length_app, length_to_le_bytes. }
  rewrite E1, E2, E3, E4, !from_be_bytes_1, !b2z_z2b_u8, from_to_le_u32 by done. done.
Qed.

(** ** Fragmented messages *)

Section Fragmented.
Context {crates : Crates} {spec : CratesSpec} {tot : AeadTotal}.

(** What fragment [i] of a message becomes on the wire. *)
Definition frag_dgram (key : bytes) (ch seq0 mid count : Z) (slices : list bytes) (i : nat) (dg : bytes) : Prop :=
  ∃ ct, dg = datagram DT_FRAG ch (wrap 32 (seq0 + Z.of_nat i)) ct
    ∧ datagram_open DT_FRAG ch (wrap 32 (seq0 + Z.of_nat i)) ct key = Some (frag_body mid (Z.of_nat i) count (default [] (slices !! i))).

Lemma wrap32_u32 z : is_u32 (wrap 32 z).
Proof. unfold is_u32, wrap. apply Z.mod_pos_bound. lia. Qed.

Lemma send_frags_ok ch mid count seq0 all : ∀ slices pre c,
  all = pre ++ slices → (len all <= u16_max)%Z → length (udp_tx c) = KEY → seq_tx c = wrap 32 (seq0 + len pre) →
  Forall (λ x, len x <= u32_max)%Z slices →
  ∃ c' dgs, send_frags good_sockets ch mid count (length pre) slices c = Ret (c', UdpOut (peer_udp c) <$> dgs, true)
    ∧ Forall2 (frag_dgram (udp_tx c) ch seq0 mid count all) (seq (length pre) (length slices)) dgs.
Proof.
  intros slices. induction slices as [|x slices IH]; intros pre c Ha Hl Hk Hq Hs; [by eexists _, []|].
  apply Forall_cons in Hs as [Hx Hs]. cbn [send_frags]. cbv zeta. cbn [udp_tx set_seq].
  assert (Hi : wrap 16 (Z.of_nat (length pre)) = Z.of_nat (length pre)).
  { unfold wrap. apply Z.mod_small. rewrite Ha, len_app, len_cons in Hl. pose proof (len_nonneg slices). unfold len, u16_max in *. lia. }
  rewrite Hi. destruct (datagram_seal_total DT_FRAG ch (seq_tx c) (frag_body mid (Z.of_nat (length pre)) count x) (udp_tx c)) as (ct & -> & Ho); [done| |].
  { unfold frag_body. rewrite !len_app. unfold len. rewrite !length_to_le_bytes. unfold len in Hx. lia. }
  cbn [mbind outcome_bind]. unfold send_datagram. cbn [udp_send good_sockets].
  destruct (IH (pre ++ [x]) (set_seq (wrap 32 (seq_tx c + 1)) (msg_id_tx c) c)) as (c' & dgs & E & HF); try done.
  - by rewrite <- app_assoc.
  - cbn [seq_tx set_seq]. rewrite Hq, len_app. unfold wrap. rewrite Zplus_mod_idemp_l. f_equal. unfold len. simpl. lia.
  - rewrite length_app, Nat.add_1_r in E, HF. rewrite E. cbn [mbind outcome_bind peer_udp set_seq]. eexists _, (datagram DT_FRAG ch (seq_tx c) ct :: dgs).
    split; [done|]. cbn [length seq]. constructor; [|exact HF]. exists ct. rewrite Hq in Ho |- *. split; [done|].
    unfold len in Ho. rewrite Ha, list_lookup_middle by done. exact Ho.
Qed.

(** Fragments polled one after the other in any order. *)
Lemma poll_frags_ok t from key ch mid seq0 slices : ∀ order dgs got c,
  is_u8 ch → is_u32 mid → key = udp_rx c → arrived ch mid slices got (reasm c) →
  NoDup (got ++ order) → Forall (λ j, j < length slices) (got ++ order) → (len slices <= u16_max)%Z →
  length got < length slices → length (got ++ order) = length slices →
  Forall2 (frag_dgram key ch seq0 mid (len slices) slices) order dgs →
  ∃ c', poll_udp t ((λ d, (from, d)) <$> dgs) c = Ret (c', [(ch, concat slices)]).
Proof.
  induction order as [|i order IH]; intros dgs got c Hc Hm -> Ha Hn Hf Hl Hg Hlen HF; [rewrite app_nil_r in Hlen; lia|].
  apply Forall2_cons_inv_l in HF as (dg & dgs' & (ct & -> & Ho) & HF & ->).
  rewrite (cons_middle i got order), app_assoc in Hn, Hf, Hlen. rewrite fmap_cons. cbn [poll_udp].
  rewrite poll_datagram_eq by (done || apply wrap32_u32). rewrite Ho. cbv zeta.
  set (c1 := set_times _ _ _ _). assert (Hr : reasm c1 = reasm c ∧ udp_rx c1 = udp_rx c) by (subst c1; by destruct (peer_bound c)).
  destruct Hr as [Hr Hk]. change (DT_FRAG =? DT_DATA)%Z with false. change (DT_FRAG =? DT_FRAG)%Z with true. cbv iota.
  assert (Hi : i < length slices) by (apply Forall_app in Hf as [Hf _]; apply Forall_app in Hf as [_ Hf]; by apply Forall_inv in Hf).
  assert (Hu : (0 <= Z.of_nat i < 2 ^ 16)%Z ∧ (0 <= len slices < 2 ^ 16)%Z) by (unfold len, u16_max in *; lia).
  rewrite parse_frag_body by (done || apply Hu). rewrite Hr.
  destruct (frag_step ch mid slices got i (reasm c) Ha) as (r' & -> & Hr'); [by apply NoDup_app in Hn as (? & _)|by apply Forall_app in Hf as [? _]|done|].
  cbn [mbind outcome_bind]. rewrite !length_app in Hlen. cbn [length] in Hlen. destruct (decide (S (length got) = length slices)) as [Hd|Hd].
  - destruct order; [|simpl in Hlen; lia]. apply Forall2_nil_inv_l in HF as ->. cbn. by eexists.
  - destruct (IH dgs' (got ++ [i]) (set_reasm r' c1)) as (c' & ->); try done; try (rewrite !length_app; simpl; lia); try by rewrite Hk.
    cbn [mbind outcome_bind]. by eexists.
Qed.

Lemma forall2_permutation {A B} (R : A → B → Prop) l k k' :
  Forall2 R l k → k' ≡ₚ k → ∃ l', l' ≡ₚ l ∧ Forall2 R l' k'.
Proof.
  intros HF HP. revert l HF. induction HP as [|x k1 k2 HP IH|x y k1|k1 k2 k3 HP1 IH1 HP2 IH2]; intros l HF.
  - apply Forall2_nil_inv_r in HF as ->. by exists [].
  - apply Forall2_cons_inv_r in HF as (a & l' & Hax & HF & ->). destruct (IH l' HF) as (l2 & HP2 & HF2). exists (a :: l2). split; [by constructor|by constructor].
  - apply Forall2_cons_inv_r in HF as (a & l' & Hax & HF & ->). apply Forall2_cons_inv_r in HF as (b & l2 & Hby & HF & ->).
    exists (b :: a :: l2). split; [constructor|by repeat constructor].
  - destruct (IH2 l HF) as (l2 & HP & HF2). destruct (IH1 l2 HF2) as (l3 & HP3 & HF3). exists l3. split; [by etransitivity|done].
Qed.

Lemma fragment_sizes msg m : (len msg <= u32_max)%Z → Forall (λ x, len x <= u32_max)%Z (fragment msg m).
Proof.
  intros H. apply Forall_forall. intros x Hi.
  pose proof (fragment_concat msg m) as E. apply (f_equal length) in E.
  apply list_elem_of_split in Hi as (l1 & l2 & Hi). rewrite Hi, concat_app, length_app in E. cbn [concat] in E. rewrite length_app in E.
  unfold len in *. lia.
Qed.
End Fragmented.

(** * Claims *)

Section Claims.
Context {crates : Crates} {spec : CratesSpec} {tot : AeadTotal}.

(** C36: what a poll takes from the stream is authentic and in order. When the socket in the
    end takes or refuses what the poll writes to it (its answers to PINGs), the poll
    returns, whatever bytes arrived; the messages it delivers are those of frames that
    were sealed under the receiving key with the counters from the expected one on, each
    once and none left out, and as long as the session is alive the bytes after those
    records are still buffered. Without that condition it need not return: see
    [unread_pong_hangs]. *)
Theorem spatial_stream_authentic (sk : Sockets) (now : Z) (data : bytes) (eof : bool) (c : Conn) :
  ConnWf c → responsive sk →
  ∃ c' out os frames cts rest,
    poll_tcp sk now data eof c = Ret (c', out, os)
    ∧ seal_frames frames (rx c) = Ret (rx c', cts) ∧ rx_buf c ++ data = concat (record <$> cts) ++ rest
    ∧ out = omap app_msg frames ∧ (alive c' = true → rest = rx_buf c').
Proof.
  intros Hc Hresp. unfold poll_tcp. set (c1 := if eof then _ else _).
  assert (H1 : ConnWf c1 ∧ rx c1 = rx c ∧ rx_buf c1 = rx_buf c ++ data) by (subst c1; destruct eof; case_decide; done).
  destruct H1 as (H1 & H2 & H3).
  destruct (poll_records_authentic sk Hresp now (S (length (rx_buf c1))) c1 H1) as (c' & out & os & frames & cts & rest & E & _ & HS & HB & HO & HR).
  exists c', out, os, frames, cts, rest. by rewrite <- H2, <- H3.
Qed.

(** C35: reliable messages arrive once, complete and in the order they were sent, over
    sockets that take what is written to them. One end
    sends messages and polls, in any order, at any times and whatever arrives at it; with
    its PINGs and its answers to PINGs between the messages, the stream it writes is cut
    anyhow into the reads of the other end, which polls and sends as it likes. The other
    application is given exactly the messages, no keepalive record among them; nothing is
    left in the buffer, both ends' counters agree again, and the session is alive if
    every poll read something. Messages are of less than 4 GiB. *)
Theorem spatial_stream_in_order (acts racts : list ConnAct) (s r : Conn) :
  ConnWf s → ConnWf r → Forall act_ok acts → Forall act_ok racts → tx s = rx r → rx_buf r = [] → alive r = true →
  ∃ s' got outs, conn_run good_sockets acts s = Ret (s', got, outs)
    ∧ (polled racts = tcp_wire outs →
       ∃ r' os, conn_run good_sockets racts r = Ret (r', sent_msgs acts, os) ∧ rx_buf r' = [] ∧ rx r' = tx s'
         ∧ (Forall has_data racts → alive r' = true)).
Proof.
  intros Hs Hr Ha Hra Hk Hb Hal. destruct (conn_run_sealed acts s Hs Ha) as (s' & got & outs & ms & E & _ & [HF (cts & HS & HW)] & HM).
  exists s', got, outs. split; [done|]. intros Hc. rewrite <- HM.
  assert (Hempty : polled racts = [] → ms = []).
  { intros E0. rewrite E0, HW in Hc. destruct cts as [|ct cts]; [|by cbn in Hc; destruct (to_le_bytes 4 (wrap 32 (len ct))) eqn:E4; [apply (f_equal length) in E4; rewrite length_to_le_bytes in E4|]].
    destruct ms as [|[ch msg] ms]; [done|]. by apply seal_all_cons in HS as (? & ? & ? & _ & _ & ?). }
  destruct (conn_run_stream racts ms (tx s') cts r) as (r' & os & E' & B & K & A); try done.
  - by rewrite <- Hk.
  - by rewrite Hb, Hc.
  - by intros E0 _; apply Hempty.
  - destruct (decide (polled racts = [])) as [E0|]; [left; by apply Hempty|by right].
  - eexists _, _. split_and!; [done|done|done|]. intros Hd. by rewrite A.
Qed.

(** A session is established end to end: with the same key, each side's
    driver, fed what the other one wrote, returns a session with the other's
    keys in opposite roles and its address, leaving any later bytes of the
    stream unread; and the first datagram the client sends makes the host take
    the address it came from as the peer's. *)
Lemma session_established {dhc : DhCrates} {dspec : DhCratesSpec dhc}
    (psk sc sh nc nh host tail1 tail2 : bytes) (peer_ip : IpAddr) (addr : SocketAddr) (cport hport now mtu mtu' : Z) :
  length nc = NONCE16 → length nh = NONCE16 → is_u16 cport → is_u16 hport → parse_socket_addr (host_port host hport) = Some addr →
  ∃ c h oc oh dg,
    client_connect good_sockets now mtu host cport psk sc nc (tcp_wire oh ++ tail1) = Ret (Ok (c, tail1), oc)
    ∧ host_accept good_sockets now mtu' peer_ip hport psk sh nh (tcp_wire oc ++ tail2) = (Ok (h, tail2), oh)
    ∧ tx c = rx h ∧ rx c = tx h ∧ udp_tx c = udp_rx h ∧ udp_rx c = udp_tx h ∧ ConnWf c ∧ ConnWf h
    ∧ udp_wire oc = [(addr, dg)] ∧ peer_udp c = addr ∧ peer_udp h = mkAddr peer_ip cport 0
    ∧ ∀ t from, ∃ h', poll_udp t [(from, dg)] h = Ret (h', []) ∧ peer_udp h' = from ∧ peer_bound h' = true.
Proof.
  intros Hnc Hnh Hcp Hhp Hip.
  destruct (spatial_handshake psk sc sh nc nh cport hport) as (hello2 & hs & pending & cs & confirm3 & E1 & E2 & E3 & K1 & K2 & K3 & K4 & K5 & Wc & Wh & L2 & L3); [done..|].
  pose proof (length_hello1 cport psk sc nc Hnc) as L1. set (h1 := hello1 cport (ClientHandshake_new psk sc nc)) in *.
  set (c0 := Conn_new cs addr true mtu now).
  destruct (datagram_seal_total DT_HELLO 0 1 (session_id cs) (udp_tx c0)) as (ct & Es & Eo).
  { destruct Wc as (_ & _ & Hu & _). exact Hu. }
  { pose proof (handshake_session_id _ _ _ (_, _) E2) as Hsid. unfold len. rewrite Hsid. vm_compute. discriminate. }
  exists (set_seq 2 1 c0), (Conn_new hs (mkAddr peer_ip cport 0) false mtu' now),
    ([TcpOut (to_le_bytes 4 (wrap 32 (len h1))); TcpOut h1] ++ [TcpOut (to_le_bytes 4 (wrap 32 (len confirm3))); TcpOut confirm3]
      ++ [UdpOut addr (datagram DT_HELLO 0 1 ct)]),
    [TcpOut (to_le_bytes 4 (wrap 32 (len hello2))); TcpOut hello2], (datagram DT_HELLO 0 1 ct).
  split_and!; try done.
  - unfold client_connect. rewrite write_framed_good. fold h1. unfold tcp_wire. cbn [negb omap list_omap concat]. rewrite app_nil_r, <- app_assoc.
    rewrite read_framed by (unfold len; rewrite L2; vm_compute; discriminate). rewrite E2, write_framed_good, Hip. cbn [negb].
    unfold send_udp_hello. fold c0. cbn [seq_tx c_session_id udp_tx set_seq c0 Conn_new msg_id_tx]. cbn [udp_tx Conn_new c0] in Es. rewrite Es. done.
  - unfold host_accept, tcp_wire. cbn [app omap list_omap concat]. rewrite app_nil_r, <- !app_assoc.
    rewrite read_framed by (unfold len; rewrite L1; vm_compute; discriminate). rewrite E1, write_framed_good. cbn [negb].
    rewrite read_framed by (unfold len; rewrite L3; vm_compute; discriminate). by rewrite E3.
  - cbn [tx rx set_seq c0 Conn_new]. by rewrite K1.
  - cbn [tx rx set_seq c0 Conn_new]. by rewrite K2.
  - by apply Conn_new_wf.
  - by apply Conn_new_wf.
  - intros t from. cbn [poll_udp]. rewrite poll_datagram_eq by done. cbn [udp_rx Conn_new].
    cbn [udp_tx Conn_new c0] in Eo. rewrite K3 in Eo. rewrite Eo. cbn [peer_bound Conn_new]. change (DT_HELLO =? DT_DATA)%Z with false.
    change (DT_HELLO =? DT_FRAG)%Z with false. cbn [mbind outcome_bind]. by eexists.
Qed.

(** C37: a message for the datagram path that needs several datagrams is sent
    as that many to the peer, and when they all arrive, in whatever order, the
    receiver delivers the message once, and nothing else. It does so whatever
    newer message it has already delivered: fragments are not subject to the
    latest-wins rule that single datagrams are, see [stale_fragments_delivered]. *)
Theorem spatial_datagrams_any_order (now channel : Z) (msg : bytes) (s : Conn) :
  ConnWf s → is_u8 channel → is_udp channel (first_op msg) = true → is_u32 (seq_tx s) → is_u32 (msg_id_tx s) →
  (len msg <= u32_max)%Z → 1 < length (fragment msg (mtu s)) → (len (fragment msg (mtu s)) <= u16_max)%Z →
  ∃ s' dgs, send good_sockets now channel msg s = Ret (s', UdpOut (peer_udp s) <$> dgs, true)
    ∧ length dgs = length (fragment msg (mtu s))
    ∧ ∀ t from dgs' r, dgs' ≡ₚ dgs → udp_rx r = udp_tx s → frags (reasm r) !! (channel, msg_id_tx s) = None →
        ∃ r', poll_udp t ((λ d, (from, d)) <$> dgs') r = Ret (r', [(channel, msg)]).
Proof.
  intros [_ Hk] Hc Hu Hq Hm Hl H1 Hn. unfold send. fold (first_op msg). rewrite Hu. unfold send_udp. cbn [mtu set_seq].
  set (sl := fragment msg (mtu s)) in *. cbv zeta.
  assert (Hcount : wrap 16 (len sl) = len sl) by (unfold wrap; apply Z.mod_small; pose proof (len_nonneg sl); unfold u16_max in *; lia).
  destruct (send_frags_ok channel (msg_id_tx s) (len sl) (seq_tx s + 1) sl sl []
    (set_seq (wrap 32 (seq_tx s + 1)) (wrap 32 (msg_id_tx s + 1)) s)) as (c' & dgs & E & HF); try done.
  { by cbn [seq_tx set_seq len length]; rewrite Z.add_0_r. }
  { by apply fragment_sizes. }
  cbn [length] in E, HF. cbn [peer_udp udp_tx set_seq] in E, HF.
  exists (set_times (last_rx c') (last_ping c') now c'), dgs. split_and!.
  - rewrite <- Hcount in E. destruct sl as [|x [|y sl']]; [simpl in H1; lia|simpl in H1; lia|]. cbn [seq_tx msg_id_tx set_seq].
    unfold set_seq in E |- *. cbn [tx rx udp_tx udp_rx c_session_id peer_udp peer_bound rx_buf seq_tx msg_id_tx reasm mtu last_rx last_ping last_tx alive] in E |- *.
    rewrite E. done.
  - apply Forall2_length in HF. by rewrite length_seq in HF.
  - intros t from dgs' r HP Hr Hfree. destruct (forall2_permutation _ _ _ _ HF HP) as (order & Hord & HF').
    pose proof (Permutation_length Hord) as Hlen. rewrite length_seq in Hlen.
    destruct (poll_frags_ok t from (udp_tx s) channel (msg_id_tx s) (seq_tx s + 1) sl order dgs' [] r) as (r' & E'); try done.
    + cbn [app]. rewrite Hord. apply NoDup_seq.
    + cbn [app]. rewrite Hord. apply Forall_forall. intros j Hj. rewrite elem_of_seq in Hj. lia.
    + simpl. lia.
    + exists r'. rewrite E'. unfold sl. by rewrite fragment_concat.
Qed.
End Claims.

(** A client whose host text does not parse as an address with the port gives
    no session: so is every host name, which the stream is connected by, and an IPv6
    literal without brackets. *)
Lemma host_name_rejected {crates : Crates} {dhc : DhCrates} sk now mtu host port psk secret nc input r outs :
  (∀ hport, parse_socket_addr (host_port host hport) = None) →
  client_connect sk now mtu host port psk secret nc input = Ret (r, outs) → ∃ e, r = Err e.
Proof.
  intros Hh. unfold client_connect. destruct (write_framed_blocking sk _) as [o1 ok1]. destruct ok1; cbn [negb]; [|intros [= <- _]; by eexists].
  destruct (read_framed_blocking input) as [[hello2 rest]|e]; [|intros [= <- _]; by eexists].
  destruct (recv_hello2 _ _) as [[[sess hp] c3]|e]; [|intros [= <- _]; by eexists].
  destruct (write_framed_blocking sk c3) as [o2 ok2]. rewrite Hh. destruct ok2; cbn [negb]; intros [= <- _]; by eexists.
Qed.

Lemma localhost_rejected hport : parse_socket_addr (host_port (str_bytes "localhost") hport) = None ∧ parse_socket_addr (host_port (str_bytes "::1") hport) = None.
Proof. by split. Qed.

(** ** Witnesses *)

Definition sample_session : Session :=
  mkSession (replicate 32 Byte.x01) (replicate 32 Byte.x02) (replicate 32 Byte.x03) (replicate 32 Byte.x04) (replicate 16 Byte.x05).
Definition sample_peer : Session :=
  mkSession (replicate 32 Byte.x02) (replicate 32 Byte.x01) (replicate 32 Byte.x04) (replicate 32 Byte.x03) (replicate 16 Byte.x05).
Definition sample_host : SocketAddr := mkAddr (V4 [10; 0; 0; 7]%Z) 9000 0.
Definition sample_client : Conn := Conn_new sample_session sample_host true 34 0.
Definition sample_server : Conn := Conn_new sample_peer sample_host false 34 0.

(** What the client writes when it sends a message, then two PINGs and another message. *)
Definition sample_acts : list ConnAct :=
  [ASend 3 0 [Byte.x41]; APoll 2500 []; APoll 4501 []; ASend 4600 201 []].
Definition sample_stream : bytes :=
  match @conn_run sample_crates good_sockets sample_acts sample_client with Ret (_, _, os) => tcp_wire os | Panic => [] end.

Lemma spatial_stream_authentic_witness :
  ∃ c' out os frames cts rest,
    @poll_tcp sample_crates good_sockets 5 (take 30 sample_stream) true sample_server = Ret (c', out, os)
    ∧ @seal_frames sample_crates frames (rx sample_server) = Ret (rx c', cts)
    ∧ rx_buf sample_server ++ take 30 sample_stream = concat (record <$> cts) ++ rest
    ∧ out = omap app_msg frames ∧ out = [(0%Z, [Byte.x41])].
Proof.
  destruct (@spatial_stream_authentic sample_crates sample_crates_spec sample_total good_sockets 5 (take 30 sample_stream) true sample_server)
    as (c' & out & os & frames & cts & rest & E & HS & HB & HO & _); [by split|apply takes_all_responsive, good_takes_all|].
  exists c', out, os, frames, cts, rest. split_and!; [exact E|exact HS|exact HB|exact HO|].
  assert (H : match @poll_tcp sample_crates good_sockets 5 (take 30 sample_stream) true sample_server with Ret (_, out, _) => out | Panic => [] end
    = [(0%Z, [Byte.x41])]) by (vm_compute; reflexivity).
  rewrite E in H. exact H.
Defined.

(** A peer that sends a PING and never reads stops the poll for good: however often the
    socket says that it takes nothing now, the answer to the PING is tried again. *)
Definition blocked_sockets (n : nat) : Sockets := mkSockets None (λ _, replicate n WriteBlocks) (λ _, Sent).

Lemma blocked_loop n b data : write_loop (replicate n WriteBlocks) (b :: data) = spins.
Proof. induction n as [|n IH]; [done|exact IH]. Qed.

Lemma blocked_ping {crates : Crates} n now c ct rest k1 fuel :
  (len ct <= u32_max)%Z → rx_buf c = record ct ++ rest → record_open ct (rx c) = Some (k1, frame_tcp CTRL_CHANNEL [z2b DT_PING]) →
  poll_records (S fuel) (blocked_sockets n) now c = spins.
Proof.
  intros Hl Hb Ho. destruct (ctrl_frame_ok DT_PING) as [Hu _]. erewrite poll_records_full; [|exact Hl|exact Hb|exact Ho|exact Hu|vm_compute; discriminate].
  change (CTRL_CHANNEL =? CTRL_CHANNEL)%Z with true. cbn [on_ctrl]. change (b2z (z2b DT_PING) =? DT_PING)%Z with true. cbv iota.
  unfold send_tcp, write_all_tcp. cbn [tcp_answers blocked_sockets]. destruct (record_seal _ _) as [|[k ct']]; [done|]. cbn [mbind outcome_bind].
  destruct (to_le_bytes 4 (wrap 32 (len ct'))) as [|b l] eqn:El; [apply (f_equal length) in El; by rewrite length_to_le_bytes in El|].
  cbn [app]. by rewrite blocked_loop.
Qed.

(** The first PING of the sample, on a receiver that has opened the record before it. *)
Lemma unread_pong_hangs n :
  @poll_tcp sample_crates (blocked_sockets n) 5 (drop 26 (take 52 sample_stream)) false
    (set_rx (mkRecordKey (replicate 32 Byte.x01) 1) [] sample_server) = spins.
Proof.
  unfold poll_tcp. apply (blocked_ping n 5 _ (drop 30 (take 52 sample_stream)) [] (mkRecordKey (replicate 32 Byte.x01) 2)); vm_compute; (reflexivity || discriminate).
Qed.

Lemma spatial_stream_in_order_witness :
  ∃ r' os, @conn_run sample_crates good_sockets [APoll 4 (take 7 sample_stream); ASend 5 0 [Byte.x42]; APoll 9 (drop 7 (take 40 sample_stream)); APoll 11 (drop 40 sample_stream)]
      sample_server = Ret (r', [(0%Z, [Byte.x41]); (201%Z, [])], os) ∧ alive r' = true ∧ (50 < length sample_stream)%nat ∧ length os = 3.
Proof.
  assert (Hs : ConnWf sample_client) by (by split). assert (Hr : ConnWf sample_server) by (by split).
  assert (Ha : Forall act_ok sample_acts).
  { repeat constructor; unfold act_ok, reliable_msg, stream_msg, stream_frame, is_u8, CTRL_CHANNEL; cbn [fst snd]; (lia || discriminate || vm_compute; discriminate). }
  set (racts := [_; _; _; _]). assert (Hra : Forall act_ok racts).
  { repeat constructor; unfold act_ok, reliable_msg, stream_msg, stream_frame, is_u8, CTRL_CHANNEL; cbn [fst snd]; (lia || discriminate || vm_compute; discriminate). }
  destruct (@spatial_stream_in_order sample_crates sample_crates_spec sample_total sample_acts racts sample_client sample_server Hs Hr Ha Hra eq_refl eq_refl eq_refl)
    as (s2 & got & outs & E & HP).
  assert (Ew : tcp_wire outs = sample_stream) by (unfold sample_stream; by rewrite E).
  destruct HP as (r' & os & HR & _ & _ & HA).
  - rewrite Ew. vm_compute. reflexivity.
  - exists r', os. split; [exact HR|]. split; [apply HA; repeat constructor; vm_compute; discriminate|]. split; [vm_compute; lia|].
    assert (HL : match @conn_run sample_crates good_sockets racts sample_server with Ret (_, _, os) => length os | Panic => 0 end = 3) by (vm_compute; reflexivity).
    rewrite HR in HL. exact HL.
Defined.

Lemma spatial_datagrams_any_order_witness :
  ∃ s' dgs, @send sample_crates good_sockets 1 2 sample_msg sample_client = Ret (s', UdpOut sample_host <$> dgs, true)
    ∧ length dgs = 3
    ∧ ∃ r', @poll_udp sample_crates 2 ((λ d, (sample_host, d)) <$> reverse dgs) sample_server = Ret (r', [(2%Z, sample_msg)]).
Proof.
  destruct (@spatial_datagrams_any_order sample_crates sample_crates_spec sample_total 1 2 sample_msg sample_client) as (s' & dgs & H1 & H2 & H3).
  1: by split. 1: unfold is_u8; lia. 1: reflexivity. 1, 2: unfold is_u32; cbn; lia. 1: vm_compute; discriminate. 1: vm_compute; lia. 1: vm_compute; discriminate.
  exists s', dgs. split; [exact H1|]. split; [exact H2|]. apply H3; [apply reverse_Permutation|reflexivity|reflexivity].
Defined.

(** A receiver that has delivered a message of a window delivers an older, fragmented one of
    that window after it: the fragments come under sequences 2 to 4, the other message
    under 5, and it arrives first. *)
Lemma stale_fragments_delivered :
  match @send sample_crates good_sockets 1 2 sample_msg sample_client with
  | Ret (s1, o1, _) =>
      match @send sample_crates good_sockets 1 2 (take 9 sample_msg) s1 with
      | Ret (_, o2, _) =>
          length (udp_wire o1) = 3 ∧ length (udp_wire o2) = 1 ∧ window_key 2 (take 9 sample_msg) = window_key 2 sample_msg
          ∧ match @poll_udp sample_crates 2 (udp_wire (o2 ++ o1)) sample_server with
            | Ret (_, out) => out = [(2%Z, take 9 sample_msg); (2%Z, sample_msg)]
            | Panic => False
            end
      | Panic => False
      end
  | Panic => False
  end.
Proof. vm_compute. by split_and!. Qed.
