(* ===== verification/SpatialFfi.v ===== *)
(** The C interface of the spatial session crate ([src/ffi.rs] and [connect] of
    [src/lib.rs]): connecting from a key file, sending and polling through a
    handle. A pointer that may be NULL is an [option]; a callback invocation is an
    entry of the result. *)

From S2P Require Import Prelude Text Crypto Discovery SpatialWire SpatialCrypto Psk SpatialConn.

Definition TEL_OK : Z := 0.
Definition TEL_ERR_NULL : Z := -1.
Definition TEL_ERR_DEAD : Z := -3.

Record TelClient := mkTelClient { tc_conn : Conn; tc_drained : list (Z * bytes) }.

Section Ffi.
Context {crates : Crates} {dhc : DhCrates}.

Inductive ConnectError := KeyError (e : PskError) | SessionError (e : IoError).

(** [connect]: the key is loaded before the sockets are opened. *)
Definition connect (sk : Sockets) (now : Z) (env : string → option bytes) (read_to_string : bytes → option bytes) (host : bytes)
    (psk_path : option bytes) (udp_port : Z) (secret nc input : bytes) : outcome (result (Conn * bytes) ConnectError * list Out) :=
  r ← load psk_path env read_to_string;
  match r with
  | Err e => Ret (Err (KeyError e), [])
  | Ok psk =>
      '(c, outs) ← client_connect sk now (default_mtu env) host udp_port psk secret nc input;
      Ret (map_err SessionError c, outs)
  end.

(** The server: its key, and [accept] on a stream whose peer has the given
    address. *)
Definition server_bind (env : string → option bytes) (read_to_string : bytes → option bytes) (psk_path : option bytes)
    : outcome (result bytes ConnectError) :=
  r ← load psk_path env read_to_string; Ret (map_err KeyError r).

Definition server_accept (sk : Sockets) (now : Z) (env : string → option bytes) (psk : bytes) (peer_ip : IpAddr) (udp_port : Z)
    (secret nh input : bytes) : result (Conn * bytes) ConnectError * list Out :=
  let '(c, outs) := host_accept sk now (default_mtu env) peer_ip udp_port psk secret nh input in (map_err SessionError c, outs).

Definition cstr (p : bytes) : option bytes := if valid_utf8 p then Some p else None.

Definition tel_client_connect (sk : Sockets) (now : Z) (env : string → option bytes) (read_to_string : bytes → option bytes)
    (host psk_path : option bytes) (udp_port : Z) (secret nc input : bytes) : outcome (option TelClient * list Out) :=
  match host ≫= cstr with
  | None => Ret (None, [])
  | Some h =>
      '(c, outs) ← connect sk now env read_to_string h (psk_path ≫= cstr) udp_port secret nc input;
      Ret (match c with Ok (conn, _) => Some (mkTelClient conn []) | Err _ => None end, outs)
  end.

Definition tel_client_send (sk : Sockets) (now : Z) (c : option TelClient) (channel : Z) (msg : option bytes) (n : Z)
    : outcome (option TelClient * Z * list Out) :=
  match c with
  | None => Ret (None, TEL_ERR_NULL, [])
  | Some t =>
      match msg with
      | None => if negb (n =? 0)%Z then Ret (Some t, TEL_ERR_NULL, []) else
          '(conn, outs, ok) ← send sk now channel [] (tc_conn t);
          Ret (Some (mkTelClient conn (tc_drained t)), if ok : bool then TEL_OK else TEL_ERR_DEAD, outs)
      | Some m =>
          '(conn, outs, ok) ← send sk now channel (if (n =? 0)%Z then [] else take (Z.to_nat n) m) (tc_conn t);
          Ret (Some (mkTelClient conn (tc_drained t)), if ok : bool then TEL_OK else TEL_ERR_DEAD, outs)
      end
  end.

(** [drained.len() as i32]. *)
Definition as_i32 (z : Z) : Z := ((z + 2 ^ 31) mod 2 ^ 32 - 2 ^ 31)%Z.

(** [tel_client_poll]: the code and the messages the callback is given. *)
Definition tel_client_poll (sk : Sockets) (now : Z) (data : bytes) (eof : bool) (dgs : list (SocketAddr * bytes)) (c : option TelClient)
    : outcome (option TelClient * Z * list (Z * bytes) * list Out) :=
  match c with
  | None => Ret (None, TEL_ERR_NULL, [], [])
  | Some t =>
      '(conn, out, outs) ← poll sk now data eof dgs (tc_conn t);
      let t := mkTelClient conn out in
      Ret (Some t, if negb (alive conn) then TEL_ERR_DEAD else as_i32 (len out), out, outs)
  end.

Definition tel_client_connected (c : option TelClient) : Z := match c with Some t => if alive (tc_conn t) then 1%Z else 0%Z | None => 0%Z end.

(** The code of a poll is the number of messages handed over while the session
    lives; when it is negative the session is dead or the handle was NULL,
    though messages may have been handed over. *)
Lemma tel_client_poll_code sk now data eof dgs t c' code out outs :
  tel_client_poll sk now data eof dgs (Some t) = Ret (c', code, out, outs) → (len out < 2 ^ 31)%Z →
  (code = len out ∧ tel_client_connected c' = 1%Z) ∨ (code = TEL_ERR_DEAD ∧ tel_client_connected c' = 0%Z).
Proof.
  unfold tel_client_poll. destruct (poll _ _ _ _ _ _) as [|[[conn out0] outs0]]; [done|]. cbn [mbind outcome_bind]. intros [= <- <- <- <-] Hl.
  pose proof (len_nonneg out0). cbn [tel_client_connected tc_conn]. destruct (alive conn); cbn [negb]; [left|by right]. split; [|done].
  unfold as_i32. rewrite Z.mod_small; lia.
Qed.

(** A key path that is not UTF-8 is taken for no path, and the default key is
    used. *)
Lemma bad_path_uses_default sk now env read_to_string host p udp_port secret nc input :
  valid_utf8 p = false →
  tel_client_connect sk now env read_to_string host (Some p) udp_port secret nc input
  = tel_client_connect sk now env read_to_string host None udp_port secret nc input.
Proof. intros H. unfold tel_client_connect, cstr. cbn [mbind option_bind]. by rewrite H. Qed.
End Ffi.

(** * Claims *)

(** C33: two ends that hold the same key get a session, whichever way its file is
    written, provided the client names the host by an IP address that parses with the
    port (a host name connects over TCP but then gets no session) and the sockets of
    both do what they are asked. The host reads the key in hexadecimal and the client
    as base64 text (or the other way round, or both alike), each with whitespace around
    it, and each side's driver, fed what the other wrote, returns a session with the
    other's keys in opposite roles; the client's first datagram then binds its address
    at the host. *)
Theorem tel_session_established {crates : Crates} {spec : CratesSpec} {tot : AeadTotal} {dhc : DhCrates} {dspec : DhCratesSpec dhc}
    (key ws ws' sc sh nc nh host tail1 tail2 : bytes) (env env' : string → option bytes) (path path' : option bytes)
    (read read' : bytes → option bytes) (text text' : bytes → bytes) (peer_ip : IpAddr) (addr : SocketAddr) (cport hport now : Z) :
  length key = 32 → forallb ws1 ws = true → forallb ws1 ws' = true → text = hex_text ∨ text = b64_text → text' = hex_text ∨ text' = b64_text →
  read (default (default_path env) path) = Some (ws ++ text key ++ ws') → read' (default (default_path env') path') = Some (ws ++ text' key ++ ws') →
  length nc = NONCE16 → length nh = NONCE16 → is_u16 cport → is_u16 hport → valid_utf8 host = true → (∀ p, path = Some p → valid_utf8 p = true) →
  parse_socket_addr (host_port host hport) = Some addr →
  ∃ c h oc oh dg,
    tel_client_connect good_sockets now env read (Some host) path cport sc nc (tcp_wire oh ++ tail1) = Ret (Some (mkTelClient c []), oc)
    ∧ server_bind env' read' path' = Ret (Ok key)
    ∧ server_accept good_sockets now env' key peer_ip hport sh nh (tcp_wire oc ++ tail2) = (Ok (h, tail2), oh)
    ∧ tx c = rx h ∧ rx c = tx h ∧ udp_tx c = udp_rx h ∧ udp_rx c = udp_tx h ∧ ConnWf c ∧ ConnWf h
    ∧ udp_wire oc = [(addr, dg)] ∧ peer_udp h = mkAddr peer_ip cport 0
    ∧ ∀ t from, ∃ h', poll_udp t [(from, dg)] h = Ret (h', []) ∧ peer_udp h' = from ∧ peer_bound h' = true.
Proof.
  intros Hk H1 H2 Ht Ht' Hr Hr' Hnc Hnh Hc Hh Hu Hp Ha.
  destruct (session_established key sc sh nc nh host tail1 tail2 peer_ip addr cport hport now (default_mtu env) (default_mtu env'))
    as (c & h & oc & oh & dg & E1 & E2 & K1 & K2 & K3 & K4 & W1 & W2 & U1 & _ & U2 & U3); [done..|].
  exists c, h, oc, oh, dg. split_and!; try done.
  - unfold tel_client_connect, cstr. cbn [mbind option_bind]. rewrite Hu.
    replace (path ≫= λ p, if valid_utf8 p then Some p else None) with path by (destruct path as [p|]; [by cbn; rewrite (Hp p)|done]).
    unfold connect. rewrite (load_text key ws ws' text) by done. cbn [mbind outcome_bind]. rewrite E1. done.
  - unfold server_bind. by rewrite (load_text key ws ws' text').
  - unfold server_accept. by rewrite E2.
Qed.

(** ** Witness *)

Definition sample_psk_key : bytes := replicate 32 Byte.xfe.

Lemma tel_session_established_witness :
  ∃ c h oc oh,
    @tel_client_connect sample_crates sample_dh good_sockets 7 (λ _, None) (λ _, Some (b64_text sample_psk_key ++ [Byte.x0a]))
      (Some (str_bytes "10.0.0.7")) None 500 [Byte.x02] (replicate 16 Byte.x03) (tcp_wire oh ++ []) = Ret (Some (mkTelClient c []), oc)
    ∧ @server_accept sample_crates sample_dh good_sockets 7 (λ _, None) sample_psk_key (V4 [10; 0; 0; 8]%Z) 600 [Byte.x04] (replicate 16 Byte.x05)
        (tcp_wire oc ++ [Byte.x09]) = (Ok (h, [Byte.x09]), oh)
    ∧ tx c = rx h.
Proof.
  destruct (@tel_session_established sample_crates sample_crates_spec sample_total sample_dh sample_dh_spec sample_psk_key [] [Byte.x0a] [Byte.x02] [Byte.x04]
    (replicate 16 Byte.x03) (replicate 16 Byte.x05) (str_bytes "10.0.0.7") [] [Byte.x09] (λ _, None) (λ _, None) None None
    (λ _, Some (b64_text sample_psk_key ++ [Byte.x0a])) (λ _, Some (hex_text sample_psk_key ++ [Byte.x0a])) b64_text hex_text
    (V4 [10; 0; 0; 8]%Z) (mkAddr (V4 [10; 0; 0; 7]%Z) 600 0) 500 600 7) as (c & h & oc & oh & dg & E1 & _ & E2 & K & _);
    [reflexivity|reflexivity|reflexivity|by right|by left|reflexivity|reflexivity|reflexivity|reflexivity|unfold is_u16; lia|unfold is_u16; lia|reflexivity|discriminate|reflexivity|].
  exists c, h, oc, oh. exact (conj E1 (conj E2 K)).
Defined.
