(* ===== verification/Config.v ===== *)
(** The hub's configuration ([rust/telesthitium/src/config.rs]), the federation's
    ([FedConfig::from_env] in [rust/telesthitium/src/federation.rs]) and what
    [rust/telesthitium/src/main.rs] starts from them. The environment is a function
    from names to values. *)

From S2P Require Import Prelude Registry Text.

(** * Hub configuration *)

Definition DEFAULT_UDP_BIND : bytes := str_bytes "0.0.0.0:7474".
Definition DEFAULT_PEER_TTL_SECS : Z := 15.
Definition DEFAULT_PRUNE_SECS : Z := 5.
Definition DEFAULT_MAX_BANDS : Z := 4096.
Definition DEFAULT_MAX_PEERS_PER_BAND : Z := 256.
Definition DEFAULT_CONN_QUEUE : Z := 1024.
Definition DEFAULT_UDP_PEER_QUEUE : Z := 256.
Definition DEFAULT_UDP_QUEUE_BYTES : Z := 32 * 1024 * 1024.
Definition DEFAULT_UDP_VALIDATION_PACKETS : Z := 2.
Definition DEFAULT_WS_PATH : bytes := str_bytes "/band".

Record Config := mkConfig {
  udp_bind : option SocketAddr;
  ws_bind : option SocketAddr;
  ws_path : bytes;
  ws_tls : bool;
  wt_bind : option SocketAddr;
  unix_dir : option bytes;
  peer_ttl : Z;
  prune_interval : Z;
  conn_queue : Z;
  udp_peer_queue : Z;
  udp_queue_bytes : Z;
  cfg_limits : Limits;
  tls_cert_path : option bytes;
  tls_key_path : option bytes;
  tls_sans : list bytes;
}.

Abbreviation Env := (string → option bytes).

(** [parse_or] at an unsigned type with the given largest value. *)
Definition parse_or (max : Z) (s : option bytes) (dflt : Z) : Z :=
  match s with Some v => default dflt (parse_uint max (trim v)) | None => dflt end.

Definition env (vars : Env) (name : string) : option bytes := v ← vars name; if decide (v = []) then None else Some v.

Definition env_bool (vars : Env) (name : string) : bool :=
  match env vars name with
  | Some v => bool_decide (to_ascii_lowercase v ∈ str_bytes <$> ["1"; "true"; "yes"; "on"])
  | None => false
  end.

Definition is_off (v : bytes) : bool := eq_ignore_ascii_case v (str_bytes "off").

Definition opt_addr (vars : Env) (name : string) : option SocketAddr :=
  match env vars name with
  | None => None
  | Some v => if is_off (trim v) then None else parse_socket_addr (trim v)
  end.

Definition resolve_udp_bind (raw : option bytes) : option SocketAddr :=
  let dflt := parse_socket_addr DEFAULT_UDP_BIND in
  match trim <$> raw with
  | Some v =>
      if is_off v then None else if decide (v = []) then dflt else
      match parse_socket_addr v with Some a => Some a | None => dflt end
  | None => dflt
  end.

(** Comma-separated parts, trimmed, the empty ones left out. *)
Definition list_parts (v : bytes) : list bytes := filter (λ p, p ≠ []) (trim <$> split Byte.x2c v).

Definition default_sans : list bytes := [str_bytes "localhost"].

Definition from_env (vars : Env) : Config := {|
  udp_bind := resolve_udp_bind (vars "HUB_BIND");
  ws_bind := opt_addr vars "HUB_WS_BIND";
  ws_path := default DEFAULT_WS_PATH (env vars "HUB_WS_PATH");
  ws_tls := env_bool vars "HUB_WS_TLS";
  wt_bind := opt_addr vars "HUB_WT_BIND";
  unix_dir := match env vars "HUB_UNIX_DIR" with Some v => if is_off v then None else Some v | None => None end;
  peer_ttl := from_secs (parse_or u64_max (env vars "HUB_PEER_TTL_SECS") DEFAULT_PEER_TTL_SECS);
  prune_interval := from_secs (parse_or u64_max (env vars "HUB_PRUNE_SECS") DEFAULT_PRUNE_SECS);
  conn_queue := parse_or u64_max (env vars "HUB_CONN_QUEUE") DEFAULT_CONN_QUEUE;
  udp_peer_queue := parse_or u64_max (env vars "HUB_UDP_PEER_QUEUE") DEFAULT_UDP_PEER_QUEUE;
  udp_queue_bytes := parse_or u64_max (env vars "HUB_UDP_QUEUE_BYTES") DEFAULT_UDP_QUEUE_BYTES;
  cfg_limits := mkLimits (Z.to_nat (parse_or u64_max (env vars "HUB_MAX_BANDS") DEFAULT_MAX_BANDS))
    (Z.to_nat (parse_or u64_max (env vars "HUB_MAX_PEERS_PER_BAND") DEFAULT_MAX_PEERS_PER_BAND))
    (parse_or u32_max (env vars "HUB_UDP_VALIDATION_PACKETS") DEFAULT_UDP_VALIDATION_PACKETS);
  tls_cert_path := env vars "HUB_TLS_CERT";
  tls_key_path := env vars "HUB_TLS_KEY";
  tls_sans := match list_parts <$> env vars "HUB_TLS_SANS" with Some (p :: ps) => p :: ps | _ => default_sans end;
|}.

Definition needs_tls (c : Config) : bool := bool_decide (is_Some (wt_bind c)) || bool_decide (is_Some (ws_bind c)) && ws_tls c.

Definition Config_default : Config := {|
  udp_bind := parse_socket_addr DEFAULT_UDP_BIND;
  ws_bind := None;
  ws_path := DEFAULT_WS_PATH;
  ws_tls := false;
  wt_bind := None;
  unix_dir := None;
  peer_ttl := from_secs DEFAULT_PEER_TTL_SECS;
  prune_interval := from_secs DEFAULT_PRUNE_SECS;
  conn_queue := DEFAULT_CONN_QUEUE;
  udp_peer_queue := DEFAULT_UDP_PEER_QUEUE;
  udp_queue_bytes := DEFAULT_UDP_QUEUE_BYTES;
  cfg_limits := Limits_default;
  tls_cert_path := None;
  tls_key_path := None;
  tls_sans := default_sans;
|}.

(** * Federation configuration *)

Record FedConfig := mkFedConfig { fc_listen : option bytes; fc_links : list bytes; fc_secret : bytes; fc_inbound_active : bool }.

Definition FedConfig_from_env (vars : Env) : option FedConfig :=
  let listen := env vars "HUB_FED_LISTEN" in
  let links := default [] (list_parts <$> vars "HUB_FED_LINK") in
  if decide (listen = None ∧ links = []) then None else
  let secret := default [] (vars "HUB_FED_SECRET") in
  let active := match vars "HUB_FED_DEFAULT" with
                | Some v => bool_decide (to_ascii_lowercase v ∈ str_bytes <$> ["active"; "1"; "on"; "yes"])
                | None => false
                end in
  Some (mkFedConfig listen links secret active).

(** * Start-up *)

(** What [main] starts, the identity being of type [Cert]. *)
Inductive Task (Cert : Type) :=
| FedTask (c : FedConfig)
| UdpTask (bind : SocketAddr) (peer_queue : Z) (budget : ByteBudget)
| WsTask (bind : SocketAddr) (queue : Z) (path : bytes) (tls : option Cert)
| WtTask (bind : SocketAddr) (queue : Z) (cert : Cert)
| UnixTask (dir : bytes) (queue : Z).
Arguments FedTask {_}.
Arguments UdpTask {_}.
Arguments WsTask {_}.
Arguments WtTask {_}.
Arguments UnixTask {_}.

(** [main] up to waiting for the shutdown signal: an identity that cannot be
    made ends it, and [expect] panics without one. *)
Definition hub_main {Cert E} (tls_identity : Config → result Cert E) (vars : Env) : outcome (result (list (Task Cert)) E) :=
  let cfg := from_env vars in
  match (if needs_tls cfg then match tls_identity cfg with Ok c => Ok (Some c) | Err e => Err e end else Ok None) with
  | Err e => Ret (Err e)
  | Ok cert =>
      let fed := match FedConfig_from_env vars with Some f => [FedTask f] | None => [] end in
      let udp := match udp_bind cfg with
                 | Some b => [UdpTask b (udp_peer_queue cfg) (ByteBudget_new (udp_queue_bytes cfg))]
                 | None => []
                 end in
      let ws := match ws_bind cfg with
                | Some b => [WsTask b (conn_queue cfg) (ws_path cfg) (if ws_tls cfg then cert else None)]
                | None => []
                end in
      wt ← match wt_bind cfg with
           | Some b => c ← unwrap cert; Ret [WtTask b (conn_queue cfg) c]
           | None => Ret []
           end;
      let unix := match unix_dir cfg with Some d => [UnixTask d (conn_queue cfg)] | None => [] end in
      Ret (Ok (fed ++ udp ++ ws ++ wt ++ unix))
  end.

(** The prune task: [tokio::time::interval] panics on a period of zero. *)
Definition prune_task (c : Config) : outcome unit := if decide (prune_interval c = 0%Z) then Panic else Ret tt.

(** ** Malformed values *)

Definition unset (name : string) (vars : Env) : Env := λ n, if decide (n = name) then None else vars n.

Definition u64_names : list string :=
  ["HUB_PEER_TTL_SECS"; "HUB_PRUNE_SECS"; "HUB_CONN_QUEUE"; "HUB_UDP_PEER_QUEUE"; "HUB_UDP_QUEUE_BYTES"; "HUB_MAX_BANDS"; "HUB_MAX_PEERS_PER_BAND"].

(** The values a variable's reader cannot use. *)
Definition malformed (name : string) (v : bytes) : Prop :=
  if decide (name ∈ u64_names) then parse_uint u64_max (trim v) = None
  else if decide (name = "HUB_UDP_VALIDATION_PACKETS") then parse_uint u32_max (trim v) = None
  else if decide (name = "HUB_BIND") then is_off (trim v) = false ∧ parse_socket_addr (trim v) = None
  else if decide (name ∈ ["HUB_WS_BIND"; "HUB_WT_BIND"]) then parse_socket_addr (trim v) = None
  else if decide (name = "HUB_WS_TLS") then to_ascii_lowercase v ∉ str_bytes <$> ["1"; "true"; "yes"; "on"]
  else if decide (name = "HUB_TLS_SANS") then list_parts v = []
  else v = [].

Section Malformed.
Context (vars : Env) (name : string) (v : bytes) (Hv : vars name = Some v).

Lemma unset_other n : n ≠ name → unset name vars n = vars n.
Proof. intros H. unfold unset. by rewrite decide_False. Qed.

Lemma unset_same : unset name vars name = None.
Proof. unfold unset. by rewrite decide_True. Qed.

Lemma env_other n : n ≠ name → env (unset name vars) n = env vars n.
Proof. intros H. unfold env. by rewrite unset_other. Qed.

Lemma env_same : env (unset name vars) name = None.
Proof. unfold env. by rewrite unset_same. Qed.

Lemma number_lenient max n dflt :
  (n = name → parse_uint max (trim v) = None) → parse_or max (env vars n) dflt = parse_or max (env (unset name vars) n) dflt.
Proof.
  intros H. destruct (decide (n = name)) as [->|Hne]; [|by rewrite env_other]. rewrite env_same. unfold env. rewrite Hv. cbn [mbind option_bind].
  case_decide; [done|]. cbn [parse_or]. by rewrite H.
Qed.

Lemma addr_lenient n : (n = name → parse_socket_addr (trim v) = None) → opt_addr vars n = opt_addr (unset name vars) n.
Proof.
  intros H. unfold opt_addr. destruct (decide (n = name)) as [->|Hne]; [|by rewrite env_other]. rewrite env_same. unfold env. rewrite Hv.
  cbn [mbind option_bind]. case_decide; [done|]. rewrite H by done. by destruct (is_off _).
Qed.

Lemma text_lenient n : (n = name → v = []) → env vars n = env (unset name vars) n.
Proof.
  intros H. destruct (decide (n = name)) as [->|Hne]; [|by rewrite env_other]. rewrite env_same. unfold env. rewrite Hv, H by done. done.
Qed.

Lemma bind_lenient : ("HUB_BIND" = name → is_off (trim v) = false ∧ parse_socket_addr (trim v) = None) →
  resolve_udp_bind (vars "HUB_BIND") = resolve_udp_bind (unset name vars "HUB_BIND").
Proof.
  intros H. destruct (decide ("HUB_BIND" = name)) as [E|Hne]; [|by rewrite unset_other]. destruct (H E) as [H1 H2]. rewrite E, unset_same, Hv.
  unfold resolve_udp_bind. cbn [fmap option_fmap option_map]. rewrite H1, H2. by case_decide.
Qed.

Lemma bool_lenient n : (n = name → to_ascii_lowercase v ∉ str_bytes <$> ["1"; "true"; "yes"; "on"]) → env_bool vars n = env_bool (unset name vars) n.
Proof.
  intros H. unfold env_bool. destruct (decide (n = name)) as [->|Hne]; [|by rewrite env_other]. rewrite env_same. unfold env. rewrite Hv.
  cbn [mbind option_bind]. case_decide; [done|]. apply bool_decide_eq_false. by apply H.
Qed.

Lemma parts_lenient n : (n = name → list_parts v = []) →
  match list_parts <$> env vars n with Some (p :: ps) => p :: ps | _ => default_sans end
  = match list_parts <$> env (unset name vars) n with Some (p :: ps) => p :: ps | _ => default_sans end.
Proof.
  intros H. destruct (decide (n = name)) as [->|Hne]; [|by rewrite env_other]. rewrite env_same. unfold env. rewrite Hv. cbn [mbind option_bind].
  case_decide; [done|]. cbn [fmap option_fmap option_map]. by rewrite H.
Qed.
End Malformed.

(** Values the readers do take. *)

Lemma dec_text_plain z : is_u64 z → all_plain (dec_text z).
Proof.
  intros Hz. destruct (dec_text_spec z Hz) as (ds & -> & HF & _ & Hne & _). split; [by destruct ds|].
  apply Forall_fmap. eapply Forall_impl; [exact HF|]. intros d Hd. by apply to_digit_digit.
Qed.

Lemma parse_or_dec max z ws ws' dflt vars name :
  is_u64 z → (z <= max)%Z → forallb ws1 ws = true → forallb ws1 ws' = true → vars name = Some (ws ++ dec_text z ++ ws') →
  parse_or max (env vars name) dflt = z.
Proof.
  intros Hz Hm H1 H2 Hv. unfold env. rewrite Hv. cbn [mbind option_bind]. pose proof (dec_text_plain z Hz) as Hp.
  rewrite decide_False by (destruct Hp as [Hne _]; intros [_ [E _]%app_eq_nil]%app_eq_nil; done).
  cbn [parse_or]. by rewrite trim_all_plain, parse_uint_dec.
Qed.

Lemma elem_of_opt {A B} (f : A → B) (o : option A) x :
  x ∈ match o with Some a => [f a] | None => [] end ↔ ∃ a, o = Some a ∧ x = f a.
Proof. destruct o; set_solver. Qed.

(** Leaves the one case a task can come from. *)
Ltac other_tasks H :=
  repeat destruct H as [H|H]; try (by destruct H as (? & ? & [=])); try (by destruct H as (? & ? & ? & ? & [=])).

(** * Claims *)

(** C39: a malformed value is never fatal and never guessed at: whichever variable
    holds a value its reader cannot use, the configuration is the one read with
    that variable unset; and with nothing set it is the documented default. *)
Theorem config_lenient (vars : Env) (name : string) (v : bytes) :
  vars name = Some v → malformed name v →
  from_env vars = from_env (unset name vars) ∧ from_env (λ _, None) = Config_default.
Proof.
  intros Hv Hm. split; [|reflexivity]. unfold malformed in Hm.
  assert (Hnum : ∀ n, n ∈ u64_names → n = name → parse_uint u64_max (trim v) = None) by (intros n Hn ->; by rewrite decide_True in Hm).
  unfold from_env. f_equal.
  - apply (bind_lenient _ _ v); [done|]. intros <-. exact Hm.
  - apply (addr_lenient _ _ v); [done|]. intros <-. exact Hm.
  - f_equal. apply (text_lenient _ _ v); [done|]. intros <-. exact Hm.
  - apply (bool_lenient _ _ v); [done|]. intros <-. exact Hm.
  - apply (addr_lenient _ _ v); [done|]. intros <-. exact Hm.
  - rewrite (text_lenient vars name v Hv "HUB_UNIX_DIR"); [done|]. intros <-. exact Hm.
  - f_equal. apply (number_lenient _ _ v); [done|]. apply Hnum. set_solver.
  - f_equal. apply (number_lenient _ _ v); [done|]. apply Hnum. set_solver.
  - apply (number_lenient _ _ v); [done|]. apply Hnum. set_solver.
  - apply (number_lenient _ _ v); [done|]. apply Hnum. set_solver.
  - apply (number_lenient _ _ v); [done|]. apply Hnum. set_solver.
  - f_equal; [f_equal..|]; apply (number_lenient _ _ v); try done; [apply Hnum; set_solver..|]. intros <-. exact Hm.
  - apply (text_lenient _ _ v); [done|]. intros <-. exact Hm.
  - apply (text_lenient _ _ v); [done|]. intros <-. exact Hm.
  - apply (parts_lenient _ _ v); [done|]. intros <-. exact Hm.
Qed.

(** Start-up never panics: the identity [main] unwraps for WebTransport
    is there whenever that transport is on, and what is started is exactly what
    the configuration enables, TLS on the WebSocket listener only if asked for. *)
Theorem hub_main_starts {Cert E} (tls_identity : Config → result Cert E) (vars : Env) :
  hub_main tls_identity vars ≠ Panic
  ∧ ∀ tasks, hub_main tls_identity vars = Ret (Ok tasks) →
      let cfg := from_env vars in
      (∀ b, (∃ q g, UdpTask b q g ∈ tasks) ↔ udp_bind cfg = Some b)
      ∧ (∀ b q p tls, WsTask b q p tls ∈ tasks → ws_bind cfg = Some b ∧ (is_Some tls ↔ ws_tls cfg = true))
      ∧ (∀ b, (∃ q c, WtTask b q c ∈ tasks) ↔ wt_bind cfg = Some b)
      ∧ (∀ d, (∃ q, UnixTask d q ∈ tasks) ↔ unix_dir cfg = Some d)
      ∧ (∀ f, FedTask f ∈ tasks ↔ FedConfig_from_env vars = Some f).
Proof.
  unfold hub_main. set (cfg := from_env vars). cbv zeta.
  assert (Hcert : ∀ cert, (if needs_tls cfg then match tls_identity cfg with Ok c => Ok (Some c) | Err e => Err e end else Ok None) = Ok cert →
    (is_Some (wt_bind cfg) → is_Some cert) ∧ (is_Some (ws_bind cfg) → ws_tls cfg = true → is_Some cert)).
  { intros cert. destruct (needs_tls cfg) eqn:En.
    - destruct (tls_identity cfg); [|done]. intros [= <-]. by eauto.
    - intros [= <-]. unfold needs_tls in En. apply orb_false_iff in En as [E1 E2%andb_false_iff]. rewrite bool_decide_eq_false in E1, E2.
      split; [done|]. intros H1 H2. destruct E2; congruence. }
  destruct (if needs_tls cfg then _ else _) as [cert|e]; [|by split]. specialize (Hcert cert eq_refl) as [Hw Hs].
  assert (Hwt : ∃ wt, match wt_bind cfg with Some b => c ← unwrap cert; Ret [WtTask b (conn_queue cfg) c] | None => Ret [] end = Ret wt
    ∧ ∀ x, x ∈ wt ↔ ∃ b c, wt_bind cfg = Some b ∧ cert = Some c ∧ x = WtTask b (conn_queue cfg) c).
  { destruct (wt_bind cfg) as [wb|]; [destruct Hw as [c ->]; [by eexists|]|]; eexists; (split; [done|]); intros x; set_solver. }
  destruct Hwt as (wt & -> & Hwt). cbn [mbind outcome_bind]. split; [done|]. intros tasks [= <-].
  setoid_rewrite elem_of_app. setoid_rewrite elem_of_app. setoid_rewrite elem_of_app. setoid_rewrite elem_of_app.
  setoid_rewrite elem_of_opt. setoid_rewrite Hwt. split_and!.
  - intros b. split; [intros (q & g & H); other_tasks H; clear Hs Hw; naive_solver|]. intros Hb. eexists _, _. right. left. by eexists.
  - intros b q p tls H. other_tasks H. destruct H as (b' & Hb & [= -> -> -> ->]). split; [done|].
    change (env_bool vars "HUB_WS_TLS") with (ws_tls cfg). destruct (ws_tls cfg); [|split; intros Hx; [by destruct Hx|done]]. split; [done|]. intros _. apply Hs; [by eexists|done].
  - intros b. split; [intros (q & c & H); other_tasks H; clear Hs Hw; naive_solver|]. intros Hb. destruct Hw as [c Hc]; [by eexists|].
    exists (conn_queue cfg), c. do 3 right. left. by exists b, c.
  - intros d. split; [intros (q & H); other_tasks H; clear Hs Hw; naive_solver|]. intros Hd. eexists. do 4 right. by eexists.
  - intros f. split; [intros H; other_tasks H; clear Hs Hw; naive_solver|]. intros Hf. left. by eexists.
Qed.

(** Numbers and addresses with whitespace around them are read as written. *)
Lemma config_values_read vars ws ws' z a b c d p :
  is_u64 z → forallb ws1 ws = true → forallb ws1 ws' = true → is_u8 a → is_u8 b → is_u8 c → is_u8 d → is_u16 p →
  (vars "HUB_PEER_TTL_SECS" = Some (ws ++ dec_text z ++ ws') → peer_ttl (from_env vars) = from_secs z)
  ∧ (vars "HUB_CONN_QUEUE" = Some (ws ++ dec_text z ++ ws') → conn_queue (from_env vars) = z)
  ∧ (vars "HUB_BIND" = Some (ws ++ host_port (ipv4_text a b c d) p ++ ws') →
     udp_bind (from_env vars) = Some (mkAddr (V4 [a; b; c; d]) p 0)).
Proof.
  intros Hz H1 H2 Ha Hb Hc Hd Hp. split_and!.
  - intros Hv. cbn [from_env peer_ttl]. f_equal. apply (parse_or_dec _ z ws ws'); [done| |done|done|done]. unfold is_u64, u64_max in *. lia.
  - intros Hv. cbn [from_env conn_queue]. apply (parse_or_dec _ z ws ws'); [done| |done|done|done]. unfold is_u64, u64_max in *. lia.
  - intros Hv. cbn [from_env udp_bind]. rewrite Hv. unfold resolve_udp_bind. cbn [fmap option_fmap option_map].
    assert (Hpl : ∀ x, (0 <= x < 2 ^ 16)%Z → all_plain (dec_text x)) by (intros; apply dec_text_plain; unfold is_u64; lia).
    assert (Hall : all_plain (host_port (ipv4_text a b c d) p)).
    { unfold host_port, ipv4_text, is_u8, is_u16 in *. split; [destruct (Hpl a ltac:(lia)) as [Hne _]; by destruct (dec_text a)|].
      rewrite !Forall_app, !Forall_singleton.
      split_and!; try done; match goal with |- Forall _ (dec_text ?x) => exact (proj2 (Hpl x ltac:(lia))) end. }
    rewrite trim_all_plain by done. rewrite parse_ipv4_addr by done. rewrite decide_False by apply Hall.
    destruct (is_off _) eqn:Eo; [|done]. exfalso. unfold is_off, eq_ignore_ascii_case in Eo. apply bool_decide_eq_true in Eo.
    assert (Hl : length (host_port (ipv4_text a b c d) p) = 3) by (apply (f_equal length) in Eo; unfold to_ascii_lowercase in Eo; by rewrite !length_fmap in Eo).
    assert (Hn : ∀ x, (0 <= x < 2 ^ 16)%Z → 1 ≤ length (dec_text x)) by (intros x Hx; destruct (Hpl x Hx) as [Hne _]; destruct (dec_text x); [done|simpl; lia]).
    unfold host_port, ipv4_text in Hl. rewrite !length_app in Hl. unfold is_u8, is_u16 in *.
    pose proof (Hn a ltac:(lia)). pose proof (Hn b ltac:(lia)). simpl in Hl. lia.
Qed.

(** A prune interval of zero seconds is taken as it is, and the prune task does not
    survive it. *)
Lemma zero_prune_interval vars : vars "HUB_PRUNE_SECS" = Some (str_bytes "0") → prune_task (from_env vars) = Panic.
Proof.
  intros Hv. unfold prune_task. cbn [from_env prune_interval]. unfold env. rewrite Hv. done.
Qed.

(** The socket directory is compared with [off] untrimmed, unlike the addresses. *)
Lemma padded_off vars :
  vars "HUB_UNIX_DIR" = Some (str_bytes " off") → vars "HUB_WS_BIND" = Some (str_bytes " off") →
  unix_dir (from_env vars) = Some (str_bytes " off") ∧ ws_bind (from_env vars) = None.
Proof. intros H1 H2. cbn [from_env unix_dir ws_bind]. unfold opt_addr, env. rewrite H1, H2. done. Qed.

(** ** Witnesses *)

Definition sample_env : Env := λ n, if decide (n = "HUB_WT_BIND") then Some (str_bytes "127.0.0.1:443") else
  if decide (n = "HUB_PEER_TTL_SECS") then Some (str_bytes "banana") else None.

Lemma config_lenient_witness :
  sample_env "HUB_PEER_TTL_SECS" = Some (str_bytes "banana") ∧ from_env sample_env = from_env (unset "HUB_PEER_TTL_SECS" sample_env).
Proof. split; [reflexivity|]. apply (config_lenient sample_env "HUB_PEER_TTL_SECS" (str_bytes "banana")); reflexivity. Defined.
