(* ===== verification/HubMain.v ===== *)
(** The tasks of a running hub and how it stops ([rust/telesthitium/src/main.rs], the
    [serve] functions of [udp.rs], [ws.rs], [wt.rs] and [unix.rs], and
    [federation::spawn] in [federation.rs]): [main] hands every task the shutdown flag,
    waits for a signal, sets the flag and then waits for each task in turn. Each [serve]
    polls its endless loop and the flag side by side; what it started besides (the
    writers of UDP peers, the listeners of bands, the sessions) are tasks of their own,
    which [main] does not wait for. *)

From S2P Require Import Prelude Framing HubFrame Registry Config.

(** * Background tasks *)

(** What the transports have running besides their own task: the writers of UDP peers, by
    the number of their queue, the accept loops of bands, and sessions. *)
Record Running := mkRunning { rn_writers : gset nat; rn_accepts : gset bytes; rn_sessions : gset nat }.

Definition with_writers (f : gset nat → gset nat) (rn : Running) : Running := mkRunning (f (rn_writers rn)) (rn_accepts rn) (rn_sessions rn).
Definition with_accepts (f : gset bytes → gset bytes) (rn : Running) : Running := mkRunning (rn_writers rn) (f (rn_accepts rn)) (rn_sessions rn).
Definition with_sessions (f : gset nat → gset nat) (rn : Running) : Running := mkRunning (rn_writers rn) (rn_accepts rn) (f (rn_sessions rn)).

(** * Transports *)

(** What a loop waits for and is answered: a datagram (with the queue of the sink made for
    it, when the registry asked for one) or a connection, an error, the end of a back-off,
    a tick with the bands that should have a socket and those whose socket failed. *)
Inductive SockEvent :=
| GotDatagram (d : bytes) (sink : option nat)
| GotConnection (session : nat)
| SockError
| SleepOver
| Ticked (want failed : gset bytes).

(** The receive loop of UDP: [backoff] while it sleeps after an error; [writers] is its
    [JoinSet], from which finished tasks are reaped at each packet. *)
Record UdpLoop := mkUdpLoop { ul_backoff : bool; ul_writers : gset nat }.

Definition udp_turn (e : SockEvent) (x : UdpLoop * Running) : UdpLoop * Running :=
  let '(u, rn) := x in
  match ul_backoff u, e with
  | true, SleepOver => (mkUdpLoop false (ul_writers u), rn)
  | false, SockError => (mkUdpLoop true (ul_writers u), rn)
  | false, GotDatagram d sink =>
      match route_info d with
      | None => (u, rn)
      | Some _ =>
          let writers := ul_writers u ∩ rn_writers rn in
          match sink with
          | Some q => (mkUdpLoop false ({[q]} ∪ writers), with_writers ({[q]} ∪.) rn)
          | None => (mkUdpLoop false writers, rn)
          end
      end
  | _, _ => (u, rn)
  end.

(** The accept loop of WebSockets: [backoff] while it sleeps after an error. *)
Definition ws_turn (e : SockEvent) (x : bool * Running) : bool * Running :=
  let '(backoff, rn) := x in
  match backoff, e with
  | true, SleepOver => (false, rn)
  | false, SockError => (true, rn)
  | false, GotConnection n => (false, with_sessions ({[n]} ∪.) rn)
  | _, _ => (backoff, rn)
  end.

Definition wt_turn (e : SockEvent) (rn : Running) : Running :=
  match e with GotConnection n => with_sessions ({[n]} ∪.) rn | _ => rn end.

(** A turn of [reconcile]: [active] are the bands that have a listener. *)
Definition unix_turn (e : SockEvent) (x : gset bytes * Running) : gset bytes * Running :=
  let '(active, rn) := x in
  match e with
  | Ticked want failed =>
      let fresh := (want ∖ active) ∖ failed in
      let gone := active ∖ want in
      ((active ∪ fresh) ∩ want, with_accepts (λ a, (a ∪ fresh) ∖ gone) rn)
  | _ => (active, rn)
  end.

(** A [serve] is started, or in its [select!]. *)
Inductive ServeState (Cert : Type) :=
| Starting (t : Task Cert)
| UdpServing (u : UdpLoop)
| WsServing (backoff : bool)
| WtServing
| UnixServing (active : gset bytes).
Arguments Starting {_}.
Arguments UdpServing {_}.
Arguments WsServing {_}.
Arguments WtServing {_}.
Arguments UnixServing {_}.

(** Up to the [select!]: [None] when the socket, identity or directory cannot be had. *)
Definition serve_start {Cert} (bound : bool) (t : Task Cert) : option (ServeState Cert) :=
  if bound then
    match t with
    | UdpTask _ _ _ => Some (UdpServing (mkUdpLoop false ∅))
    | WsTask _ _ _ _ => Some (WsServing false)
    | WtTask _ _ _ => Some WtServing
    | UnixTask _ _ => Some (UnixServing ∅)
    | FedTask _ => None
    end
  else None.

(** One poll of the loop of the [select!], in which the sockets answered [e]. No loop
    ends. *)
Definition serve_loop {Cert} (x : ServeState Cert * Running) (e : SockEvent) : ServeState Cert * Running :=
  let '(s, rn) := x in
  match s with
  | Starting _ => (s, rn)
  | UdpServing u => let '(u, rn) := udp_turn e (u, rn) in (UdpServing u, rn)
  | WsServing b => let '(b, rn) := ws_turn e (b, rn) in (WsServing b, rn)
  | WtServing => (s, wt_turn e rn)
  | UnixServing a => let '(a, rn) := unix_turn e (a, rn) in (UnixServing a, rn)
  end.

(** What follows when the flag wins the [select!]: the UDP loop is dropped and with it its
    [JoinSet], which aborts the writers; the listeners of the bands are aborted; the
    sessions are left alone. *)
Definition serve_end {Cert} (s : ServeState Cert) (rn : Running) : Running :=
  match s with
  | UdpServing u => with_writers (.∖ ul_writers u) rn
  | UnixServing active => with_accepts (.∖ active) rn
  | _ => rn
  end.

(** One poll of a [serve], in which its sockets answered [es]. *)
Definition serve_poll {Cert} (stopping bound : bool) (es : list SockEvent) (s : ServeState Cert) (rn : Running) :
    option (ServeState Cert) * Running :=
  match (match s with Starting t => serve_start bound t | _ => Some s end) with
  | None => (None, rn)
  | Some s =>
      let '(s, rn) := foldl serve_loop (s, rn) es in
      if stopping then (None, serve_end s rn) else (Some s, rn)
  end.

(** * Tasks *)

(** Where an outbound dialer is in its loop. *)
Inductive DialPhase := LoopTop | Dialing | Linked | Backoff.

(** The tasks [main] waits for: one per transport, and those of federation, of which the
    fan-out task holds the receiving end of the registry's egress channel and the
    listener first has to bind. *)
Inductive HubTask (Cert : Type) :=
| ServeTask (s : ServeState Cert)
| FanTask
| ListenTask (addr : bytes) (listening : bool)
| DialTask (remote : bytes) (phase : DialPhase).
Arguments ServeTask {_}.
Arguments FanTask {_}.
Arguments ListenTask {_}.
Arguments DialTask {_}.

Definition federation_spawn {Cert} (f : FedConfig) : list (HubTask Cert) :=
  FanTask :: match fc_listen f with Some addr => [ListenTask addr false] | None => [] end
  ++ ((λ remote, DialTask remote LoopTop) <$> fc_links f).

Definition spawn_tasks {Cert} (tasks : list (Task Cert)) : list (HubTask Cert) :=
  tasks ≫= λ t, match t with FedTask f => federation_spawn f | _ => [ServeTask (Starting t)] end.

(** What can happen to a task: a [serve] is polled; a task of federation looks at the flag,
    has or cannot have its socket, a connection is made, refused, accepted or lost, a
    wait is over, or every sender of its channel is gone. *)
Inductive TaskEvent :=
| Polled (bound : bool) (es : list SockEvent)
| SeesFlag | Binds | Fails | Dialed | DialFailed | LinkLost | Waited | SendersGone.

(** One step of a task of federation; [None] once it has returned. [held] says whether some
    task still holds the registry, and with it the sender of the egress channel. *)
Definition fed_task_step {Cert} (stopping held : bool) (e : TaskEvent) (t : HubTask Cert) : option (HubTask Cert) :=
  match t with
  | ServeTask _ => Some t
  | ListenTask addr false => match e with Binds => Some (ListenTask addr true) | Fails => None | _ => Some t end
  | ListenTask _ true => match e with SeesFlag => if stopping then None else Some t | _ => Some t end
  | FanTask => match e with SendersGone => if held then Some t else None | _ => Some t end
  | DialTask remote LoopTop =>
      match e with SeesFlag => if stopping then None else Some (DialTask remote Dialing) | _ => Some t end
  | DialTask remote Dialing =>
      match e with Dialed => Some (DialTask remote Linked) | DialFailed => Some (DialTask remote Backoff) | _ => Some t end
  | DialTask remote Linked => match e with LinkLost => Some (DialTask remote Backoff) | _ => Some t end
  | DialTask remote Backoff =>
      match e with
      | SeesFlag => if stopping then None else Some t
      | Waited => Some (DialTask remote LoopTop)
      | _ => Some t
      end
  end.

Definition task_step {Cert} (stopping held : bool) (e : TaskEvent) (t : HubTask Cert) (rn : Running) : option (HubTask Cert) * Running :=
  match t, e with
  | ServeTask s, Polled bound es => let '(s, rn) := serve_poll stopping bound es s rn in (ServeTask <$> s, rn)
  | _, _ => (fed_task_step stopping held e t, rn)
  end.

(** * The main task *)

(** [main] owns a handle on the registry until it returns. *)
Record Main (Cert : Type) := mkMain { mn_stopping : bool; mn_tasks : list (option (HubTask Cert)); mn_running : Running }.
Arguments mkMain {_}.
Arguments mn_stopping {_}.
Arguments mn_tasks {_}.
Arguments mn_running {_}.

Definition main_start {Cert} (tasks : list (Task Cert)) : Main Cert := mkMain false (Some <$> spawn_tasks tasks) (mkRunning ∅ ∅ ∅).

(** The signals [shutdown_signal] waits for, whichever comes first. Besides, a writer ends
    when its peer is dropped, the accept loop of a band starts sessions, and these end. *)
Inductive Signal := SIGINT | SIGTERM.
Inductive main_event :=
| Signalled (s : Signal)
| TaskRuns (i : nat) (e : TaskEvent)
| WriterEnds (q : nat)
| BandAccepts (band : bytes) (session : nat)
| SessionEnds (session : nat).

Definition main_step {Cert} (m : Main Cert) (e : main_event) : Main Cert :=
  match e with
  | Signalled _ => mkMain true (mn_tasks m) (mn_running m)
  | TaskRuns i e =>
      match mn_tasks m !! i with
      | Some (Some t) =>
          let '(t, rn) := task_step (mn_stopping m) true e t (mn_running m) in
          mkMain (mn_stopping m) (<[i := t]> (mn_tasks m)) rn
      | _ => m
      end
  | WriterEnds q => mkMain (mn_stopping m) (mn_tasks m) (with_writers (.∖ {[q]}) (mn_running m))
  | BandAccepts band n =>
      if decide (band ∈ rn_accepts (mn_running m)) then mkMain (mn_stopping m) (mn_tasks m) (with_sessions ({[n]} ∪.) (mn_running m)) else m
  | SessionEnds n => mkMain (mn_stopping m) (mn_tasks m) (with_sessions (.∖ {[n]}) (mn_running m))
  end.

Definition main_run {Cert} (es : list main_event) (m : Main Cert) : Main Cert := foldl main_step m es.

(** [for t in tasks { t.await }] after the flag is set. *)
Definition main_returned {Cert} (m : Main Cert) : bool := mn_stopping m && forallb (λ t, match t with None => true | Some _ => false end) (mn_tasks m).

(** ** Lemmas *)

Definition is_transport {Cert} (t : Task Cert) : bool := match t with FedTask _ => false | _ => true end.

Lemma spawn_transports {Cert} (tasks : list (Task Cert)) :
  Forall (λ t, is_transport t = true) tasks → spawn_tasks tasks = (ServeTask ∘ Starting) <$> tasks.
Proof. induction 1 as [|t tasks Ht _ IH]; [done|]. cbn. unfold spawn_tasks in IH. rewrite IH. by destruct t. Qed.

Lemma main_run_app {Cert} es1 es2 (m : Main Cert) : main_run (es1 ++ es2) m = main_run es2 (main_run es1 m).
Proof. apply foldl_app. Qed.

(** What a [serve] answers for: the writers in its set, the listeners it has. *)
Definition owned_writers {Cert} (s : ServeState Cert) : gset nat := match s with UdpServing u => ul_writers u | _ => ∅ end.
Definition owned_accepts {Cert} (s : ServeState Cert) : gset bytes := match s with UnixServing a => a | _ => ∅ end.

(** No background task is lost sight of: what runs was running or is owned. *)
Lemma serve_loop_owned {Cert} (s : ServeState Cert) rn e :
  let '(s', rn') := serve_loop (s, rn) e in
  rn_writers rn' ∖ owned_writers s' ⊆ rn_writers rn ∖ owned_writers s
  ∧ rn_accepts rn' ∖ owned_accepts s' ⊆ rn_accepts rn ∖ owned_accepts s.
Proof.
  destruct s as [t|[b ws]|b| |a]; [done| | | |].
  - cbn. destruct b, e; cbn; try done. destruct (route_info d); [|done]. destruct sink; cbn; set_solver.
  - cbn. by destruct b, e.
  - cbn. by destruct e.
  - cbn. destruct e; cbn; try done. split; [done|]. intros x. rewrite !elem_of_difference, !elem_of_intersection, !elem_of_union, !elem_of_difference.
    intros [[[?|?] Hg] Hn]; [|naive_solver]. split; [done|]. intros Ha. destruct (decide (x ∈ want)); naive_solver.
Qed.

Lemma serve_loops_owned {Cert} es (s : ServeState Cert) rn :
  let '(s', rn') := foldl serve_loop (s, rn) es in
  rn_writers rn' ∖ owned_writers s' ⊆ rn_writers rn ∖ owned_writers s
  ∧ rn_accepts rn' ∖ owned_accepts s' ⊆ rn_accepts rn ∖ owned_accepts s.
Proof.
  revert s rn. induction es as [|e es IH]; intros s rn; [done|]. cbn [foldl]. pose proof (serve_loop_owned s rn e) as HS.
  destruct (serve_loop (s, rn) e) as [s1 rn1]. specialize (IH s1 rn1). destruct (foldl serve_loop (s1, rn1) es) as [s2 rn2]. set_solver.
Qed.

(** So does a poll, and a [serve] that ends takes what it owns with it. *)
Lemma serve_poll_owned {Cert} stopping bound es (s : ServeState Cert) rn :
  let '(s', rn') := serve_poll stopping bound es s rn in
  rn_writers rn' ∖ default ∅ (owned_writers <$> s') ⊆ rn_writers rn ∖ owned_writers s
  ∧ rn_accepts rn' ∖ default ∅ (owned_accepts <$> s') ⊆ rn_accepts rn ∖ owned_accepts s.
Proof.
  unfold serve_poll.
  assert (Hs : ∀ s1, match s with Starting t => serve_start bound t | _ => Some s end = Some s1 →
    owned_writers s1 = owned_writers s ∧ owned_accepts s1 = owned_accepts s).
  { destruct s as [t|u|b| |a]; intros s1; [|by intros [= <-]..]. cbn. destruct bound, t; cbn; by intros [= <-]. }
  destruct (match s with Starting t => _ | _ => _ end) as [s1|] eqn:E.
  - destruct (Hs s1 eq_refl) as [<- <-]. pose proof (serve_loops_owned es s1 rn) as HL. destruct (foldl _ _ _) as [s2 rn2].
    destruct stopping; cbn; [|done]. destruct HL as [HW HA].
    destruct s2 as [t|u|b| |a]; cbn in *; split; set_solver.
  - destruct s as [t|u|b| |a]; [|done..]. done.
Qed.

(** A [serve] ends at its next poll once the flag is set; before, only when it cannot
    start. *)
Lemma serve_poll_stopping {Cert} bound es (s : ServeState Cert) rn : (serve_poll true bound es s rn).1 = None.
Proof. unfold serve_poll. destruct (match s with Starting t => _ | _ => _ end) as [s1|]; [|done]. by destruct (foldl _ _ _). Qed.

Lemma serve_poll_keeps {Cert} bound es (s : ServeState Cert) rn :
  match s with Starting t => bound = true ∧ is_transport t = true | _ => True end →
  ∃ s', (serve_poll false bound es s rn).1 = Some s' ∧ ∀ t, s' ≠ Starting t.
Proof.
  intros Hs. unfold serve_poll.
  assert (Hs1 : ∃ s1, match s with Starting t => serve_start bound t | _ => Some s end = Some s1 ∧ ∀ t, s1 ≠ Starting t).
  { destruct s as [t|u|b| |a]; [destruct Hs as [-> Ht]; destruct t; try done|..]; by eexists. }
  destruct Hs1 as (s1 & -> & H1). assert (HF : ∀ t, (foldl serve_loop (s1, rn) es).1 ≠ Starting t).
  { clear Hs. revert s1 rn H1. induction es as [|e es IH]; intros s1 rn H1; [done|]. cbn [foldl].
    destruct (serve_loop (s1, rn) e) as [s2 rn2] eqn:E2. apply IH. intros t ->. destruct s1; cbn in E2; repeat case_match; simplify_eq.
    by eapply H1. }
  destruct (foldl serve_loop (s1, rn) es) as [s2 rn2]. by eexists.
Qed.

(** A hub that only serves transports: its tasks are [serve]s, and every writer of a UDP
    peer and every listener of a band that runs is owned by one of them. *)
Definition slot_ok {Cert} (t : option (HubTask Cert)) : Prop :=
  match t with
  | None => True
  | Some (ServeTask (Starting t)) => is_transport t = true
  | Some (ServeTask _) => True
  | _ => False
  end.

Record ServesOnly {Cert} (m : Main Cert) : Prop := {
  so_slots : Forall slot_ok (mn_tasks m);
  so_writers : ∀ q, q ∈ rn_writers (mn_running m) → ∃ i s, mn_tasks m !! i = Some (Some (ServeTask s)) ∧ q ∈ owned_writers s;
  so_accepts : ∀ b, b ∈ rn_accepts (mn_running m) → ∃ i s, mn_tasks m !! i = Some (Some (ServeTask s)) ∧ b ∈ owned_accepts s;
}.

Lemma serve_poll_slot {Cert} stopping bound es (s : ServeState Cert) rn :
  slot_ok (Some (ServeTask s)) → slot_ok (ServeTask <$> (serve_poll stopping bound es s rn).1).
Proof.
  intros Hs. destruct stopping; [by rewrite serve_poll_stopping|].
  destruct (serve_poll false bound es s rn).1 as [s'|] eqn:E; [|done].
  assert (Hn : ∃ s'', (serve_poll false bound es s rn).1 = Some s'' ∧ ∀ t, s'' ≠ Starting t).
  { apply serve_poll_keeps. destruct s as [t|u|b| |a]; try done. split; [|done]. destruct bound; [done|].
    unfold serve_poll in E. cbn in E. discriminate. }
  destruct Hn as (s'' & E' & Hn). rewrite E in E'. injection E' as <-. cbn. destruct s'; try done. by destruct (Hn t).
Qed.

Lemma main_step_serves {Cert} e (m : Main Cert) : ServesOnly m → ServesOnly (main_step m e) ∧ length (mn_tasks (main_step m e)) = length (mn_tasks m).
Proof.
  intros [S1 S2 S3]. destruct e as [sg|i e|q|band n|n]; cbn [main_step].
  - by split.
  - destruct (mn_tasks m !! i) as [[t|]|] eqn:Ei; [|by split..]. pose proof (Forall_lookup_1 _ _ _ _ S1 Ei) as Hs.
    destruct t as [s| | |]; [|done..].
    destruct e as [bound es| | | | | | | |]; cbn [task_step fed_task_step]; [|split; [split|]; cbn; rewrite ?list_insert_id; done..].
    pose proof (serve_poll_owned (mn_stopping m) bound es s (mn_running m)) as HO.
    pose proof (serve_poll_slot (mn_stopping m) bound es s (mn_running m) Hs) as HS.
    destruct (serve_poll _ _ _ _ _) as [s' rn']. destruct HO as [HW HA]. cbn [fst] in HS.
    assert (Hlt : i < length (mn_tasks m)) by (by eapply lookup_lt_Some).
    split; [|cbn; apply length_insert]. split; cbn [mn_tasks mn_running].
    + by apply Forall_insert.
    + intros q Hq. destruct (decide (q ∈ default ∅ (owned_writers <$> s'))) as [Hi|Hi].
      * destruct s' as [s'|]; [|by apply not_elem_of_empty in Hi]. exists i, s'. by rewrite list_lookup_insert_eq.
      * destruct (S2 q) as (j & s0 & Hj & Hq0); [set_solver|]. destruct (decide (i = j)) as [<-|Hne]; [rewrite Ei in Hj; set_solver|].
        exists j, s0. by rewrite list_lookup_insert_ne.
    + intros q Hq. destruct (decide (q ∈ default ∅ (owned_accepts <$> s'))) as [Hi|Hi].
      * destruct s' as [s'|]; [|by apply not_elem_of_empty in Hi]. exists i, s'. by rewrite list_lookup_insert_eq.
      * destruct (S3 q) as (j & s0 & Hj & Hq0); [set_solver|]. destruct (decide (i = j)) as [<-|Hne]; [rewrite Ei in Hj; set_solver|].
        exists j, s0. by rewrite list_lookup_insert_ne.
  - split; [|done]. split; [done| |done]. cbn. set_solver.
  - case_decide; by split.
  - by split.
Qed.

Lemma main_run_serves {Cert} es (m : Main Cert) :
  ServesOnly m → ServesOnly (main_run es m) ∧ length (mn_tasks (main_run es m)) = length (mn_tasks m).
Proof.
  revert m. induction es as [|e es IH]; intros m Hm; [done|]. destruct (main_step_serves e m Hm) as [H1 H2].
  destruct (IH _ H1) as [H3 H4]. split; [exact H3|]. etrans; [exact H4|done].
Qed.

Lemma main_start_serves {Cert} (tasks : list (Task Cert)) :
  Forall (λ t, is_transport t = true) tasks → ServesOnly (main_start tasks) ∧ length (mn_tasks (main_start tasks)) = length tasks.
Proof.
  intros Ht. unfold main_start. rewrite spawn_transports by done. cbn. split; [|by rewrite !length_fmap].
  split; [|done|done]. cbn. apply Forall_fmap, Forall_fmap. eapply Forall_impl; [exact Ht|done].
Qed.

(** Once the flag is set it stays, a task that has ended stays so, and a [serve] that is
    polled has ended. *)
Lemma stopping_step {Cert} e (m : Main Cert) :
  mn_stopping m = true → mn_stopping (main_step m e) = true
  ∧ ∀ i, mn_tasks m !! i = Some None → mn_tasks (main_step m e) !! i = Some None.
Proof.
  intros Hst. destruct e as [sg|j e|q|band n|n]; cbn [main_step]; try done; [|by case_decide].
  destruct (mn_tasks m !! j) as [[t|]|] eqn:Ej; try done. destruct (task_step _ _ _ _ _) as [t' rn]. split; [done|].
  intros i Hi. cbn. rewrite list_lookup_insert_ne; [done|]. intros ->. congruence.
Qed.

Lemma stopping_polled {Cert} es (m : Main Cert) i :
  ServesOnly m → mn_stopping m = true → i < length (mn_tasks m) →
  mn_tasks m !! i = Some None ∨ (∃ bound evs, TaskRuns i (Polled bound evs) ∈ es) → mn_tasks (main_run es m) !! i = Some None.
Proof.
  revert m. induction es as [|e es IH]; intros m Hm Hst Hi Hor.
  - destruct Hor as [?|(b & evs & Hin)]; [done|]. by apply not_elem_of_nil in Hin.
  - destruct (stopping_step e m Hst) as [Hst' Hkeep]. destruct (main_step_serves e m Hm) as [Hm' Hl]. unfold main_run. cbn [foldl].
    apply IH; [done|done|by rewrite Hl|]. destruct Hor as [Hn|(b & evs & Hin)]; [left; by apply Hkeep|].
    apply elem_of_cons in Hin as [<-|Hin]; [left|right; eauto]. cbn [main_step].
    destruct (lookup_lt_is_Some_2 _ _ Hi) as [[t|] Et]; rewrite Et; [|done].
    pose proof (Forall_lookup_1 _ _ _ _ (so_slots _ Hm) Et) as Hs. destruct t as [s| | |]; try done. cbn [task_step]. rewrite Hst.
    pose proof (serve_poll_stopping b evs s (mn_running m)) as HP. destruct (serve_poll _ _ _ _ _) as [s' rn]. cbn in HP. subst s'.
    cbn. by apply list_lookup_insert_eq.
Qed.

(** Before the signal only a [serve] that cannot start ends. *)
Lemma flag_down_ended {Cert} es (m : Main Cert) i :
  ServesOnly m → mn_stopping m = false → (∀ s, Signalled s ∉ es) → mn_tasks (main_run es m) !! i = Some None →
  mn_tasks m !! i = Some None ∨ ∃ evs, TaskRuns i (Polled false evs) ∈ es.
Proof.
  revert m. induction es as [|e es IH]; intros m Hm Hst Hsig Hend; [by left|].
  destruct (main_step_serves e m Hm) as [Hm' _].
  assert (Hst' : mn_stopping (main_step m e) = false).
  { destruct e as [sg|j e|q|band n|n]; cbn [main_step]; [by destruct (Hsig sg); left|by repeat case_match|done|by case_decide|done]. }
  destruct (IH (main_step m e) Hm' Hst') as [Hn|(evs & Hin)]; [intros sg; specialize (Hsig sg); set_solver|done| |right; exists evs; by right].
  destruct e as [sg|j e|q|band n|n]; cbn [main_step] in Hn; [by left| |by left|case_decide; by left|by left].
  destruct (mn_tasks m !! j) as [[t|]|] eqn:Ej; [|by left..]. pose proof (Forall_lookup_1 _ _ _ _ (so_slots _ Hm) Ej) as Hs.
  destruct (task_step _ _ _ _ _) as [t' rn] eqn:Et. cbn in Hn.
  destruct (decide (j = i)) as [->|Hne]; [|left; by rewrite list_lookup_insert_ne in Hn].
  rewrite list_lookup_insert_eq in Hn by (by eapply lookup_lt_Some). injection Hn as ->. destruct t as [s| | |]; try done.
  destruct e as [[] evs| | | | | | | |]; try done; [|right; exists evs; by left]. rewrite Hst in Et. cbn [task_step] in Et.
  destruct (serve_poll_keeps true evs s (mn_running m)) as (s' & E & _); [by destruct s|].
  destruct (serve_poll _ _ _ _ _) as [s'' rn']. cbn in E. subst s''. done.
Qed.

(** The fan-out task never leaves the list. *)
Lemma fan_stays {Cert} es (m : Main Cert) i : mn_tasks m !! i = Some (Some FanTask) → mn_tasks (main_run es m) !! i = Some (Some FanTask).
Proof.
  revert m. induction es as [|e es IH]; intros m Hi; [done|]. unfold main_run. cbn [foldl]. apply IH.
  destruct e as [sg|j e|q|band n|n]; cbn [main_step]; try done; [|by case_decide].
  destruct (mn_tasks m !! j) as [[t|]|] eqn:Ej; [|done..]. destruct (decide (j = i)) as [->|Hne].
  - rewrite Ej in Hi. injection Hi as ->. assert (E : task_step (Cert := Cert) (mn_stopping m) true e FanTask (mn_running m) = (Some FanTask, mn_running m)) by (by destruct e).
    rewrite E. cbn. apply list_lookup_insert_eq. by eapply lookup_lt_Some.
  - destruct (task_step _ _ _ _ _) as [t' rn]. cbn. by rewrite list_lookup_insert_ne.
Qed.

Lemma fan_spawned {Cert} (tasks : list (Task Cert)) f : FedTask f ∈ tasks → FanTask ∈ spawn_tasks tasks.
Proof. intros Hf. unfold spawn_tasks. apply list_elem_of_bind. exists (FedTask f). split; [by left|done]. Qed.

(** ** Properties *)

(** C29: a hub without federation stops when it is told to. Whatever its tasks, their sockets
    and the tasks they started did before, once SIGINT or SIGTERM has arrived and each
    transport has been polled once more (however the polls interleave and whatever the
    sockets answer in them), every transport has returned and so has [main], which waits
    for no peer: the writers of UDP peers and the listeners of bands have been aborted,
    whatever they had left to do. Before the signal a transport ends only if it cannot
    start. *)
Theorem hub_stops {Cert} (tasks : list (Task Cert)) (before after : list main_event) (s : Signal) :
  Forall (λ t, is_transport t = true) tasks →
  (∀ i, i < length tasks → ∃ bound evs, TaskRuns i (Polled bound evs) ∈ after) →
  let m := main_run (before ++ Signalled s :: after) (main_start tasks) in
  main_returned m = true ∧ rn_writers (mn_running m) = ∅ ∧ rn_accepts (mn_running m) = ∅
  ∧ ((∀ s', Signalled s' ∉ before) → ∀ i, mn_tasks (main_run before (main_start tasks)) !! i = Some None →
     ∃ evs, TaskRuns i (Polled false evs) ∈ before).
Proof.
  intros Ht Hpoll m. destruct (main_start_serves tasks Ht) as [Hs0 Hl0].
  destruct (main_run_serves before _ Hs0) as [Hs1 Hl1]. set (m1 := main_run before (main_start tasks)) in *.
  destruct (main_step_serves (Signalled s) m1 Hs1) as [Hs2 Hl2]. set (m2 := main_step m1 (Signalled s)) in *.
  assert (Em : m = main_run after m2) by (subst m; by rewrite main_run_app). clearbody m. subst m.
  destruct (main_run_serves after m2 Hs2) as [Hs3 Hl3].
  assert (Hall : ∀ i t, mn_tasks (main_run after m2) !! i = Some t → t = None).
  { intros i t Hi. pose proof (lookup_lt_Some _ _ _ Hi) as Hlt. rewrite Hl3 in Hlt.
    pose proof (stopping_polled after m2 i Hs2 eq_refl Hlt) as HP. rewrite HP in Hi; [congruence|]. right. apply Hpoll. congruence. }
  split_and!.
  - unfold main_returned. apply andb_true_iff. split.
    + assert (Hst : ∀ es (x : Main Cert), mn_stopping x = true → mn_stopping (main_run es x) = true); [|by apply Hst].
      clear. induction es as [|e es IH]; intros x Hx; [done|]. unfold main_run. cbn [foldl]. apply IH. by apply stopping_step.
    + apply Is_true_eq_true, forallb_True, Forall_lookup. intros i t Hi. by rewrite (Hall i t Hi).
  - apply set_eq. intros q. split; [|set_solver]. intros Hq. apply (so_writers _ Hs3) in Hq as (i & s' & Hi & _). by apply Hall in Hi.
  - apply set_eq. intros q. split; [|set_solver]. intros Hq. apply (so_accepts _ Hs3) in Hq as (i & s' & Hi & _). by apply Hall in Hi.
  - intros Hsig i Hi. apply flag_down_ended in Hi as [Hi|?]; try done. cbn in Hi. rewrite list_lookup_fmap in Hi. by destruct (_ !! i).
Qed.

(** A hub with federation does not: [main] waits for the fan-out task, which waits for
    the registry's sender to go away, and [main] itself holds the registry. *)
Lemma federated_hub_never_stops {Cert} (tasks : list (Task Cert)) (f : FedConfig) (es : list main_event) :
  FedTask f ∈ tasks → main_returned (main_run es (main_start tasks)) = false.
Proof.
  intros Hf. apply fan_spawned in Hf. apply list_elem_of_lookup in Hf as (i & Hi).
  assert (Hs : mn_tasks (main_run es (main_start tasks)) !! i = Some (Some FanTask)) by (apply fan_stays; cbn; by rewrite list_lookup_fmap, Hi).
  apply not_true_is_false. unfold main_returned. intros [_ H%Is_true_eq_left%forallb_True]%andb_true_iff.
  by apply (Forall_lookup_1 _ _ _ _ H) in Hs.
Qed.

(** ** Witnesses *)

(** A hub with UDP and Unix sockets: a peer's writer and a band's listener run, and a
    session, when it is told to stop; the session is what is left. *)
Definition sample_tasks : list (Task unit) :=
  [UdpTask (Text.mkAddr (Text.V4 [127; 0; 0; 1]%Z) 9 0) 256 (ByteBudget_new 1000); UnixTask (str_bytes "/run/telesthete") 256].
Definition sample_before : list main_event :=
  [TaskRuns 0 (Polled true [GotDatagram (sample_frame (sample_band Byte.x01) Stream 0) (Some 0)]);
   TaskRuns 1 (Polled true [Ticked {[sample_band Byte.x01]} ∅]); BandAccepts (sample_band Byte.x01) 4].
Definition sample_after : list main_event :=
  [TaskRuns 1 (Polled true [Ticked {[sample_band Byte.x01; sample_band Byte.x02]} ∅]); TaskRuns 0 (Polled true [SockError])].

Lemma hub_stops_witness :
  let running := mn_running (main_run sample_before (main_start sample_tasks)) in
  let m := main_run (sample_before ++ Signalled SIGTERM :: sample_after) (main_start sample_tasks) in
  elements (rn_writers running) = [0] ∧ elements (rn_accepts running) = [sample_band Byte.x01]
  ∧ main_returned m = true ∧ rn_writers (mn_running m) = ∅ ∧ elements (rn_sessions (mn_running m)) = [4].
Proof.
  pose proof (hub_stops sample_tasks sample_before sample_after SIGTERM ltac:(by repeat constructor)) as HT.
  destruct HT as (HR & HW & _).
  - intros [|[|i]] Hi; [eexists _, _; right; left|eexists _, _; left|cbn in Hi; lia].
  - cbv zeta. split_and!; [by vm_compute|by vm_compute|exact HR|exact HW|by vm_compute].
Defined.
