(* ===== verification/Tls.v ===== *)
(** The hub's TLS identity ([rust/telesthitium/src/tls.rs], and [tls_identity] of
    [rust/telesthitium/src/config.rs]): a self-signed certificate of bounded validity,
    or an operator's PEM files. Certificates and keys are made by the [rcgen]
    crate, a parameter. *)

From S2P Require Import Prelude Text Crypto Psk Config.

Definition MAX_SELF_SIGNED_DAYS : Z := 14.

Record HubCert := mkHubCert { cert_der : bytes; cert_pem : bytes; key_der : bytes; key_pem : bytes; cert_sha256 : bytes }.

(** Two hexadecimal digits per byte, with colons between. *)
Fixpoint colon_hex (l : bytes) : bytes :=
  match l with
  | [] => []
  | [b] => to_hex [b]
  | b :: rest => to_hex [b] ++ [Byte.x3a] ++ colon_hex rest
  end.

Definition sha256_hex (c : HubCert) : bytes := colon_hex (cert_sha256 c).

Inductive TlsError := ValidityTooLong (n : Z) | ValidityNonPositive (n : Z) | RcgenError | Parse (what : string) | ReadError.

(** ** [rcgen] *)

Inductive SanType := IpAddress (a : IpAddr) | DnsName (name : bytes).

(** Times are in seconds. *)
Record CertificateParams := mkParams { subject_alt_names : list SanType; not_before : Z; not_after : Z; common_name : bytes }.

(** A key pair is its DER and PEM; a certificate likewise. *)
Class Rcgen := {
  generate_for : bytes → option (bytes * bytes);
  ia5_try_from : bytes → bool;
  sign_params : CertificateParams → bytes * bytes → option (bytes * bytes);
}.

(** * Self-signed *)

Section Tls.
Context {crates : Crates} {rcgen : Rcgen}.

Fixpoint san_types (sans : list bytes) : option (list SanType) :=
  match sans with
  | [] => Some []
  | s :: rest =>
      t ← match parse_ip_addr s with Some a => Some (IpAddress a) | None => if ia5_try_from s then Some (DnsName s) else None end;
      ts ← san_types rest; Some (t :: ts)
  end.

(** What the certificate is made of, at the time given. *)
Definition self_signed_params (sans : list SanType) (valid_days now : Z) : CertificateParams :=
  let nb := (now - 3600)%Z in mkParams sans nb (nb + valid_days * 86400 - 60)%Z (str_bytes "telesthete-hub").

(** [self_signed], with the key generator's randomness. *)
Definition self_signed (sans : list bytes) (valid_days now : Z) (random : bytes) : result HubCert TlsError :=
  if (valid_days <=? 0)%Z then Err (ValidityNonPositive valid_days) else
  if (MAX_SELF_SIGNED_DAYS <? valid_days)%Z then Err (ValidityTooLong valid_days) else
  match generate_for random with
  | None => Err RcgenError
  | Some key =>
      match san_types sans with
      | None => Err RcgenError
      | Some ts =>
          match sign_params (self_signed_params ts valid_days now) key with
          | None => Err RcgenError
          | Some (der, pem) => Ok (mkHubCert der pem key.1 key.2 (sha256 der))
          end
      end
  end.

(** * PEM *)

(** [base64_decode]'s digits. *)
Definition b64_val (b : byte) : option Z :=
  let c := b2z b in
  if (65 <=? c)%Z && (c <=? 90)%Z then Some (c - 65)%Z
  else if (97 <=? c)%Z && (c <=? 122)%Z then Some (c - 97 + 26)%Z
  else if (48 <=? c)%Z && (c <=? 57)%Z then Some (c - 48 + 52)%Z
  else if (c =? 43)%Z then Some 62%Z
  else if (c =? 47)%Z then Some 63%Z
  else None.

Fixpoint base64_loop (acc bits : Z) (s : bytes) : option bytes :=
  match s with
  | [] => Some []
  | c :: rest =>
      v ← b64_val c;
      let acc := Z.lor (wrap 32 (Z.shiftl acc 6)) v in
      let bits := (bits + 6)%Z in
      if (8 <=? bits)%Z then
        let bits := (bits - 8)%Z in
        out ← base64_loop acc bits rest;
        Some (z2b (Z.shiftr acc bits) :: out)
      else base64_loop acc bits rest
  end.

Fixpoint strip_front (c : byte) (s : bytes) : bytes :=
  match s with b :: rest => if decide (b = c) then strip_front c rest else s | [] => [] end.

Definition trim_end_matches (c : byte) (s : bytes) : bytes := reverse (strip_front c (reverse s)).

Definition base64_decode (s : bytes) : option bytes := base64_loop 0 0 (trim_end_matches Byte.x3d s).

Definition begin_marker (label : bytes) : bytes := str_bytes "-----BEGIN " ++ label ++ str_bytes "-----".
Definition end_marker (label : bytes) : bytes := str_bytes "-----END " ++ label ++ str_bytes "-----".

Definition pem_to_der (pem label : bytes) : option bytes :=
  at_begin ← find (begin_marker label) pem;
  let start := at_begin + length (begin_marker label) in
  at_end ← find (end_marker label) (drop start pem);
  base64_decode (without_ws (take at_end (drop start pem))).

Definition from_pem (cert_pem key_pem : bytes) : result HubCert TlsError :=
  match pem_to_der cert_pem (str_bytes "CERTIFICATE") with
  | None => Err (Parse "no CERTIFICATE block")
  | Some der =>
      let key := match pem_to_der key_pem (str_bytes "PRIVATE KEY") with
                 | Some k => Some k
                 | None => match pem_to_der key_pem (str_bytes "EC PRIVATE KEY") with
                           | Some k => Some k
                           | None => pem_to_der key_pem (str_bytes "RSA PRIVATE KEY")
                           end
                 end in
      match key with
      | None => Err (Parse "no PRIVATE KEY block")
      | Some k => Ok (mkHubCert der cert_pem k key_pem (sha256 der))
      end
  end.

(** [Config::tls_identity]. *)
Definition tls_identity (read_to_string : bytes → option bytes) (now : Z) (random : bytes) (c : Config) : result HubCert TlsError :=
  match tls_cert_path c, tls_key_path c with
  | Some cp, Some kp =>
      match read_to_string cp with
      | None => Err ReadError
      | Some cert => match read_to_string kp with None => Err ReadError | Some key => from_pem cert key end
      end
  | _, _ => self_signed (tls_sans c) MAX_SELF_SIGNED_DAYS now random
  end.
End Tls.

(** ** Base64 *)

Lemma b64_val_rev c : b64_val c = if (rev c =? 255)%Z then None else Some (rev c).
Proof. by destruct c. Qed.

Lemma base64_loop_rev s : ∀ acc bits,
  forallb (λ c, negb (skipped c)) s = true → base64_loop acc bits s = result_ok (b64_loop acc bits s).
Proof.
  induction s as [|c s IH]; intros acc bits Hs; [done|]. cbn [forallb] in Hs. apply andb_true_iff in Hs as [Hc Hs]. apply negb_true_iff in Hc.
  cbn [base64_loop b64_loop]. rewrite Hc, b64_val_rev. destruct (rev c =? 255)%Z; [done|]. cbn [mbind option_bind]. cbv zeta.
  destruct (8 <=? bits + 6)%Z; [|by apply IH]. rewrite IH by done. by destruct (b64_loop _ _ s).
Qed.

Lemma b64_loop_padding s n : ∀ acc bits, b64_loop acc bits (s ++ replicate n Byte.x3d) = b64_loop acc bits s.
Proof.
  induction s as [|c s IH]; intros acc bits; cbn [app b64_loop].
  - induction n as [|n IHn]; [done|]. cbn [replicate b64_loop]. exact IHn.
  - destruct (skipped c); [by apply IH|]. cbv zeta. destruct (rev c =? 255)%Z; [done|]. rewrite !IH. done.
Qed.

Lemma strip_front_replicate c n s : head s ≠ Some c → strip_front c (replicate n c ++ s) = s.
Proof.
  intros H. induction n as [|n IH]; cbn [replicate app strip_front].
  - destruct s as [|b s]; [done|]. cbn [strip_front]. rewrite decide_False; [done|]. intros ->. by apply H.
  - by rewrite decide_True.
Qed.

Lemma trim_end_replicate c n s : c ∉ s → trim_end_matches c (s ++ replicate n c) = s.
Proof.
  intros Hc. unfold trim_end_matches. rewrite reverse_app. replace (reverse (replicate n c)) with (replicate n c).
  - rewrite strip_front_replicate; [apply reverse_involutive|]. intros H. apply Hc. apply elem_of_reverse. destruct (reverse s); [done|]. cbn in H. set_solver.
  - symmetry. clear. induction n as [|n IH]; [done|]. cbn [replicate]. rewrite reverse_cons, IH. by rewrite <- replicate_cons_app.
Qed.

Lemma digit64_unskipped v : (0 <= v < 64)%Z → skipped (digit64 v) = false.
Proof. intros H. by apply digit64_ok. Qed.

(** Unpadded digits and the padding of an encoding. *)
Lemma b64_encode_split l : ∃ body n, b64_encode l = body ++ replicate n Byte.x3d ∧ forallb (λ c, negb (skipped c)) body = true.
Proof.
  induction l as [|a|a b|a b c l (body & n & IH & Hb)] using b64_encode_ind; cbn [b64_encode].
  - by exists [], 0.
  - exists [digit64 (b2z a / 4); digit64 (b2z a mod 4 * 16)], 2. split; [done|]. cbn [forallb].
    rewrite !digit64_unskipped by sextets. done.
  - exists [digit64 (b2z a / 4); digit64 (b2z a mod 4 * 16 + b2z b / 16); digit64 (b2z b mod 16 * 4)], 1. split; [done|]. cbn [forallb].
    rewrite !digit64_unskipped by sextets. done.
  - eexists (_ :: _ :: _ :: _ :: body), n. rewrite IH. split; [done|]. cbn [forallb].
    rewrite !digit64_unskipped by sextets. by rewrite Hb.
Qed.

Lemma not_skipped_elem body c : forallb (λ c, negb (skipped c)) body = true → skipped c = true → c ∉ body.
Proof. intros Hb Hc Hin. rewrite forallb_forall in Hb. apply list_elem_of_In in Hin. specialize (Hb c Hin). by rewrite Hc in Hb. Qed.

Lemma base64_decode_agrees body n :
  forallb (λ c, negb (skipped c)) body = true →
  base64_decode (body ++ replicate n Byte.x3d) = result_ok (b64_decode (body ++ replicate n Byte.x3d)).
Proof.
  intros Hb. unfold base64_decode, b64_decode. rewrite trim_end_replicate by (by eapply not_skipped_elem). by rewrite b64_loop_padding, base64_loop_rev.
Qed.

Lemma base64_decode_encode l : base64_decode (b64_encode l) = Some l.
Proof.
  destruct (b64_encode_split l) as (body & n & E & Hb). pose proof (base64_decode_agrees body n Hb) as H. rewrite <- E in H. rewrite H.
  unfold b64_decode. by rewrite b64_loop_encode.
Qed.

(** ** PEM text *)

(** An encoding in lines of 64 digits between its markers. *)
Definition pem_lines (der : bytes) : bytes := concat ((λ l, l ++ [Byte.x0a]) <$> chunks 64 (b64_encode der)).

Definition pem_text (label der : bytes) : bytes :=
  begin_marker label ++ [Byte.x0a] ++ pem_lines der ++ end_marker label ++ [Byte.x0a].

Lemma without_ws_ascii s : Forall (λ b, b2z b < 128)%Z s → without_ws s = filter (λ b, ws1 b = false) s.
Proof.
  induction s as [|a s IH]; intros Hs; [done|]. apply Forall_cons in Hs as [Ha Hs]. specialize (IH Hs). cbn [without_ws]. rewrite filter_cons.
  destruct (ws1 a) eqn:Ew; [by rewrite decide_False by done|]. rewrite decide_True by done.
  destruct s as [|b s]; [done|]. destruct (ascii_not_wide a b b Ha) as (-> & _). destruct s as [|c s]; [by rewrite IH|].
  destruct (ascii_not_wide a b c Ha) as (_ & -> & _). by rewrite IH.
Qed.

Lemma plain_ascii b : plain b = true → ws1 b = false ∧ (b2z b < 128)%Z.
Proof. unfold plain. rewrite andb_true_iff, negb_true_iff, Z.ltb_lt. done. Qed.

Lemma without_ws_lines ls :
  Forall (Forall (λ b, plain b = true)) ls → without_ws (Byte.x0a :: concat ((λ l, l ++ [Byte.x0a]) <$> ls)) = concat ls.
Proof.
  intros Hl. rewrite without_ws_ascii.
  - rewrite filter_cons, decide_False by done. induction Hl as [|l ls Hl _ IH]; [done|]. rewrite fmap_cons. cbn [concat].
    rewrite !filter_app, IH. change (filter (λ b, ws1 b = false) [Byte.x0a]) with (@nil byte). rewrite app_nil_r. f_equal.
    clear IH. induction Hl as [|b l Hb _ IH]; [done|]. rewrite filter_cons, decide_True by (by apply plain_ascii). by rewrite IH.
  - constructor; [by vm_compute|]. induction Hl as [|l ls Hl _ IH]; [done|]. rewrite fmap_cons. cbn [concat]. rewrite !Forall_app.
    split_and!; [|by repeat constructor|exact IH]. eapply Forall_impl; [exact Hl|]. intros b Hb. by apply plain_ascii.
Qed.

Lemma chunks_forall {A} (P : A → Prop) n (l : list A) : n ≠ 0 → Forall P l → Forall (Forall P) (chunks n l).
Proof. intros Hn Hl. rewrite <- (concat_chunks n l Hn) in Hl. by apply Forall_concat in Hl. Qed.

(** Searching passes over text without the pattern's first character. *)
Lemma find_skip c p s t : c ∉ s → find (c :: p) (s ++ t) = (λ i, length s + i) <$> find (c :: p) t.
Proof.
  intros Hc. induction s as [|b s IH]; [cbn [app length]; by destruct (find _ t)|]. apply not_elem_of_cons in Hc as [Hb Hc]. cbn [app find starts_with length].
  rewrite bool_decide_eq_false_2 by done. cbn [andb]. rewrite IH by done. by destruct (find _ t).
Qed.

Lemma starts_with_app p s : starts_with p (p ++ s) = true.
Proof. induction p as [|a p IH]; [done|]. cbn [app starts_with]. by rewrite bool_decide_eq_true_2. Qed.

Lemma find_here p s : find p (p ++ s) = Some 0.
Proof. pose proof (starts_with_app p s) as H. destruct (p ++ s); cbn [find]; by rewrite H. Qed.

Lemma pem_lines_no_dash der : Byte.x2d ∉ pem_lines der.
Proof.
  assert (Hd : Byte.x2d ∉ b64_encode der).
  { intros Hin. pose proof (b64_loop_encode der 0) as Hl.
    assert (Hbad : ∀ s acc bits, Byte.x2d ∈ s → result_ok (b64_loop acc bits s) = None).
    { clear. induction s as [|c s IH]; intros acc bits H; [by apply not_elem_of_nil in H|]. apply elem_of_cons in H as [<-|H]; cbn [b64_loop].
      - done.
      - destruct (skipped c); [by apply IH|]. cbv zeta. destruct (rev c =? 255)%Z; [done|].
        destruct (8 <=? bits + 6)%Z; [|by apply IH]. specialize (IH (Z.lor (wrap 32 (Z.shiftl acc 6)) (rev c)) (bits + 6 - 8)%Z H).
        by destruct (b64_loop _ _ s). }
    specialize (Hbad (b64_encode der) 0%Z 0%Z Hin). by rewrite Hl in Hbad. }
  unfold pem_lines. intros Hin. apply Hd. rewrite <- (concat_chunks 64 (b64_encode der)) by done.
  induction (chunks 64 (b64_encode der)) as [|l ls IH]; [by apply not_elem_of_nil in Hin|]. rewrite fmap_cons in Hin. cbn [concat] in *. set_solver.
Qed.

Lemma pem_lines_decode der : base64_decode (without_ws (Byte.x0a :: pem_lines der)) = Some der.
Proof.
  unfold pem_lines. rewrite without_ws_lines by (apply chunks_forall; [done|apply b64_encode_plain]).
  rewrite concat_chunks by done. apply base64_decode_encode.
Qed.

Lemma find_marker m s t : head m = Some Byte.x2d → Byte.x2d ∉ s → find m (s ++ m ++ t) = Some (length s).
Proof.
  intros Hm Hs. destruct m as [|c m]; [done|]. cbn in Hm. injection Hm as ->. rewrite find_skip, find_here by done.
  cbn [fmap option_fmap option_map]. f_equal. lia.
Qed.

(** A block is found after text without dashes, and its bytes come back. *)
Lemma pem_to_der_text pre label der rest :
  Byte.x2d ∉ pre → pem_to_der (pre ++ pem_text label der ++ rest) label = Some der.
Proof.
  intros Hp. unfold pem_to_der. set (body := Byte.x0a :: pem_lines der).
  assert (E : pem_text label der ++ rest = begin_marker label ++ body ++ end_marker label ++ [Byte.x0a] ++ rest).
  { unfold pem_text, body. rewrite <- !app_assoc. done. }
  rewrite E. rewrite find_marker by done. cbn [mbind option_bind]. cbv zeta.
  rewrite drop_app_ge by lia. replace (length pre + length (begin_marker label) - length pre) with (length (begin_marker label)) by lia.
  rewrite drop_app_length. rewrite find_marker; [|done|unfold body; pose proof (pem_lines_no_dash der); set_solver].
  cbn [mbind option_bind]. rewrite take_app_length. apply pem_lines_decode.
Qed.

(** A block with another label is not taken for the one looked for. *)
Lemma pem_other_label label label' der :
  (label = str_bytes "PRIVATE KEY" ∧ label' ∈ [str_bytes "EC PRIVATE KEY"; str_bytes "RSA PRIVATE KEY"])
  ∨ (label = str_bytes "EC PRIVATE KEY" ∧ label' = str_bytes "RSA PRIVATE KEY") →
  pem_to_der (pem_text label' der) label = None.
Proof.
  intros H. unfold pem_to_der. assert (E : find (begin_marker label) (pem_text label' der) = None); [|by rewrite E].
  pose proof (pem_lines_no_dash der) as Hd. unfold pem_text. generalize dependent (pem_lines der). intros body Hd.
  assert (Hskip : ∀ p t, find (Byte.x2d :: p) (body ++ t) = (λ i, length body + i) <$> find (Byte.x2d :: p) t) by (intros; by apply find_skip).
  destruct H as [[-> Hl]|[-> ->]]; [apply elem_of_cons in Hl as [->|Hl]; [|apply list_elem_of_singleton in Hl as ->]|];
    unfold begin_marker, end_marker; cbn; by rewrite Hskip.
Qed.

(** * Claims *)

Definition key_labels : list bytes := str_bytes <$> ["PRIVATE KEY"; "EC PRIVATE KEY"; "RSA PRIVATE KEY"].

(** An operator's PEM files are read as what they encode: a certificate, after
    any text without dashes and before anything, and a key under any of
    the three labels, give back their DER, and the published hash is that of
    the certificate's DER. *)
Theorem tls_pem_roundtrip {crates : Crates} (pre der rest label key : bytes) :
  Byte.x2d ∉ pre → label ∈ key_labels →
  from_pem (pre ++ pem_text (str_bytes "CERTIFICATE") der ++ rest) (pem_text label key)
  = Ok (mkHubCert der (pre ++ pem_text (str_bytes "CERTIFICATE") der ++ rest) key (pem_text label key) (sha256 der)).
Proof.
  intros Hp Hl. unfold from_pem. rewrite pem_to_der_text by done.
  assert (Hk : pem_to_der (pem_text label key) label = Some key).
  { pose proof (pem_to_der_text [] label key []) as H. rewrite app_nil_r in H. apply H. set_solver. }
  unfold key_labels in Hl. cbn [fmap list_fmap] in Hl. apply elem_of_cons in Hl as [->|Hl]; [by rewrite Hk|].
  rewrite (pem_other_label (str_bytes "PRIVATE KEY") label) by (left; split; [done|exact Hl]).
  apply elem_of_cons in Hl as [->|Hl]; [by rewrite Hk|]. apply list_elem_of_singleton in Hl as ->.
  by rewrite pem_other_label, Hk by (by right).
Qed.

(** A self-signed identity can be pinned by a browser: it is made only for
    one to fourteen days, is valid now, spans less than fourteen days, names every
    host asked for, and is published with the hash of its DER; the hub always asks
    for the longest such validity. *)
Theorem tls_self_signed_pinnable {crates : Crates} {rcgen : Rcgen} (sans : list bytes) (days now : Z) (random : bytes) (c : HubCert) :
  self_signed sans days now random = Ok c →
  (1 <= days <= MAX_SELF_SIGNED_DAYS)%Z ∧ cert_sha256 c = sha256 (cert_der c)
  ∧ ∃ ts params key, san_types sans = Some ts ∧ length ts = length sans ∧ generate_for random = Some key
    ∧ sign_params params key = Some (cert_der c, cert_pem c) ∧ subject_alt_names params = ts
    ∧ (not_before params <= now < not_after params)%Z ∧ (not_after params - not_before params < MAX_SELF_SIGNED_DAYS * 86400)%Z.
Proof.
  unfold self_signed. destruct (Z.leb_spec days 0) as [|H1]; [done|]. destruct (Z.ltb_spec MAX_SELF_SIGNED_DAYS days) as [|H2]; [done|].
  destruct (generate_for random) as [key|] eqn:Eg; [|done]. destruct (san_types sans) as [ts|] eqn:Es; [|done].
  destruct (sign_params _ key) as [[der pem]|] eqn:Ep; [|done]. intros [= <-]. cbn [cert_der cert_pem cert_sha256]. split; [lia|]. split; [done|].
  exists ts, (self_signed_params ts days now), key. unfold MAX_SELF_SIGNED_DAYS in *. cbn [subject_alt_names not_before not_after self_signed_params].
  split_and!; try done; try lia. clear Ep. revert ts Es. induction sans as [|s sans IH]; intros ts; cbn [san_types]; [by intros [= <-]|].
  destruct (match parse_ip_addr s with Some _ => _ | None => _ end) as [t|]; [|done]. cbn [mbind option_bind].
  destruct (san_types sans) as [ts'|]; [|done]. cbn [mbind option_bind]. intros [= <-]. cbn [length]. f_equal. by apply IH.
Qed.

(** The two base64 decoders of the repository, the hub's for PEM and the
    session crate's for keys, agree on text whose padding is at the end and that
    holds no line breaks, and both invert the standard encoding. *)
Theorem base64_decoders_agree (body l : bytes) (n : nat) :
  Forall (λ c, c ≠ Byte.x3d ∧ c ≠ Byte.x0a ∧ c ≠ Byte.x0d) body →
  base64_decode (body ++ replicate n Byte.x3d) = result_ok (b64_decode (body ++ replicate n Byte.x3d))
  ∧ base64_decode (b64_encode l) = Some l ∧ b64_decode (b64_encode l) = Ok l.
Proof.
  intros Hb. split_and!; [|apply base64_decode_encode|apply b64_loop_encode]. apply base64_decode_agrees, forallb_forall.
  intros c Hc. apply list_elem_of_In in Hc. rewrite Forall_forall in Hb. destruct (Hb c Hc) as (H1 & H2 & H3). unfold skipped.
  by rewrite !bool_decide_eq_false_2.
Qed.

(** ** Witnesses *)

Definition sample_rcgen : Rcgen := {|
  generate_for r := Some (r, str_bytes "key");
  ia5_try_from s := forallb (λ b, b2z b <? 128)%Z s;
  sign_params p k := Some (k.1 ++ to_be_bytes 8 (not_after p), str_bytes "cert");
|}.

Lemma tls_pem_roundtrip_witness :
  str_bytes "EC PRIVATE KEY" ∈ key_labels ∧
  @from_pem sample_crates (str_bytes "notes" ++ pem_text (str_bytes "CERTIFICATE") [Byte.x30; Byte.x82] ++ []) (pem_text (str_bytes "EC PRIVATE KEY") [Byte.x01])
  = Ok (mkHubCert [Byte.x30; Byte.x82] (str_bytes "notes" ++ pem_text (str_bytes "CERTIFICATE") [Byte.x30; Byte.x82] ++ []) [Byte.x01]
      (pem_text (str_bytes "EC PRIVATE KEY") [Byte.x01]) (@sha256 sample_crates [Byte.x30; Byte.x82])).
Proof.
  assert (H : str_bytes "EC PRIVATE KEY" ∈ key_labels) by (apply (bool_decide_unpack _); vm_compute; exact I).
  split; [exact H|]. apply (@tls_pem_roundtrip sample_crates (str_bytes "notes")); [|exact H]. apply (bool_decide_unpack _). vm_compute. exact I.
Defined.

Lemma tls_self_signed_pinnable_witness :
  ∃ c, @self_signed sample_crates sample_rcgen [str_bytes "localhost"; str_bytes "127.0.0.1"] 14 1700000000 [Byte.x07] = Ok c
    ∧ cert_sha256 c = @sha256 sample_crates (cert_der c).
Proof.
  eexists. split; [reflexivity|].
  apply (@tls_self_signed_pinnable sample_crates sample_rcgen [str_bytes "localhost"; str_bytes "127.0.0.1"] 14 1700000000 [Byte.x07] _ eq_refl).
Defined.

Lemma base64_decoders_agree_witness :
  base64_decode (str_bytes "TWE" ++ replicate 1 Byte.x3d) = result_ok (b64_decode (str_bytes "TWE" ++ replicate 1 Byte.x3d))
  ∧ base64_decode (b64_encode [Byte.x4d]) = Some [Byte.x4d] ∧ b64_decode (b64_encode [Byte.x4d]) = Ok [Byte.x4d].
Proof. apply (base64_decoders_agree (str_bytes "TWE") [Byte.x4d] 1). repeat constructor; discriminate. Defined.
