(* ===== verification/HubTests.v ===== *)
(** The tests of [frame.rs], [config.rs], [wt.rs], [udp.rs] and [tls.rs] of
    [rust/telesthitium/src], replayed against the model. Of the certificates the stand-in
    for [rcgen] writes no real DER, so the test that looks for the curve in it is left
    out. *)

From S2P Require Import Prelude Text Crypto Framing HubFrame Registry Sessions Config Tls WireTests PacketTests.

#[local] Instance IpAddr_eq_dec : EqDecision IpAddr.
Proof. solve_decision. Defined.
#[local] Instance TextAddr_eq_dec : EqDecision Text.SocketAddr.
Proof. solve_decision. Defined.
#[local] Instance RouteInfo_eq_dec : EqDecision RouteInfo.
Proof. solve_decision. Defined.

(** * Frames *)

Definition make_frame (band : bytes) (ct : byte) (cid : Z) : bytes :=
  band ++ [ct] ++ to_be_bytes 2 cid ++ replicate (MIN_PACKET_LEN - 19) Byte.x00.

Definition info_of (f : bytes) : outcome RouteInfo := unwrap (route_info f).

Definition band_id_is_first_16 : bool := passes (
  let band := replicate BAND_ID_LEN Byte.xab in
  info ← info_of (make_frame band Byte.x01 0); assert_eq (ri_band_id info) band).

Definition reads_channel_type_and_id_be : bool := passes (
  info ← info_of (make_frame (replicate BAND_ID_LEN Byte.x00) Byte.x02 0xBEEF);
  assert_eq (ri_channel_type info) (Some Channel);; assert_eq (ri_channel_id info) 0xBEEF%Z).

Definition rejects_below_min_packet : bool := passes (
  assert (bool_decide (route_info (replicate (MIN_PACKET_LEN - 1) Byte.x00) = None));;
  assert (bool_decide (route_info [] = None))).

Definition accepts_exactly_min : bool := passes (_ ← info_of (replicate MIN_PACKET_LEN Byte.x00); Ret ()).

Definition unknown_channel_type_still_routable : bool := passes (
  let band := replicate BAND_ID_LEN Byte.x09 in
  info ← info_of (make_frame band Byte.x07 7);
  assert_eq (ri_channel_type info) None;; assert_eq (ri_band_id info) band;; assert_eq (ri_channel_id info) 7%Z).

Definition route_type_is_parsed : bool := passes (
  let band := replicate BAND_ID_LEN Byte.x01 in
  info ← info_of (make_frame band Byte.x05 0x1234);
  assert_eq (ri_channel_type info) (Some Route);; assert_eq (ri_channel_id info) 0x1234%Z;;
  info ← info_of (make_frame band Byte.x06 0x4321);
  assert_eq (ri_channel_type info) (Some Addressed);; assert_eq (ri_channel_id info) 0x4321%Z).

Definition matches_library_header : bool := passes (
  let f := make_frame (replicate BAND_ID_LEN Byte.x03) Byte.x00 0x1234 in
  hdr ← ok (Header_parse f); info ← info_of f;
  assert_eq (ri_band_id info) (band_id hdr);; assert_eq (ri_channel_id info) (channel_id hdr);;
  assert_eq (ri_channel_type info) (Some (channel_type hdr));; assert_eq HEADER_LEN 27).

Definition band_hex_round_trips : bool := passes (
  let band := z2b <$> [0x0f; 0xa0; 0x00; 0xff; 1; 2; 3; 4; 5; 6; 7; 8; 9; 10; 11; 12]%Z in
  let hex := band_hex band in
  assert_eq (length hex) 32;;
  x ← band_from_hex hex; assert_eq x (Some band);;
  x ← band_from_hex (str_bytes "nothex"); assert_eq x None;;
  x ← band_from_hex (take 30 hex); assert_eq x None).

(** * Configuration *)

Definition env_parsing_is_lenient : bool := passes (
  let parse := parse_or u64_max in
  assert_eq (parse (Some (str_bytes "banana")) 15%Z) 15%Z;; assert_eq (parse (Some (str_bytes "42")) 15%Z) 42%Z;;
  assert_eq (parse (Some (str_bytes "  7 ")) 15%Z) 7%Z;; assert_eq (parse None 15%Z) 15%Z).

Definition hub_bind_off_is_honored_despite_whitespace : bool := passes (
  let dflt := parse_socket_addr DEFAULT_UDP_BIND in
  let resolved s := resolve_udp_bind (Some (str_bytes s)) in
  assert_eq (resolved " off") None;;
  assert_eq (resolve_udp_bind (Some (str_bytes "OFF" ++ [Byte.x0a]))) None;;
  assert_eq (resolve_udp_bind (Some (Byte.x09 :: str_bytes "off "))) None;;
  assert_eq (resolved "127.0.0.1:9") (parse_socket_addr (str_bytes "127.0.0.1:9"));;
  assert_eq (resolved "  ") dflt;; assert_eq (resolved "garbage") dflt;; assert_eq (resolve_udp_bind None) dflt).

Definition default_ttl_is_peer_timeout : bool := passes (assert_eq DEFAULT_PEER_TTL_SECS 15%Z).

Definition defaults_are_sane : bool := passes (
  let c := Config_default in
  a ← unwrap (parse_socket_addr (str_bytes "0.0.0.0:7474"));
  assert_eq (udp_bind c) (Some a);;
  assert (bool_decide (ws_bind c = None ∧ wt_bind c = None ∧ unix_dir c = None));;
  assert (negb (needs_tls c));;
  assert ((0 <? max_bands (cfg_limits c)) && (0 <? max_peers_per_band (cfg_limits c)));;
  assert_eq (udp_peer_queue c) 256%Z;; assert (udp_peer_queue c <? conn_queue c)%Z;;
  assert_eq (udp_queue_bytes c) (32 * 1024 * 1024)%Z).

(** * The band of a WebTransport session *)

Definition parses (path : bytes) (want : option bytes) : outcome () := x ← parse_band path; assert_eq x want.
Definition hex_0a : bytes := concat (replicate 16 (str_bytes "0a")).

Definition parse_band_from_query : bool := passes (
  parses (str_bytes "/telesthete?band=" ++ hex_0a) (Some (replicate 16 Byte.x0a))).

Definition parse_band_rejects_wrong_route_or_missing : bool := passes (
  parses (str_bytes "/nope?band=" ++ hex_0a) None;;
  parses (str_bytes "/telesthete") None;; parses (str_bytes "/telesthete?nope=1") None;;
  parses (str_bytes "/telesthete?band=xyz") None).

(** * UDP sinks and their writers *)

Definition udp_of (sink : Sink) : outcome nat := match sink with SinkUdp tx _ => Ret tx | SinkConn _ => Panic end.

(** Up to the end of a writer whose sender is dropped: a queue is a queue and its writer
    here. *)
Definition each_udp_peer_gets_its_own_queue : bool := passes (
  let '(s, a) := peer_sink (mkAddr "127.0.0.1" 9) 4 (mkStore ∅ 0 ByteBudget_unlimited) in
  let '(s, b) := peer_sink (mkAddr "127.0.0.1" 10) 4 s in
  ta ← udp_of a; tb ← udp_of b;
  differ ta tb;;
  assert_eq (q_cap <$> queues s !! ta, q_cap <$> queues s !! tb) (Some 4, Some 4);;
  assert_eq (size (queues s)) 2).

Definition writer_refunds_budget_as_frames_leave : bool := passes (
  let '(s, sink) := peer_sink (mkAddr "127.0.0.1" 9) 8 (mkStore ∅ 0 (ByteBudget_new 1000)) in
  tx ← udp_of sink;
  b ← unwrap (try_reserve 100 (budget s));
  s ← ok (queue_try_send tx (replicate 100 Byte.x00) (mkStore (queues s) (next_queue s) b));
  let '(s, got) := peer_writer tx s in
  assert_eq (length <$> got) (Some 100);;
  assert_eq (used (budget s)) 0%Z).

(** * Certificates *)

#[local] Existing Instance loop_crates.

(** A generator that writes its randomness as the key and signs by appending to it. *)
Definition test_rcgen : Rcgen := {|
  generate_for r := Some (r, pem_text (str_bytes "PRIVATE KEY") r);
  ia5_try_from s := forallb (λ b, b2z b <? 128)%Z s;
  sign_params p k := let der := k.1 ++ to_be_bytes 8 (not_after p) in Some (der, pem_text (str_bytes "CERTIFICATE") der);
|}.
#[local] Existing Instance test_rcgen.

Definition signed (sans : list string) (days : Z) (rnd : bytes) : result HubCert TlsError := self_signed (str_bytes <$> sans) days 1700000000 rnd.

Definition self_signed_rejects_long_validity : bool := passes (
  assert (match signed ["localhost"] 15 [Byte.x07] with Err (ValidityTooLong n) => (n =? 15)%Z | _ => false end);;
  assert (match signed ["localhost"] 0 [Byte.x07] with Err (ValidityNonPositive n) => (n =? 0)%Z | _ => false end)).

Definition exposes_cert_hash : bool := passes (
  c ← ok (signed ["localhost"] 7 [Byte.x07]);
  assert_eq (length (cert_sha256 c)) 32;; assert_eq (cert_sha256 c) (sha256 (cert_der c));;
  assert_eq (length (Tls.sha256_hex c)) (32 * 3 - 1)).

Definition each_call_is_fresh : bool := passes (
  a ← ok (signed ["localhost"] 7 [Byte.x07]); b ← ok (signed ["localhost"] 7 [Byte.x08]);
  differ (cert_sha256 a) (cert_sha256 b)).

Definition pem_round_trips_to_der_for_hash : bool := passes (
  c ← ok (signed ["localhost"] 7 [Byte.x07]);
  loaded ← ok (from_pem (cert_pem c) (key_pem c));
  assert_eq (cert_der loaded) (cert_der c);; assert_eq (cert_sha256 loaded) (cert_sha256 c)).

(** * They pass *)

Definition hub_unit_tests : list bool :=
  [band_id_is_first_16; reads_channel_type_and_id_be; rejects_below_min_packet; accepts_exactly_min; unknown_channel_type_still_routable;
   route_type_is_parsed; matches_library_header; band_hex_round_trips; env_parsing_is_lenient; hub_bind_off_is_honored_despite_whitespace;
   default_ttl_is_peer_timeout; defaults_are_sane; parse_band_from_query; parse_band_rejects_wrong_route_or_missing;
   each_udp_peer_gets_its_own_queue; writer_refunds_budget_as_frames_leave; self_signed_rejects_long_validity; exposes_cert_hash;
   each_call_is_fresh; pem_round_trips_to_der_for_hash].

Lemma hub_unit_tests_pass : forallb id hub_unit_tests = true.
Proof. by vm_compute. Qed.
